(** * daily-arxiv-vla: the ledger codec, line-break recovery and Markdown renderer

    A shallow embedding of the text-processing core of the repository
    (scripts/build_site.py, scripts/arxiv_crawler.py,
    scripts/generate_summaries.py, scripts/clear_summaries.py) together with
    the part of Python's [str] and [re] libraries that this code calls.

    Python strings are sequences of Unicode code points; a character is
    modelled by its code point, a string by the list of its characters. *)

From Stdlib Require Import String Ascii.
From Stdlib Require Import List NArith Bool Arith Lia.
Import ListNotations.

(* ===================================================================== *)
(** ** Characters and strings *)

Definition char := N.
Definition str := list char.

Definition lit (s : string) : str :=
  map N_of_ascii (list_ascii_of_string s).

Local Open Scope N_scope.

Definition in_range (lo hi c : char) : bool := (lo <=? c) && (c <=? hi).

(** [str.isspace] on one character, which is also what [\s] matches in a
    [str] pattern and what [str.strip()] removes. *)
Definition is_space (c : char) : bool :=
  in_range 9 13 c || in_range 28 32 c || (c =? 133) || (c =? 160)
  || (c =? 5760) || in_range 8192 8202 c || (c =? 8232) || (c =? 8233)
  || (c =? 8239) || (c =? 8287) || (c =? 12288).

(** First code points of the ten-digit blocks of Unicode category Nd. *)
Definition decimal_blocks : list N :=
  [ 48; 1632; 1776; 1984; 2406; 2534; 2662; 2790; 2918; 3046; 3174; 3302;
    3430; 3558; 3664; 3792; 3872; 4160; 4240; 6112; 6160; 6470; 6608; 6784;
    6800; 6992; 7088; 7232; 7248; 42528; 43216; 43264; 43472; 43504; 43600;
    44016; 65296; 66720; 68912; 69734; 69872; 69942; 70096; 70384; 70736;
    70864; 71248; 71360; 71472; 71904; 72016; 72784; 73040; 73120; 92768;
    92864; 93008; 123200; 123632; 125264; 130032 ].

(** What [\d] matches in a [str] pattern: a decimal digit of any script
    (the mathematical digits U+1D7CE..U+1D7FF form one block of fifty). *)
Definition is_decimal (c : char) : bool :=
  existsb (fun b => in_range b (b + 9) c) decimal_blocks
  || in_range 120782 120831 c.

(** The line boundaries of [str.splitlines]. *)
Definition is_linebreak (c : char) : bool :=
  in_range 10 13 c || in_range 28 30 c || (c =? 133) || (c =? 8232)
  || (c =? 8233).

Definition NL : char := 10.
Definition CR : char := 13.
Definition SP : char := 32.
Definition HASH : char := 35.
Definition STAR : char := 42.
Definition DASH : char := 45.
Definition DOT : char := 46.
Definition PIPE : char := 124.
Definition BSLASH : char := 92.
Definition LT : char := 60.
Definition ENDASH : char := 8211.

Local Close Scope N_scope.

Fixpoint str_eqb (a b : str) : bool :=
  match a, b with
  | [], [] => true
  | x :: a', y :: b' => N.eqb x y && str_eqb a' b'
  | _, _ => false
  end.

(** [s.startswith(p)] *)
Fixpoint startswith (p s : str) : bool :=
  match p, s with
  | [], _ => true
  | x :: p', y :: s' => N.eqb x y && startswith p' s'
  | _ :: _, [] => false
  end.

(** [sub in s] *)
Fixpoint contains (sub s : str) : bool :=
  startswith sub s ||
  match s with
  | [] => false
  | _ :: s' => contains sub s'
  end.

Fixpoint drop_while (p : char -> bool) (s : str) : str :=
  match s with
  | [] => []
  | c :: s' => if p c then drop_while p s' else s
  end.

(** Removal of trailing characters of a class. *)
Fixpoint drop_while_end (p : char -> bool) (s : str) : str :=
  match s with
  | [] => []
  | c :: s' =>
      match drop_while_end p s' with
      | [] => if p c then [] else [c]
      | r => c :: r
      end
  end.

(** [s.strip()], [s.rstrip()] and [s.strip(chars)] for a one-character
    [chars]. *)
Definition lstrip (s : str) : str := drop_while is_space s.
Definition rstrip (s : str) : str := drop_while_end is_space s.
Definition strip (s : str) : str := rstrip (lstrip s).
Definition strip_char (c : char) (s : str) : str :=
  drop_while_end (N.eqb c) (drop_while (N.eqb c) s).

(** [s.split(sep)] for a one-character separator. *)
Fixpoint split (sep : char) (s : str) : list str :=
  match s with
  | [] => [[]]
  | c :: s' =>
      if N.eqb c sep then [] :: split sep s'
      else match split sep s' with
           | [] => [[c]]
           | w :: ws => (c :: w) :: ws
           end
  end.

(** [sep.join(parts)] *)
Fixpoint join (sep : str) (parts : list str) : str :=
  match parts with
  | [] => []
  | [w] => w
  | w :: ws => w ++ sep ++ join sep ws
  end.

(** [s.replace(old, new)] for a non-empty [old]: occurrences are replaced
    from left to right without overlap.  [skip] counts the characters of an
    occurrence that are still to be passed over. *)
Fixpoint replace_from (old new : str) (skip : nat) (s : str) : str :=
  match s with
  | [] => []
  | c :: s' =>
      match skip with
      | S k => replace_from old new k s'
      | O =>
          if startswith old s
          then new ++ replace_from old new (Nat.pred (length old)) s'
          else c :: replace_from old new 0 s'
      end
  end.

Definition replace (old new s : str) : str :=
  match old with
  | [] => s
  | _ => replace_from old new 0 s
  end.

(** [s.splitlines()]: [cur] is the current line (reversed), [cr] tells that
    the previous character was a carriage return, whose line feed belongs to
    the same boundary. *)
Fixpoint splitlines_from (cur : str) (cr : bool) (s : str) : list str :=
  match s with
  | [] => match cur with [] => [] | _ => [rev cur] end
  | c :: s' =>
      if cr && N.eqb c NL then splitlines_from cur false s'
      else if is_linebreak c then rev cur :: splitlines_from [] (N.eqb c CR) s'
      else splitlines_from (c :: cur) false s'
  end.

Definition splitlines (s : str) : list str := splitlines_from [] false s.

(** [str(n)] for a natural number: its decimal digits, the most
    significant first.  A number has fewer digits than its value plus one,
    which bounds the recursion. *)
Fixpoint str_of_nat_fuel (fuel n : nat) (acc : str) : str :=
  match fuel with
  | O => acc
  | S f =>
      let d := N.of_nat (n mod 10 + 48) in
      if n <? 10 then d :: acc else str_of_nat_fuel f (n / 10) (d :: acc)
  end.

Definition str_of_nat (n : nat) : str := str_of_nat_fuel (S n) n [].

(* ===================================================================== *)
(** ** Exceptions *)

Inductive exn := TypeError | IndexError | AttributeError.

(** The outcome of running a piece of Python code: a value, a raised
    exception, or a loop that was still running when the fuel ran out. *)
Inductive outcome (A : Type) :=
| Done (a : A)
| Raised (e : exn)
| Unfinished.

Arguments Done {A} a.
Arguments Raised {A} e.
Arguments Unfinished {A}.

Definition bind {A B} (x : outcome A) (f : A -> outcome B) : outcome B :=
  match x with
  | Done a => f a
  | Raised e => Raised e
  | Unfinished => Unfinished
  end.

Notation "x <- a ;; b" := (bind a (fun x => b))
  (at level 61, a at next level, right associativity).

(* ===================================================================== *)
(** ** The regular expressions of [re]

    The patterns of the program repeat single character classes only, so a
    repetition carries a class rather than a sub-pattern.  Matching is the
    backtracking search of [re]: alternatives are tried in priority order
    (a greedy repetition prefers to take one more character, a lazy one
    prefers to stop) and the first complete match wins. *)

Inductive re :=
| Eps
| Cls (p : char -> bool)                          (* one character *)
| Rep (greedy : bool) (lo : nat) (hi : option nat) (p : char -> bool)
| Seq (a b : re)
| Grp (i : nat) (a : re)                          (* ( ... ), numbered *)
| Ahead (a : re)                                  (* (?= ... ) *)
| NotBehind (w : str)                             (* (?<! literal ) *)
| Bos                                             (* ^ *)
| Eos.                                            (* $ *)

(** A matcher state: the text to the left of the cursor (nearest character
    first), the text to its right, and the groups captured so far. *)
Record mstate := MState {
  m_pre : str;
  m_rest : str;
  m_caps : list (nat * str)
}.

Fixpoint lookup (i : nat) (caps : list (nat * str)) : option str :=
  match caps with
  | [] => None
  | (j, v) :: caps' => if Nat.eqb i j then Some v else lookup i caps'
  end.

(** The last [n] characters read, in reading order. *)
Definition last_read (n : nat) (pre : str) : str := rev (firstn n pre).

Definition consumed (st st' : mstate) : str :=
  last_read (length (m_pre st') - length (m_pre st)) (m_pre st').

Definition room (hi : option nat) : bool :=
  match hi with
  | Some O => false
  | _ => true
  end.

Definition less (hi : option nat) : option nat :=
  match hi with
  | Some n => Some (Nat.pred n)
  | None => None
  end.

(** [p{lo,hi}] (greedy) and [p{lo,hi}?] (lazy) from the cursor, continuing
    with [k]. *)
Fixpoint rep (greedy : bool) (p : char -> bool) (lo : nat) (hi : option nat)
    (pre rest : str) (caps : list (nat * str))
    (k : mstate -> option mstate) : option mstate :=
  let stop :=
    match lo with
    | O => k (MState pre rest caps)
    | S _ => None
    end in
  match rest with
  | [] => stop
  | c :: rest' =>
      if p c && room hi then
        let more := rep greedy p (Nat.pred lo) (less hi) (c :: pre) rest' caps k in
        if greedy then
          match more with
          | Some r => Some r
          | None => stop
          end
        else
          match stop with
          | Some r => Some r
          | None => more
          end
      else stop
  end.

Fixpoint run (r : re) (st : mstate) (k : mstate -> option mstate)
    : option mstate :=
  match r with
  | Eps => k st
  | Cls p =>
      match m_rest st with
      | c :: rest' =>
          if p c then k (MState (c :: m_pre st) rest' (m_caps st)) else None
      | [] => None
      end
  | Rep g lo hi p => rep g p lo hi (m_pre st) (m_rest st) (m_caps st) k
  | Seq a b => run a st (fun st1 => run b st1 k)
  | Grp i a =>
      run a st (fun st1 =>
        k (MState (m_pre st1) (m_rest st1)
                  ((i, consumed st st1) :: m_caps st1)))
  | Ahead a =>
      match run a st Some with
      | Some _ => k st
      | None => None
      end
  | NotBehind w =>
      if startswith (rev w) (m_pre st) then None else k st
  | Bos =>
      match m_pre st with
      | [] => k st
      | _ => None
      end
  | Eos =>
      match m_rest st with
      | [] => k st
      | [c] => if N.eqb c NL then k st else None
      | _ => None
      end
  end.

(** A match object: [group(0)] and the numbered groups. *)
Record rmatch := RMatch {
  rm_text : str;
  rm_caps : list (nat * str)
}.

(** One matching attempt with the cursor between [pre] and [rest]. *)
Definition exec (r : re) (pre rest : str) : option rmatch :=
  match run r (MState pre rest []) Some with
  | Some st' =>
      Some (RMatch (last_read (length (m_pre st') - length pre) (m_pre st'))
                   (m_caps st'))
  | None => None
  end.

(** [re.match(r, s)] *)
Definition re_match (r : re) (s : str) : option rmatch := exec r [] s.

(** [re.search(r, s)]: the leftmost position where an attempt succeeds. *)
Fixpoint search_from (r : re) (pre rest : str) : option rmatch :=
  match exec r pre rest with
  | Some m => Some m
  | None =>
      match rest with
      | [] => None
      | c :: rest' => search_from r (c :: pre) rest'
      end
  end.

Definition re_search (r : re) (s : str) : option rmatch := search_from r [] s.

(** [m.group(i)]; [None] for a group that took no part in the match. *)
Definition group (m : rmatch) (i : nat) : option str :=
  match i with
  | O => Some (rm_text m)
  | _ => lookup i (rm_caps m)
  end.

(** The segmentation of a string that [re.sub] works on: characters that are
    kept and matches that are replaced.  [skip] counts the characters of the
    last match that the cursor still has to pass.  After an empty match the
    next character is kept; no pattern of the program matches the empty
    string. *)
Inductive piece :=
| Keep (c : char)
| Hit (m : rmatch).

Fixpoint scan (r : re) (skip : nat) (pre rest : str) : list piece :=
  match skip with
  | S k =>
      match rest with
      | [] => []
      | c :: rest' => scan r k (c :: pre) rest'
      end
  | O =>
      match exec r pre rest with
      | Some m =>
          Hit m ::
          match rest with
          | [] => []
          | c :: rest' =>
              match length (rm_text m) with
              | O => Keep c :: scan r 0 (c :: pre) rest'
              | S k => scan r k (c :: pre) rest'
              end
          end
      | None =>
          match rest with
          | [] => []
          | c :: rest' => Keep c :: scan r 0 (c :: pre) rest'
          end
      end
  end.

(** A replacement template: literal text and group references [\1], [\2];
    a group that took no part in the match expands to the empty string. *)
Inductive titem :=
| TLit (s : str)
| TRef (i : nat).

Definition expand_item (m : rmatch) (t : titem) : str :=
  match t with
  | TLit s => s
  | TRef i => match group m i with Some v => v | None => [] end
  end.

Definition expand (tpl : list titem) (m : rmatch) : str :=
  concat (map (expand_item m) tpl).

Definition subst_piece (f : rmatch -> str) (x : piece) : str :=
  match x with
  | Keep c => [c]
  | Hit m => f m
  end.

(** [re.sub(r, f, s)] with a replacement that cannot fail (a template);
    [sub_from] is the part of the result produced from the cursor on. *)
Definition sub_from (r : re) (f : rmatch -> str) (pre rest : str) : str :=
  concat (map (subst_piece f) (scan r 0 pre rest)).

Definition re_sub_with (r : re) (f : rmatch -> str) (s : str) : str :=
  sub_from r f [] s.

Definition re_sub (r : re) (tpl : list titem) (s : str) : str :=
  re_sub_with r (expand tpl) s.

(** [re.sub(r, f, s)] with a Python function as replacement, which may
    raise. *)
Fixpoint subst_pieces (f : rmatch -> outcome str) (xs : list piece)
    : outcome str :=
  match xs with
  | [] => Done []
  | Keep c :: xs' => t <- subst_pieces f xs' ;; Done (c :: t)
  | Hit m :: xs' => v <- f m ;; t <- subst_pieces f xs' ;; Done (v ++ t)
  end.

Definition re_sub_fn (r : re) (f : rmatch -> outcome str) (s : str)
    : outcome str :=
  subst_pieces f (scan r 0 [] s).

(** Pattern combinators. *)
Definition cat (rs : list re) : re := fold_right Seq Eps rs.
Definition star (p : char -> bool) : re := Rep true 0 None p.
Definition plus (p : char -> bool) : re := Rep true 1 None p.
Definition is_c (c : char) : char -> bool := N.eqb c.
Definition not_in (cs : list (char -> bool)) : char -> bool :=
  fun c => negb (existsb (fun p => p c) cs).
Definition one_of (cs : list (char -> bool)) : char -> bool :=
  fun c => existsb (fun p => p c) cs.
Definition any_char : char -> bool := fun _ => true.     (* [\s\S] *)
Definition dot : char -> bool := fun c => negb (N.eqb c NL).  (* . *)
Definition Lit (s : str) : re := cat (map (fun c => Cls (is_c c)) s).

(** A pattern character under [re.IGNORECASE]: the two cases of an ASCII
    letter, and the letters that case folding identifies with [i], [s] and
    [k]. *)
Definition is_ci (c : char) : char -> bool :=
  fun x => (
    N.eqb x c
    || (in_range 97 122 c && N.eqb x (c - 32))
    || (in_range 65 90 c && N.eqb x (c + 32))
    || ((N.eqb c 105 || N.eqb c 73) && (N.eqb x 304 || N.eqb x 305))
    || ((N.eqb c 115 || N.eqb c 83) && N.eqb x 383)
    || ((N.eqb c 107 || N.eqb c 75) && N.eqb x 8490))%N.

Definition LitI (s : str) : re := cat (map (fun c => Cls (is_ci c)) s).

(** [m.group(i)] used as a string: on [None] the string operation applied
    to it raises. *)
Definition group_str (e : exn) (m : rmatch) (i : nat) : outcome str :=
  match group m i with
  | Some v => Done v
  | None => Raised e
  end.

(** [lines[i]] *)
Definition getitem (lines : list str) (i : nat) : outcome str :=
  match nth_error lines i with
  | Some l => Done l
  | None => Raised IndexError
  end.

Definition QUOTE : char := 34%N.
Definition BACKTICK : char := 96%N.

(* ===================================================================== *)
(** ** scripts/generate_summaries.py and scripts/clear_summaries.py:
       ledger rows

    [parse_table_line], [rebuild_line] and [default_summary_cell] are
    written out identically in both scripts. *)

(** The placeholder text, U+5F85 U+751F U+6210. *)
Definition pending : str := [24453; 29983; 25104]%N.

(** The label of the collapsible cell, U+5C55 U+5F00. *)
Definition expand_label : str := [23637; 24320]%N.

Definition null {A} (s : list A) : bool :=
  match s with
  | [] => true
  | _ => false
  end.

Definition rule_cell : str := Eval cbv in lit "---".

Definition parse_table_line (line : str) : list str :=
  let parts := map strip (split PIPE (strip line)) in
  filter (fun p => negb (null p) && negb (str_eqb p rule_cell)) parts.

Definition rebuild_line (date_str title link summary_html : str) : str :=
  let safe_title := replace [PIPE] [BSLASH; PIPE] title in
  let safe_summary := replace [PIPE] [BSLASH; PIPE] summary_html in
  lit "| " ++ date_str ++ lit " | " ++ safe_title ++ lit " | " ++ link
    ++ lit " | " ++ safe_summary ++ lit " |" ++ [NL].

Definition default_summary_cell : str :=
  lit "<details><summary>" ++ expand_label ++ lit "</summary>" ++ pending
    ++ lit "</details>".

Definition wrap_in_details (summary_text : str) : str :=
  lit "<details><summary>" ++ expand_label ++ lit "</summary>"
    ++ summary_text ++ lit "</details>".

Definition is_placeholder_summary (cell : str) : bool := contains pending cell.

(** [<details>([\s\S]*?)</details>] under [re.IGNORECASE] *)
Definition re_details : re :=
  cat [LitI (lit "<details>"); Grp 1 (Rep false 0 None any_char);
       LitI (lit "</details>")].

(** [<summary>[\s\S]*?</summary>] under [re.IGNORECASE] *)
Definition re_summary : re :=
  cat [LitI (lit "<summary>"); Rep false 0 None any_char;
       LitI (lit "</summary>")].

(** The three spellings of the line-break marker are turned into newlines,
    one [replace] after the other. *)
Definition br_to_newline (s : str) : str :=
  replace (lit "<br />") [NL]
    (replace (lit "<br/>") [NL] (replace (lit "<br>") [NL] s)).

(** [##\s+] *)
Definition re_h2 : re := cat [Lit (lit "##"); plus is_space].

Definition is_some {A} (o : option A) : bool :=
  match o with
  | Some _ => true
  | None => false
  end.

Definition is_valid_markdown_format (summary_cell : str) : outcome bool :=
  match re_search re_details summary_cell with
  | None => Done false
  | Some m =>
      content <- group_str TypeError m 1 ;;
      let content := re_sub re_summary [] content in
      let content := br_to_newline content in
      let content := strip content in
      if negb (is_some (re_search re_h2 content)) then Done false
      else Done true
  end.

(** The body of the loop of [clear_all_summaries]: the line appended to
    [new_body], and whether [cleared_count] is incremented. *)
Definition clear_line (line : str) : outcome (str * bool) :=
  if negb (startswith [PIPE] (strip line)) then Done (line, false)
  else
    match parse_table_line line with
    | [date_str; title; link; summary_cell] =>
        if contains pending summary_cell then Done (line, false)
        else
          valid <- is_valid_markdown_format summary_cell ;;
          if negb valid then
            let new_summary_cell := default_summary_cell in
            let new_line := rebuild_line date_str title link new_summary_cell in
            Done (new_line, true)
          else Done (line, false)
    | _ => Done (line, false)
    end.

Fixpoint clear_body (body : list str) (cleared_count : nat)
    : outcome (list str * nat) :=
  match body with
  | [] => Done ([], cleared_count)
  | line :: body' =>
      r <- clear_line line ;;
      rest <- clear_body body'
                (if snd r then cleared_count + 1 else cleared_count) ;;
      Done (fst r :: fst rest, snd rest)
  end.

(** [clear_all_summaries] on the lines of the ledger file as [readlines]
    gives them: the lines written back (the file is left alone when it has
    fewer than two lines) and the returned count. *)
Definition clear_all_summaries (lines : list str) : outcome (list str * nat) :=
  if length lines <? 2 then Done (lines, 0)
  else
    let header := firstn 2 lines in
    let body := skipn 2 lines in
    r <- clear_body body 0 ;;
    Done (header ++ fst r, snd r).

(* ===================================================================== *)
(** ** scripts/arxiv_crawler.py: link normalization *)

(** [(arxiv\.org/abs/(\d+\.\d+))v\d+] under [re.IGNORECASE] *)
Definition re_versioned : re :=
  cat [Grp 1 (cat [LitI (lit "arxiv.org/abs/");
                   Grp 2 (cat [plus is_decimal; Cls (is_c DOT);
                               plus is_decimal])]);
       Cls (is_ci 118%N); plus is_decimal].

Definition _normalize_link (link : str) : str :=
  let link := strip link in
  strip (re_sub re_versioned [TRef 1] link).

(* ===================================================================== *)
(** ** scripts/build_site.py *)

Definition extract_details (cell_html : str) : outcome str :=
  content <- match re_search re_details cell_html with
             | Some m => group_str TypeError m 1
             | None => Done cell_html
             end ;;
  let content := re_sub re_summary [] content in
  let content := br_to_newline content in
  Done (strip content).

Record paper := Paper {
  date : str;
  title : str;
  link : str;
  details_raw : str
}.

(** The four cells of one body line, or [None] where the loop of
    [parse_markdown_table] skips the line. *)
Definition parse_row (line : str) : option (str * str * str * str) :=
  if negb (startswith [PIPE] (strip line)) then None
  else
    let parts := map strip (split PIPE (strip_char PIPE (strip line))) in
    match parts with
    | date_str :: title :: link :: ((_ :: _) as tail) =>
        Some (date_str, title, link, strip (join [PIPE] tail))
    | _ => None
    end.

Fixpoint parse_rows (lines : list str) : outcome (list paper) :=
  match lines with
  | [] => Done []
  | line :: lines' =>
      match parse_row line with
      | None => parse_rows lines'
      | Some (date_str, title, link, summary_cell) =>
          details_content <- extract_details summary_cell ;;
          records <- parse_rows lines' ;;
          Done (Paper date_str title link details_content :: records)
      end
  end.

Definition parse_markdown_table (md_text : str) : outcome (list paper) :=
  let lines := filter (fun line => negb (null (strip line)))
                      (splitlines md_text) in
  if length lines <? 3 then Done []
  else parse_rows (skipn 2 lines).

(** *** The line-break recoverer *)

Definition not_nl : char -> bool := not_in [is_c NL].

(** [([^\n\s#])\s*(?=#+\s)] *)
Definition re_heading_break : re :=
  cat [Grp 1 (Cls (not_in [is_c NL; is_space; is_c HASH]));
       star is_space;
       Ahead (cat [plus (is_c HASH); Cls is_space])].

(** [([^\n])\s*---\s*([^\n])] *)
Definition re_rule_inline : re :=
  cat [Grp 1 (Cls not_nl); star is_space; Lit (lit "---"); star is_space;
       Grp 2 (Cls not_nl)].

(** [\n{3,}] *)
Definition re_blank_lines : re := Rep true 3 None (is_c NL).

(** [^\s*(#+\s+)] *)
Definition re_leading_heading : re :=
  cat [Bos; star is_space; Grp 1 (cat [plus (is_c HASH); plus is_space])].

(** [\s*---\s*] *)
Definition re_rule : re := cat [star is_space; Lit (lit "---"); star is_space].

(** [\s+[-–]\s+] *)
Definition re_bullet : re :=
  cat [plus is_space; Cls (one_of [is_c DASH; is_c ENDASH]); plus is_space].

(** Two negative lookbehinds, for a newline and for two asterisks, then
    group 1 holding [\s*] and group 2 holding [\d+\.\s+]. *)
Definition re_numbered : re :=
  cat [NotBehind [NL]; NotBehind [STAR; STAR];
       Grp 1 (star is_space);
       Grp 2 (cat [plus is_decimal; Cls (is_c DOT); plus is_space])].

(** [\s+-\s+\*\*(.+?)\*\*] *)
Definition re_bold_item : re :=
  cat [plus is_space; Cls (is_c DASH); plus is_space; Lit [STAR; STAR];
       Grp 1 (Rep false 1 None dot); Lit [STAR; STAR]].

(** The sentence-final marks U+3002, U+FF01, U+FF1F, U+FF1B. *)
Definition sentence_end : char -> bool :=
  one_of [is_c 12290%N; is_c 65281%N; is_c 65311%N; is_c 65307%N].

(** [([。！？；])\s*(#+\s+)] *)
Definition re_sentence_heading : re :=
  cat [Grp 1 (Cls sentence_end); star is_space;
       Grp 2 (cat [plus (is_c HASH); plus is_space])].

Definition rule_line : str := Eval cbv in [NL] ++ lit "---" ++ [NL].

(** The branch for a text that still has its newlines. *)
Definition normalize_linebreaks (t : str) : str :=
  let t := re_sub re_heading_break [TRef 1; TLit [NL]] t in
  let t := re_sub re_rule_inline [TRef 1; TLit rule_line; TRef 2] t in
  let t := re_sub re_blank_lines [TLit [NL; NL]] t in
  t.

(** The branch for a text that lost its newlines. *)
Definition recover_linebreaks (t : str) : outcome str :=
  let t := re_sub re_heading_break [TRef 1; TLit [NL]] t in
  let t := if negb (startswith [HASH] t)
           then re_sub re_leading_heading [TRef 1] t else t in
  let t := re_sub re_rule [TLit rule_line] t in
  let t := re_sub re_bullet [TLit (NL :: lit "- ")] t in
  t <- re_sub_fn re_numbered
         (fun m => g <- group_str TypeError m 2 ;; Done ([NL] ++ g)) t ;;
  t <- re_sub_fn re_bold_item
         (fun m => g <- group_str TypeError m 1 ;;
                   Done (NL :: lit "- **" ++ g ++ lit "**")) t ;;
  let t := re_sub re_sentence_heading [TRef 1; TLit [NL]; TRef 2] t in
  let t := re_sub re_blank_lines [TLit [NL; NL]] t in
  Done t.

Definition auto_add_linebreaks (text : str) : outcome str :=
  let t := text in
  let has_linebreaks := contains [NL] t in
  t <- (if has_linebreaks then Done (normalize_linebreaks t)
        else recover_linebreaks t) ;;
  Done (strip t).

(** *** The Markdown renderer *)

(** [`([^`]+)`] *)
Definition re_code : re :=
  cat [Cls (is_c BACKTICK); Grp 1 (plus (not_in [is_c BACKTICK]));
       Cls (is_c BACKTICK)].

(** [\*\*([^*]+)\*\*] *)
Definition re_bold : re :=
  cat [Lit [STAR; STAR]; Grp 1 (plus (not_in [is_c STAR])); Lit [STAR; STAR]].

(** [\[([^\]]+)\]\(([^)]+)\)] *)
Definition re_link : re :=
  cat [Cls (is_c 91%N); Grp 1 (plus (not_in [is_c 93%N])); Lit [93; 40]%N;
       Grp 2 (plus (not_in [is_c 41%N])); Cls (is_c 41%N)].

(** The link template is a raw string in which every quote is written with
    a backslash; [re] keeps a backslash that precedes a character other
    than a letter or digit, so both characters reach the output. *)
Definition bq : str := [BSLASH; QUOTE].

Definition link_template : list titem :=
  [TLit (lit "<a href=" ++ bq); TRef 2;
   TLit (bq ++ lit " target=" ++ bq ++ lit "_blank" ++ bq ++ lit " rel=" ++ bq
           ++ lit "noopener noreferrer" ++ bq ++ lit ">");
   TRef 1; TLit (lit "</a>")].

Definition render_inline (s : str) : str :=
  let s := re_sub re_code [TLit (lit "<code>"); TRef 1; TLit (lit "</code>")] s in
  let s := re_sub re_bold
             [TLit (lit "<strong>"); TRef 1; TLit (lit "</strong>")] s in
  let s := re_sub re_link link_template s in
  s.

(** [^(#{1,6})\s+(.+)$] *)
Definition re_title : re :=
  cat [Bos; Grp 1 (Rep true 1 (Some 6) (is_c HASH)); plus is_space;
       Grp 2 (plus dot); Eos].

(** [^[-*]\s+] *)
Definition re_ul : re :=
  cat [Bos; Cls (one_of [is_c DASH; is_c STAR]); plus is_space].

(** [^\d+\.\s+] *)
Definition re_ol : re :=
  cat [Bos; plus is_decimal; Cls (is_c DOT); plus is_space].

Definition section_class : str :=
  lit " class=" ++ [QUOTE] ++ lit "section-title" ++ [QUOTE].

Definition heading_html (level : nat) (title_text : str) : str :=
  let class_attr := if level =? 2 then section_class else [] in
  lit "<h" ++ str_of_nat level ++ class_attr ++ lit ">"
    ++ render_inline title_text ++ lit "</h" ++ str_of_nat level ++ lit ">".

Definition li_html (item_text : str) : str :=
  lit "<li>" ++ render_inline item_text ++ lit "</li>".

(** The inner [while] of a list block, for the item pattern [pat]: it
    returns the index where the run ends and the items collected. *)
Fixpoint list_items (fuel : nat) (pat : re) (lines : list str) (i : nat)
    (items : list str) : outcome (nat * list str) :=
  match fuel with
  | O => Unfinished
  | S fuel' =>
      if i <? length lines then
        l <- getitem lines i ;;
        let curr_line := rstrip l in
        if null curr_line then Done (i, items)
        else if is_some (re_match pat curr_line) then
          let item_text := strip (re_sub pat [] curr_line) in
          list_items fuel' pat lines (i + 1) (items ++ [li_html item_text])
        else Done (i, items)
      else Done (i, items)
  end.

(** The main [while] of [markdown_to_html]. *)
Fixpoint render_lines (fuel : nat) (lines : list str) (i : nat)
    (html_lines : list str) : outcome (list str) :=
  match fuel with
  | O => Unfinished
  | S fuel' =>
      if i <? length lines then
        l <- getitem lines i ;;
        let line := rstrip l in
        if null line then render_lines fuel' lines (i + 1) (html_lines ++ [[]])
        else
          match re_match re_title line with
          | Some title_match =>
              g1 <- group_str TypeError title_match 1 ;;
              let level := length g1 in
              let level := Nat.min level 4 in
              g2 <- group_str AttributeError title_match 2 ;;
              let title_text := strip g2 in
              render_lines fuel' lines (i + 1)
                (html_lines ++ [heading_html level title_text])
          | None =>
              if str_eqb (strip line) rule_cell then
                render_lines fuel' lines (i + 1) (html_lines ++ [lit "<hr/>"])
              else if is_some (re_match re_ul line) then
                r <- list_items fuel re_ul lines i [] ;;
                let '(i, ul_items) := r in
                render_lines fuel' lines i
                  (if null ul_items then html_lines
                   else html_lines
                          ++ [lit "<ul>" ++ concat ul_items ++ lit "</ul>"])
              else if is_some (re_match re_ol line) then
                r <- list_items fuel re_ol lines i [] ;;
                let '(i, ol_items) := r in
                render_lines fuel' lines i
                  (if null ol_items then html_lines
                   else html_lines
                          ++ [lit "<ol>" ++ concat ol_items ++ lit "</ol>"])
              else
                render_lines fuel' lines (i + 1)
                  (html_lines ++ [lit "<p>" ++ render_inline line ++ lit "</p>"])
          end
      else Done html_lines
  end.

(** The final pass that merges neighbouring blank entries. *)
Fixpoint merge_blank (prev_blank : bool) (html_lines : list str) : list str :=
  match html_lines with
  | [] => []
  | h :: rest =>
      let is_blank := null h in
      if is_blank && prev_blank then merge_blank prev_blank rest
      else h :: merge_blank is_blank rest
  end.

Definition markdown_to_html_fuel (fuel : nat) (md : str) : outcome str :=
  let lines := splitlines md in
  html_lines <- render_lines fuel lines 0 [] ;;
  let out := merge_blank false html_lines in
  Done (strip (join [NL] out)).

(** Each turn of the main loop moves to a later line, so one unit of fuel
    per line and one for the final test are enough. *)
Definition markdown_to_html (md : str) : outcome str :=
  markdown_to_html_fuel (S (length (splitlines md))) md.

Record entry := Entry {
  e_date : str;
  e_title : str;
  e_link : str;
  summary_markdown : str;
  summary_html : str
}.

Fixpoint build_data (records : list paper) : outcome (list entry) :=
  match records with
  | [] => Done []
  | rec :: records' =>
      let raw := details_raw rec in
      fixed <- auto_add_linebreaks raw ;;
      html <- markdown_to_html fixed ;;
      data <- build_data records' ;;
      Done (Entry (date rec) (title rec) (link rec) fixed html :: data)
  end.

(* ===================================================================== *)
(** ** What a match looks like

    [sem r pre w rest caps caps']: with [pre] to the left of the cursor and
    [w ++ rest] to its right, the pattern [r] can read exactly [w], turning
    the captured groups [caps] into [caps'].  Every successful run of the
    matcher is of this shape. *)

Definition within (hi : option nat) (n : nat) : Prop :=
  match hi with
  | Some h => n <= h
  | None => True
  end.

Fixpoint sem (r : re) (pre w rest : str) (caps caps' : list (nat * str))
    : Prop :=
  match r with
  | Eps => w = [] /\ caps' = caps
  | Cls p => (exists c, w = [c] /\ p c = true) /\ caps' = caps
  | Rep _ lo hi p =>
      (forallb p w = true /\ lo <= length w /\ within hi (length w))
      /\ caps' = caps
  | Seq a b =>
      exists w1 w2 caps1,
        w = w1 ++ w2 /\ sem a pre w1 (w2 ++ rest) caps caps1
        /\ sem b (rev w1 ++ pre) w2 rest caps1 caps'
  | Grp i a => exists caps1, sem a pre w rest caps caps1 /\ caps' = (i, w) :: caps1
  | Ahead a =>
      (w = [] /\ exists w1 rest1 caps1,
                   rest = w1 ++ rest1 /\ sem a pre w1 rest1 caps caps1)
      /\ caps' = caps
  | NotBehind x => (w = [] /\ startswith (rev x) pre = false) /\ caps' = caps
  | Bos => (w = [] /\ pre = []) /\ caps' = caps
  | Eos => (w = [] /\ (rest = [] \/ rest = [NL])) /\ caps' = caps
  end.

(** A pattern that never matches the empty string. *)
Definition never_empty (r : re) : Prop :=
  forall pre rest m, exec r pre rest = Some m -> rm_text m <> [].

Fixpoint take_while (p : char -> bool) (s : str) : str :=
  match s with
  | [] => []
  | c :: s' => if p c then c :: take_while p s' else []
  end.

(** The number of newlines that a text begins with. *)
Definition lead (s : str) : nat := length (take_while (is_c NL) s).

(** The characters that the rules of the recoverer react to: the heading
    marker, the hyphen and the en dash, and the decimal digits. *)
Definition marker (c : char) : bool :=
  is_c HASH c || is_c DASH c || is_c ENDASH c || is_decimal c.

(** ** Line starts

    A mark is a character of a text that is not white space, together with
    three facts about its place: whether it begins a line (it is the first
    character of the text or follows a newline), whether it is a [#] that
    comes right after a [#], and whether white space or the end of the
    text comes after it.  The marker of a heading line shows as a run of
    marks [#]: the first begins a line, the others are joined to it, and
    the last is followed by white space. *)
Record mark := Mark {
  mark_char : char;
  begins_line : bool;
  joined : bool;
  before_space : bool
}.

(** Whether white space comes first in [s]; [nxt] answers for what follows
    [s] when [s] is empty. *)
Definition follows (nxt : bool) (s : str) : bool :=
  match s with
  | [] => nxt
  | d :: _ => is_space d
  end.

(** The marks of [s]: [b] tells whether [s] starts at the beginning of a
    line, [h] whether a [#] comes right before [s], [nxt] whether white
    space or the end of the text follows [s]. *)
Fixpoint marks (b h nxt : bool) (s : str) : list mark :=
  match s with
  | [] => []
  | c :: s' =>
      (if is_space c then []
       else [Mark c b (is_c HASH c && h) (follows nxt s')])
        ++ marks (N.eqb c NL) (is_c HASH c) nxt s'
  end.

(** Whether the position after [s] begins a line. *)
Fixpoint after (b : bool) (s : str) : bool :=
  match s with
  | [] => b
  | c :: s' => after (N.eqb c NL) s'
  end.

(** Whether a [#] comes right before the position after [s]. *)
Fixpoint after_hash (h : bool) (s : str) : bool :=
  match s with
  | [] => h
  | c :: s' => after_hash (is_c HASH c) s'
  end.

(** The same character, which still begins a line if it did, is joined to
    a [#] before it exactly if it was, and is still followed by white
    space or the end of the text if it was. *)
Definition kept (x y : mark) : Prop :=
  mark_char x = mark_char y
  /\ (begins_line x = true -> begins_line y = true)
  /\ joined x = joined y
  /\ (before_space x = true -> before_space y = true).

(** The same characters in the same order, each of them kept. *)
Definition carried (old new : list mark) : Prop := Forall2 kept old new.

(** What a replacement must satisfy to keep the marks: [w] is the text of
    a match and [v] what is put in its place. *)
Definition keeps_starts (w v : str) : Prop :=
  forall b b' h n n',
    (b = true -> b' = true) -> (n = true -> n' = true) ->
    carried (marks b h n w) (marks b' h n' v)
    /\ (after b w = true -> after b' v = true)
    /\ after_hash h w = after_hash h v
    /\ (follows n w = true -> follows n' v = true).

(** ** Lines as the renderer classifies them *)

(** A line that, once its trailing white space is removed, begins with a
    hyphen or an asterisk and a white-space character. *)
Definition bullet_line (l : str) : bool :=
  match rstrip l with
  | c :: w :: _ => one_of [is_c DASH; is_c STAR] c && is_space w
  | _ => false
  end.


(** ** Ledger fields *)

(** A field that the table format carries as it is: no column delimiter
    inside, no white space at either end. *)
Definition clean (x : str) : Prop :=
  existsb (is_c PIPE) x = false /\ strip x = x.

(** ** Heading sites

    The characters before which the recoverer breaks a line. *)
Definition text_char : char -> bool := not_in [is_c NL; is_space; is_c HASH].

(** [u] begins with a heading site whose gap is [W]: a text character, the
    white space [W], a run of [#] and a white-space character. *)
Definition site_at (u W : str) : Prop :=
  exists X H sp b,
    u = X :: W ++ H ++ sp :: b
    /\ text_char X = true /\ forallb is_space W = true
    /\ forallb (is_c HASH) H = true /\ 1 <= length H
    /\ is_space sp = true.

(** A text in which every heading site already has a single newline as its
    gap. *)
Definition settled (t : str) : Prop :=
  forall a u W, t = a ++ u -> site_at u W -> W = [NL].

(** The horizontal-rule token. *)
Definition dash3 : str := [DASH; DASH; DASH].

(** What the heading rule and the blank-line rule put in place of a
    match: the templates [\1\n] and two newlines. *)
Definition hb_out (m : rmatch) : str := expand [TRef 1; TLit [NL]] m.
Definition two_nl (m : rmatch) : str := expand [TLit [NL; NL]] m.


(* ===================================================================== *)
(** * The rest of the scripts

    The functions of the four scripts that the ledger codec, the recoverer
    and the renderer are used by, and the notions used to state what they
    do. *)

From Stdlib Require Import ZArith.

(** The number of places where two lists of lines differ. *)
Fixpoint differing (a b : list str) : nat :=
  match a, b with
  | x :: a', y :: b' => (if str_eqb x y then 0 else 1) + differing a' b'
  | _, _ => 0
  end.

(** ** Visible characters *)

(** The characters of a text other than white space, in order. *)
Definition bare (s : str) : str := filter (fun c => negb (is_space c)) s.

(** [r] has the visible characters of [s], one for one and in the same
    order, except that an en dash of [s] may stand in [r] as the hyphen
    that the bullet rule of the recoverer writes in its place. *)
Definition softened (s r : str) : Prop :=
  Forall2 (fun x y => y = x \/ (x = ENDASH /\ y = DASH)) (bare s) (bare r).

(** A text without any character of the class [q]. *)
Definition lacks (q : char -> bool) (e : str) : Prop := existsb q e = false.

(** No two empty entries follow each other in [l]; [prev_blank] tells
    whether an empty entry comes right before [l]. *)
Fixpoint spaced (prev_blank : bool) (l : list str) : Prop :=
  match l with
  | [] => True
  | h :: rest => null h && prev_blank = false /\ spaced (null h) rest
  end.

(** ** Numbered lines as the renderer classifies them *)

(** A line that, once its trailing white space is removed, begins with
    decimal digits, a full stop and a white-space character. *)
Definition numbered_line (l : str) : bool :=
  match take_while is_decimal (rstrip l),
        drop_while is_decimal (rstrip l) with
  | _ :: _, d :: w :: _ => is_c DOT d && is_space w
  | _, _ => false
  end.

(** The list item made from such a line: the number and the full stop are
    left out. *)
Definition ol_item (l : str) : str :=
  li_html (strip (tl (drop_while is_decimal (rstrip l)))).

(* ===================================================================== *)
(** ** scripts/generate_summaries.py: the text that is stored *)

Definition TAB : char := 9%N.

(** [<think>.*?</think>] under [re.IGNORECASE | re.DOTALL] *)
Definition re_think : re :=
  cat [LitI (lit "<think>"); Rep false 0 None any_char;
       LitI (lit "</think>")].

(** [[ \t]+] *)
Definition re_blanks : re := plus (one_of [is_c SP; is_c TAB]).

(** [ +\n] *)
Definition re_space_eol : re := cat [plus (is_c SP); Cls (is_c NL)].

(** What [generate_summary_for_link] does with the answer of the model
    before it returns it: the reasoning block is removed, blanks and blank
    lines are collapsed, and the newlines are written as [<br>] so that
    the text fits into one table cell.  [tidy_text] is the text before
    that last step. *)
Definition tidy_text (text : str) : str :=
  let text := strip text in
  let text := strip (re_sub re_think [] text) in
  let text := re_sub re_blanks [TLit [SP]] text in
  let text := re_sub re_blank_lines [TLit [NL; NL]] text in
  let text := re_sub re_space_eol [TLit [NL]] text in
  text.

Definition stored_text (text : str) : str :=
  let text := tidy_text text in
  let text := replace [NL] (lit "<br>") text in
  text.

(** ** Payloads *)

(** A payload in which no [<] is followed by [/] or by a letter [s]: it
    holds no closing tag and no [<summary>] tag; the line-break marker
    [<br>] is allowed. *)
Fixpoint tame (u : str) : bool :=
  match u with
  | [] => true
  | c :: u' =>
      match u' with
      | d :: _ => negb (is_c LT c && (is_c 47%N d || is_ci 115%N d))
      | [] => true
      end && tame u'
  end.

(** [s] begins with [w], the case of letters not counting. *)
Fixpoint ci_startswith (w s : str) : bool :=
  match w, s with
  | [], _ => true
  | x :: w', y :: s' => is_ci x y && ci_startswith w' s'
  | _ :: _, [] => false
  end.

(** [w] and [s] differ at a place that both have, the case of letters not
    counting. *)
Fixpoint ci_clash (w s : str) : bool :=
  match w, s with
  | x :: w', y :: s' => negb (is_ci x y) || ci_clash w' s'
  | _, _ => false
  end.

(** The non-empty ends of a text. *)
Fixpoint tails (u : str) : list str :=
  match u with
  | [] => []
  | _ :: u' => u :: tails u'
  end.

(** The part of the cell between the wrapper tag and the payload. *)
Definition summary_tag : str :=
  lit "<summary>" ++ expand_label ++ lit "</summary>".

(** ** scripts/arxiv_crawler.py: the ledger file *)

(** The header line, with the names of the four columns: U+65E5 U+671F,
    U+6807 U+9898, U+94FE U+63A5 and U+7B80 U+8981 U+603B U+7ED3. *)
Definition four_header : str :=
  lit "| " ++ [26085; 26399]%N ++ lit " | " ++ [26631; 39064]%N
    ++ lit " | " ++ [38142; 25509]%N ++ lit " | "
    ++ [31616; 35201; 24635; 32467]%N ++ lit " |" ++ [NL].

Definition four_sep : str := lit "| --- | --- | --- | --- |" ++ [NL].

(** [_ensure_md_header] on the lines of the file at [papers_path], [None]
    where the path does not exist: the lines of the file after the call. *)
Definition _ensure_md_header (file : option (list str)) : list str :=
  match file with
  | None => [four_header; four_sep]
  | Some lines => lines
  end.

(** ** The ledger file as text

    The scripts open the ledger in text mode with universal newlines.  On
    reading, a carriage return, alone or followed by a newline, ends a line
    as a newline does, and comes out as a newline.  The text of the file is
    taken as it is written, its newlines as U+000A. *)

(** The characters that end a line on reading. *)
Definition line_end (c : char) : bool := N.eqb c NL || N.eqb c CR.

(** [f.readlines()] on a file that holds the text [s]: [cur] is the
    current line (reversed), [cr] tells that the previous character was a
    carriage return, whose newline belongs to the same line end. *)
Fixpoint readlines_from (cur : str) (cr : bool) (s : str) : list str :=
  match s with
  | [] => match cur with [] => [] | _ => [rev cur] end
  | c :: s' =>
      if cr && N.eqb c NL then readlines_from cur false s'
      else if line_end c
           then rev (NL :: cur) :: readlines_from [] (N.eqb c CR) s'
           else readlines_from (c :: cur) false s'
  end.

Definition readlines (s : str) : list str := readlines_from [] false s.

(** [f.writelines(lines)] on the file opened for writing: the text that
    the file holds afterwards. *)
Definition writelines (lines : list str) : str := concat lines.

(** A line that ends with its newline and holds no other line end, and a
    last line that has none. *)
Definition terminated (l : str) : Prop :=
  exists b, l = b ++ [NL] /\ lacks line_end b.

Definition unterminated (l : str) : Prop := l <> [] /\ lacks line_end l.

(** The lines of a text file: each ends with its newline, except possibly
    the last. *)
Fixpoint file_lines (lines : list str) : Prop :=
  match lines with
  | [] => True
  | l :: rest =>
      match rest with
      | [] => terminated l \/ unterminated l
      | _ :: _ => terminated l /\ file_lines rest
      end
  end.

(** ** Ledger rows *)

(** A line boundary of [str.splitlines] other than the newline. *)
Definition other_break (c : char) : bool :=
  is_linebreak c && negb (is_c NL c).

(** A field that stays on its line: [clean], and no line boundary inside. *)
Definition one_line (x : str) : Prop := clean x /\ lacks is_linebreak x.

(** The line that [rebuild_line] makes of four fields. *)
Definition row_line (r : str * str * str * str) : str :=
  let '(d, t, l, s) := r in rebuild_line d t l s.

(** ** scripts/generate_summaries.py: [update_papers_md] *)

(** The rows that still hold the placeholder, each with its index in the
    body: the first loop of [update_papers_md], over [enumerate(body)]
    from index [idx] on. *)
Fixpoint entries_from (idx : nat) (body : list str)
    : list (nat * str * str * str) :=
  match body with
  | [] => []
  | line :: body' =>
      let entries_to_update := entries_from (S idx) body' in
      if negb (startswith [PIPE] (strip line)) then entries_to_update
      else
        match parse_table_line line with
        | [date_str; title; link; summary_cell] =>
            if negb (is_placeholder_summary summary_cell)
            then entries_to_update
            else (idx, date_str, title, link) :: entries_to_update
        | _ => entries_to_update
        end
  end.

(** [body[idx] = new_line]; [None] where Python raises [IndexError]. *)
Fixpoint set_item (body : list str) (idx : nat) (new_line : str)
    : option (list str) :=
  match body, idx with
  | [], _ => None
  | _ :: body', O => Some (new_line :: body')
  | line :: body', S idx' =>
      match set_item body' idx' new_line with
      | Some r => Some (line :: r)
      | None => None
      end
  end.

(** What a call of [generate_summary_for_link] comes to: it returns a
    text, or it raises. *)
Inductive answer :=
| Text (summary_text : str)
| Throws.

(** The ledger file: it does not exist, it holds lines, or a write to it
    has failed and its content is not known. *)
Inductive disk :=
| Missing
| Holds (lines : list str)
| Broken.

(** The variables of the second loop of [update_papers_md]; [writes]
    counts the attempts to write the file. *)
Record progress := Progress {
  body : list str;
  success_count : nat;
  updates_since_last_write : nat;
  file : disk;
  writes : nat
}.

Inductive failure := FileNotFoundError | RuntimeError | ValueError | OSError.

Inductive ending :=
| Returned (need_count success_count : nat) (file : disk)
| Failed (e : failure) (file : disk).

Section Update.

(** The world outside: the answer to the [k]-th call of the generator,
    whether the [k]-th write of the file goes through, and the value of
    [BATCH_WRITE_SIZE]. *)
Variable generator : nat -> str -> answer.
Variable write_ok : nat -> bool.
Variable batch_size : Z.

(** One round of the second loop, for the [k]-th entry. *)
Definition update_entry (header : list str) (k : nat)
    (e : nat * str * str * str) (st : progress) : progress :=
  let '(idx, date_str, title, link) := e in
  match generator k link with
  | Throws => st
  | Text summary_text =>
      if null summary_text then st
      else
        let new_summary_cell := wrap_in_details summary_text in
        let new_line := rebuild_line date_str title link new_summary_cell in
        match set_item (body st) idx new_line with
        | None => st
        | Some body =>
            let success_count := success_count st + 1 in
            let updates_since_last_write := updates_since_last_write st + 1 in
            if (batch_size <=? Z.of_nat updates_since_last_write)%Z
            then
              if write_ok (writes st)
              then Progress body success_count 0 (Holds (header ++ body))
                            (S (writes st))
              else Progress body success_count updates_since_last_write
                            Broken (S (writes st))
            else Progress body success_count updates_since_last_write
                          (file st) (writes st)
        end
  end.

Fixpoint update_loop (header : list str)
    (entries : list (nat * str * str * str)) (k : nat) (st : progress)
    : progress :=
  match entries with
  | [] => st
  | e :: entries' =>
      update_loop header entries' (S k) (update_entry header k e st)
  end.

End Update.

(** [update_papers_md]: [papers] is the content of the file as
    [readlines] gives it, [None] where the file does not exist; [token]
    tells whether the access token is set, and [batch_size] is the value of
    [BATCH_WRITE_SIZE], [None] where it is not the text of an integer. *)
Definition update_papers_md (generator : nat -> str -> answer)
    (write_ok : nat -> bool) (token : bool) (batch_size : option Z)
    (papers : option (list str)) : ending :=
  match papers with
  | None => Failed FileNotFoundError Missing
  | Some lines =>
      if length lines <? 2 then Returned 0 0 (Holds lines)
      else
        let header := firstn 2 lines in
        if negb token then Failed RuntimeError (Holds lines)
        else
          let entries_to_update := entries_from 0 (skipn 2 lines) in
          let need_count := length entries_to_update in
          match batch_size with
          | None => Failed ValueError (Holds lines)
          | Some batch_size =>
              let st := update_loop generator write_ok
                          batch_size header entries_to_update 0
                          (Progress (skipn 2 lines) 0 0 (Holds lines) 0) in
              if 0 <? updates_since_last_write st then
                if write_ok (writes st)
                then Returned need_count (success_count st)
                              (Holds (header ++ body st))
                else Failed OSError Broken
              else Returned need_count (success_count st) (file st)
          end
  end.

(** The index of an entry of the work list. *)
Definition entry_index (e : nat * str * str * str) : nat := fst (fst (fst e)).

(** The number of entries for which the generator returns a text that is
    not empty, the first entry being the subject of its [k]-th call. *)
Fixpoint answered (generator : nat -> str -> answer)
    (k : nat) (entries : list (nat * str * str * str)) : nat :=
  match entries with
  | [] => 0
  | (_, _, _, link) :: entries' =>
      match generator k link with
      | Text (_ :: _) => 1
      | _ => 0
      end + answered generator (S k) entries'
  end.

(** The body that a run of [update_papers_md] leaves in memory, line by
    line: a row of the work list is rebuilt around the answer of the
    generator when that is a text and not empty; [k] is the number of the
    call of the generator that the next such row is the subject of. *)
Fixpoint rewritten (generator : nat -> str -> answer)
    (k : nat) (body : list str) : list str :=
  match body with
  | [] => []
  | line :: body' =>
      match entries_from 0 [line] with
      | [(_, date_str, title, link)] =>
          match generator k link with
          | Text (c :: s) =>
              rebuild_line date_str title link (wrap_in_details (c :: s))
          | _ => line
          end :: rewritten generator (S k) body'
      | _ => line :: rewritten generator k body'
      end
  end.

(** ** scripts/generate_summaries.py: [generate_summary_for_link] *)

(** What [requests.get] followed by [raise_for_status] comes to: the text
    of the page, an [HTTPError] with its status code, another
    [RequestException], or an exception of another kind. *)
Inductive response :=
| Page (text : str)
| HTTPError (status_code : Z)
| RequestException
| OtherException.

(** What [client.chat.completions.create] comes to: a response without
    choices, a response whose first choice has the content [text] ([None]
    where it has none), or an exception. *)
Inductive completion :=
| NoChoices
| Content (text : option str)
| APIException.

(** What the function does to the world, in order. *)
Inductive event :=
| Get (url : str) (timeout : Z)
| Sleep (seconds : nat)
| Chat (html_content : str).

(** The four settings read with [int(os.getenv(...))], [None] where the
    text of the variable is not that of an integer. *)
Record environ := Environ {
  HTTP_MAX_RETRIES : option Z;
  HTTP_TIMEOUT : option Z;
  HTML_MAX_CHARS : option Z;
  API_MAX_RETRIES : option Z
}.

(** How the first loop ends: with the content of the page ([None] where
    the loop body never ran), or with the function returning or raising. *)
Inductive fetched :=
| Html (html_content : option str)
| Stop (r : answer).

(** The first loop: [rounds] rounds of [for attempt in range(max_retries)]
    are left, and [attempt] is the value of the loop variable. *)
Fixpoint fetch (requests_get : nat -> str -> Z -> response) (html_url : str)
    (timeout max_retries : Z) (rounds attempt : nat)
    : fetched * list event :=
  match rounds with
  | O => (Html None, [])
  | S rounds' =>
      let again :=
        if (Z.of_nat attempt <? max_retries - 1)%Z then
          let (r, log) := fetch requests_get html_url timeout max_retries
                            rounds' (S attempt) in
          (r, Sleep (2 ^ attempt) :: log)
        else (Stop (Text []), []) in
      let (r, log) :=
        match requests_get attempt html_url timeout with
        | Page text => (Html (Some text), [])
        | HTTPError status_code =>
            if (status_code =? 404)%Z then (Stop (Text []), []) else again
        | RequestException => again
        | OtherException => (Stop Throws, [])
        end in
      (r, Get html_url timeout :: log)
  end.

(** The second loop, over [range(api_max_retries)]. *)
Fixpoint ask (create : nat -> str -> completion) (html_content : str)
    (api_max_retries : Z) (rounds attempt : nat) : answer * list event :=
  match rounds with
  | O => (Text [], [])
  | S rounds' =>
      let (r, log) :=
        match create attempt html_content with
        | NoChoices => (Text [], [])
        | Content None => (Text [], [])
        | Content (Some text) =>
            if null text then (Text [], [])
            else
              let text := stored_text text in
              if null text then (Text [], []) else (Text text, [])
        | APIException =>
            if (Z.of_nat attempt <? api_max_retries - 1)%Z then
              let (r, log) := ask create html_content api_max_retries
                                rounds' (S attempt) in
              (r, Sleep (2 ^ attempt) :: log)
            else (Text [], [])
        end in
      (r, Chat html_content :: log)
  end.

(** [s[:n]] *)
Definition slice_to (s : str) (n : Z) : str :=
  if (0 <=? n)%Z then firstn (Z.to_nat n) s
  else firstn (length s - Z.to_nat (- n)) s.

(** [/abs/] *)
Definition re_abs : re := Lit (lit "/abs/").

(** [generate_summary_for_link]: what it returns or that it raises, and
    what it did. *)
Definition generate_summary_for_link (env : environ)
    (requests_get : nat -> str -> Z -> response)
    (create : nat -> str -> completion) (link : str)
    : answer * list event :=
  let html_url := re_sub re_abs [TLit (lit "/html/")] link in
  match HTTP_MAX_RETRIES env with
  | None => (Throws, [])
  | Some max_retries =>
  match HTTP_TIMEOUT env with
  | None => (Throws, [])
  | Some timeout =>
      let (f, log) := fetch requests_get html_url timeout max_retries
                        (Z.to_nat max_retries) 0 in
      match f with
      | Stop r => (r, log)
      | Html None => (Text [], log)
      | Html (Some html_content) =>
          if null html_content then (Text [], log)
          else
            match HTML_MAX_CHARS env with
            | None => (Throws, log)
            | Some max_chars =>
                let html_content :=
                  if (max_chars <? Z.of_nat (length html_content))%Z
                  then slice_to html_content max_chars
                  else html_content in
                match API_MAX_RETRIES env with
                | None => (Throws, log)
                | Some api_max_retries =>
                    let (r, log') := ask create html_content api_max_retries
                                       (Z.to_nat api_max_retries) 0 in
                    (r, log ++ log')
                end
            end
      end
  end
  end.

(** The numbers of requests and of calls of the model in a log, and the
    seconds slept. *)
Fixpoint requests (log : list event) : nat :=
  match log with
  | [] => 0
  | Get _ _ :: log' => S (requests log')
  | _ :: log' => requests log'
  end.

Fixpoint calls (log : list event) : nat :=
  match log with
  | [] => 0
  | Chat _ :: log' => S (calls log')
  | _ :: log' => calls log'
  end.

Fixpoint slept (log : list event) : nat :=
  match log with
  | [] => 0
  | Sleep seconds :: log' => seconds + slept log'
  | _ :: log' => slept log'
  end.

(** ** scripts/arxiv_crawler.py *)

(** The code points that [\w] matches in a [str] pattern, as ranges with
    both ends included: those for which [str.isalnum] holds (Unicode
    14.0), and the underscore. *)
Definition word_ranges : list (N * N) := (
  [ (48, 57); (65, 90); (95, 95); (97, 122); (170, 170); (178, 179);
    (181, 181); (185, 186); (188, 190); (192, 214); (216, 246); (248, 705);
    (710, 721); (736, 740); (748, 748); (750, 750); (880, 884); (886, 887);
    (890, 893); (895, 895); (902, 902); (904, 906); (908, 908); (910, 929);
    (931, 1013); (1015, 1153); (1162, 1327); (1329, 1366); (1369, 1369);
    (1376, 1416); (1488, 1514); (1519, 1522); (1568, 1610); (1632, 1641);
    (1646, 1647); (1649, 1747); (1749, 1749); (1765, 1766); (1774, 1788);
    (1791, 1791); (1808, 1808); (1810, 1839); (1869, 1957); (1969, 1969);
    (1984, 2026); (2036, 2037); (2042, 2042); (2048, 2069); (2074, 2074);
    (2084, 2084); (2088, 2088); (2112, 2136); (2144, 2154); (2160, 2183);
    (2185, 2190); (2208, 2249); (2308, 2361); (2365, 2365); (2384, 2384);
    (2392, 2401); (2406, 2415); (2417, 2432); (2437, 2444); (2447, 2448);
    (2451, 2472); (2474, 2480); (2482, 2482); (2486, 2489); (2493, 2493);
    (2510, 2510); (2524, 2525); (2527, 2529); (2534, 2545); (2548, 2553);
    (2556, 2556); (2565, 2570); (2575, 2576); (2579, 2600); (2602, 2608);
    (2610, 2611); (2613, 2614); (2616, 2617); (2649, 2652); (2654, 2654);
    (2662, 2671); (2674, 2676); (2693, 2701); (2703, 2705); (2707, 2728);
    (2730, 2736); (2738, 2739); (2741, 2745); (2749, 2749); (2768, 2768);
    (2784, 2785); (2790, 2799); (2809, 2809); (2821, 2828); (2831, 2832);
    (2835, 2856); (2858, 2864); (2866, 2867); (2869, 2873); (2877, 2877);
    (2908, 2909); (2911, 2913); (2918, 2927); (2929, 2935); (2947, 2947);
    (2949, 2954); (2958, 2960); (2962, 2965); (2969, 2970); (2972, 2972);
    (2974, 2975); (2979, 2980); (2984, 2986); (2990, 3001); (3024, 3024);
    (3046, 3058); (3077, 3084); (3086, 3088); (3090, 3112); (3114, 3129);
    (3133, 3133); (3160, 3162); (3165, 3165); (3168, 3169); (3174, 3183);
    (3192, 3198); (3200, 3200); (3205, 3212); (3214, 3216); (3218, 3240);
    (3242, 3251); (3253, 3257); (3261, 3261); (3293, 3294); (3296, 3297);
    (3302, 3311); (3313, 3314); (3332, 3340); (3342, 3344); (3346, 3386);
    (3389, 3389); (3406, 3406); (3412, 3414); (3416, 3425); (3430, 3448);
    (3450, 3455); (3461, 3478); (3482, 3505); (3507, 3515); (3517, 3517);
    (3520, 3526); (3558, 3567); (3585, 3632); (3634, 3635); (3648, 3654);
    (3664, 3673); (3713, 3714); (3716, 3716); (3718, 3722); (3724, 3747);
    (3749, 3749); (3751, 3760); (3762, 3763); (3773, 3773); (3776, 3780);
    (3782, 3782); (3792, 3801); (3804, 3807); (3840, 3840); (3872, 3891);
    (3904, 3911); (3913, 3948); (3976, 3980); (4096, 4138); (4159, 4169);
    (4176, 4181); (4186, 4189); (4193, 4193); (4197, 4198); (4206, 4208);
    (4213, 4225); (4238, 4238); (4240, 4249); (4256, 4293); (4295, 4295);
    (4301, 4301); (4304, 4346); (4348, 4680); (4682, 4685); (4688, 4694);
    (4696, 4696); (4698, 4701); (4704, 4744); (4746, 4749); (4752, 4784);
    (4786, 4789); (4792, 4798); (4800, 4800); (4802, 4805); (4808, 4822);
    (4824, 4880); (4882, 4885); (4888, 4954); (4969, 4988); (4992, 5007);
    (5024, 5109); (5112, 5117); (5121, 5740); (5743, 5759); (5761, 5786);
    (5792, 5866); (5870, 5880); (5888, 5905); (5919, 5937); (5952, 5969);
    (5984, 5996); (5998, 6000); (6016, 6067); (6103, 6103); (6108, 6108);
    (6112, 6121); (6128, 6137); (6160, 6169); (6176, 6264); (6272, 6276);
    (6279, 6312); (6314, 6314); (6320, 6389); (6400, 6430); (6470, 6509);
    (6512, 6516); (6528, 6571); (6576, 6601); (6608, 6618); (6656, 6678);
    (6688, 6740); (6784, 6793); (6800, 6809); (6823, 6823); (6917, 6963);
    (6981, 6988); (6992, 7001); (7043, 7072); (7086, 7141); (7168, 7203);
    (7232, 7241); (7245, 7293); (7296, 7304); (7312, 7354); (7357, 7359);
    (7401, 7404); (7406, 7411); (7413, 7414); (7418, 7418); (7424, 7615);
    (7680, 7957); (7960, 7965); (7968, 8005); (8008, 8013); (8016, 8023);
    (8025, 8025); (8027, 8027); (8029, 8029); (8031, 8061); (8064, 8116);
    (8118, 8124); (8126, 8126); (8130, 8132); (8134, 8140); (8144, 8147);
    (8150, 8155); (8160, 8172); (8178, 8180); (8182, 8188); (8304, 8305);
    (8308, 8313); (8319, 8329); (8336, 8348); (8450, 8450); (8455, 8455);
    (8458, 8467); (8469, 8469); (8473, 8477); (8484, 8484); (8486, 8486);
    (8488, 8488); (8490, 8493); (8495, 8505); (8508, 8511); (8517, 8521);
    (8526, 8526); (8528, 8585); (9312, 9371); (9450, 9471); (10102, 10131);
    (11264, 11492); (11499, 11502); (11506, 11507); (11517, 11517);
    (11520, 11557); (11559, 11559); (11565, 11565); (11568, 11623);
    (11631, 11631); (11648, 11670); (11680, 11686); (11688, 11694);
    (11696, 11702); (11704, 11710); (11712, 11718); (11720, 11726);
    (11728, 11734); (11736, 11742); (11823, 11823); (12293, 12295);
    (12321, 12329); (12337, 12341); (12344, 12348); (12353, 12438);
    (12445, 12447); (12449, 12538); (12540, 12543); (12549, 12591);
    (12593, 12686); (12690, 12693); (12704, 12735); (12784, 12799);
    (12832, 12841); (12872, 12879); (12881, 12895); (12928, 12937);
    (12977, 12991); (13312, 19903); (19968, 42124); (42192, 42237);
    (42240, 42508); (42512, 42539); (42560, 42606); (42623, 42653);
    (42656, 42735); (42775, 42783); (42786, 42888); (42891, 42954);
    (42960, 42961); (42963, 42963); (42965, 42969); (42994, 43009);
    (43011, 43013); (43015, 43018); (43020, 43042); (43056, 43061);
    (43072, 43123); (43138, 43187); (43216, 43225); (43250, 43255);
    (43259, 43259); (43261, 43262); (43264, 43301); (43312, 43334);
    (43360, 43388); (43396, 43442); (43471, 43481); (43488, 43492);
    (43494, 43518); (43520, 43560); (43584, 43586); (43588, 43595);
    (43600, 43609); (43616, 43638); (43642, 43642); (43646, 43695);
    (43697, 43697); (43701, 43702); (43705, 43709); (43712, 43712);
    (43714, 43714); (43739, 43741); (43744, 43754); (43762, 43764);
    (43777, 43782); (43785, 43790); (43793, 43798); (43808, 43814);
    (43816, 43822); (43824, 43866); (43868, 43881); (43888, 44002);
    (44016, 44025); (44032, 55203); (55216, 55238); (55243, 55291);
    (63744, 64109); (64112, 64217); (64256, 64262); (64275, 64279);
    (64285, 64285); (64287, 64296); (64298, 64310); (64312, 64316);
    (64318, 64318); (64320, 64321); (64323, 64324); (64326, 64433);
    (64467, 64829); (64848, 64911); (64914, 64967); (65008, 65019);
    (65136, 65140); (65142, 65276); (65296, 65305); (65313, 65338);
    (65345, 65370); (65382, 65470); (65474, 65479); (65482, 65487);
    (65490, 65495); (65498, 65500); (65536, 65547); (65549, 65574);
    (65576, 65594); (65596, 65597); (65599, 65613); (65616, 65629);
    (65664, 65786); (65799, 65843); (65856, 65912); (65930, 65931);
    (66176, 66204); (66208, 66256); (66273, 66299); (66304, 66339);
    (66349, 66378); (66384, 66421); (66432, 66461); (66464, 66499);
    (66504, 66511); (66513, 66517); (66560, 66717); (66720, 66729);
    (66736, 66771); (66776, 66811); (66816, 66855); (66864, 66915);
    (66928, 66938); (66940, 66954); (66956, 66962); (66964, 66965);
    (66967, 66977); (66979, 66993); (66995, 67001); (67003, 67004);
    (67072, 67382); (67392, 67413); (67424, 67431); (67456, 67461);
    (67463, 67504); (67506, 67514); (67584, 67589); (67592, 67592);
    (67594, 67637); (67639, 67640); (67644, 67644); (67647, 67669);
    (67672, 67702); (67705, 67742); (67751, 67759); (67808, 67826);
    (67828, 67829); (67835, 67867); (67872, 67897); (67968, 68023);
    (68028, 68047); (68050, 68096); (68112, 68115); (68117, 68119);
    (68121, 68149); (68160, 68168); (68192, 68222); (68224, 68255);
    (68288, 68295); (68297, 68324); (68331, 68335); (68352, 68405);
    (68416, 68437); (68440, 68466); (68472, 68497); (68521, 68527);
    (68608, 68680); (68736, 68786); (68800, 68850); (68858, 68899);
    (68912, 68921); (69216, 69246); (69248, 69289); (69296, 69297);
    (69376, 69415); (69424, 69445); (69457, 69460); (69488, 69505);
    (69552, 69579); (69600, 69622); (69635, 69687); (69714, 69743);
    (69745, 69746); (69749, 69749); (69763, 69807); (69840, 69864);
    (69872, 69881); (69891, 69926); (69942, 69951); (69956, 69956);
    (69959, 69959); (69968, 70002); (70006, 70006); (70019, 70066);
    (70081, 70084); (70096, 70106); (70108, 70108); (70113, 70132);
    (70144, 70161); (70163, 70187); (70272, 70278); (70280, 70280);
    (70282, 70285); (70287, 70301); (70303, 70312); (70320, 70366);
    (70384, 70393); (70405, 70412); (70415, 70416); (70419, 70440);
    (70442, 70448); (70450, 70451); (70453, 70457); (70461, 70461);
    (70480, 70480); (70493, 70497); (70656, 70708); (70727, 70730);
    (70736, 70745); (70751, 70753); (70784, 70831); (70852, 70853);
    (70855, 70855); (70864, 70873); (71040, 71086); (71128, 71131);
    (71168, 71215); (71236, 71236); (71248, 71257); (71296, 71338);
    (71352, 71352); (71360, 71369); (71424, 71450); (71472, 71483);
    (71488, 71494); (71680, 71723); (71840, 71922); (71935, 71942);
    (71945, 71945); (71948, 71955); (71957, 71958); (71960, 71983);
    (71999, 71999); (72001, 72001); (72016, 72025); (72096, 72103);
    (72106, 72144); (72161, 72161); (72163, 72163); (72192, 72192);
    (72203, 72242); (72250, 72250); (72272, 72272); (72284, 72329);
    (72349, 72349); (72368, 72440); (72704, 72712); (72714, 72750);
    (72768, 72768); (72784, 72812); (72818, 72847); (72960, 72966);
    (72968, 72969); (72971, 73008); (73030, 73030); (73040, 73049);
    (73056, 73061); (73063, 73064); (73066, 73097); (73112, 73112);
    (73120, 73129); (73440, 73458); (73648, 73648); (73664, 73684);
    (73728, 74649); (74752, 74862); (74880, 75075); (77712, 77808);
    (77824, 78894); (82944, 83526); (92160, 92728); (92736, 92766);
    (92768, 92777); (92784, 92862); (92864, 92873); (92880, 92909);
    (92928, 92975); (92992, 92995); (93008, 93017); (93019, 93025);
    (93027, 93047); (93053, 93071); (93760, 93846); (93952, 94026);
    (94032, 94032); (94099, 94111); (94176, 94177); (94179, 94179);
    (94208, 100343); (100352, 101589); (101632, 101640); (110576, 110579);
    (110581, 110587); (110589, 110590); (110592, 110882); (110928, 110930);
    (110948, 110951); (110960, 111355); (113664, 113770); (113776, 113788);
    (113792, 113800); (113808, 113817); (119520, 119539); (119648, 119672);
    (119808, 119892); (119894, 119964); (119966, 119967); (119970, 119970);
    (119973, 119974); (119977, 119980); (119982, 119993); (119995, 119995);
    (119997, 120003); (120005, 120069); (120071, 120074); (120077, 120084);
    (120086, 120092); (120094, 120121); (120123, 120126); (120128, 120132);
    (120134, 120134); (120138, 120144); (120146, 120485); (120488, 120512);
    (120514, 120538); (120540, 120570); (120572, 120596); (120598, 120628);
    (120630, 120654); (120656, 120686); (120688, 120712); (120714, 120744);
    (120746, 120770); (120772, 120779); (120782, 120831); (122624, 122654);
    (123136, 123180); (123191, 123197); (123200, 123209); (123214, 123214);
    (123536, 123565); (123584, 123627); (123632, 123641); (124896, 124902);
    (124904, 124907); (124909, 124910); (124912, 124926); (124928, 125124);
    (125127, 125135); (125184, 125251); (125259, 125259); (125264, 125273);
    (126065, 126123); (126125, 126127); (126129, 126132); (126209, 126253);
    (126255, 126269); (126464, 126467); (126469, 126495); (126497, 126498);
    (126500, 126500); (126503, 126503); (126505, 126514); (126516, 126519);
    (126521, 126521); (126523, 126523); (126530, 126530); (126535, 126535);
    (126537, 126537); (126539, 126539); (126541, 126543); (126545, 126546);
    (126548, 126548); (126551, 126551); (126553, 126553); (126555, 126555);
    (126557, 126557); (126559, 126559); (126561, 126562); (126564, 126564);
    (126567, 126570); (126572, 126578); (126580, 126583); (126585, 126588);
    (126590, 126590); (126592, 126601); (126603, 126619); (126625, 126627);
    (126629, 126633); (126635, 126651); (127232, 127244); (130032, 130041);
    (131072, 173791); (173824, 177976); (177984, 178205); (178208, 183969);
    (183984, 191456); (194560, 195101); (196608, 201546) ])%N.

Definition is_word (c : char) : bool :=
  existsb (fun r => in_range (fst r) (snd r) c) word_ranges.

(** [[\w\-\.\/]]; no character of it has two cases listed, so that
    [re.IGNORECASE] leaves it as it is. *)
Definition link_char : char -> bool :=
  one_of [is_word; is_c DASH; is_c DOT; is_c 47%N].

(** [https?://arxiv\.org/abs/[\w\-\.\/]+] under [re.IGNORECASE] *)
Definition link_pattern : re :=
  cat [LitI (lit "http"); Rep true 0 (Some 1) (is_ci 115%N);
       LitI (lit "://arxiv.org/abs/"); plus link_char].

(** [r.findall(s)] for a pattern without groups. *)
Definition re_findall (r : re) (s : str) : list str :=
  flat_map (fun x => match x with
                     | Hit m => [rm_text m]
                     | Keep _ => []
                     end) (scan r 0 [] s).

Module Arxiv.

(** The fields of an [arxiv.Result] that the collector reads.  [published]
    is the date as [strftime("%Y-%m-%d")] prints it, [None] where the field
    is not a [datetime]; [title] is [None] where the result has none. *)
Record Result := {
  published : option str;
  title : option str;
  entry_id : str;
  primary_category : str
}.

End Arxiv.

Definition _ALLOWED_PRIMARY_CATEGORIES : list str :=
  [lit "cs.CV"; lit "cs.AI"; lit "cs.CL"; lit "cs.LG"; lit "cs.MM";
   lit "cs.RO"].

(** [x in s] for a set of strings. *)
Definition member (x : str) (s : list str) : bool := existsb (str_eqb x) s.

(** The loop of [_search]: the [attempt]-th query gives results or
    raises ([None]); the second component lists the seconds slept. *)
Fixpoint search_rounds (client_results : nat -> option (list Arxiv.Result))
    (max_retries rounds attempt : nat) : list Arxiv.Result * list nat :=
  match rounds with
  | O => ([], [])
  | S rounds' =>
      match client_results attempt with
      | Some results => (results, [])
      | None =>
          if attempt <? max_retries - 1 then
            let (r, naps) := search_rounds client_results max_retries rounds'
                               (S attempt) in
            (r, 2 ^ attempt :: naps)
          else ([], [])
      end
  end.

Definition _search (client_results : nat -> nat -> option (list Arxiv.Result))
    (max_results : nat) : list Arxiv.Result * list nat :=
  let max_retries := 3 in
  search_rounds (client_results max_results) max_retries max_retries 0.

Definition _filter_categories (results : list Arxiv.Result)
    : list Arxiv.Result :=
  filter (fun r => member (Arxiv.primary_category r)
                          _ALLOWED_PRIMARY_CATEGORIES) results.

Definition _default_summary_cell : str := default_summary_cell.

(** [_load_existing_links] on the lines of the file, [None] where the
    path does not exist. *)
Definition _load_existing_links (file : option (list str)) : list str :=
  match file with
  | None => []
  | Some lines =>
      flat_map (fun line => map _normalize_link (re_findall link_pattern line))
               lines
  end.

Definition _format_row (r : Arxiv.Result) : str :=
  let date_str := match Arxiv.published r with
                  | Some d => d
                  | None => []
                  end in
  let title := strip (replace [PIPE] [BSLASH; PIPE]
                        (match Arxiv.title r with
                         | Some t => t
                         | None => []
                         end)) in
  let link := _normalize_link (Arxiv.entry_id r) in
  let summary_cell := _default_summary_cell in
  lit "| " ++ date_str ++ lit " | " ++ title ++ lit " | " ++ link
    ++ lit " | " ++ summary_cell ++ lit " |" ++ [NL].

(** [_append_rows]: the lines written. *)
Definition _append_rows (file : option (list str)) (rows : list str)
    : list str :=
  let lines := _ensure_md_header file in
  let insert_idx := if 2 <=? length lines then 2 else length lines in
  firstn insert_idx lines ++ rows ++ skipn insert_idx lines.

(** The loop of [initialize] and of [run_daily]. *)
Fixpoint new_rows (existing : list str) (results : list Arxiv.Result)
    : list str :=
  match results with
  | [] => []
  | r :: results' =>
      let normalized_link := _normalize_link (Arxiv.entry_id r) in
      if member normalized_link existing then new_rows existing results'
      else _format_row r :: new_rows existing results'
  end.

(** [initialize] and [run_daily]: the number returned and the lines of the
    file afterwards. *)
Definition initialize
    (client_results : nat -> nat -> option (list Arxiv.Result))
    (init_results : nat) (file : option (list str)) : nat * list str :=
  let lines := _ensure_md_header file in
  let existing := _load_existing_links (Some lines) in
  let results := _filter_categories
                   (fst (_search client_results init_results)) in
  let rows := new_rows existing results in
  (length rows, if null rows then lines else _append_rows (Some lines) rows).

Definition run_daily
    (client_results : nat -> nat -> option (list Arxiv.Result))
    (daily_results : nat) (file : option (list str)) : nat * list str :=
  let lines := _ensure_md_header file in
  let existing := _load_existing_links (Some lines) in
  let results := _filter_categories
                   (fst (_search client_results daily_results)) in
  let rows := new_rows existing results in
  (length rows, if null rows then lines else _append_rows (Some lines) rows).

(** A link as the feed of arXiv gives it: either scheme, the host and the
    path of the abstracts, and an identifier of characters of the class of
    [link_pattern]. *)
Definition arxiv_link (l : str) : Prop :=
  exists id,
    (l = lit "http://arxiv.org/abs/" ++ id
     \/ l = lit "https://arxiv.org/abs/" ++ id)
    /\ id <> [] /\ forallb link_char id = true.

(** A cell that [parse_table_line] keeps as it is. *)
Definition cell (x : str) : Prop :=
  clean x /\ null x = false /\ str_eqb x rule_cell = false.

(** Two characters that follow each other in [s] satisfy [p]. *)
Fixpoint adjacent (p : char -> char -> bool) (s : str) : bool :=
  match s with
  | c :: s' =>
      match s' with
      | d :: _ => p c d
      | [] => false
      end || adjacent p s'
  | [] => false
  end.
Arguments is_space : simpl never.
Arguments is_decimal : simpl never.
Arguments is_linebreak : simpl never.
Arguments is_ci : simpl never.
Arguments is_c : simpl never.
Arguments one_of : simpl never.
Arguments not_in : simpl never.
Arguments dot : simpl never.
Arguments any_char : simpl never.
Arguments not_nl : simpl never.
Arguments sentence_end : simpl never.

(* ===================================================================== *)
(** * Facts about the string operations *)

Section StringFacts.

Variable p : char -> bool.


Lemma drop_while_split (s : str) :
  exists a, s = a ++ drop_while p s /\ forallb p a = true.
Proof.
  induction s as [|c s [a [E F]]]; simpl.
  - exists []. auto.
  - destruct (p c) eqn:Hc.
    + exists (c :: a). simpl. rewrite Hc, F. split; [f_equal; exact E | reflexivity].
    + exists []. auto.
Qed.

Lemma drop_while_head (s : str) :
  match drop_while p s with
  | [] => True
  | c :: _ => p c = false
  end.
Proof.
  induction s as [|c s IH]; simpl; [exact I|].
  destruct (p c) eqn:Hc; [exact IH | exact Hc].
Qed.

Lemma drop_while_fix (c : char) (s : str) :
  p c = false -> drop_while p (c :: s) = c :: s.
Proof. simpl. intros ->. reflexivity. Qed.

Lemma drop_while_end_nil_iff (s : str) :
  drop_while_end p s = [] <-> forallb p s = true.
Proof.
  induction s as [|c s IH]; simpl; [tauto|].
  destruct (drop_while_end p s) eqn:E.
  - destruct (p c); simpl.
    + split; intros _; [apply IH|]; reflexivity.
    + split; discriminate.
  - split; [discriminate|]. intros H. apply andb_true_iff in H as [_ H].
    apply IH in H. discriminate.
Qed.

Lemma drop_while_end_cons (c : char) (s : str) :
  drop_while_end p (c :: s) =
  if forallb p (c :: s) then [] else c :: drop_while_end p s.
Proof.
  simpl. destruct (drop_while_end p s) eqn:E.
  - apply drop_while_end_nil_iff in E. rewrite E.
    destruct (p c); reflexivity.
  - destruct (forallb p s) eqn:F.
    + apply drop_while_end_nil_iff in F. congruence.
    + rewrite andb_false_r. reflexivity.
Qed.

Lemma drop_while_end_all (s b : str) :
  forallb p b = true -> drop_while_end p (s ++ b) = drop_while_end p s.
Proof.
  intros Hb. induction s as [|c s IH].
  - simpl. apply drop_while_end_nil_iff. exact Hb.
  - rewrite <- app_comm_cons, !drop_while_end_cons, IH.
    simpl. rewrite forallb_app, Hb, andb_true_r. reflexivity.
Qed.

Lemma drop_while_end_keep (s : str) (c : char) :
  p c = false -> drop_while_end p (s ++ [c]) = s ++ [c].
Proof.
  intros Hc. induction s as [|d s IH].
  - simpl. rewrite Hc. reflexivity.
  - rewrite <- app_comm_cons, drop_while_end_cons, IH.
    simpl. rewrite forallb_app. simpl. rewrite Hc.
    rewrite andb_false_r, andb_false_r. reflexivity.
Qed.

Lemma drop_while_end_split (s : str) :
  exists b, s = drop_while_end p s ++ b /\ forallb p b = true.
Proof.
  induction s as [|c s [b [E F]]].
  - exists []. auto.
  - rewrite drop_while_end_cons.
    destruct (forallb p (c :: s)) eqn:A.
    + exists (c :: s). auto.
    + exists b. simpl. split; [congruence | exact F].
Qed.

(** The result of [drop_while_end] is empty or ends outside the class. *)
Lemma drop_while_end_last (s : str) :
  drop_while_end p s = [] \/
  exists t c, drop_while_end p s = t ++ [c] /\ p c = false.
Proof.
  induction s as [|c s IH]; [left; reflexivity|].
  rewrite drop_while_end_cons.
  destruct (forallb p (c :: s)) eqn:A; [left; reflexivity|right].
  destruct IH as [E | [t [d [E Hd]]]].
  - rewrite E. exists [], c. split; [reflexivity|].
    apply drop_while_end_nil_iff in E. simpl in A. rewrite E in A.
    destruct (p c); [discriminate | reflexivity].
  - rewrite E. exists (c :: t), d. auto.
Qed.

Lemma drop_while_end_idem (s : str) :
  drop_while_end p (drop_while_end p s) = drop_while_end p s.
Proof.
  destruct (drop_while_end_last s) as [E | [t [c [E Hc]]]]; rewrite E.
  - reflexivity.
  - apply drop_while_end_keep. exact Hc.
Qed.

Lemma drop_while_end_head (c : char) (s : str) :
  p c = false -> drop_while_end p (c :: s) = c :: drop_while_end p s.
Proof.
  intros Hc. rewrite drop_while_end_cons. simpl. rewrite Hc. reflexivity.
Qed.

(** Trimming both ends is idempotent. *)
Lemma trim_idem (s : str) :
  drop_while_end p (drop_while p (drop_while_end p (drop_while p s))) =
  drop_while_end p (drop_while p s).
Proof.
  pose proof (drop_while_head s) as H.
  destruct (drop_while p s) as [|c t] eqn:E; [reflexivity|].
  rewrite (drop_while_end_head c t H), (drop_while_fix c _ H).
  rewrite <- (drop_while_end_head c t H). apply drop_while_end_idem.
Qed.

(** A trimmed string sits inside the original between two runs of the
    class. *)
Lemma trim_split (s : str) :
  exists a b, s = a ++ drop_while_end p (drop_while p s) ++ b
              /\ forallb p a = true /\ forallb p b = true.
Proof.
  destruct (drop_while_split s) as [a [E Fa]].
  destruct (drop_while_end_split (drop_while p s)) as [b [E' Fb]].
  exists a, b. rewrite <- E'. auto.
Qed.


End StringFacts.

Lemma strip_idem (s : str) : strip (strip s) = strip s.
Proof. apply trim_idem. Qed.

Lemma strip_split (s : str) :
  exists a b, s = a ++ strip s ++ b
              /\ forallb is_space a = true /\ forallb is_space b = true.
Proof. apply trim_split. Qed.

Lemma strip_nil : strip [] = [].
Proof. reflexivity. Qed.


(* ===================================================================== *)
(** * Facts about the matcher *)

Lemma last_read_app (w pre : str) :
  last_read (length (rev w ++ pre) - length pre) (rev w ++ pre) = w.
Proof.
  unfold last_read. rewrite length_app, Nat.add_sub.
  rewrite <- (Nat.add_0_r (length (rev w))), firstn_app_2.
  simpl. rewrite app_nil_r. apply rev_involutive.
Qed.

Lemma rep_sound (g : bool) (p : char -> bool) (rest : str) :
  forall lo hi pre caps k res,
    rep g p lo hi pre rest caps k = Some res ->
    exists w rest',
      rest = w ++ rest' /\ forallb p w = true /\ lo <= length w
      /\ within hi (length w)
      /\ k (MState (rev w ++ pre) rest' caps) = Some res.
Proof.
  induction rest as [|c rest IH]; intros lo hi pre caps k res H.
  - simpl in H. destruct lo; [|discriminate].
    exists [], []. repeat split; auto. destruct hi; simpl; lia.
  - simpl in H.
    assert (Stop :
      match lo with O => k (MState pre (c :: rest) caps) | S _ => None end
      = Some res ->
      exists w rest', c :: rest = w ++ rest' /\ forallb p w = true
        /\ lo <= length w /\ within hi (length w)
        /\ k (MState (rev w ++ pre) rest' caps) = Some res).
    { intros A. destruct lo; [|discriminate].
      exists [], (c :: rest). repeat split; auto. destruct hi; simpl; lia. }
    assert (More :
      p c && room hi = true ->
      rep g p (Nat.pred lo) (less hi) (c :: pre) rest caps k = Some res ->
      exists w rest', c :: rest = w ++ rest' /\ forallb p w = true
        /\ lo <= length w /\ within hi (length w)
        /\ k (MState (rev w ++ pre) rest' caps) = Some res).
    { intros A B. apply andb_true_iff in A as [Hc Hr].
      apply IH in B as [w [rest' [E [F [L [W K]]]]]].
      exists (c :: w), rest'. simpl. rewrite Hc, F, <- app_assoc.
      repeat split; auto.
      - congruence.
      - lia.
      - destruct hi as [[|h]|]; simpl in *; try discriminate; try lia. }
    destruct (p c && room hi) eqn:A; [|auto].
    destruct g.
    + destruct (rep true p (Nat.pred lo) (less hi) (c :: pre) rest caps k)
        eqn:B; [inversion H; subst; auto | auto].
    + destruct (match lo with O => k (MState pre (c :: rest) caps)
                            | S _ => None end) eqn:B;
        [inversion H; subst; auto | auto].
Qed.

Theorem run_sound (r : re) :
  forall pre rest caps k res,
    run r (MState pre rest caps) k = Some res ->
    exists w rest' caps',
      rest = w ++ rest' /\ sem r pre w rest' caps caps'
      /\ k (MState (rev w ++ pre) rest' caps') = Some res.
Proof.
  induction r as [|p|g lo hi p|a IHa b IHb|i a IHa|a IHa|x| |];
    intros pre rest caps k res H; simpl in H.
  - exists [], rest, caps. simpl. auto.
  - destruct rest as [|c rest]; [discriminate|].
    destruct (p c) eqn:Hc; [|discriminate].
    exists [c], rest, caps. simpl. eauto 6.
  - apply rep_sound in H as [w [rest' [E [F [L [W K]]]]]].
    exists w, rest', caps. simpl. auto 6.
  - apply IHa in H as [w1 [rest1 [caps1 [E1 [S1 K1]]]]].
    apply IHb in K1 as [w2 [rest2 [caps2 [E2 [S2 K2]]]]].
    exists (w1 ++ w2), rest2, caps2. subst.
    rewrite rev_app_distr, <- !app_assoc. split; [reflexivity|].
    split; [|exact K2]. simpl. exists w1, w2, caps1. auto.
  - apply IHa in H as [w [rest' [caps1 [E [S1 K]]]]].
    unfold consumed in K. simpl in K. rewrite last_read_app in K.
    exists w, rest', ((i, w) :: caps1). simpl. eauto.
  - destruct (run a (MState pre rest caps) Some) eqn:A; [|discriminate].
    apply IHa in A as [w1 [rest1 [caps1 [E [S1 _]]]]].
    exists [], rest, caps. simpl. split; [reflexivity|]. split; [|exact H].
    split; [|reflexivity]. split; [reflexivity|]. eauto.
  - destruct (startswith (rev x) pre) eqn:A; [discriminate|].
    exists [], rest, caps. simpl. auto.
  - destruct pre; [|discriminate].
    exists [], rest, caps. simpl. auto.
  - assert (A : rest = [] \/ rest = [NL]).
    { destruct rest as [|c [|d rest]]; auto; [|discriminate].
      destruct (N.eqb c NL) eqn:B; [|discriminate].
      apply N.eqb_eq in B. subst. auto. }
    assert (K : k (MState pre rest caps) = Some res).
    { destruct A as [-> | ->]; simpl in *; auto. }
    exists [], rest, caps. simpl. auto.
Qed.

(** The match object of a successful attempt. *)
Theorem exec_sound (r : re) (pre rest : str) (m : rmatch) :
  exec r pre rest = Some m ->
  exists rest',
    rest = rm_text m ++ rest' /\ sem r pre (rm_text m) rest' [] (rm_caps m).
Proof.
  unfold exec. intros H.
  destruct (run r (MState pre rest []) Some) as [st|] eqn:A; [|discriminate].
  apply run_sound in A as [w [rest' [caps' [E [S K]]]]].
  inversion K; subst st. inversion H; subst m. simpl.
  rewrite last_read_app. eauto.
Qed.

(** Takes a hypothesis on [sem] apart into the characters and runs that
    the pattern read. *)
Ltac sem_inv :=
  repeat match goal with
  | H : exists _, _ |- _ => destruct H
  | H : _ /\ _ |- _ => destruct H
  end; subst.

(* ===================================================================== *)
(** * Facts about [re.sub] *)

Lemma scan_skip (r : re) (w : str) :
  forall pre rest,
    scan r (length w) pre (w ++ rest) = scan r 0 (rev w ++ pre) rest.
Proof.
  induction w as [|c w IH]; intros pre rest; [reflexivity|].
  simpl. rewrite IH, <- app_assoc. reflexivity.
Qed.

Lemma sub_from_nil (r : re) (f : rmatch -> str) (pre : str) :
  exec r pre [] = None -> sub_from r f pre [] = [].
Proof. unfold sub_from. simpl. intros ->. reflexivity. Qed.

Lemma sub_from_keep (r : re) (f : rmatch -> str) (pre : str) (c : char)
    (rest : str) :
  exec r pre (c :: rest) = None ->
  sub_from r f pre (c :: rest) = c :: sub_from r f (c :: pre) rest.
Proof. unfold sub_from. simpl. intros ->. reflexivity. Qed.

Lemma sub_from_hit (r : re) (f : rmatch -> str) (pre rest : str)
    (m : rmatch) :
  exec r pre (rm_text m ++ rest) = Some m -> rm_text m <> [] ->
  sub_from r f pre (rm_text m ++ rest) =
  f m ++ sub_from r f (rev (rm_text m) ++ pre) rest.
Proof.
  unfold sub_from. intros E Hne.
  destruct (rm_text m) as [|c w] eqn:T; [congruence|].
  simpl app at 1. simpl app in E. cbn [scan]. rewrite E, T. cbn [length].
  cbn [map concat subst_piece]. f_equal.
  rewrite scan_skip. cbn [rev]. rewrite <- app_assoc. reflexivity.
Qed.

(** Induction over the segmentation that [re.sub] performs. *)
Theorem sub_from_ind (r : re) (f : rmatch -> str)
    (P : str -> str -> str -> Prop) :
  never_empty r ->
  (forall pre, P pre [] []) ->
  (forall pre c rest,
      exec r pre (c :: rest) = None ->
      P (c :: pre) rest (sub_from r f (c :: pre) rest) ->
      P pre (c :: rest) (c :: sub_from r f (c :: pre) rest)) ->
  (forall pre m rest,
      exec r pre (rm_text m ++ rest) = Some m ->
      P (rev (rm_text m) ++ pre) rest
        (sub_from r f (rev (rm_text m) ++ pre) rest) ->
      P pre (rm_text m ++ rest)
        (f m ++ sub_from r f (rev (rm_text m) ++ pre) rest)) ->
  forall pre rest, P pre rest (sub_from r f pre rest).
Proof.
  intros Hne Hnil Hkeep Hhit pre rest.
  remember (length rest) as n eqn:Hn.
  revert pre rest Hn.
  induction n as [n IH] using lt_wf_ind. intros pre rest Hn.
  destruct (exec r pre rest) as [m|] eqn:E.
  - destruct (exec_sound r pre rest m E) as [rest' [Er _]].
    pose proof (Hne _ _ _ E) as Hm. subst rest.
    rewrite (sub_from_hit r f pre rest' m E Hm).
    apply Hhit; [exact E|].
    apply (IH (length rest')); [|reflexivity].
    subst n. rewrite length_app.
    destruct (rm_text m); [congruence | simpl; lia].
  - destruct rest as [|c rest].
    + rewrite (sub_from_nil r f pre E). apply Hnil.
    + rewrite (sub_from_keep r f pre c rest E).
      apply Hkeep; [exact E|].
      apply (IH (length rest)); [subst n; simpl; lia | reflexivity].
Qed.

(** Where no attempt succeeds, [re.sub] returns its argument. *)
Lemma sub_from_none (r : re) (f : rmatch -> str) (rest : str) :
  forall pre,
    (forall a b, rest = a ++ b -> exec r (rev a ++ pre) b = None) ->
    sub_from r f pre rest = rest.
Proof.
  induction rest as [|c rest IH]; intros pre H.
  - apply sub_from_nil. apply (H [] []). reflexivity.
  - rewrite sub_from_keep; [|apply (H [] (c :: rest)); reflexivity].
    f_equal. apply IH. intros a b E.
    specialize (H (c :: a) b). simpl in H. rewrite <- app_assoc in H.
    apply H. rewrite E. reflexivity.
Qed.

(** A pattern whose matches always involve a character of the class [q]
    leaves a string without such characters alone. *)
Lemma sub_needs (r : re) (f : rmatch -> str) (q : char -> bool) :
  (forall pre rest m, exec r pre rest = Some m -> existsb q rest = true) ->
  forall s pre, existsb q s = false -> sub_from r f pre s = s.
Proof.
  intros Hq s pre Hs. apply sub_from_none. intros a b E.
  destruct (exec r (rev a ++ pre) b) as [m|] eqn:X; [|reflexivity].
  apply Hq in X. subst s. rewrite existsb_app, X, orb_true_r in Hs.
  discriminate.
Qed.

Lemma search_from_none (r : re) (rest : str) :
  forall pre,
    search_from r pre rest = None ->
    forall a b, rest = a ++ b -> exec r (rev a ++ pre) b = None.
Proof.
  induction rest as [|c rest IH]; intros pre H a b E.
  - destruct a; [|discriminate]. simpl in E. subst b. simpl in *.
    destruct (exec r pre []); [discriminate | reflexivity].
  - simpl in H. destruct (exec r pre (c :: rest)) eqn:X; [discriminate|].
    destruct a as [|d a].
    + simpl in E. subst b. exact X.
    + simpl in E. inversion E; subst d rest.
      simpl. rewrite <- app_assoc. apply (IH (c :: pre) H a b). reflexivity.
Qed.

Lemma sub_unmatched (r : re) (f : rmatch -> str) (s : str) :
  re_search r s = None -> re_sub_with r f s = s.
Proof.
  intros H. apply sub_from_none. intros a b E.
  exact (search_from_none r s [] H a b E).
Qed.

(** The matches that [re.sub] replaces are results of matching attempts. *)
Lemma scan_hits (r : re) (m : rmatch) (rest : str) :
  forall skip pre,
    In (Hit m) (scan r skip pre rest) ->
    exists pre' rest', exec r pre' rest' = Some m.
Proof.
  induction rest as [|c rest IH]; intros skip pre H.
  - destruct skip; simpl in H; [|contradiction].
    destruct (exec r pre []) eqn:E; [|contradiction].
    destruct H as [H|[]]. inversion H; subst. eauto.
  - destruct skip; simpl in H; [|eauto].
    destruct (exec r pre (c :: rest)) as [m'|] eqn:E.
    + destruct H as [H|H]; [inversion H; subst; eauto|].
      destruct (length (rm_text m')); [destruct H as [H|H]; [discriminate|]|];
        eauto.
    + destruct H as [H|H]; [discriminate | eauto].
Qed.

(** A replacement function that succeeds on every match makes
    [re.sub] succeed, with the result of the corresponding total
    replacement. *)
Lemma subst_pieces_total (f : rmatch -> outcome str) (g : rmatch -> str)
    (xs : list piece) :
  (forall m, In (Hit m) xs -> f m = Done (g m)) ->
  subst_pieces f xs = Done (concat (map (subst_piece g) xs)).
Proof.
  induction xs as [|x xs IH]; intros H; [reflexivity|].
  assert (IH' := IH (fun m Hm => H m (or_intror Hm))).
  destruct x as [c|m]; simpl; rewrite IH'; simpl; [reflexivity|].
  rewrite (H m (or_introl eq_refl)). reflexivity.
Qed.

Lemma re_sub_fn_total (r : re) (f : rmatch -> outcome str)
    (g : rmatch -> str) (s : str) :
  (forall pre rest m, exec r pre rest = Some m -> f m = Done (g m)) ->
  re_sub_fn r f s = Done (re_sub_with r g s).
Proof.
  intros H. apply subst_pieces_total. intros m Hm.
  apply scan_hits in Hm as [pre [rest E]]. eauto.
Qed.

(* ===================================================================== *)
(** * Link normalization (scripts/arxiv_crawler.py) *)

(** When every replacement is shorter than the text it replaces, the
    result of [re.sub] is not longer than its argument, and it is shorter
    as soon as there is a match. *)
Lemma sub_shrinks (r : re) (f : rmatch -> str) :
  never_empty r ->
  (forall pre rest m,
      exec r pre rest = Some m -> length (f m) < length (rm_text m)) ->
  forall pre rest,
    length (sub_from r f pre rest) <= length rest
    /\ (search_from r pre rest <> None ->
        length (sub_from r f pre rest) < length rest).
Proof.
  intros Hne Hf.
  apply (sub_from_ind r f
           (fun pre rest out =>
              length out <= length rest
              /\ (search_from r pre rest <> None ->
                  length out < length rest))); [exact Hne| | |].
  - intros pre. split; [reflexivity|]. simpl.
    destruct (exec r pre []) as [m|] eqn:E; [|congruence].
    exfalso. destruct (exec_sound r pre [] m E) as [rest' [Er _]].
    apply (Hne _ _ _ E). destruct (rm_text m); [reflexivity | discriminate].
  - intros pre c rest E [IH1 IH2]. simpl. rewrite E.
    split; [lia|]. intros H. apply IH2 in H. lia.
  - intros pre m rest E [IH1 _]. apply Hf in E.
    rewrite !length_app. split; [lia | intros _; lia].
Qed.

Lemma strip_length (s : str) : length (strip s) <= length s.
Proof.
  destruct (strip_split s) as [a [b [E _]]].
  rewrite E at 2. rewrite !length_app. lia.
Qed.

Lemma versioned_shape (pre rest : str) (m : rmatch) :
  exec re_versioned pre rest = Some m ->
  exists g, group m 1 = Some g /\ length g < length (rm_text m).
Proof.
  intros E. apply exec_sound in E as [rest' [_ S]].
  unfold re_versioned, cat, LitI, lit in S. simpl in S. sem_inv.
  simpl.
  repeat match goal with H : rm_text m = _ |- _ => rewrite H
                    | H : rm_caps m = _ |- _ => rewrite H end.
  simpl. eexists. split; [reflexivity|].
  rewrite ?app_nil_r. repeat (rewrite !length_app; simpl). lia.
Qed.

Lemma versioned_never_empty : never_empty re_versioned.
Proof.
  intros pre rest m E. apply versioned_shape in E as [g [_ L]].
  destruct (rm_text m); [simpl in L; lia | discriminate].
Qed.

(** A link with two version suffixes in a row loses one of them per pass,
    so a second pass changes the result of the first. *)
Lemma normalize_link_chained_suffix :
  _normalize_link (_normalize_link (lit "arxiv.org/abs/1.2v3v4"))
  <> _normalize_link (lit "arxiv.org/abs/1.2v3v4").
Proof. vm_compute. discriminate. Qed.

(** C4 (amended): normalizing twice is the same as normalizing once exactly
    for the strings whose normalized form has no
    [arxiv.org/abs/<id>v<digits>] occurrence left, and the two versioned
    spellings of 2510.09607 normalize to the same unversioned link. *)
Theorem normalize_link_projection :
  (forall s,
      re_search re_versioned (_normalize_link s) = None <->
      _normalize_link (_normalize_link s) = _normalize_link s)
  /\ _normalize_link (lit "http://arxiv.org/abs/2510.09607v2")
     = lit "http://arxiv.org/abs/2510.09607"
  /\ _normalize_link (lit "http://arxiv.org/abs/2510.09607v1")
     = lit "http://arxiv.org/abs/2510.09607".
Proof.
  split; [|split; vm_compute; reflexivity].
  intros s.
  assert (E : strip (_normalize_link s) = _normalize_link s)
    by apply strip_idem.
  split.
  - intros H. unfold _normalize_link at 1.
    rewrite E. unfold re_sub. rewrite (sub_unmatched _ _ _ H). exact E.
  - intros H.
    destruct (re_search re_versioned (_normalize_link s)) eqn:X;
      [exfalso | reflexivity].
    assert (L : length (_normalize_link (_normalize_link s))
                < length (_normalize_link s)).
    { unfold _normalize_link at 1. rewrite E.
      eapply Nat.le_lt_trans; [apply strip_length|].
      apply (sub_shrinks re_versioned (expand [TRef 1])
               versioned_never_empty).
      - intros pre rest m Em.
        apply versioned_shape in Em as [g [G L]].
        unfold expand. simpl in G |- *. rewrite G, app_nil_r. exact L.
      - fold (re_search re_versioned (_normalize_link s)). congruence. }
    rewrite H in L. lia.
Qed.

Lemma normalize_link_projection_witness :
  _normalize_link (_normalize_link (lit "http://arxiv.org/abs/2510.09607v2"))
  = _normalize_link (lit "http://arxiv.org/abs/2510.09607v2").
Proof.
  apply (proj1 (proj1 normalize_link_projection _)). vm_compute. reflexivity.
Defined.

(* ===================================================================== *)
(** * The collapsible cell (extract_details) *)

Lemma is_ci_lt (x : char) : is_ci LT x = true -> x = LT.
Proof.
  unfold is_ci, in_range, LT. simpl. rewrite !orb_false_r. intros H.
  apply N.eqb_eq in H. exact H.
Qed.


Lemma exec_summary_lt (pre rest : str) (m : rmatch) :
  exec re_summary pre rest = Some m -> existsb (is_c LT) rest = true.
Proof.
  intros E. apply exec_sound in E as [rest' [-> S]].
  unfold re_summary, cat, LitI, lit in S. simpl in S. sem_inv.
  repeat match goal with H : is_ci 60%N ?x = true |- _ =>
    apply is_ci_lt in H end.
  subst. match goal with H : rm_text m = _ |- _ => rewrite H end.
  reflexivity.
Qed.

(** [replace] leaves alone a string in which the first character of [old]
    does not occur. *)
Lemma replace_absent (c : char) (old new s : str) :
  existsb (is_c c) s = false -> replace (c :: old) new s = s.
Proof.
  unfold replace. induction s as [|d s IH]; [reflexivity|].
  intros H. simpl in H. apply orb_false_iff in H as [Hd Hs].
  cbn [replace_from startswith]. unfold is_c in Hd. rewrite Hd.
  simpl. rewrite (IH Hs). reflexivity.
Qed.

Lemma br_to_newline_plain (s : str) :
  existsb (is_c LT) s = false -> br_to_newline s = s.
Proof.
  intros H. unfold br_to_newline.
  change (lit "<br>") with (LT :: lit "br>").
  change (lit "<br/>") with (LT :: lit "br/>").
  change (lit "<br />") with (LT :: lit "br />").
  rewrite !(replace_absent LT _ _ s H). reflexivity.
Qed.

(** Without a wrapper the cell is still cleaned up: here the marker is
    turned into a newline and the blanks around the cell are removed. *)
Lemma extract_details_bare_cell_changed :
  re_search re_details (lit " a<br>b ") = None
  /\ extract_details (lit " a<br>b ") <> Done (lit " a<br>b ").
Proof. split; vm_compute; [reflexivity | discriminate]. Qed.

(** C3 (amended): for a cell without a [<details>...</details>] wrapper,
    [extract_details] applies to the whole cell the clean-up that it
    applies to a payload (the [<summary>] element is removed, the
    line-break markers become newlines, the surrounding white space is
    stripped); the cell is returned unchanged when, besides, it contains
    no [<] and has no white space at either end. *)
Theorem extract_details_fallback (cell_html : str) :
  re_search re_details cell_html = None ->
  extract_details cell_html
  = Done (strip (br_to_newline (re_sub re_summary [] cell_html)))
  /\ (existsb (is_c LT) cell_html = false ->
      strip cell_html = cell_html ->
      extract_details cell_html = Done cell_html).
Proof.
  intros H. unfold extract_details. rewrite H. simpl.
  split; [reflexivity|]. intros Hlt Hs.
  unfold re_sub, re_sub_with.
  rewrite (sub_needs re_summary _ (is_c LT) exec_summary_lt _ _ Hlt).
  rewrite (br_to_newline_plain _ Hlt), Hs. reflexivity.
Qed.

Lemma extract_details_fallback_witness :
  extract_details (lit "n/a") = Done (lit "n/a").
Proof.
  apply (extract_details_fallback (lit "n/a")); vm_compute; reflexivity.
Defined.

(* ===================================================================== *)
(** * Greedy repetition *)

Lemma take_drop (p : char -> bool) (s : str) :
  s = take_while p s ++ drop_while p s.
Proof.
  induction s as [|c s IH]; [reflexivity|]. simpl.
  destruct (p c); [simpl; f_equal; exact IH | reflexivity].
Qed.

Lemma take_while_all (p : char -> bool) (s : str) :
  forallb p (take_while p s) = true.
Proof.
  induction s as [|c s IH]; [reflexivity|]. simpl.
  destruct (p c) eqn:E; [simpl; rewrite E; exact IH | reflexivity].
Qed.

Lemma take_while_app (p : char -> bool) (w s : str) :
  forallb p w = true -> take_while p (w ++ s) = w ++ take_while p s.
Proof.
  induction w as [|c w IH]; [reflexivity|]. simpl. intros H.
  apply andb_true_iff in H as [Hc Hw]. rewrite Hc, (IH Hw). reflexivity.
Qed.

(** A greedy repetition first tries the longest run it may read; when the
    rest of the pattern succeeds from there, that is the match. *)
Lemma rep_greedy_longest (p : char -> bool) (w : str) :
  forall rest lo hi pre caps k res,
    forallb p w = true -> lo <= length w -> within hi (length w) ->
    match rest with
    | [] => True
    | c :: _ => p c = false \/ hi = Some (length w)
    end ->
    k (MState (rev w ++ pre) rest caps) = Some res ->
    rep true p lo hi pre (w ++ rest) caps k = Some res.
Proof.
  induction w as [|c w IH]; intros rest lo hi pre caps k res F L W Hstop K.
  - simpl in *. assert (lo = 0) by lia. subst lo.
    destruct rest as [|c rest]; [exact K|]. simpl.
    assert (E : p c && room hi = false).
    { destruct Hstop as [-> | ->]; [reflexivity | apply andb_false_r]. }
    rewrite E. exact K.
  - simpl in F. apply andb_true_iff in F as [Hc Hw].
    simpl app. cbn [rep]. rewrite Hc.
    assert (R : room hi = true).
    { destruct hi as [[|h]|]; simpl in *; [lia | reflexivity | reflexivity]. }
    rewrite R. simpl andb. cbv iota.
    rewrite (IH rest (Nat.pred lo) (less hi) (c :: pre) caps k res);
      auto.
    + simpl in L. lia.
    + destruct hi as [h|]; simpl in *; [lia | exact I].
    + destruct rest as [|d rest]; [exact I|].
      destruct Hstop as [H | H]; [left; exact H | right].
      subst hi. reflexivity.
    + simpl in K. rewrite <- app_assoc in K. exact K.
Qed.

(** * Blank-line collapsing, [\n{3,}] *)

Lemma lead_cons_nl (s : str) : lead (NL :: s) = S (lead s).
Proof. reflexivity. Qed.

Lemma lead_cons_other (c : char) (s : str) :
  N.eqb NL c = false -> lead (c :: s) = 0.
Proof. unfold lead, is_c. simpl. intros ->. reflexivity. Qed.

Lemma lead_app (w s : str) :
  forallb (is_c NL) w = true -> lead (w ++ s) = length w + lead s.
Proof.
  intros H. unfold lead. rewrite (take_while_app _ w s H), length_app.
  reflexivity.
Qed.

Lemma blank_exec_some (pre rest : str) :
  3 <= lead rest ->
  exec re_blank_lines pre rest = Some (RMatch (take_while (is_c NL) rest) []).
Proof.
  intros H. unfold exec, re_blank_lines. cbn [run m_pre m_rest m_caps].
  rewrite (take_drop (is_c NL) rest) at 1.
  rewrite (rep_greedy_longest (is_c NL) (take_while (is_c NL) rest)
             (drop_while (is_c NL) rest) 3 None pre [] Some
             (MState (rev (take_while (is_c NL) rest) ++ pre)
                     (drop_while (is_c NL) rest) [])).
  - cbn [m_pre m_caps]. rewrite last_read_app. reflexivity.
  - apply take_while_all.
  - exact H.
  - exact I.
  - pose proof (drop_while_head (is_c NL) rest) as D.
    destruct (drop_while (is_c NL) rest); [exact I | left; exact D].
  - reflexivity.
Qed.

Lemma blank_exec_sound (pre rest : str) (m : rmatch) :
  exec re_blank_lines pre rest = Some m ->
  3 <= lead rest /\ m = RMatch (take_while (is_c NL) rest) [].
Proof.
  intros E. pose proof E as E'.
  apply exec_sound in E' as [rest' [Er S]].
  simpl in S. destruct S as [[F [L _]] _].
  assert (H : 3 <= lead rest).
  { rewrite Er, (lead_app _ _ F). lia. }
  split; [exact H|]. rewrite (blank_exec_some pre rest H) in E.
  inversion E. reflexivity.
Qed.

Lemma blank_never_empty : never_empty re_blank_lines.
Proof.
  intros pre rest m E. apply blank_exec_sound in E as [H ->]. simpl.
  unfold lead in H. destruct (take_while (is_c NL) rest); simpl in H;
    [lia | discriminate].
Qed.

Lemma startswith_triple (s : str) :
  startswith [NL; NL; NL] s = true -> 3 <= lead s.
Proof.
  destruct s as [|a [|b [|c s]]]; cbn [startswith]; rewrite ?andb_false_r;
    try discriminate.
  intros H. apply andb_true_iff in H as [Ha H].
  apply andb_true_iff in H as [Hb H]. apply andb_true_iff in H as [Hc _].
  apply N.eqb_eq in Ha, Hb, Hc. subst. unfold lead. simpl. lia.
Qed.

Lemma no_triple_cons (c : char) (s : str) :
  lead (c :: s) <= 2 -> contains [NL; NL; NL] s = false ->
  contains [NL; NL; NL] (c :: s) = false.
Proof.
  intros L H. cbn [contains]. rewrite H, orb_false_r.
  destruct (startswith [NL; NL; NL] (c :: s)) eqn:E; [|reflexivity].
  apply startswith_triple in E. lia.
Qed.

(** What is left after the collapsing has no three newlines in a row. *)
Lemma collapse_invariant (pre rest : str) :
  let out := sub_from re_blank_lines (expand [TLit [NL; NL]]) pre rest in
  contains [NL; NL; NL] out = false /\ lead out <= 2 /\ lead out <= lead rest.
Proof.
  apply (sub_from_ind re_blank_lines (expand [TLit [NL; NL]])
           (fun _ rest out =>
              contains [NL; NL; NL] out = false /\ lead out <= 2
              /\ lead out <= lead rest)).
  - exact blank_never_empty.
  - intros _. simpl. auto.
  - intros pre' c rest' E [IH1 [IH2 IH3]].
    assert (L : lead (c :: rest') < 3).
    { destruct (le_lt_dec 3 (lead (c :: rest'))) as [A|A]; [|exact A].
      rewrite (blank_exec_some pre' _ A) in E. discriminate. }
    assert (B : lead (c :: sub_from re_blank_lines (expand [TLit [NL; NL]])
                       (c :: pre') rest') <= lead (c :: rest')).
    { destruct (N.eqb NL c) eqn:Hc.
      - apply N.eqb_eq in Hc. subst c. rewrite !lead_cons_nl. lia.
      - rewrite !(lead_cons_other _ _ Hc). lia. }
    split; [apply no_triple_cons; [lia | exact IH1] | split; [lia | exact B]].
  - intros pre' m rest' E [IH1 [IH2 IH3]].
    apply blank_exec_sound in E as [L Em].
    assert (T : rm_text m = take_while (is_c NL) (rm_text m ++ rest'))
      by (rewrite Em at 1; reflexivity).
    assert (F : forallb (is_c NL) (rm_text m) = true)
      by (rewrite T; apply take_while_all).
    rewrite (lead_app _ _ F) in L.
    assert (Z : lead rest' = 0).
    { rewrite (take_while_app _ _ rest' F) in T.
      apply (f_equal (@length char)) in T. rewrite length_app in T.
      unfold lead. lia. }
    cbn [expand map expand_item concat app].
    set (out' := sub_from re_blank_lines (expand [TLit [NL; NL]])
                   (rev (rm_text m) ++ pre') rest') in *.
    assert (Z' : lead out' = 0) by lia.
    rewrite (lead_app _ _ F).
    assert (L2 : lead (NL :: NL :: out') = 2)
      by (rewrite !lead_cons_nl, Z'; reflexivity).
    assert (L1 : lead (NL :: out') = 1)
      by (rewrite lead_cons_nl, Z'; reflexivity).
    split; [|split; lia].
    apply no_triple_cons; [lia|]. apply no_triple_cons; [lia | exact IH1].
Qed.

(* ===================================================================== *)
(** * Substrings *)

Lemma startswith_app (x b c : str) :
  startswith x b = true -> startswith x (b ++ c) = true.
Proof.
  revert b. induction x as [|u x IH]; intros b H; [reflexivity|].
  destruct b as [|v b]; [discriminate|]. simpl in *.
  apply andb_true_iff in H as [H1 H2]. rewrite H1, (IH b H2). reflexivity.
Qed.

Lemma contains_app_r (x b c : str) :
  contains x b = true -> contains x (b ++ c) = true.
Proof.
  induction b as [|v b IH]; intros H.
  - simpl in H. rewrite orb_false_r in H.
    destruct x; [|discriminate]. destruct c; reflexivity.
  - cbn [contains] in H. apply orb_true_iff in H as [H|H].
    + pose proof (startswith_app x (v :: b) c H) as S.
      simpl app in *. cbn [contains]. rewrite S. reflexivity.
    + simpl app. cbn [contains]. rewrite (IH H). apply orb_true_r.
Qed.

Lemma contains_app_l (x a b : str) :
  contains x b = true -> contains x (a ++ b) = true.
Proof.
  intros H. induction a as [|v a IH]; [exact H|].
  simpl app. cbn [contains]. rewrite IH. apply orb_true_r.
Qed.

Lemma contains_strip (x t : str) :
  contains x (strip t) = true -> contains x t = true.
Proof.
  intros H. destruct (strip_split t) as [a [b [E _]]].
  rewrite E. apply contains_app_l, contains_app_r, H.
Qed.

(* ===================================================================== *)
(** * The line-break recoverer never fails *)

Lemma numbered_group (pre rest : str) (m : rmatch) :
  exec re_numbered pre rest = Some m -> exists g, group m 2 = Some g.
Proof.
  intros E. apply exec_sound in E as [rest' [_ S]].
  unfold re_numbered, cat in S. simpl in S. sem_inv.
  match goal with H : rm_caps m = _ |- _ => simpl; rewrite H end.
  simpl. eauto.
Qed.

Lemma bold_item_group (pre rest : str) (m : rmatch) :
  exec re_bold_item pre rest = Some m -> exists g, group m 1 = Some g.
Proof.
  intros E. apply exec_sound in E as [rest' [_ S]].
  unfold re_bold_item, cat, Lit in S. simpl in S. sem_inv.
  match goal with H : rm_caps m = _ |- _ => simpl; rewrite H end.
  simpl. eauto.
Qed.

(** The text that [recover_linebreaks] returns, with the two Python
    replacement functions written as templates. *)
Lemma recover_linebreaks_done (t : str) :
  recover_linebreaks t =
  Done
    (re_sub re_blank_lines [TLit [NL; NL]]
      (re_sub re_sentence_heading [TRef 1; TLit [NL]; TRef 2]
        (re_sub re_bold_item [TLit (NL :: lit "- **"); TRef 1; TLit (lit "**")]
          (re_sub re_numbered [TLit [NL]; TRef 2]
            (re_sub re_bullet [TLit (NL :: lit "- ")]
              (re_sub re_rule [TLit rule_line]
                (let t1 := re_sub re_heading_break [TRef 1; TLit [NL]] t in
                 if negb (startswith [HASH] t1)
                 then re_sub re_leading_heading [TRef 1] t1 else t1))))))).
Proof.
  unfold recover_linebreaks.
  rewrite (re_sub_fn_total re_numbered _ (expand [TLit [NL]; TRef 2])).
  2:{ intros pre rest m E. destruct (numbered_group _ _ _ E) as [g G].
      unfold group_str, expand. simpl in G |- *. rewrite G.
      rewrite ?app_nil_r. reflexivity. }
  cbn [bind].
  rewrite (re_sub_fn_total re_bold_item _
             (expand [TLit (NL :: lit "- **"); TRef 1; TLit (lit "**")])).
  2:{ intros pre rest m E. destruct (bold_item_group _ _ _ E) as [g G].
      unfold group_str, expand. simpl in G |- *. rewrite G.
      rewrite ?app_nil_r. reflexivity. }
  reflexivity.
Qed.

Lemma auto_add_linebreaks_done (s : str) :
  exists t, auto_add_linebreaks s = Done (strip (re_sub re_blank_lines [TLit [NL; NL]] t)).
Proof.
  unfold auto_add_linebreaks.
  destruct (contains [NL] s).
  - unfold normalize_linebreaks. simpl. eauto.
  - rewrite recover_linebreaks_done. simpl bind. eauto.
Qed.

(* ===================================================================== *)
(** * The normal form of recovered text *)

(** C9: the result of [auto_add_linebreaks] never has three newlines in a
    row, and neither begins nor ends with a white-space character. *)
Theorem auto_add_linebreaks_normal_form (s : str) :
  exists r,
    auto_add_linebreaks s = Done r
    /\ contains [NL; NL; NL] r = false
    /\ (forall c t, r = c :: t -> is_space c = false)
    /\ (forall t c, r = t ++ [c] -> is_space c = false).
Proof.
  destruct (auto_add_linebreaks_done s) as [t E].
  eexists. split; [exact E|]. split; [|split].
  - destruct (contains [NL; NL; NL] (strip (re_sub re_blank_lines [TLit [NL; NL]] t)))
      eqn:C; [|reflexivity].
    apply contains_strip in C.
    pose proof (collapse_invariant [] t) as [A _].
    unfold re_sub, re_sub_with in C. congruence.
  - intros c u Hr.
    pose proof (drop_while_head is_space
                  (re_sub re_blank_lines [TLit [NL; NL]] t)) as H.
    unfold strip, lstrip, rstrip in Hr.
    destruct (drop_while is_space (re_sub re_blank_lines [TLit [NL; NL]] t))
      as [|d v]; [discriminate|].
    rewrite (drop_while_end_head is_space d v H) in Hr.
    inversion Hr; subst. exact H.
  - intros u c Hr. unfold strip, rstrip in Hr.
    destruct (drop_while_end_last is_space
                (lstrip (re_sub re_blank_lines [TLit [NL; NL]] t)))
      as [A | [v [d [A Hd]]]]; rewrite A in Hr.
    + destruct u; discriminate.
    + apply app_inj_tail in Hr as [_ <-]. exact Hd.
Qed.

(* ===================================================================== *)
(** * Texts without markers *)

Lemma existsb_in (q : char -> bool) (c : char) (l : str) :
  In c l -> q c = true -> existsb q l = true.
Proof. intros H Q. apply existsb_exists. eauto. Qed.

Lemma run_head (p : char -> bool) (w : str) :
  forallb p w = true -> 1 <= length w ->
  exists c w', w = c :: w' /\ p c = true.
Proof.
  destruct w as [|c w]; simpl; intros F L; [lia|].
  apply andb_true_iff in F as [F _]. eauto.
Qed.

Lemma marker_hash (c : char) : is_c HASH c = true -> marker c = true.
Proof. unfold marker. intros ->. reflexivity. Qed.

Lemma marker_dash (c : char) : is_c DASH c = true -> marker c = true.
Proof. unfold marker. intros ->. rewrite ?orb_true_r. reflexivity. Qed.

Lemma marker_bullet (c : char) :
  one_of [is_c DASH; is_c ENDASH] c = true -> marker c = true.
Proof.
  unfold marker, one_of. simpl. intros H.
  destruct (is_c DASH c), (is_c ENDASH c); try discriminate;
    rewrite ?orb_true_r; reflexivity.
Qed.

Lemma marker_digit (c : char) : is_decimal c = true -> marker c = true.
Proof. unfold marker. intros ->. rewrite ?orb_true_r. reflexivity. Qed.

(** Closes a goal [existsb marker l = true] by pointing at the character
    [c] of [l]. *)
Ltac marked c :=
  apply (existsb_in marker c);
  [ repeat match goal with H : rm_text _ = _ |- _ => rewrite H end;
    rewrite ?in_app_iff; simpl; intuition
  | auto using marker_hash, marker_dash, marker_bullet, marker_digit ].

Ltac open_run H :=
  let c := fresh "c" in
  let w := fresh "w" in
  let E := fresh "E" in
  let Hc := fresh "Hc" in
  apply run_head in H; [destruct H as [c [w [E Hc]]]; subst | assumption].

Lemma heading_break_marker (pre rest : str) (m : rmatch) :
  exec re_heading_break pre rest = Some m -> existsb marker rest = true.
Proof.
  intros E. apply exec_sound in E as [rest' [-> S]].
  unfold re_heading_break, cat in S. simpl in S. sem_inv.
  match goal with H : _ = (?h ++ _) ++ _ , F : forallb (is_c HASH) ?h = true
    |- _ => simpl in H; subst rest'; open_run F end.
  marked c.
Qed.

Lemma rule_inline_marker (pre rest : str) (m : rmatch) :
  exec re_rule_inline pre rest = Some m -> existsb marker rest = true.
Proof.
  intros E. apply exec_sound in E as [rest' [-> S]].
  unfold re_rule_inline, cat, Lit, lit in S. simpl in S. sem_inv.
  match goal with H : is_c 45%N ?c = true |- _ => marked c end.
Qed.

Lemma leading_heading_marker (pre rest : str) (m : rmatch) :
  exec re_leading_heading pre rest = Some m -> existsb marker rest = true.
Proof.
  intros E. apply exec_sound in E as [rest' [-> S]].
  unfold re_leading_heading, cat in S. simpl in S. sem_inv.
  match goal with F : forallb (is_c HASH) ?h = true |- _ => open_run F end.
  marked c.
Qed.

Lemma rule_marker (pre rest : str) (m : rmatch) :
  exec re_rule pre rest = Some m -> existsb marker rest = true.
Proof.
  intros E. apply exec_sound in E as [rest' [-> S]].
  unfold re_rule, cat, Lit, lit in S. simpl in S. sem_inv.
  match goal with H : is_c 45%N ?c = true |- _ => marked c end.
Qed.

Lemma bullet_marker (pre rest : str) (m : rmatch) :
  exec re_bullet pre rest = Some m -> existsb marker rest = true.
Proof.
  intros E. apply exec_sound in E as [rest' [-> S]].
  unfold re_bullet, cat in S. simpl in S. sem_inv.
  match goal with H : one_of _ ?c = true |- _ => marked c end.
Qed.

Lemma numbered_marker (pre rest : str) (m : rmatch) :
  exec re_numbered pre rest = Some m -> existsb marker rest = true.
Proof.
  intros E. apply exec_sound in E as [rest' [-> S]].
  unfold re_numbered, cat in S. simpl in S. sem_inv.
  match goal with F : forallb is_decimal ?h = true |- _ => open_run F end.
  marked c.
Qed.

Lemma bold_item_marker (pre rest : str) (m : rmatch) :
  exec re_bold_item pre rest = Some m -> existsb marker rest = true.
Proof.
  intros E. apply exec_sound in E as [rest' [-> S]].
  unfold re_bold_item, cat, Lit in S. simpl in S. sem_inv.
  match goal with H : is_c DASH ?c = true |- _ => marked c end.
Qed.

Lemma sentence_heading_marker (pre rest : str) (m : rmatch) :
  exec re_sentence_heading pre rest = Some m -> existsb marker rest = true.
Proof.
  intros E. apply exec_sound in E as [rest' [-> S]].
  unfold re_sentence_heading, cat in S. simpl in S. sem_inv.
  match goal with F : forallb (is_c HASH) ?h = true |- _ => open_run F end.
  marked c.
Qed.

Lemma contains_single (c : char) (s : str) :
  contains [c] s = existsb (is_c c) s.
Proof.
  induction s as [|d s IH]; [reflexivity|].
  cbn [contains startswith existsb]. rewrite IH, andb_true_r.
  reflexivity.
Qed.

Lemma lead_triple (s : str) :
  3 <= lead s -> startswith [NL; NL; NL] s = true.
Proof.
  unfold lead. destruct s as [|a [|b [|c s]]]; simpl;
    repeat match goal with
    | |- context [is_c NL ?x] => destruct (is_c NL x) eqn:?; simpl
    end; try lia.
  unfold is_c in *. intros _.
  repeat match goal with H : N.eqb _ _ = true |- _ =>
    apply N.eqb_eq in H; subst end.
  reflexivity.
Qed.

Lemma blank_needs_newline (pre rest : str) (m : rmatch) :
  exec re_blank_lines pre rest = Some m -> existsb (is_c NL) rest = true.
Proof.
  intros E. apply blank_exec_sound in E as [L _].
  apply lead_triple in L. destruct rest as [|c rest]; [discriminate|].
  cbn [startswith] in L. apply andb_true_iff in L as [L _].
  simpl. unfold is_c. rewrite L. reflexivity.
Qed.

(** Collapsing does nothing to a text without three newlines in a row. *)
Lemma collapse_fixed (t : str) :
  contains [NL; NL; NL] t = false ->
  re_sub re_blank_lines [TLit [NL; NL]] t = t.
Proof.
  intros H. apply sub_from_none. intros a b E.
  destruct (exec re_blank_lines (rev a ++ []) b) as [m|] eqn:X;
    [|reflexivity].
  apply blank_exec_sound in X as [L _]. apply lead_triple in L.
  assert (C : contains [NL; NL; NL] b = true).
  { destruct b; cbn [contains]; rewrite L; reflexivity. }
  rewrite E, (contains_app_l _ a b C) in H. discriminate.
Qed.

(** Collapsing brings in no character other than the newline. *)
Lemma collapse_keeps_absent (q : char -> bool) (t : str) :
  q NL = false -> existsb q t = false ->
  existsb q (re_sub re_blank_lines [TLit [NL; NL]] t) = false.
Proof.
  intros Hq. unfold re_sub, re_sub_with.
  apply (sub_from_ind re_blank_lines (expand [TLit [NL; NL]])
           (fun _ rest out => existsb q rest = false -> existsb q out = false)).
  - exact blank_never_empty.
  - auto.
  - intros pre c rest _ IH H. simpl in *.
    apply orb_false_iff in H as [H1 H2]. rewrite H1, (IH H2). reflexivity.
  - intros pre m rest _ IH H. rewrite existsb_app in H.
    apply orb_false_iff in H as [_ H2].
    cbn [expand map expand_item concat app existsb].
    rewrite Hq, (IH H2). reflexivity.
Qed.

Lemma strip_keeps_absent (q : char -> bool) (t : str) :
  existsb q t = false -> existsb q (strip t) = false.
Proof.
  intros H. destruct (strip_split t) as [a [b [E _]]].
  rewrite E, !existsb_app in H.
  apply orb_false_iff in H as [_ H]. apply orb_false_iff in H as [H _].
  exact H.
Qed.

Lemma normalize_linebreaks_quiet (s : str) :
  existsb marker s = false ->
  normalize_linebreaks s = re_sub re_blank_lines [TLit [NL; NL]] s.
Proof.
  intros H. unfold normalize_linebreaks, re_sub at 2 3, re_sub_with.
  rewrite (sub_needs re_heading_break _ marker heading_break_marker _ _ H).
  rewrite (sub_needs re_rule_inline _ marker rule_inline_marker _ _ H).
  reflexivity.
Qed.

Lemma recover_linebreaks_quiet (s : str) :
  existsb marker s = false -> contains [NL] s = false ->
  recover_linebreaks s = Done s.
Proof.
  intros H N. rewrite recover_linebreaks_done. unfold re_sub, re_sub_with.
  cbv zeta.
  rewrite (sub_needs re_heading_break _ marker heading_break_marker _ _ H).
  rewrite (sub_needs re_leading_heading _ marker leading_heading_marker _ _ H).
  assert (E : (if negb (startswith [HASH] s) then s else s) = s)
    by (destruct (negb (startswith [HASH] s)); reflexivity).
  rewrite E.
  rewrite (sub_needs re_rule _ marker rule_marker _ _ H).
  rewrite (sub_needs re_bullet _ marker bullet_marker _ _ H).
  rewrite (sub_needs re_numbered _ marker numbered_marker _ _ H).
  rewrite (sub_needs re_bold_item _ marker bold_item_marker _ _ H).
  rewrite (sub_needs re_sentence_heading _ marker sentence_heading_marker
             _ _ H).
  rewrite contains_single in N.
  rewrite (sub_needs re_blank_lines _ (is_c NL) blank_needs_newline _ _ N).
  reflexivity.
Qed.

(** On a marker-free text that came out of [strip] without three newlines
    in a row, the recoverer changes nothing. *)
Lemma auto_add_linebreaks_fixed (r : str) :
  existsb marker r = false -> contains [NL; NL; NL] r = false ->
  strip r = r -> auto_add_linebreaks r = Done r.
Proof.
  intros H T S. unfold auto_add_linebreaks.
  destruct (contains [NL] r) eqn:N.
  - rewrite (normalize_linebreaks_quiet r H), (collapse_fixed r T).
    simpl. rewrite S. reflexivity.
  - rewrite (recover_linebreaks_quiet r H N). simpl. rewrite S. reflexivity.
Qed.

(* ===================================================================== *)
(** * Line starts are kept by the light normalization *)

Lemma follows_app (u v : str) (n : bool) :
  follows n (u ++ v) = follows (follows n v) u.
Proof. destruct u; reflexivity. Qed.

Lemma marks_app (u v : str) :
  forall b h n,
    marks b h n (u ++ v)
    = marks b h (follows n v) u ++ marks (after b u) (after_hash h u) n v.
Proof.
  induction u as [|c u IH]; intros b h n; [reflexivity|].
  simpl. rewrite IH, follows_app, app_assoc. reflexivity.
Qed.

Lemma after_app (u v : str) :
  forall b, after b (u ++ v) = after (after b u) v.
Proof. induction u as [|c u IH]; intros b; [reflexivity | apply IH]. Qed.

Lemma after_hash_app (u v : str) :
  forall h, after_hash h (u ++ v) = after_hash (after_hash h u) v.
Proof. induction u as [|c u IH]; intros h; [reflexivity | apply IH]. Qed.

Lemma space_not_hash (c : char) : is_space c = true -> is_c HASH c = false.
Proof.
  intros H. unfold is_c. destruct (N.eqb_spec HASH c) as [<-|]; [|reflexivity].
  vm_compute in H. discriminate.
Qed.

Lemma after_hash_blank (w : str) :
  forallb is_space w = true ->
  forall h, after_hash h w = h && null w.
Proof.
  induction w as [|c w IH]; intros F h; [symmetry; apply andb_true_r|].
  simpl in *. apply andb_true_iff in F as [Hc Hw].
  rewrite (IH Hw), (space_not_hash c Hc), andb_false_r. reflexivity.
Qed.

Lemma marks_blank (w : str) :
  forallb is_space w = true -> forall b h n, marks b h n w = [].
Proof.
  induction w as [|c w IH]; intros F b h n; [reflexivity|].
  simpl in *. apply andb_true_iff in F as [Hc Hw]. rewrite Hc.
  simpl. apply IH, Hw.
Qed.

Lemma carried_app (a a' b b' : list mark) :
  carried a a' -> carried b b' -> carried (a ++ b) (a' ++ b').
Proof. apply Forall2_app. Qed.

Lemma carried_trans (a b c : list mark) :
  carried a b -> carried b c -> carried a c.
Proof.
  intros H. revert c.
  induction H as [|x y a b [E [I [G J]]] H IH]; intros c Hc.
  - inversion Hc. constructor.
  - inversion Hc as [|y' z b' c' [E' [I' [G' J']]] Hc']; subst.
    constructor; [repeat split; [congruence | auto | congruence | auto]|].
    apply IH. exact Hc'.
Qed.

Lemma marks_mono (s : str) :
  forall b b' h n n',
    (b = true -> b' = true) -> (n = true -> n' = true) ->
    carried (marks b h n s) (marks b' h n' s).
Proof.
  induction s as [|c s IH]; intros b b' h n n' Hb Hn; [constructor|].
  simpl. apply carried_app; [|apply IH; auto].
  destruct (is_space c); constructor; [|constructor].
  repeat split; simpl; auto. destruct s; simpl; auto.
Qed.

Lemma sub_carried (r : re) (f : rmatch -> str) :
  never_empty r ->
  (forall pre rest m,
      exec r pre rest = Some m -> keeps_starts (rm_text m) (f m)) ->
  forall s b b' h n n',
    (b = true -> b' = true) -> (n = true -> n' = true) ->
    carried (marks b h n s) (marks b' h n' (re_sub_with r f s)).
Proof.
  intros Hne Hk s b b' h n n' Hb Hn. unfold re_sub_with.
  apply (sub_from_ind r f
           (fun _ rest out => forall b b' h n n',
              (b = true -> b' = true) -> (n = true -> n' = true) ->
              carried (marks b h n rest) (marks b' h n' out)
              /\ (follows n rest = true -> follows n' out = true)));
    [exact Hne| | | |exact Hb|exact Hn].
  - intros _ b0 b0' h0 n0 n0' _ Hn0. split; [constructor | exact Hn0].
  - intros pre c rest _ IH b0 b0' h0 n0 n0' Hb0 Hn0.
    destruct (IH (N.eqb c NL) (N.eqb c NL) (is_c HASH c) n0 n0'
                (fun e => e) Hn0) as [C F].
    split; [|auto]. simpl. apply carried_app; [|exact C].
    destruct (is_space c); constructor; [|constructor].
    repeat split; simpl; auto.
  - intros pre m rest E IH b0 b0' h0 n0 n0' Hb0 Hn0.
    set (out := sub_from r f (rev (rm_text m) ++ pre) rest) in *.
    assert (Fn : follows n0 rest = true -> follows n0' out = true).
    { apply (IH b0 b0' h0 n0 n0' Hb0 Hn0). }
    destruct (Hk _ _ _ E b0 b0' h0 (follows n0 rest) (follows n0' out)
                Hb0 Fn) as [C [A [G F]]].
    destruct (IH (after b0 (rm_text m)) (after b0' (f m))
                (after_hash h0 (rm_text m)) n0 n0' A Hn0) as [C' _].
    rewrite !marks_app, !follows_app. rewrite <- G.
    split; [apply carried_app; assumption | exact F].
Qed.

Lemma not_in_space (c : char) (ps qs : list (char -> bool)) :
  not_in (ps ++ is_space :: qs) c = true -> is_space c = false.
Proof.
  unfold not_in. rewrite existsb_app. simpl. intros H.
  apply negb_true_iff, orb_false_iff in H as [_ H].
  apply orb_false_iff in H as [H _]. exact H.
Qed.

Lemma not_in_hash (c : char) (ps qs : list (char -> bool)) :
  not_in (ps ++ is_c HASH :: qs) c = true -> is_c HASH c = false.
Proof.
  unfold not_in. rewrite existsb_app. simpl. intros H.
  apply negb_true_iff, orb_false_iff in H as [_ H].
  apply orb_false_iff in H as [H _]. exact H.
Qed.

Lemma not_nl_neq (c : char) : not_nl c = true -> N.eqb c NL = false.
Proof.
  unfold not_nl, not_in, is_c. simpl. intros H.
  rewrite orb_false_r in H. apply negb_true_iff in H.
  rewrite N.eqb_sym. exact H.
Qed.

Lemma nl_is_space (w : str) :
  forallb (is_c NL) w = true -> forallb is_space w = true.
Proof.
  induction w as [|c w IH]; [reflexivity|]. simpl. intros H.
  apply andb_true_iff in H as [Hc Hw]. unfold is_c in Hc.
  apply N.eqb_eq in Hc. subst c. rewrite (IH Hw). reflexivity.
Qed.

(** Closes the goals on single marks once both texts are spelled out. *)
Ltac kept_marks :=
  repeat match goal with
  | |- context [is_space ?c] => destruct (is_space c) eqn:?
  end;
  simpl; repeat constructor; simpl; auto; try congruence.

Lemma heading_break_keeps (pre rest : str) (m : rmatch) :
  exec re_heading_break pre rest = Some m ->
  keeps_starts (rm_text m) (expand [TRef 1; TLit [NL]] m).
Proof.
  intros E. apply exec_sound in E as [rest' [_ S]].
  unfold re_heading_break, cat in S. simpl in S. sem_inv.
  unfold expand. simpl.
  repeat match goal with H : rm_text m = _ |- _ => rewrite H
                    | H : rm_caps m = _ |- _ => rewrite H end.
  simpl. rewrite !app_nil_r. intros b b' h n n' Hb Hn. simpl.
  match goal with H : not_in _ ?c = true |- _ =>
    pose proof (not_in_hash c [is_c NL; is_space] [] H) as Hh;
    apply (not_in_space c [is_c NL] [is_c HASH]) in H; rewrite H end.
  match goal with H : forallb is_space ?w = true |- _ =>
    rewrite (marks_blank w H), (after_hash_blank w H) end.
  rewrite Hh. change (is_c HASH NL) with false.
  split; [|split; [reflexivity | split; [reflexivity | auto]]].
  constructor; [repeat split; auto | constructor].
Qed.

Lemma heading_break_never_empty : never_empty re_heading_break.
Proof.
  intros pre rest m E. apply exec_sound in E as [rest' [_ S]].
  unfold re_heading_break, cat in S. simpl in S. sem_inv.
  match goal with H : rm_text m = _ |- _ => rewrite H end. discriminate.
Qed.

Lemma is_c_eq (c x : char) : is_c c x = true -> x = c.
Proof. unfold is_c. intros H. apply N.eqb_eq in H. congruence. Qed.

Lemma rule_inline_never_empty : never_empty re_rule_inline.
Proof.
  intros pre rest m E. apply exec_sound in E as [rest' [_ S]].
  unfold re_rule_inline, cat in S. simpl in S. sem_inv.
  match goal with H : rm_text m = _ |- _ => rewrite H end. discriminate.
Qed.

Lemma rule_inline_keeps (pre rest : str) (m : rmatch) :
  exec re_rule_inline pre rest = Some m ->
  keeps_starts (rm_text m) (expand [TRef 1; TLit rule_line; TRef 2] m).
Proof.
  intros E. apply exec_sound in E as [rest' [_ S]].
  unfold re_rule_inline, cat, Lit, lit in S. simpl in S. sem_inv.
  repeat match goal with H : is_c 45%N _ = true |- _ =>
    apply is_c_eq in H end.
  subst. unfold expand. simpl.
  repeat match goal with H : rm_text m = _ |- _ => rewrite H
                    | H : rm_caps m = _ |- _ => rewrite H end.
  simpl. rewrite ?app_nil_r. intros b b' h n n' Hb Hn. simpl.
  repeat match goal with H : not_nl ?c = true |- _ =>
    apply not_nl_neq in H end.
  do 2 (rewrite ?marks_app, ?after_app, ?after_hash_app;
        repeat match goal with H : forallb is_space ?w = true |- _ =>
          first [rewrite (marks_blank w H)
                | rewrite (after_hash_blank w H)] end;
        simpl).
  repeat match goal with H : N.eqb _ NL = false |- _ => rewrite H end.
  change (is_c HASH 45%N) with false. change (is_c HASH NL) with false.
  rewrite ?andb_false_r, ?andb_false_l.
  split; [|split; [|split]]; auto.
  kept_marks.
Qed.

Lemma blank_lines_keeps (pre rest : str) (m : rmatch) :
  exec re_blank_lines pre rest = Some m ->
  keeps_starts (rm_text m) (expand [TLit [NL; NL]] m).
Proof.
  intros E. apply exec_sound in E as [rest' [_ S]].
  simpl in S. destruct S as [[F [L _]] _].
  unfold expand. simpl. intros b b' h n n' _ _. simpl.
  rewrite (marks_blank _ (nl_is_space _ F)).
  rewrite (after_hash_blank _ (nl_is_space _ F)).
  change (is_c HASH NL) with false.
  split; [constructor | split; [reflexivity | split; [|reflexivity]]].
  destruct (rm_text m); [simpl in L; lia | apply andb_false_r].
Qed.

Lemma strip_carried (t : str) (b n : bool) :
  carried (marks b false n t) (marks true false true (strip t)).
Proof.
  destruct (strip_split t) as [u [v [E [Fu Fv]]]].
  rewrite E at 1. rewrite !marks_app.
  rewrite (marks_blank u Fu), (marks_blank v Fv), app_nil_r. simpl.
  rewrite (after_hash_blank u Fu). cbn [andb].
  apply marks_mono; reflexivity.
Qed.

(** ** From the marks back to the text *)

Lemma marks_split (r : str) (n : bool) :
  forall b h M1 x M2,
    marks b h n r = M1 ++ x :: M2 ->
    exists u v,
      r = u ++ mark_char x :: v
      /\ is_space (mark_char x) = false
      /\ M1 = marks b h false u
      /\ x = Mark (mark_char x) (after b u)
               (is_c HASH (mark_char x) && after_hash h u) (follows n v)
      /\ M2 = marks (N.eqb (mark_char x) NL) (is_c HASH (mark_char x)) n v.
Proof.
  induction r as [|c r IH]; intros b h M1 x M2 E.
  - destruct M1; discriminate.
  - simpl in E. destruct (is_space c) eqn:Hc.
    + simpl in E. apply IH in E as [u [v [-> [Hx [-> [Ex ->]]]]]].
      exists (c :: u), v. simpl. rewrite Hc. auto.
    + simpl in E. destruct M1 as [|y M1]; simpl in E.
      * inversion E; subst. exists [], r. simpl. rewrite Hc. auto.
      * inversion E as [[Ey E']]. clear E.
        apply IH in E' as [u [v [-> [Hx [-> [Ex ->]]]]]].
        exists (c :: u), v. simpl. rewrite Hc, follows_app. simpl.
        rewrite Hx. auto.
Qed.

Lemma marks_nil (u : str) :
  forall b h n, marks b h n u = [] -> forallb is_space u = true.
Proof.
  induction u as [|c u IH]; intros b h n E; [reflexivity|].
  simpl in *. destruct (is_space c); [simpl in *; eauto | discriminate].
Qed.

(** No [#] comes right before the beginning of a line. *)
Lemma after_hash_line (u : str) :
  forall b h,
    after b u = true -> (b = true -> h = false) -> after_hash h u = false.
Proof.
  induction u as [|c u IH]; intros b h A B; simpl in *; [auto|].
  apply (IH (N.eqb c NL)); [exact A|]. intros E.
  apply N.eqb_eq in E. subst c. reflexivity.
Qed.

(** A run of [#] followed by white space, carried to a text that begins
    with [#]: the text begins with the same run, and white space or the
    end of the text comes next. *)
Lemma hash_run_kept (w : char) (v : str) (n' : bool) :
  is_space w = true ->
  forall k R b b' h h',
    carried (marks b h true (repeat HASH (S k) ++ w :: v))
            (marks b' h' n' (HASH :: R)) ->
    exists v', HASH :: R = repeat HASH (S k) ++ v' /\ follows n' v' = true.
Proof.
  intros Hw. induction k as [|k IH]; intros R b b' h h' C.
  - simpl in C. change (is_space HASH) with false in C. simpl in C.
    inversion C as [|x y l l' [_ [_ [_ F]]] C']; subst. simpl in F.
    exists R. split; [reflexivity | auto].
  - change (repeat HASH (S (S k)) ++ w :: v)
      with (HASH :: (repeat HASH (S k) ++ w :: v)) in C.
    cbn [marks] in C. change (is_space HASH) with false in C.
    change (N.eqb HASH NL) with false in C.
    change (is_c HASH HASH) with true in C. simpl app in C.
    inversion C as [|x y l l' _ C']. subst. clear C.
    assert (C2 : carried (marks false true true
                            (repeat HASH (S k) ++ w :: v))
                         (marks false true n' R)) by exact C'.
    remember (marks false true n' R) as L eqn:EL.
    simpl in C'. change (is_space HASH) with false in C'. simpl in C'.
    inversion C' as [|x2 y' l2 l'' Ky _]. subst. clear C'.
    match goal with H : _ :: _ = marks _ _ _ R |- _ => rename H into EL end.
    symmetry in EL. pose proof EL as EL'.
    apply (marks_split R n' false true [] y' l'') in EL'
      as [u [v0 [ER [Hy [Hu [Ey El]]]]]].
    destruct Ky as [Kc [_ [Kj _]]]. simpl in Kc, Kj.
    symmetry in Hu. apply marks_nil in Hu.
    rewrite Ey in Kj. simpl in Kj. rewrite <- Kc in Kj.
    rewrite (after_hash_blank u Hu) in Kj.
    change (is_c HASH HASH) with true in Kj. simpl in Kj.
    destruct u as [|c0 u]; [|discriminate]. simpl in ER.
    rewrite <- Kc in ER. subst R. rewrite <- EL in C2.
    destruct (IH v0 false false true true C2) as [v' [E F]].
    exists v'. split; [|exact F]. rewrite E. reflexivity.
Qed.

(** Every heading marker of the old text (a run of [#] at the beginning
    of a line, followed by white space) is in the new text, after the same
    characters: the same run at the beginning of a line, followed by
    white space or the end of the text. *)
Lemma markers_kept (s r : str) :
  carried (marks true false true s) (marks true false true r) ->
  forall u n w v,
    s = u ++ repeat HASH n ++ w :: v -> 1 <= n ->
    after true u = true -> is_space w = true ->
    exists u' v',
      r = u' ++ repeat HASH n ++ v'
      /\ carried (marks true false false u) (marks true false false u')
      /\ after true u' = true
      /\ follows true v' = true.
Proof.
  intros C u n w v -> Hn Hu Hw.
  destruct n as [|k]; [lia|].
  rewrite marks_app in C. rewrite Hu in C.
  rewrite (after_hash_line u true false Hu (fun _ => eq_refl)) in C.
  change (follows true (repeat HASH (S k) ++ w :: v)) with (is_space HASH)
    in C.
  change (is_space HASH) with false in C.
  apply Forall2_app_inv_l in C as [M1 [M2 [C1 [C2 E]]]].
  assert (EM : exists x' M2',
             M2 = x' :: M2'
             /\ kept (Mark HASH true false
                        (follows true (repeat HASH k ++ w :: v))) x').
  { simpl in C2. change (is_space HASH) with false in C2. simpl in C2.
    change (is_c HASH HASH) with true in C2.
    inversion C2; subst. eauto. }
  destruct EM as [x' [M2' [-> Kx]]].
  pose proof E as E0.
  apply marks_split in E as [u' [v0 [-> [Hx [-> [Ex EM2]]]]]].
  destruct Kx as [Kc [Kb [Kj _]]]. simpl in Kc, Kb, Kj.
  rewrite <- Kc in *.
  assert (Au : after true u' = true).
  { rewrite Ex in Kb. simpl in Kb. auto. }
  assert (C3 : carried (marks true false true (repeat HASH (S k) ++ w :: v))
                       (marks (after true u') (after_hash false u') true
                          (HASH :: v0))).
  { rewrite marks_app in E0. apply app_inv_head in E0.
    rewrite E0. exact C2. }
  destruct (hash_run_kept w v true Hw k v0 _ _ _ _ C3) as [v' [E F]].
  exists u', v'. rewrite E. auto.
Qed.

(** A heading line whose text begins with a rule token is split by the
    light normalization: the marker stays at the beginning of its line but
    the text moves to the lines below, and the renderer, which made a
    heading of the line, makes a paragraph of the marker.  A marker that
    ends the text loses the white space after it. *)
Lemma auto_add_linebreaks_splits_heading_line :
  auto_add_linebreaks (lit "# ---x" ++ [NL] ++ lit "y")
  = Done (lit "#" ++ [NL] ++ lit "---" ++ [NL] ++ lit "x" ++ [NL] ++ lit "y")
  /\ markdown_to_html (lit "# ---x" ++ [NL] ++ lit "y")
     = Done (lit "<h1>---x</h1>" ++ [NL] ++ lit "<p>y</p>")
  /\ markdown_to_html
       (lit "#" ++ [NL] ++ lit "---" ++ [NL] ++ lit "x" ++ [NL] ++ lit "y")
     = Done (lit "<p>#</p>" ++ [NL] ++ lit "<hr/>" ++ [NL] ++ lit "<p>x</p>"
               ++ [NL] ++ lit "<p>y</p>")
  /\ auto_add_linebreaks (lit "a" ++ [NL] ++ lit "# ")
     = Done (lit "a" ++ [NL] ++ lit "#").
Proof. repeat split; vm_compute; reflexivity. Qed.

(** C5 (amended): for a text that contains a newline,
    [auto_add_linebreaks] removes and moves no character other than white
    space; every character that begins a line of the text begins a line of
    the result, a [#] comes right after a [#] in the result exactly where
    it did in the text, and every character that is followed by white
    space is followed by white space or by the end of the result.  So the
    marker of each heading line is kept: the same run of [#], after the
    same characters, at the beginning of a line and followed by white
    space or by the end of the result. *)
Theorem auto_add_linebreaks_keeps_line_starts (s : str) :
  contains [NL] s = true ->
  exists r,
    auto_add_linebreaks s = Done r
    /\ carried (marks true false true s) (marks true false true r)
    /\ forall u n w v,
         s = u ++ repeat HASH n ++ w :: v -> 1 <= n ->
         after true u = true -> is_space w = true ->
         exists u' v',
           r = u' ++ repeat HASH n ++ v'
           /\ carried (marks true false false u) (marks true false false u')
           /\ after true u' = true
           /\ follows true v' = true.
Proof.
  intros H.
  assert (K : exists r,
             auto_add_linebreaks s = Done r
             /\ carried (marks true false true s) (marks true false true r)).
  { unfold auto_add_linebreaks. rewrite H. simpl.
    eexists. split; [reflexivity|].
    eapply carried_trans; [|apply strip_carried].
    unfold normalize_linebreaks, re_sub.
    eapply carried_trans;
      [|apply (sub_carried re_blank_lines _ blank_never_empty
                 blank_lines_keeps); exact (fun e => e)].
    eapply carried_trans;
      [|apply (sub_carried re_rule_inline _ rule_inline_never_empty
                 rule_inline_keeps); exact (fun e => e)].
    apply (sub_carried re_heading_break _ heading_break_never_empty
             heading_break_keeps); exact (fun e => e). }
  destruct K as [r [E C]]. exists r. split; [exact E|]. split; [exact C|].
  apply markers_kept, C.
Qed.

Lemma auto_add_linebreaks_keeps_line_starts_witness :
  exists r u' v',
    auto_add_linebreaks (lit "intro ## A" ++ [NL] ++ lit "# B---c") = Done r
    /\ r = u' ++ repeat HASH 1 ++ v'
    /\ carried (marks true false false (lit "intro ## A" ++ [NL]))
               (marks true false false u')
    /\ after true u' = true
    /\ follows true v' = true.
Proof.
  destruct (auto_add_linebreaks_keeps_line_starts
              (lit "intro ## A" ++ [NL] ++ lit "# B---c"))
    as [r [E [_ K]]].
  - vm_compute. reflexivity.
  - destruct (K (lit "intro ## A" ++ [NL]) 1 SP (lit "B---c"))
      as [u' [v' [Er [C [A F]]]]].
    + reflexivity.
    + lia.
    + reflexivity.
    + vm_compute. reflexivity.
    + exists r, u', v'. auto.
Defined.

(* ===================================================================== *)
(** * The renderer always finishes *)

Lemma getitem_in_range (lines : list str) (i : nat) :
  i < length lines -> exists l, getitem lines i = Done l.
Proof.
  intros H. unfold getitem.
  destruct (nth_error lines i) as [l|] eqn:E; [eauto|].
  apply nth_error_None in E. lia.
Qed.

Lemma title_groups (line : str) (tm : rmatch) :
  re_match re_title line = Some tm ->
  exists g1 g2, group tm 1 = Some g1 /\ group tm 2 = Some g2.
Proof.
  intros E. apply exec_sound in E as [rest' [_ S]].
  unfold re_title, cat in S. simpl in S. sem_inv.
  match goal with H : rm_caps tm = _ |- _ => simpl; rewrite H end.
  simpl. eauto.
Qed.

(** The inner loop stops within the lines that are left, and passes the
    line it starts on when that line is an item. *)
Lemma list_items_total (pat : re) (lines : list str) :
  forall n i items,
    length lines - i <= n ->
    exists i' items',
      (forall fuel, n < fuel ->
         list_items fuel pat lines i items = Done (i', items'))
      /\ i <= i'
      /\ (forall l, getitem lines i = Done l ->
            null (rstrip l) = false ->
            is_some (re_match pat (rstrip l)) = true -> i < i').
Proof.
  induction n as [|n IH]; intros i items Hn.
  - exists i, items. split; [|split; [lia|]].
    + intros [|fuel] Hf; [lia|]. cbn [list_items].
      assert (E : (i <? length lines) = false) by (apply Nat.ltb_ge; lia).
      rewrite E. reflexivity.
    + intros l Hl. unfold getitem in Hl.
      destruct (nth_error lines i) eqn:E; [|discriminate].
      assert (i < length lines) by (apply nth_error_Some; congruence). lia.
  - destruct (i <? length lines) eqn:Hi.
    + apply Nat.ltb_lt in Hi.
      destruct (getitem_in_range lines i Hi) as [l Hl].
      destruct (null (rstrip l)) eqn:Hnull;
        [|destruct (is_some (re_match pat (rstrip l))) eqn:Hm].
      * exists i, items. split; [|split; [lia|]].
        -- intros [|fuel] Hf; [lia|]. cbn [list_items].
           apply Nat.ltb_lt in Hi. rewrite Hi, Hl. cbn [bind].
           rewrite Hnull. reflexivity.
        -- intros l' Hl'. rewrite Hl in Hl'. inversion Hl'; subst.
           congruence.
      * destruct (IH (i + 1)
                    (items ++ [li_html (strip (re_sub pat [] (rstrip l)))]))
          as [i' [items' [Hrun [Hle _]]]]; [lia|].
        exists i', items'. split; [|split; [lia|intros; lia]].
        intros [|fuel] Hf; [lia|]. cbn [list_items].
        apply Nat.ltb_lt in Hi. rewrite Hi, Hl. cbn [bind].
        rewrite Hnull, Hm. apply Hrun. lia.
      * exists i, items. split; [|split; [lia|]].
        -- intros [|fuel] Hf; [lia|]. cbn [list_items].
           apply Nat.ltb_lt in Hi. rewrite Hi, Hl. cbn [bind].
           rewrite Hnull, Hm. reflexivity.
        -- intros l' Hl'. rewrite Hl in Hl'. inversion Hl'; subst.
           congruence.
    + exists i, items. split; [|split; [lia|]].
      * intros [|fuel] Hf; [lia|]. cbn [list_items]. rewrite Hi. reflexivity.
      * intros l Hl. unfold getitem in Hl.
        destruct (nth_error lines i) eqn:E; [|discriminate].
        assert (i < length lines) by (apply nth_error_Some; congruence).
        apply Nat.ltb_ge in Hi. lia.
Qed.

Lemma render_lines_total (lines : list str) :
  forall n i html_lines,
    length lines - i <= n ->
    exists out,
      forall fuel, n < fuel -> render_lines fuel lines i html_lines = Done out.
Proof.
  induction n as [|n IH]; intros i html Hn.
  - exists html. intros [|fuel] Hf; [lia|]. cbn [render_lines].
    assert (E : (i <? length lines) = false) by (apply Nat.ltb_ge; lia).
    rewrite E. reflexivity.
  - destruct (i <? length lines) eqn:Hi.
    2:{ exists html. intros [|fuel] Hf; [lia|]. cbn [render_lines].
        rewrite Hi. reflexivity. }
    pose proof Hi as Hlt. apply Nat.ltb_lt in Hlt.
    destruct (getitem_in_range lines i Hlt) as [l Hl].
    assert (Hnext : length lines - (i + 1) <= n) by lia.
    destruct (null (rstrip l)) eqn:Hnull.
    { destruct (IH (i + 1) (html ++ [[]]) Hnext) as [out Hout].
      exists out. intros [|fuel] Hf; [lia|]. cbn [render_lines].
      rewrite Hi, Hl. cbn [bind]. rewrite Hnull. apply Hout. lia. }
    destruct (re_match re_title (rstrip l)) as [tm|] eqn:Ht.
    { destruct (title_groups _ _ Ht) as [g1 [g2 [G1 G2]]].
      destruct (IH (i + 1)
                  (html ++ [heading_html (Nat.min (length g1) 4) (strip g2)])
                  Hnext) as [out Hout].
      exists out. intros [|fuel] Hf; [lia|]. cbn [render_lines].
      rewrite Hi, Hl. cbn [bind]. rewrite Hnull, Ht.
      unfold group_str. rewrite G1, G2. cbn [bind]. apply Hout. lia. }
    destruct (str_eqb (strip (rstrip l)) rule_cell) eqn:Hr.
    { destruct (IH (i + 1) (html ++ [lit "<hr/>"]) Hnext) as [out Hout].
      exists out. intros [|fuel] Hf; [lia|]. cbn [render_lines].
      rewrite Hi, Hl. cbn [bind]. rewrite Hnull, Ht, Hr. apply Hout. lia. }
    destruct (is_some (re_match re_ul (rstrip l))) eqn:Hul.
    { destruct (list_items_total re_ul lines (S n) i [])
        as [i' [items [Hrun [_ Hadv]]]]; [lia|].
      specialize (Hadv l Hl Hnull Hul).
      destruct (IH i' (if null items then html
                       else html ++ [lit "<ul>" ++ concat items ++ lit "</ul>"]))
        as [out Hout]; [lia|].
      exists out. intros [|fuel] Hf; [lia|]. cbn [render_lines].
      rewrite Hi, Hl. cbn [bind]. rewrite Hnull, Ht, Hr, Hul.
      rewrite (Hrun (S fuel) Hf). cbn [bind]. apply Hout. lia. }
    destruct (is_some (re_match re_ol (rstrip l))) eqn:Hol.
    { destruct (list_items_total re_ol lines (S n) i [])
        as [i' [items [Hrun [_ Hadv]]]]; [lia|].
      specialize (Hadv l Hl Hnull Hol).
      destruct (IH i' (if null items then html
                       else html ++ [lit "<ol>" ++ concat items ++ lit "</ol>"]))
        as [out Hout]; [lia|].
      exists out. intros [|fuel] Hf; [lia|]. cbn [render_lines].
      rewrite Hi, Hl. cbn [bind]. rewrite Hnull, Ht, Hr, Hul, Hol.
      rewrite (Hrun (S fuel) Hf). cbn [bind]. apply Hout. lia. }
    destruct (IH (i + 1)
                (html ++ [lit "<p>" ++ render_inline (rstrip l) ++ lit "</p>"])
                Hnext) as [out Hout].
    exists out. intros [|fuel] Hf; [lia|]. cbn [render_lines].
    rewrite Hi, Hl. cbn [bind]. rewrite Hnull, Ht, Hr, Hul, Hol.
    apply Hout. lia.
Qed.

(** C8: [auto_add_linebreaks] and [markdown_to_html] return a string for
    every input string: no exception is raised, and the loops of the
    renderer end within one turn per line (any larger amount of fuel gives
    the same page). *)
Theorem core_pipeline_total (s : str) :
  (exists r, auto_add_linebreaks s = Done r)
  /\ (exists html,
        markdown_to_html s = Done html
        /\ forall fuel, length (splitlines s) < fuel ->
             markdown_to_html_fuel fuel s = Done html).
Proof.
  split.
  - destruct (auto_add_linebreaks_done s) as [t E]. eauto.
  - destruct (render_lines_total (splitlines s) (length (splitlines s)) 0 [])
      as [out Hout]; [lia|].
    exists (strip (join [NL] (merge_blank false out))).
    assert (F : forall fuel, length (splitlines s) < fuel ->
                  markdown_to_html_fuel fuel s
                  = Done (strip (join [NL] (merge_blank false out)))).
    { intros fuel Hf. unfold markdown_to_html_fuel.
      rewrite (Hout fuel Hf). reflexivity. }
    split; [apply F; lia | exact F].
Qed.

(* ===================================================================== *)
(** * Headings *)





Lemma getitem_nth (lines : list str) (i : nat) (l : str) :
  nth_error lines i = Some l ->
  (i <? length lines) = true /\ getitem lines i = Done l.
Proof.
  intros H. split.
  - apply Nat.ltb_lt, nth_error_Some. congruence.
  - unfold getitem. rewrite H. reflexivity.
Qed.


(* ===================================================================== *)
(** * Unordered lists *)

Lemma ul_exec (c w : char) (t : str) :
  one_of [is_c DASH; is_c STAR] c = true -> is_space w = true ->
  exec re_ul [] (c :: w :: t)
  = Some (RMatch (c :: take_while is_space (w :: t)) []).
Proof.
  intros Hc Hw. unfold exec, re_ul, cat, plus.
  cbn [fold_right run m_pre m_rest m_caps]. rewrite Hc.
  rewrite (take_drop is_space (w :: t)) at 1.
  rewrite (rep_greedy_longest is_space (take_while is_space (w :: t))
             (drop_while is_space (w :: t)) 1 None [c] [] _
             (MState (rev (take_while is_space (w :: t)) ++ [c])
                     (drop_while is_space (w :: t)) [])).
  - cbn [m_pre m_caps].
    change (rev (take_while is_space (w :: t)) ++ [c])
      with (rev (take_while is_space (w :: t)) ++ rev [c] ++ []).
    rewrite app_assoc, <- rev_app_distr, last_read_app. reflexivity.
  - apply take_while_all.
  - simpl. rewrite Hw. simpl. lia.
  - exact I.
  - pose proof (drop_while_head is_space (w :: t)) as D.
    destruct (drop_while is_space (w :: t)); [exact I | left; exact D].
  - reflexivity.
Qed.

Lemma ul_match_sound (cl : str) (m : rmatch) :
  re_match re_ul cl = Some m ->
  exists c w t,
    cl = c :: w :: t /\ one_of [is_c DASH; is_c STAR] c = true
    /\ is_space w = true.
Proof.
  intros E. apply exec_sound in E as [rest' [-> S]].
  unfold re_ul, cat in S. simpl in S. sem_inv.
  match goal with H : rm_text m = _ |- _ => rewrite H end.
  match goal with F : forallb is_space ?h = true |- _ => open_run F end.
  simpl. eauto 8.
Qed.

Lemma ul_match_iff (l : str) :
  is_some (re_match re_ul (rstrip l)) = bullet_line l.
Proof.
  unfold bullet_line.
  destruct (re_match re_ul (rstrip l)) as [m|] eqn:E.
  - apply ul_match_sound in E as [c [w [t [-> [Hc Hw]]]]].
    rewrite Hc, Hw. reflexivity.
  - destruct (rstrip l) as [|c [|w t]]; try reflexivity.
    destruct (one_of [is_c DASH; is_c STAR] c) eqn:Hc; [|reflexivity].
    destruct (is_space w) eqn:Hw; [|reflexivity].
    unfold re_match in E. rewrite (ul_exec c w t Hc Hw) in E. discriminate.
Qed.

Lemma exec_bos_none (r : re) (c : char) (pre rest : str) :
  exec (Seq Bos r) (c :: pre) rest = None.
Proof. reflexivity. Qed.

Lemma drop_while_idem (p : char -> bool) (s : str) :
  drop_while p (drop_while p s) = drop_while p s.
Proof.
  pose proof (drop_while_head p s) as H.
  destruct (drop_while p s) as [|c t]; [reflexivity|].
  apply drop_while_fix, H.
Qed.





Lemma bullet_line_shape (l : str) :
  bullet_line l = true ->
  exists c w t,
    rstrip l = c :: w :: t /\ one_of [is_c DASH; is_c STAR] c = true
    /\ is_space w = true.
Proof.
  unfold bullet_line. destruct (rstrip l) as [|c [|w t]]; try discriminate.
  intros H. apply andb_true_iff in H as [Hc Hw]. eauto 6.
Qed.

Lemma getitem_middle (before : list str) (l : str) (rest : list str) :
  (length before <? length (before ++ l :: rest)) = true
  /\ getitem (before ++ l :: rest) (length before) = Done l.
Proof.
  apply getitem_nth. rewrite nth_error_app2, Nat.sub_diag; [reflexivity|lia].
Qed.


Lemma strip_bullet_not_rule (c w : char) (t : str) :
  one_of [is_c DASH; is_c STAR] c = true -> is_space w = true ->
  str_eqb (strip (c :: w :: t)) rule_cell = false.
Proof.
  intros Hc Hw. unfold strip, lstrip, rstrip.
  assert (Sc : is_space c = false).
  { unfold one_of, is_c in Hc. cbn [existsb] in Hc.
    rewrite orb_false_r in Hc.
    apply orb_true_iff in Hc as [H|H]; apply N.eqb_eq in H; subst c;
      reflexivity. }
  rewrite (drop_while_fix is_space c _ Sc).
  rewrite (drop_while_end_head is_space c _ Sc).
  destruct (drop_while_end is_space (w :: t)) as [|d u] eqn:E;
    [cbn [str_eqb rule_cell]; apply andb_false_r|].
  assert (d = w).
  { rewrite drop_while_end_cons in E.
    destruct (forallb is_space (w :: t)); [discriminate|].
    inversion E. reflexivity. }
  subst d. cbn [str_eqb rule_cell].
  destruct (N.eqb_spec w 45) as [->|]; [discriminate|].
  simpl. apply andb_false_r.
Qed.




Lemma render_lines_end (fuel : nat) (lines : list str) (i : nat)
    (html_lines : list str) :
  length lines <= i -> render_lines (S fuel) lines i html_lines = Done html_lines.
Proof.
  intros H. cbn [render_lines].
  assert (E : (i <? length lines) = false) by (apply Nat.ltb_ge; exact H).
  rewrite E. reflexivity.
Qed.



(* ===================================================================== *)
(** * Ledger rows *)

Lemma split_plain (sep : char) (a : str) :
  existsb (is_c sep) a = false -> split sep a = [a].
Proof.
  induction a as [|c a IH]; [reflexivity|]. simpl. intros H.
  apply orb_false_iff in H as [Hc Ha]. unfold is_c in Hc.
  rewrite N.eqb_sym in Hc. rewrite Hc, (IH Ha). reflexivity.
Qed.

Lemma split_app (sep : char) (a b : str) :
  existsb (is_c sep) a = false ->
  split sep (a ++ sep :: b) = a :: split sep b.
Proof.
  induction a as [|c a IH]; simpl; intros H.
  - rewrite N.eqb_refl. reflexivity.
  - apply orb_false_iff in H as [Hc Ha]. unfold is_c in Hc.
    rewrite N.eqb_sym in Hc. rewrite Hc, (IH Ha). reflexivity.
Qed.

(** Splitting undoes joining when no field contains the separator. *)
Lemma split_join (sep : char) (f : str) (fs : list str) :
  Forall (fun x => existsb (is_c sep) x = false) (f :: fs) ->
  split sep (join [sep] (f :: fs)) = f :: fs.
Proof.
  revert f. induction fs as [|g fs IH]; intros f H.
  - inversion H; subst. simpl. apply split_plain. assumption.
  - inversion H; subst. cbn [join]. simpl app.
    rewrite split_app by assumption. f_equal. apply IH. assumption.
Qed.

(** A stripped field between two blanks is recovered by [strip]. *)
Lemma strip_pad (x : str) : strip x = x -> strip (SP :: x ++ [SP]) = x.
Proof.
  intros H. unfold strip, lstrip, rstrip in *.
  cbn [drop_while]. change (is_space SP) with true. cbv iota.
  pose proof (drop_while_head is_space x) as Hd.
  destruct (drop_while is_space x) as [|c t] eqn:E.
  - simpl in H. subst x. reflexivity.
  - destruct x as [|c' x']; [discriminate|].
    assert (Sc : is_space c' = false).
    { rewrite <- H in *. rewrite drop_while_end_cons in H.
      destruct (forallb is_space (c :: t)); [discriminate|].
      inversion H; subst. exact Hd. }
    simpl app. rewrite (drop_while_fix is_space c' _ Sc).
    change (c' :: x' ++ [SP]) with ((c' :: x') ++ [SP]).
    rewrite (drop_while_end_all is_space (c' :: x') [SP] eq_refl).
    rewrite (drop_while_fix is_space c' _ Sc) in E. rewrite <- E in H.
    exact H.
Qed.

Lemma existsb_pad (q : char -> bool) (x : str) :
  q SP = false -> existsb q x = false -> existsb q (SP :: x ++ [SP]) = false.
Proof.
  intros Hq Hx. simpl. rewrite existsb_app, Hq, Hx. simpl.
  rewrite Hq. reflexivity.
Qed.

Lemma replace_plain (x new : str) :
  existsb (is_c PIPE) x = false -> replace [PIPE] new x = x.
Proof. apply replace_absent. Qed.

(** The serialized row, without its newline. *)
Lemma rebuild_line_plain (d t l s : str) :
  existsb (is_c PIPE) t = false -> existsb (is_c PIPE) s = false ->
  rebuild_line d t l s
  = (PIPE :: join [PIPE] [SP :: d ++ [SP]; SP :: t ++ [SP]; SP :: l ++ [SP];
                          SP :: s ++ [SP]] ++ [PIPE]) ++ [NL].
Proof.
  intros Ht Hs. unfold rebuild_line.
  rewrite (replace_plain _ _ Ht), (replace_plain _ _ Hs).
  cbn [join]. change (lit "| ") with [PIPE; SP].
  change (lit " | ") with [SP; PIPE; SP]. change (lit " |") with [SP; PIPE].
  repeat (simpl; rewrite <- app_assoc). reflexivity.
Qed.

Lemma strip_row (body : str) :
  strip ((PIPE :: body ++ [PIPE]) ++ [NL]) = PIPE :: body ++ [PIPE].
Proof.
  unfold strip, lstrip, rstrip. simpl app.
  rewrite (drop_while_fix is_space PIPE _ eq_refl).
  change (PIPE :: (body ++ [PIPE]) ++ [NL])
    with ((PIPE :: body ++ [PIPE]) ++ [NL]).
  rewrite (drop_while_end_all is_space _ [NL] eq_refl).
  change (PIPE :: body ++ [PIPE]) with ((PIPE :: body) ++ [PIPE]).
  apply (drop_while_end_keep is_space _ PIPE eq_refl).
Qed.

Lemma join_padded (d t l s : str) :
  join [PIPE] [SP :: d ++ [SP]; SP :: t ++ [SP]; SP :: l ++ [SP];
               SP :: s ++ [SP]]
  = SP :: (d ++ SP :: PIPE :: SP :: t ++ SP :: PIPE :: SP :: l
             ++ SP :: PIPE :: SP :: s) ++ [SP].
Proof. cbn [join]. repeat (simpl; rewrite <- app_assoc). reflexivity. Qed.

Lemma strip_char_row (u : str) :
  strip_char PIPE (PIPE :: (SP :: u ++ [SP]) ++ [PIPE]) = SP :: u ++ [SP].
Proof.
  unfold strip_char. cbn [drop_while app].
  change (N.eqb PIPE PIPE) with true. change (N.eqb PIPE SP) with false.
  cbv iota.
  change (SP :: (u ++ [SP]) ++ [PIPE]) with ((SP :: u ++ [SP]) ++ [PIPE]).
  rewrite (drop_while_end_all (N.eqb PIPE) _ [PIPE] eq_refl).
  change (SP :: u ++ [SP]) with ((SP :: u) ++ [SP]).
  apply (drop_while_end_keep (N.eqb PIPE) _ SP eq_refl).
Qed.

Lemma pads_plain (xs : list str) :
  Forall (fun x => existsb (is_c PIPE) x = false) xs ->
  Forall (fun x => existsb (is_c PIPE) x = false)
         (map (fun x => SP :: x ++ [SP]) xs).
Proof.
  intros H. induction H as [|x xs Hx H IH]; constructor; [|exact IH].
  apply existsb_pad; [reflexivity | exact Hx].
Qed.

(** C2: the writers escape the column delimiter and no reader takes the
    escape back.  For the title [a|b], [rebuild_line] writes [a\|b]; the
    row parser of [parse_markdown_table] splits the line at the escaped
    delimiter, so that the title comes back as [a\], the link column holds
    [b] and the link goes into the summary column: the record is not
    reproduced.  The row that the collector writes for a result with this
    title is read in the same way, and since it has five cells
    [update_papers_md] leaves it out of its work list: the paper is never
    summarised. *)
Theorem table_round_trip_escaped_title :
  rebuild_line (lit "2025-09-26") (lit "a|b")
    (lit "http://arxiv.org/abs/2509.12345") (lit "cell")
  = lit "| 2025-09-26 | a\|b | http://arxiv.org/abs/2509.12345 | cell |"
      ++ [NL]
  /\ parse_row (rebuild_line (lit "2025-09-26") (lit "a|b")
                  (lit "http://arxiv.org/abs/2509.12345") (lit "cell"))
     = Some (lit "2025-09-26", lit "a\", lit "b",
             lit "http://arxiv.org/abs/2509.12345|cell")
  /\ parse_row (rebuild_line (lit "2025-09-26") (lit "a|b")
                  (lit "http://arxiv.org/abs/2509.12345") (lit "cell"))
     <> Some (lit "2025-09-26", lit "a|b",
              lit "http://arxiv.org/abs/2509.12345", lit "cell")
  /\ _format_row
       (Arxiv.Build_Result (Some (lit "2025-09-26")) (Some (lit "a|b"))
          (lit "http://arxiv.org/abs/2509.12345") (lit "cs.RO"))
     = rebuild_line (lit "2025-09-26") (lit "a|b")
         (lit "http://arxiv.org/abs/2509.12345") default_summary_cell
  /\ (exists s,
        parse_row (rebuild_line (lit "2025-09-26") (lit "a|b")
                     (lit "http://arxiv.org/abs/2509.12345")
                     default_summary_cell)
        = Some (lit "2025-09-26", lit "a\", lit "b", s))
  /\ length (parse_table_line
               (rebuild_line (lit "2025-09-26") (lit "a|b")
                  (lit "http://arxiv.org/abs/2509.12345")
                  default_summary_cell)) = 5
  /\ entries_from 0
       [rebuild_line (lit "2025-09-26") (lit "a|b")
          (lit "http://arxiv.org/abs/2509.12345") default_summary_cell]
     = [].
Proof.
  repeat split; try (vm_compute; reflexivity).
  - vm_compute. discriminate.
  - eexists. vm_compute. reflexivity.
Qed.

(** Without the delimiter in its fields the record comes back: for every
    record whose four fields contain no column delimiter and have no
    white space at either end, the row parser of
    [parse_markdown_table] applied to the line built by [rebuild_line]
    gives back the four fields; the record added for the line holds the
    first three and the payload extracted from the fourth. *)
Lemma table_round_trip (d t l s : str) :
  clean d -> clean t -> clean l -> clean s ->
  parse_row (rebuild_line d t l s) = Some (d, t, l, s)
  /\ parse_rows [rebuild_line d t l s]
     = (details_content <- extract_details s ;;
        Done [Paper d t l details_content]).
Proof.
  intros [Pd Sd] [Pt St] [Pl Sl] [Ps Ss].
  assert (R : parse_row (rebuild_line d t l s) = Some (d, t, l, s)); cycle 1.
  { split; [exact R|]. cbn [parse_rows]. rewrite R.
    destruct (extract_details s); reflexivity. }
  rewrite (rebuild_line_plain d t l s Pt Ps). unfold parse_row.
  rewrite strip_row. cbn [startswith negb].
  change (N.eqb PIPE PIPE) with true. cbn [andb negb].
  pose proof (split_join PIPE (SP :: d ++ [SP])
                [SP :: t ++ [SP]; SP :: l ++ [SP]; SP :: s ++ [SP]]
                (pads_plain [d; t; l; s]
                   (Forall_cons _ Pd (Forall_cons _ Pt (Forall_cons _ Pl
                      (Forall_cons _ Ps (Forall_nil _))))))) as J.
  rewrite join_padded in *. rewrite strip_char_row, J.
  cbn [map join]. rewrite !strip_pad by assumption. rewrite Ss.
  reflexivity.
Qed.

Example table_round_trip_plain_title :
  parse_row (rebuild_line (lit "2025-09-26") (lit "A title")
               (lit "http://arxiv.org/abs/2509.12345") default_summary_cell)
  = Some (lit "2025-09-26", lit "A title",
          lit "http://arxiv.org/abs/2509.12345", default_summary_cell).
Proof.
  refine (proj1 (table_round_trip _ _ _ _ _ _ _ _));
    split; vm_compute; reflexivity.
Qed.

(* ===================================================================== *)
(** * Clearing malformed summaries (scripts/clear_summaries.py) *)

Lemma search_from_some (r : re) (rest : str) :
  forall pre m,
    search_from r pre rest = Some m ->
    exists pre' rest', exec r pre' rest' = Some m.
Proof.
  induction rest as [|c rest IH]; intros pre m H; simpl in H.
  - destruct (exec r pre []) eqn:E; [|discriminate].
    inversion H; subst. eauto.
  - destruct (exec r pre (c :: rest)) eqn:E; [inversion H; subst; eauto|].
    eauto.
Qed.

Lemma details_group (pre rest : str) (m : rmatch) :
  exec re_details pre rest = Some m -> exists g, group m 1 = Some g.
Proof.
  intros E. apply exec_sound in E as [rest' [_ S]].
  unfold re_details, cat, LitI, lit in S. simpl in S. sem_inv.
  match goal with H : rm_caps m = _ |- _ => simpl; rewrite H end.
  simpl. eauto.
Qed.

Lemma is_valid_markdown_format_total (cell : str) :
  exists b, is_valid_markdown_format cell = Done b.
Proof.
  unfold is_valid_markdown_format.
  destruct (re_search re_details cell) as [m|] eqn:E; [|eauto].
  apply search_from_some in E as [pre [rest E]].
  destruct (details_group _ _ _ E) as [g G].
  unfold group_str. rewrite G. cbn [bind].
  match goal with |- context [if ?b then _ else _] => destruct b end; eauto.
Qed.

Lemma split_fields (sep : char) (s : str) (y : str) :
  In y (split sep s) -> existsb (is_c sep) y = false.
Proof.
  revert y. induction s as [|c s IH]; intros y H.
  - destruct H as [<-|[]]. reflexivity.
  - simpl in H. destruct (N.eqb c sep) eqn:Hc.
    + destruct H as [<-|H]; [reflexivity | auto].
    + destruct (split sep s) as [|w ws] eqn:E.
      * destruct H as [<-|[]]. simpl. unfold is_c.
        rewrite N.eqb_sym, Hc. reflexivity.
      * destruct H as [<-|H].
        -- simpl. unfold is_c. rewrite N.eqb_sym, Hc. simpl.
           apply IH. left. reflexivity.
        -- apply IH. right. exact H.
Qed.

(** The cells that [parse_table_line] returns are clean, not empty, and
    not the rule of the separator row. *)
Lemma parse_table_line_cells (line x : str) :
  In x (parse_table_line line) ->
  clean x /\ null x = false /\ str_eqb x rule_cell = false.
Proof.
  unfold parse_table_line. intros H.
  apply filter_In in H as [H F]. apply andb_true_iff in F as [F1 F2].
  apply negb_true_iff in F1, F2.
  apply in_map_iff in H as [y [<- Hy]].
  repeat split; auto.
  - apply strip_keeps_absent, (split_fields PIPE _ _ Hy).
  - apply strip_idem.
Qed.

Lemma row_as_join (d t l s : str) :
  PIPE :: join [PIPE] [SP :: d ++ [SP]; SP :: t ++ [SP]; SP :: l ++ [SP];
                       SP :: s ++ [SP]] ++ [PIPE]
  = join [PIPE] [[]; SP :: d ++ [SP]; SP :: t ++ [SP]; SP :: l ++ [SP];
                 SP :: s ++ [SP]; []].
Proof. cbn [join]. repeat (simpl; rewrite <- app_assoc). reflexivity. Qed.

(** Parsing a rebuilt row gives back its cells. *)
Lemma parse_rebuilt (d t l s : str) :
  (forall x, In x [d; t; l; s] ->
     clean x /\ null x = false /\ str_eqb x rule_cell = false) ->
  parse_table_line (rebuild_line d t l s) = [d; t; l; s].
Proof.
  intros H.
  destruct (H d) as [[Pd Sd] [Nd Rd]]; [simpl; auto|].
  destruct (H t) as [[Pt St] [Nt Rt]]; [simpl; auto|].
  destruct (H l) as [[Pl Sl] [Nl Rl]]; [simpl; auto|].
  destruct (H s) as [[Ps Ss] [Ns Rs]]; [simpl; auto 6|].
  rewrite (rebuild_line_plain d t l s Pt Ps). unfold parse_table_line.
  rewrite strip_row, row_as_join.
  pose proof (split_join PIPE []
                [SP :: d ++ [SP]; SP :: t ++ [SP]; SP :: l ++ [SP];
                 SP :: s ++ [SP]; []]) as J.
  unfold str in *. rewrite J.
  - cbn [map]. rewrite !strip_pad by assumption. rewrite strip_nil.
    cbn [filter null negb andb]. rewrite Nd, Rd, Nt, Rt, Nl, Rl, Ns, Rs.
    reflexivity.
  - constructor; [reflexivity|].
    change [SP :: d ++ [SP]; SP :: t ++ [SP]; SP :: l ++ [SP];
            SP :: s ++ [SP]; []]
      with (map (fun x => SP :: x ++ [SP]) [d; t; l; s] ++ [[]]).
    apply Forall_app. split; [|repeat constructor].
    apply pads_plain. repeat constructor; assumption.
Qed.

Lemma default_summary_cell_ok :
  clean default_summary_cell /\ null default_summary_cell = false
  /\ str_eqb default_summary_cell rule_cell = false.
Proof. repeat split; vm_compute; reflexivity. Qed.

(** One line of the body: it is kept, or it is a four-cell row without the
    placeholder whose summary fails the format check, and then it is
    rebuilt from its first three cells and the default cell. *)
Lemma clear_line_spec (line : str) :
  exists out cleared,
    clear_line line = Done (out, cleared)
    /\ ((startswith [PIPE] (strip line) = false
         \/ length (parse_table_line line) <> 4
         \/ (exists d t l s,
               parse_table_line line = [d; t; l; s]
               /\ (contains pending s = true
                   \/ is_valid_markdown_format s = Done true))) ->
        out = line)
    /\ (forall d t l s,
          startswith [PIPE] (strip line) = true ->
          parse_table_line line = [d; t; l; s] ->
          contains pending s = false ->
          is_valid_markdown_format s = Done false ->
          out = rebuild_line d t l default_summary_cell)
    /\ (out = line
        \/ exists d t l s,
             parse_table_line line = [d; t; l; s]
             /\ out = rebuild_line d t l default_summary_cell
             /\ parse_table_line out = [d; t; l; default_summary_cell]).
Proof.
  unfold clear_line.
  destruct (startswith [PIPE] (strip line)) eqn:Hp; cbn [negb];
    [|exists line, false; split; [reflexivity|]; split; [auto|];
      split; [discriminate | auto]].
  destruct (parse_table_line line) as [|d [|t [|l [|s [|x xs]]]]] eqn:Hc;
    try (exists line, false; split; [reflexivity|]; split; [auto|];
         split; [discriminate | auto]).
  destruct (contains pending s) eqn:Hs.
  { exists line, false. split; [reflexivity|]. split; [auto|].
    split; [|auto]. intros d' t' l' s' _ E A. inversion E; subst.
    congruence. }
  destruct (is_valid_markdown_format_total s) as [[|] Hv]; rewrite Hv;
    cbn [bind negb].
  { exists line, false. split; [reflexivity|]. split; [auto|].
    split; [|auto]. intros d' t' l' s' _ E _ A. inversion E; subst.
    rewrite A in Hv. discriminate. }
  exists (rebuild_line d t l default_summary_cell), true.
  split; [reflexivity|]. split; [|split].
  - intros [A | [A | [d' [t' [l' [s' [E [A | A]]]]]]]].
    + discriminate.
    + simpl in A. congruence.
    + inversion E; subst. congruence.
    + inversion E; subst. rewrite A in Hv. discriminate.
  - intros d' t' l' s' _ E _ _. inversion E; subst. reflexivity.
  - right. exists d, t, l, s. split; [reflexivity|]. split; [reflexivity|].
    apply parse_rebuilt. intros x Hx.
    destruct Hx as [<-|[<-|[<-|[<-|[]]]]];
      [apply (parse_table_line_cells line); rewrite Hc; simpl; auto ..
      |apply default_summary_cell_ok].
Qed.

Lemma clear_body_spec (body : list str) :
  forall count,
    exists out count',
      clear_body body count = Done (out, count')
      /\ length out = length body
      /\ forall i line, nth_error body i = Some line ->
           exists o c, clear_line line = Done (o, c)
                       /\ nth_error out i = Some o.
Proof.
  induction body as [|line body IH]; intros count.
  - exists [], count. split; [reflexivity|]. split; [reflexivity|].
    intros [|i] line H; discriminate.
  - destruct (clear_line_spec line) as [o [c [Hl _]]].
    destruct (IH (if c then count + 1 else count))
      as [out [count' [Hb [Hlen Hnth]]]].
    exists (o :: out), count'. cbn [clear_body]. rewrite Hl.
    cbn [bind fst snd]. rewrite Hb. cbn [bind fst snd].
    split; [reflexivity|]. split; [simpl; congruence|].
    intros [|i] line' H; simpl in H.
    + inversion H; subst. exists o, c. auto.
    + apply Hnth, H.
Qed.

(** C10: [clear_all_summaries] returns, and it keeps the two header lines
    and every body line that does not start with [|] once stripped, or
    does not parse into exactly four cells, or whose summary cell holds
    the placeholder, or whose summary passes the format check; any other
    row is rebuilt from its own date, title and link with the default
    placeholder cell as its fourth field. *)
Theorem clear_all_summaries_frame (lines : list str) (i : nat) (line : str) :
  2 <= i -> nth_error lines i = Some line ->
  exists out count,
    clear_all_summaries lines = Done (out, count)
    /\ firstn 2 out = firstn 2 lines
    /\ length out = length lines
    /\ ((startswith [PIPE] (strip line) = false
         \/ length (parse_table_line line) <> 4
         \/ (exists d t l s,
               parse_table_line line = [d; t; l; s]
               /\ (contains pending s = true
                   \/ is_valid_markdown_format s = Done true))) ->
        nth_error out i = Some line)
    /\ (forall d t l s,
          startswith [PIPE] (strip line) = true ->
          parse_table_line line = [d; t; l; s] ->
          contains pending s = false ->
          is_valid_markdown_format s = Done false ->
          nth_error out i = Some (rebuild_line d t l default_summary_cell))
    /\ (nth_error out i = Some line
        \/ exists d t l s,
             parse_table_line line = [d; t; l; s]
             /\ nth_error out i
                = Some (rebuild_line d t l default_summary_cell)
             /\ parse_table_line (rebuild_line d t l default_summary_cell)
                = [d; t; l; default_summary_cell]).
Proof.
  intros Hi Hl. unfold clear_all_summaries.
  assert (Hlen : 2 <= length lines).
  { assert (i < length lines) by (apply nth_error_Some; congruence). lia. }
  assert (E : (length lines <? 2) = false) by (apply Nat.ltb_ge; exact Hlen).
  rewrite E.
  destruct (clear_body_spec (skipn 2 lines) 0)
    as [body' [count' [Hb [Hblen Hnth]]]].
  rewrite Hb. cbn [bind fst snd].
  exists (firstn 2 lines ++ body'), count'. split; [reflexivity|].
  assert (Hf : length (firstn 2 lines) = 2) by (rewrite length_firstn; lia).
  assert (Hi' : nth_error (skipn 2 lines) (i - 2) = Some line).
  { rewrite nth_error_skipn. replace (2 + (i - 2)) with i by lia. exact Hl. }
  destruct (Hnth _ _ Hi') as [o [c [Hc Ho]]].
  assert (Hout : nth_error (firstn 2 lines ++ body') i = Some o).
  { rewrite nth_error_app2, Hf; [exact Ho | lia]. }
  destruct (clear_line_spec line) as [o' [c' [Hc' [Hkeep [Hnew Hcases]]]]].
  rewrite Hc in Hc'. inversion Hc'; subst o' c'.
  unfold str in *.
  split; [|split; [|split; [|split]]].
  - rewrite firstn_app, Hf, Nat.sub_diag, firstn_firstn.
    cbn [firstn Nat.min]. apply app_nil_r.
  - rewrite length_app, Hf, Hblen, length_skipn. lia.
  - intros A. rewrite Hout, (Hkeep A). reflexivity.
  - intros d t l s A B C D. rewrite Hout, (Hnew d t l s A B C D).
    reflexivity.
  - destruct Hcases as [-> | [d [t [l [s [P [-> Q]]]]]]]; [left; exact Hout|].
    right. exists d, t, l, s. auto.
Qed.

Lemma clear_all_summaries_frame_witness :
  exists out count,
    clear_all_summaries
      [lit "| h |"; lit "| --- |";
       rebuild_line (lit "2025-09-26") (lit "T") (lit "http://x")
         (lit "<details>no heading</details>")] = Done (out, count)
    /\ nth_error out 2
       = Some (rebuild_line (lit "2025-09-26") (lit "T") (lit "http://x")
                 default_summary_cell).
Proof.
  destruct (clear_all_summaries_frame
              [lit "| h |"; lit "| --- |";
               rebuild_line (lit "2025-09-26") (lit "T") (lit "http://x")
                 (lit "<details>no heading</details>")]
              2
              (rebuild_line (lit "2025-09-26") (lit "T") (lit "http://x")
                 (lit "<details>no heading</details>")))
    as [out [count [R [_ [_ [_ [N _]]]]]]].
  - lia.
  - reflexivity.
  - exists out, count. split; [exact R|].
    apply (N (lit "2025-09-26") (lit "T") (lit "http://x")
             (lit "<details>no heading</details>"));
      vm_compute; reflexivity.
Defined.

(* ===================================================================== *)
(** * Heading sites *)

Arguments text_char : simpl never.

Lemma heading_break_shape (pre rest : str) (m : rmatch) :
  exec re_heading_break pre rest = Some m ->
  exists X W H sp b,
    rest = X :: W ++ H ++ sp :: b /\ m = RMatch (X :: W) [(1, [X])]
    /\ text_char X = true /\ forallb is_space W = true
    /\ forallb (is_c HASH) H = true /\ 1 <= length H
    /\ is_space sp = true.
Proof.
  intros E. apply exec_sound in E as [rest' [Er S]].
  unfold re_heading_break, cat in S. simpl in S. sem_inv.
  match goal with
  | Ht : rm_text m = [?X] ++ ?W ++ [] ++ [],
    Hr : [] ++ rest' = (?h ++ [?sp] ++ []) ++ ?b,
    Hc : rm_caps m = _ |- _ =>
      exists X, W, h, sp, b; destruct m as [txt caps]; simpl in Ht, Hr, Hc;
      rewrite app_nil_r in Ht; subst txt caps rest'
  end.
  simpl. rewrite <- !app_assoc. simpl. fold text_char in *.
  repeat split; auto.
Qed.

Lemma heading_break_exec (pre : str) (X : char) (W H : str) (sp : char)
    (b : str) :
  text_char X = true -> forallb is_space W = true ->
  forallb (is_c HASH) H = true -> 1 <= length H -> is_space sp = true ->
  exec re_heading_break pre (X :: W ++ H ++ sp :: b)
  = Some (RMatch (X :: W) [(1, [X])]).
Proof.
  intros HX HW HH LH Hsp.
  assert (Hh : exists h H', H = h :: H' /\ is_c HASH h = true).
  { apply run_head; assumption. }
  destruct Hh as [h [H' [EH Hh]]].
  assert (Sh : is_space h = false).
  { apply is_c_eq in Hh. subst h. reflexivity. }
  unfold exec, re_heading_break, cat, star, plus.
  cbn [fold_right run m_pre m_rest m_caps].
  fold text_char. rewrite HX. cbn [m_pre m_rest m_caps].
  rewrite (rep_greedy_longest is_space W (H ++ sp :: b) 0 None (X :: pre)
             [(1, consumed (MState pre (X :: W ++ H ++ sp :: b) [])
                    (MState (X :: pre) (W ++ H ++ sp :: b) []))] _
             (MState (rev W ++ X :: pre) (H ++ sp :: b) [(1, [X])])).
  - cbn [m_pre m_caps].
    replace (rev W ++ X :: pre) with (rev (X :: W) ++ pre)
      by (simpl; rewrite <- app_assoc; reflexivity).
    rewrite last_read_app. reflexivity.
  - exact HW.
  - lia.
  - exact I.
  - subst H. left. exact Sh.
  - unfold consumed. cbn [m_pre].
    change (X :: pre) with (rev [X] ++ pre). rewrite last_read_app.
    cbn [run m_pre m_rest m_caps].
    rewrite (rep_greedy_longest (is_c HASH) H (sp :: b) 1 None
               (rev W ++ rev [X] ++ pre) [(1, [X])] _
               (MState (sp :: rev H ++ rev W ++ rev [X] ++ pre) b
                       [(1, [X])])); auto.
    + exact I.
    + left. unfold is_c. destruct (N.eqb_spec HASH sp) as [<-|]; 
        [discriminate | reflexivity].
    + cbn [run m_pre m_rest m_caps]. rewrite Hsp. reflexivity.
Qed.

Lemma heading_break_skips (pre : str) (c : char) (rest : str) :
  text_char c = false -> exec re_heading_break pre (c :: rest) = None.
Proof.
  intros H. unfold exec, re_heading_break, cat.
  cbn [fold_right run m_pre m_rest m_caps]. fold text_char. rewrite H.
  reflexivity.
Qed.

Lemma hb_out_shape (X : char) (W : str) :
  hb_out (RMatch (X :: W) [(1, [X])]) = [X; NL].
Proof. reflexivity. Qed.

(** On a settled text the heading rule replaces every match by itself. *)
Lemma heading_break_fixed (t : str) :
  settled t -> re_sub re_heading_break [TRef 1; TLit [NL]] t = t.
Proof.
  intros St. unfold re_sub, re_sub_with.
  assert (G : forall pre rest,
             rev pre ++ rest = t ->
             sub_from re_heading_break hb_out pre rest = rest).
  { apply (sub_from_ind re_heading_break hb_out
             (fun pre rest out => rev pre ++ rest = t -> out = rest)).
    - exact heading_break_never_empty.
    - reflexivity.
    - intros pre c rest _ IH E. f_equal. apply IH.
      simpl. rewrite <- app_assoc. exact E.
    - intros pre m rest E IH Et.
      destruct (heading_break_shape _ _ _ E)
        as [X [W [H [sp [b [Er [Em [HX [HW [HH [LH Hsp]]]]]]]]]]].
      subst m. cbn [rm_text] in *.
      assert (W = [NL]).
      { apply (St (rev pre) ((X :: W) ++ rest) W);
          [symmetry; exact Et|].
        exists X, H, sp, b. rewrite Er. repeat split; auto. }
      subst W. rewrite hb_out_shape. simpl. f_equal. f_equal.
      apply IH. rewrite rev_app_distr, <- app_assoc. exact Et. }
  apply (G [] t). reflexivity.
Qed.

(** Characters that cannot begin a match are copied. *)
Lemma heading_break_copy (f : rmatch -> str) (v : str) :
  forallb (fun c => negb (text_char c)) v = true ->
  forall pre rest,
    sub_from re_heading_break f pre (v ++ rest)
    = v ++ sub_from re_heading_break f (rev v ++ pre) rest.
Proof.
  induction v as [|c v IH]; intros F pre rest; [reflexivity|].
  simpl in F. apply andb_true_iff in F as [Hc Hv].
  apply negb_true_iff in Hc. simpl app.
  rewrite (sub_from_keep _ _ _ _ _ (heading_break_skips pre c _ Hc)).
  rewrite (IH Hv), <- app_assoc. reflexivity.
Qed.

(** A result that begins with such characters comes from a text that
    begins with them. *)
Lemma heading_break_copied (v : str) :
  forallb (fun c => negb (text_char c)) v = true ->
  forall pre rest o,
    sub_from re_heading_break hb_out pre rest = v ++ o ->
    exists rest1,
      rest = v ++ rest1
      /\ o = sub_from re_heading_break hb_out (rev v ++ pre) rest1.
Proof.
  induction v as [|c v IH]; intros F pre rest o E.
  - exists rest. auto.
  - simpl in F. apply andb_true_iff in F as [Hc Hv].
    apply negb_true_iff in Hc.
    destruct (exec re_heading_break pre rest) as [m|] eqn:X.
    + destruct (heading_break_shape _ _ _ X)
        as [X0 [W [H [sp [b [Er [Em [HX _]]]]]]]].
      subst m. 
      assert (Er' : rest = rm_text (RMatch (X0 :: W) [(1, [X0])])
                            ++ (H ++ sp :: b)) by exact Er.
      rewrite Er' in X, E.
      rewrite (sub_from_hit _ _ _ _ _ X) in E by discriminate.
      rewrite hb_out_shape in E. simpl in E. inversion E; subst.
      congruence.
    + destruct rest as [|c' rest].
      * rewrite (sub_from_nil _ _ _ X) in E. discriminate.
      * rewrite (sub_from_keep _ _ _ _ _ X) in E. simpl in E.
        inversion E; subst c'.
        match goal with H : sub_from _ _ _ _ = v ++ o |- _ =>
          apply (IH Hv) in H as [rest1 [-> ->]] end.
        exists rest1. simpl. rewrite <- app_assoc. auto.
Qed.

Lemma not_text_space (c : char) : is_space c = true -> text_char c = false.
Proof.
  unfold text_char, not_in. simpl. intros ->.
  rewrite orb_true_r. reflexivity.
Qed.

Lemma not_text_hash (c : char) : is_c HASH c = true -> text_char c = false.
Proof.
  unfold text_char, not_in. simpl. intros ->.
  rewrite !orb_true_r. reflexivity.
Qed.

Lemma run_not_text (p : char -> bool) (w : str) :
  (forall c, p c = true -> text_char c = false) ->
  forallb p w = true -> forallb (fun c => negb (text_char c)) w = true.
Proof.
  intros H. induction w as [|c w IH]; [reflexivity|]. simpl. intros F.
  apply andb_true_iff in F as [Hc Hw]. rewrite (H c Hc), (IH Hw).
  reflexivity.
Qed.

(** A gap made of white space and followed by [#] is determined by the
    text. *)
Lemma gap_unique (W W' : str) (h h' : char) (t t' : str) :
  forallb is_space W = true -> forallb is_space W' = true ->
  is_space h = false -> is_space h' = false ->
  W ++ h :: t = W' ++ h' :: t' -> W = W'.
Proof.
  revert W'. induction W as [|c W IH]; intros W' F F' Hh Hh' E.
  - destruct W' as [|c' W']; [reflexivity|]. simpl in *.
    inversion E; subst. apply andb_true_iff in F' as [F' _]. congruence.
  - destruct W' as [|c' W'].
    + simpl in *. inversion E; subst. apply andb_true_iff in F as [F _].
      congruence.
    + simpl in *. inversion E; subst.
      apply andb_true_iff in F as [_ F]. apply andb_true_iff in F' as [_ F'].
      f_equal. eapply IH; eauto.
Qed.

Lemma text_char_nl : text_char NL = false.
Proof. reflexivity. Qed.

(** After the heading rule every heading site has a single newline as its
    gap. *)
Lemma heading_break_settles (s : str) :
  settled (re_sub re_heading_break [TRef 1; TLit [NL]] s).
Proof.
  unfold re_sub, re_sub_with.
  apply (sub_from_ind re_heading_break hb_out
           (fun _ _ out => settled out)).
  - exact heading_break_never_empty.
  - intros _ a u W E [X [H [sp [b [Eu _]]]]]. subst u.
    destruct a; discriminate.
  - intros pre c rest E IH a u W Ea Su.
    destruct a as [|c' a]; [|inversion Ea; subst; eapply IH; eauto].
    simpl in Ea. subst u.
    destruct Su as [X [H [sp [b [Eu [HX [HW [HH [LH Hsp]]]]]]]]].
    inversion Eu as [[EX Eo]]. subst c. exfalso.
    assert (F : forallb (fun c => negb (text_char c)) (W ++ H ++ [sp]) = true).
    { rewrite !forallb_app.
      rewrite (run_not_text is_space W not_text_space HW).
      rewrite (run_not_text (is_c HASH) H not_text_hash HH).
      simpl. rewrite (not_text_space sp Hsp). reflexivity. }
    replace (W ++ H ++ sp :: b) with ((W ++ H ++ [sp]) ++ b) in Eo
      by (rewrite <- !app_assoc; reflexivity).
    apply (heading_break_copied _ F) in Eo as [rest1 [Er _]].
    rewrite Er in E. rewrite <- !app_assoc in E. simpl in E.
    rewrite (heading_break_exec pre X W H sp rest1 HX HW HH LH Hsp) in E.
    discriminate.
  - intros pre m rest E IH a u W Ea Su.
    destruct (heading_break_shape _ _ _ E)
      as [X [W0 [H0 [sp0 [b0 [Er [Em [HX [HW [HH [LH Hsp]]]]]]]]]]].
    subst m. cbn [rm_text] in *. simpl in Er. inversion Er as [Er'].
    apply app_inv_head in Er'. rewrite hb_out_shape in Ea.
    remember (sub_from re_heading_break hb_out (rev (X :: W0) ++ pre) rest)
      as out' eqn:Eout.
    assert (C : exists o2, out' = HASH :: o2).
    { destruct (run_head _ _ HH LH) as [h [H0' [-> Hh]]].
      apply is_c_eq in Hh. subst h.
      rewrite Eout, Er', heading_break_copy
        by (apply (run_not_text (is_c HASH) _ not_text_hash HH)).
      simpl. eauto. }
    destruct C as [o2 ->]. clear Eout.
    destruct a as [|x [|y a]]; cbn [app] in Ea.
    + subst u.
      destruct Su as [X1 [H1 [sp1 [b1 [Eu [HX1 [HW1 [HH1 [LH1 Hsp1]]]]]]]]].
      inversion Eu as [[EX Eo]].
      destruct (run_head _ _ HH1 LH1) as [h1 [H1' [-> Hh1]]].
      apply is_c_eq in Hh1. subst h1.
      symmetry.
      apply (gap_unique [NL] W HASH HASH o2 (H1' ++ sp1 :: b1)); auto.
    + inversion Ea; subst. destruct Su as [X1 [H1 [sp1 [b1 [Eu [HX1 _]]]]]].
      inversion Eu; subst. rewrite text_char_nl in HX1. discriminate.
    + inversion Ea; subst. eapply IH; eauto.
Qed.

(* ===================================================================== *)
(** * Blank-line collapsing keeps the heading sites settled *)


Lemma blank_hit_shape (pre rest : str) (m : rmatch) :
  exec re_blank_lines pre rest = Some m ->
  two_nl m = [NL; NL] /\ forallb (is_c NL) (rm_text m) = true
  /\ 3 <= length (rm_text m).
Proof.
  intros E. apply exec_sound in E as [rest' [_ S]].
  simpl in S. destruct S as [[F [L _]] _]. auto.
Qed.

(** A character other than the newline at the head of the result is the
    head of the text. *)
Lemma blank_copied (pre rest : str) (c : char) (o : str) :
  N.eqb NL c = false ->
  sub_from re_blank_lines two_nl pre rest = c :: o ->
  exists rest1,
    rest = c :: rest1 /\ o = sub_from re_blank_lines two_nl (c :: pre) rest1.
Proof.
  intros Hc E.
  destruct (exec re_blank_lines pre rest) as [m|] eqn:X.
  - pose proof X as X'. apply exec_sound in X' as [rest' [Er _]].
    destruct (blank_hit_shape _ _ _ X) as [Ef [F L]].
    rewrite Er in X, E.
    rewrite (sub_from_hit _ _ _ _ _ X) in E
      by (destruct (rm_text m); [simpl in L; lia | discriminate]).
    rewrite Ef in E. inversion E; subst. rewrite N.eqb_refl in Hc.
    discriminate.
  - destruct rest as [|c' rest].
    + rewrite (sub_from_nil _ _ _ X) in E. discriminate.
    + rewrite (sub_from_keep _ _ _ _ _ X) in E. inversion E; subst. eauto.
Qed.

Lemma blank_copied_run (v : str) :
  forallb (is_c HASH) v = true ->
  forall pre rest o,
    sub_from re_blank_lines two_nl pre rest = v ++ o ->
    exists rest1 pre1,
      rest = v ++ rest1 /\ o = sub_from re_blank_lines two_nl pre1 rest1.
Proof.
  induction v as [|c v IH]; intros F pre rest o E;
    [exists rest, pre; split; [reflexivity | symmetry; exact E]|].
  simpl in F. apply andb_true_iff in F as [Hc Hv].
  apply is_c_eq in Hc. subst c.
  apply blank_copied in E as [rest1 [-> E]]; [|reflexivity].
  symmetry in E. apply (IH Hv) in E as [rest2 [pre2 [-> ->]]].
  exists rest2, pre2. split; reflexivity.
Qed.

(** White space at the head of the result comes from white space at the
    head of the text. *)
Lemma blank_head_space (pre rest : str) (c : char) (o : str) :
  is_space c = true ->
  sub_from re_blank_lines two_nl pre rest = c :: o ->
  exists c' rest1, rest = c' :: rest1 /\ is_space c' = true.
Proof.
  intros Hc E.
  destruct (exec re_blank_lines pre rest) as [m|] eqn:X.
  - apply blank_exec_sound in X as [L _]. apply lead_triple in L.
    destruct rest as [|c' rest1]; [discriminate|].
    cbn [startswith] in L. apply andb_true_iff in L as [L _].
    apply N.eqb_eq in L. subst c'. exists NL, rest1. auto.
  - destruct rest as [|c' rest].
    + rewrite (sub_from_nil _ _ _ X) in E. discriminate.
    + rewrite (sub_from_keep _ _ _ _ _ X) in E. inversion E; subst. eauto.
Qed.

(** The gap before a character of the result comes from a gap of the
    text, and a gap of a single newline is copied. *)
Lemma blank_gap :
  forall pre rest,
    forall W h o,
      sub_from re_blank_lines two_nl pre rest = W ++ h :: o ->
      forallb is_space W = true -> is_space h = false ->
      exists W' rest1 pre1,
        rest = W' ++ h :: rest1 /\ forallb is_space W' = true
        /\ o = sub_from re_blank_lines two_nl pre1 rest1
        /\ (W' = [] -> W = []) /\ (W' = [NL] -> W = [NL]).
Proof.
  apply (sub_from_ind re_blank_lines two_nl
           (fun _ rest out =>
              forall W h o,
                out = W ++ h :: o ->
                forallb is_space W = true -> is_space h = false ->
                exists W' rest1 pre1,
                  rest = W' ++ h :: rest1 /\ forallb is_space W' = true
                  /\ o = sub_from re_blank_lines two_nl pre1 rest1
                  /\ (W' = [] -> W = []) /\ (W' = [NL] -> W = [NL]))).
  - exact blank_never_empty.
  - intros _ W h o E. destruct W; discriminate.
  - intros pre c rest _ IH W h o E FW Hh.
    destruct W as [|c1 W1]; simpl in E; inversion E; subst.
    + exists [], rest. eexists. simpl.
      repeat split; auto; discriminate.
    + simpl in FW. apply andb_true_iff in FW as [Hc1 FW1].
      match goal with H : sub_from _ _ _ _ = W1 ++ h :: o |- _ =>
        destruct (IH W1 h o H FW1 Hh)
          as [W' [rest1 [pre1 [Er [FW' [Eo [I0 I1]]]]]]] end.
      exists (c1 :: W'), rest1, pre1. simpl. rewrite Hc1, FW', Er.
      repeat split; auto; try discriminate.
      intros A. inversion A; subst. rewrite (I0 eq_refl). reflexivity.
  - intros pre m rest E IH W h o Eo FW Hh.
    destruct (blank_hit_shape _ _ _ E) as [Ef [F L]]. rewrite Ef in Eo.
    destruct W as [|c1 [|c2 W2]]; simpl in Eo; inversion Eo; subst;
      try discriminate.
    simpl in FW.
    match goal with H : sub_from _ _ _ _ = W2 ++ h :: o |- _ =>
      destruct (IH W2 h o H FW Hh)
        as [W' [rest1 [pre1 [Er [FW' [Eo' [I0 I1]]]]]]] end.
    exists (rm_text m ++ W'), rest1, pre1.
    rewrite forallb_app, (nl_is_space _ F), FW', <- app_assoc, Er.
    repeat split; auto.
    + intros A. destruct (rm_text m); [simpl in L; lia | discriminate].
    + intros A. apply (f_equal (@length char)) in A.
      rewrite length_app in A. simpl in A. lia.
Qed.

Lemma collapse_settled (t : str) :
  settled t -> settled (re_sub re_blank_lines [TLit [NL; NL]] t).
Proof.
  intros St. unfold re_sub, re_sub_with.
  assert (G : forall pre rest,
             rev pre ++ rest = t ->
             settled (sub_from re_blank_lines two_nl pre rest)).
  { apply (sub_from_ind re_blank_lines two_nl
             (fun pre rest out => rev pre ++ rest = t -> settled out)).
    - exact blank_never_empty.
    - intros _ _ a u W E [X [H [sp [b [Eu _]]]]]. subst u.
      destruct a; discriminate.
    - intros pre c rest E IH Et a u W Ea Su.
      destruct a as [|c' a].
      2:{ inversion Ea; subst. eapply IH; eauto.
          simpl. rewrite <- app_assoc. reflexivity. }
      simpl in Ea. subst u.
      destruct Su as [X [H [sp [b [Eu [HX [HW [HH [LH Hsp]]]]]]]]].
      inversion Eu as [[EX Eo]]. subst c.
      destruct (run_head _ _ HH LH) as [h [H' [-> Hh]]].
      apply is_c_eq in Hh. subst h.
      simpl in Eo.
      destruct (blank_gap _ _ W HASH (H' ++ sp :: b) Eo HW eq_refl)
        as [W' [rest1 [pre1 [Er [FW' [Eo' [_ I1]]]]]]].
      simpl in HH. symmetry in Eo'.
      destruct (blank_copied_run H' HH _ _ _ Eo')
        as [rest2 [pre2 [Er2 Eo2]]].
      symmetry in Eo2.
      destruct (blank_head_space _ _ _ _ Hsp Eo2)
        as [sp' [rest3 [Er3 Hsp']]].
      apply I1. apply (St (rev pre) (X :: rest) W'); [symmetry; exact Et|].
      exists X, (HASH :: H'), sp', rest3.
      rewrite Er, Er2, Er3. repeat split; auto.
    - intros pre m rest E IH Et a u W Ea Su.
      destruct (blank_hit_shape _ _ _ E) as [Ef _]. rewrite Ef in Ea.
      destruct a as [|x [|y a]]; cbn [app] in Ea.
      + subst u. destruct Su as [X [H [sp [b [Eu [HX _]]]]]].
        inversion Eu; subst. rewrite text_char_nl in HX. discriminate.
      + inversion Ea; subst. destruct Su as [X [H [sp [b [Eu [HX _]]]]]].
        inversion Eu; subst. rewrite text_char_nl in HX. discriminate.
      + inversion Ea; subst. eapply IH; eauto.
        rewrite rev_app_distr, rev_involutive, <- app_assoc. reflexivity. }
  apply (G [] t). reflexivity.
Qed.

Lemma strip_settled (t : str) : settled t -> settled (strip t).
Proof.
  intros St a u W Ea [X [H [sp [b [Eu R]]]]].
  destruct (strip_split t) as [a0 [b0 [E _]]].
  apply (St (a0 ++ a) (u ++ b0) W).
  - rewrite E at 1. rewrite Ea, <- !app_assoc. reflexivity.
  - exists X, H, sp, (b ++ b0). split; [|exact R].
    rewrite Eu. simpl. rewrite <- !app_assoc. reflexivity.
Qed.

(* ===================================================================== *)
(** * No rule token appears *)

Lemma startswith_cons (y0 : char) (y : str) (c : char) (s : str) :
  startswith (y0 :: y) (c :: s) = N.eqb y0 c && startswith y s.
Proof. reflexivity. Qed.

(** A replacement of the form "first character of the match, newline"
    creates no occurrence of [---]. *)
Lemma sub_no_rule (r : re) (f : rmatch -> str) :
  never_empty r ->
  (forall pre rest m,
      exec r pre rest = Some m ->
      exists c0 w, f m = [c0; NL] /\ rm_text m = c0 :: w) ->
  forall s, contains dash3 s = false ->
            contains dash3 (re_sub_with r f s) = false.
Proof.
  intros Hne Hf s Hs. unfold re_sub_with.
  assert (G :
    forall pre rest,
      (forall y, forallb (fun c => negb (is_space c)) y = true ->
                 startswith y (sub_from r f pre rest) = true ->
                 startswith y rest = true)
      /\ (contains dash3 (sub_from r f pre rest) = true ->
          contains dash3 rest = true)).
  { apply (sub_from_ind r f
             (fun _ rest out =>
                (forall y, forallb (fun c => negb (is_space c)) y = true ->
                           startswith y out = true -> startswith y rest = true)
                /\ (contains dash3 out = true -> contains dash3 rest = true))).
    - exact Hne.
    - intros _. split; auto.
    - intros pre c rest _ [IH1 IH2]. split.
      + intros [|y0 y] Fy Sy; [reflexivity|].
        rewrite startswith_cons in *. simpl in Fy.
        apply andb_true_iff in Fy as [_ Fy].
        apply andb_true_iff in Sy as [-> Sy]. simpl. auto.
      + intros C. cbn [contains] in C |- *.
        apply orb_true_iff in C as [C|C].
        * unfold dash3 in C |- *. rewrite startswith_cons in C |- *.
          apply andb_true_iff in C as [-> C].
          rewrite (IH1 [DASH; DASH] eq_refl C). reflexivity.
        * rewrite (IH2 C). apply orb_true_r.
    - intros pre m rest E [IH1 IH2].
      destruct (Hf _ _ _ E) as [c0 [w [Ef Et]]]. rewrite Ef.
      rewrite Et in *. split.
      + intros [|y0 [|y1 y]] Fy Sy; [reflexivity| |].
        * cbn [app] in Sy |- *. rewrite startswith_cons in Sy |- *.
          apply andb_true_iff in Sy as [-> _]. reflexivity.
        * exfalso. cbn [app] in Sy. rewrite !startswith_cons in Sy.
          cbn [forallb] in Fy.
          apply andb_true_iff in Sy as [_ Sy].
          apply andb_true_iff in Sy as [Sy _].
          apply N.eqb_eq in Sy. subst y1.
          apply andb_true_iff in Fy as [_ Fy].
          apply andb_true_iff in Fy as [Fy _]. discriminate.
      + intros C. apply contains_app_l. apply IH2.
        cbn [app contains] in C.
        replace (startswith dash3 (c0 :: NL :: sub_from r f
                   (rev (c0 :: w) ++ pre) rest)) with false in C
          by (unfold dash3; simpl; rewrite andb_false_r; reflexivity).
        replace (startswith dash3 (NL :: sub_from r f
                   (rev (c0 :: w) ++ pre) rest)) with false in C
          by reflexivity.
        simpl in C. exact C. }
  destruct (contains dash3 (sub_from r f [] s)) eqn:C; [|reflexivity].
  apply (proj2 (G [] s)) in C. congruence.
Qed.

Lemma heading_break_no_rule (s : str) :
  contains dash3 s = false ->
  contains dash3 (re_sub re_heading_break [TRef 1; TLit [NL]] s) = false.
Proof.
  apply (sub_no_rule re_heading_break hb_out heading_break_never_empty).
  intros pre rest m E.
  destruct (heading_break_shape _ _ _ E) as [X [W [H [sp [b [_ [-> _]]]]]]].
  exists X, W. split; reflexivity.
Qed.

Lemma collapse_no_rule (s : str) :
  contains dash3 s = false ->
  contains dash3 (re_sub re_blank_lines [TLit [NL; NL]] s) = false.
Proof.
  apply (sub_no_rule re_blank_lines two_nl blank_never_empty).
  intros pre rest m E. destruct (blank_hit_shape _ _ _ E) as [Ef [F L]].
  destruct (run_head _ _ F) as [c [w [Ew Hc]]]; [lia|].
  apply is_c_eq in Hc. subst c. exists NL, w. auto.
Qed.

Lemma strip_no_rule (s : str) :
  contains dash3 s = false -> contains dash3 (strip s) = false.
Proof.
  intros H. destruct (contains dash3 (strip s)) eqn:C; [|reflexivity].
  apply contains_strip in C. congruence.
Qed.

Lemma rule_inline_needs_rule (pre rest : str) (m : rmatch) :
  exec re_rule_inline pre rest = Some m -> contains dash3 rest = true.
Proof.
  intros E. apply exec_sound in E as [rest' [-> S]].
  unfold re_rule_inline, cat, Lit, lit in S. simpl in S. sem_inv.
  repeat match goal with H : is_c 45%N _ = true |- _ =>
    apply is_c_eq in H end.
  subst. match goal with H : rm_text m = _ |- _ => rewrite H end.
  simpl app. rewrite <- !app_assoc.
  apply (contains_app_l dash3 [_]), contains_app_l.
  reflexivity.
Qed.

Lemma rule_inline_plain (t : str) :
  contains dash3 t = false ->
  re_sub re_rule_inline [TRef 1; TLit rule_line; TRef 2] t = t.
Proof.
  intros H. apply sub_from_none. intros a b E.
  destruct (exec re_rule_inline (rev a ++ []) b) as [m|] eqn:X;
    [|reflexivity].
  apply rule_inline_needs_rule in X.
  rewrite E, (contains_app_l _ a b X) in H. discriminate.
Qed.

(* ===================================================================== *)
(** * Idempotence of the recoverer *)

(** A text with its newline only at the end is first just stripped, and
    the list rule then fires on the second pass. *)
Lemma auto_add_linebreaks_second_pass_differs :
  auto_add_linebreaks (lit "a - b" ++ [NL]) = Done (lit "a - b")
  /\ auto_add_linebreaks (lit "a - b") = Done (lit "a" ++ [NL] ++ lit "- b")
  /\ (r <- auto_add_linebreaks (lit "a - b" ++ [NL]) ;; auto_add_linebreaks r)
     <> auto_add_linebreaks (lit "a - b" ++ [NL]).
Proof.
  split; [|split]; vm_compute; [reflexivity | reflexivity | discriminate].
Qed.

(** On a marker-free text the second pass changes nothing. *)
Lemma auto_add_linebreaks_plain_fixed (s r : str) :
  existsb marker s = false ->
  auto_add_linebreaks s = Done r -> auto_add_linebreaks r = Done r.
Proof.
  intros H E.
  destruct (auto_add_linebreaks_normal_form s) as [r0 [E0 [T [_ _]]]].
  rewrite E in E0. inversion E0; subst r0.
  apply auto_add_linebreaks_fixed; [|exact T|].
  - revert E. unfold auto_add_linebreaks.
    destruct (contains [NL] s) eqn:N.
    + rewrite (normalize_linebreaks_quiet s H). simpl. intros E.
      inversion E. apply strip_keeps_absent, collapse_keeps_absent;
        [reflexivity | exact H].
    + rewrite (recover_linebreaks_quiet s H N). simpl. intros E.
      inversion E. apply strip_keeps_absent, H.
  - destruct (auto_add_linebreaks_done s) as [t E'].
    rewrite E in E'. inversion E'. apply strip_idem.
Qed.

(** A text with its newlines and without the rule token: when the result
    still has a newline, the second pass takes the same branch and finds
    every heading already on its own line. *)
Lemma auto_add_linebreaks_settled_fixed (s r : str) :
  contains [NL] s = true -> contains dash3 s = false ->
  auto_add_linebreaks s = Done r -> contains [NL] r = true ->
  auto_add_linebreaks r = Done r.
Proof.
  intros Hn Hd E Hr. unfold auto_add_linebreaks in E. rewrite Hn in E.
  simpl in E. unfold normalize_linebreaks in E.
  pose proof (heading_break_no_rule s Hd) as D1.
  rewrite (rule_inline_plain _ D1) in E.
  set (h := re_sub re_heading_break [TRef 1; TLit [NL]] s) in *.
  assert (Er : r = strip (re_sub re_blank_lines [TLit [NL; NL]] h))
    by congruence.
  assert (Sr : settled r).
  { rewrite Er. apply strip_settled, collapse_settled.
    apply heading_break_settles. }
  assert (Dr : contains dash3 r = false).
  { rewrite Er. apply strip_no_rule, collapse_no_rule, D1. }
  assert (Tr : contains [NL; NL; NL] r = false).
  { destruct (contains [NL; NL; NL] r) eqn:C; [|reflexivity].
    rewrite Er in C. apply contains_strip in C.
    pose proof (collapse_invariant [] h) as [A _].
    unfold re_sub, re_sub_with in C. congruence. }
  assert (Ss : strip r = r) by (rewrite Er; apply strip_idem).
  unfold auto_add_linebreaks. rewrite Hr. simpl.
  unfold normalize_linebreaks.
  rewrite (heading_break_fixed r Sr), (rule_inline_plain r Dr),
    (collapse_fixed r Tr), Ss.
  reflexivity.
Qed.

(** C1 (amended): applying [auto_add_linebreaks] twice gives the same
    result as applying it once on every text without heading markers,
    hyphens, en dashes and decimal digits, and on every text that has a
    newline and no [---] token and whose recovered text still has a
    newline. *)
Theorem auto_add_linebreaks_idempotent_cases (s : str) :
  existsb marker s = false
  \/ (contains [NL] s = true /\ contains dash3 s = false
      /\ forall r, auto_add_linebreaks s = Done r -> contains [NL] r = true) ->
  exists r,
    auto_add_linebreaks s = Done r
    /\ (r' <- auto_add_linebreaks s ;; auto_add_linebreaks r') = Done r.
Proof.
  intros H.
  destruct (auto_add_linebreaks_normal_form s) as [r [E _]].
  exists r. split; [exact E|]. rewrite E. simpl.
  destruct H as [H | [Hn [Hd Hr]]].
  - exact (auto_add_linebreaks_plain_fixed s r H E).
  - exact (auto_add_linebreaks_settled_fixed s r Hn Hd E (Hr r E)).
Qed.

Lemma auto_add_linebreaks_idempotent_cases_witness :
  exists r,
    auto_add_linebreaks
      (lit "intro ## A" ++ [NL] ++ lit "text" ++ [NL] ++ lit "- x") = Done r
    /\ (r' <- auto_add_linebreaks
                (lit "intro ## A" ++ [NL] ++ lit "text" ++ [NL] ++ lit "- x") ;;
        auto_add_linebreaks r') = Done r.
Proof.
  apply (auto_add_linebreaks_idempotent_cases
           (lit "intro ## A" ++ [NL] ++ lit "text" ++ [NL] ++ lit "- x")).
  right. split; [vm_compute; reflexivity|].
  split; [vm_compute; reflexivity|].
  intros r H. vm_compute in H. inversion H. reflexivity.
Defined.
(* ===================================================================== *)
(** * Clearing twice *)

Lemma str_eqb_eq (a b : str) : str_eqb a b = true <-> a = b.
Proof.
  revert b. induction a as [|x a IH]; intros [|y b]; simpl;
    try (split; [discriminate | discriminate]); [tauto|].
  rewrite andb_true_iff, N.eqb_eq, IH. split.
  - intros [-> ->]. reflexivity.
  - intros E. inversion E. auto.
Qed.

Lemma str_eqb_refl (a : str) : str_eqb a a = true.
Proof. apply str_eqb_eq. reflexivity. Qed.

Lemma strip_head (c : char) (x : str) :
  is_space c = false -> exists y, strip (c :: x) = c :: y.
Proof.
  intros H. unfold strip, lstrip, rstrip.
  rewrite (drop_while_fix is_space c x H).
  rewrite (drop_while_end_head is_space c x H). eauto.
Qed.

Lemma rebuild_line_starts (d t l s : str) :
  startswith [PIPE] (strip (rebuild_line d t l s)) = true.
Proof.
  assert (E : exists x, rebuild_line d t l s = PIPE :: x)
    by (eexists; reflexivity).
  destruct E as [x ->].
  destruct (strip_head PIPE x eq_refl) as [y ->]. reflexivity.
Qed.

(** What the loop of [clear_all_summaries] does with one line: it keeps
    it, or the line is a row of four cells without the placeholder and
    becomes the row of its first three cells and the default cell, which
    reads back as such. *)
Lemma clear_line_cases (line : str) :
  clear_line line = Done (line, false)
  \/ exists d t l s,
       parse_table_line line = [d; t; l; s]
       /\ contains pending s = false
       /\ clear_line line
          = Done (rebuild_line d t l default_summary_cell, true)
       /\ parse_table_line (rebuild_line d t l default_summary_cell)
          = [d; t; l; default_summary_cell].
Proof.
  unfold clear_line.
  destruct (startswith [PIPE] (strip line)) eqn:Hp; cbn [negb]; [|auto].
  destruct (parse_table_line line) as [|d [|t [|l [|s [|x xs]]]]] eqn:Hc;
    auto.
  destruct (contains pending s) eqn:Hs; [auto|].
  destruct (is_valid_markdown_format_total s) as [[|] Hv]; rewrite Hv;
    cbn [bind negb]; [auto|].
  right. exists d, t, l, s. repeat split; auto.
  apply parse_rebuilt. intros x Hx.
  destruct Hx as [<-|[<-|[<-|[<-|[]]]]];
    [apply (parse_table_line_cells line); rewrite Hc; simpl; auto ..
    |apply default_summary_cell_ok].
Qed.

(** A line that the loop has produced is kept by the loop. *)
Lemma clear_line_again (line out : str) (c : bool) :
  clear_line line = Done (out, c) -> clear_line out = Done (out, false).
Proof.
  intros H. destruct (clear_line_cases line) as [E | [d [t [l [s [P [N [E R]]]]]]]];
    rewrite E in H; inversion H; subst; [exact E|].
  unfold clear_line. rewrite rebuild_line_starts. cbn [negb]. rewrite R.
  change (contains pending default_summary_cell) with true. reflexivity.
Qed.

(** The loop reports a change exactly when the line it produces differs
    from the one it read. *)
Lemma clear_line_flag (line out : str) (c : bool) :
  clear_line line = Done (out, c) -> c = negb (str_eqb line out).
Proof.
  intros H. destruct (clear_line_cases line) as [E | [d [t [l [s [P [N [E R]]]]]]]];
    rewrite E in H; inversion H; subst.
  - rewrite str_eqb_refl. reflexivity.
  - destruct (str_eqb line (rebuild_line d t l default_summary_cell)) eqn:Q;
      [|reflexivity].
    apply str_eqb_eq in Q. rewrite <- Q in R. rewrite P in R.
    inversion R; subst. discriminate.
Qed.

Lemma clear_line_total (line : str) :
  exists out c, clear_line line = Done (out, c).
Proof.
  destruct (clear_line_cases line) as [E | [d [t [l [s [_ [_ [E _]]]]]]]];
    eauto.
Qed.

Lemma clear_body_twice (body : list str) :
  forall count,
    exists out,
      clear_body body count = Done (out, count + differing body out)
      /\ length out = length body
      /\ differing body out <= length body
      /\ forall count', clear_body out count' = Done (out, count').
Proof.
  induction body as [|line body IH]; intros count.
  - exists []. simpl. rewrite Nat.add_0_r. auto.
  - destruct (clear_line_total line) as [o [c Hl]].
    destruct (IH (if c then count + 1 else count)) as [out [Hb [Hlen [Hle Hag]]]].
    exists (o :: out). cbn [clear_body]. rewrite Hl. cbn [bind fst snd].
    rewrite Hb. cbn [bind fst snd differing].
    rewrite (clear_line_flag _ _ _ Hl).
    split; [|split; [simpl; congruence|split]].
    + destruct (str_eqb line o); cbn [negb]; do 2 f_equal; lia.
    + simpl length. destruct (str_eqb line o); lia.
    + intros count'. rewrite (clear_line_again _ _ _ Hl). cbn [bind fst snd].
      rewrite Hag. reflexivity.
Qed.

Lemma differing_same (a : list str) : differing a a = 0.
Proof.
  induction a as [|x a IH]; [reflexivity|]. simpl.
  rewrite str_eqb_refl, IH. reflexivity.
Qed.

Lemma differing_app (a b c : list str) :
  differing (a ++ b) (a ++ c) = differing b c.
Proof.
  induction a as [|x a IH]; [reflexivity|]. simpl.
  rewrite str_eqb_refl, IH. reflexivity.
Qed.

(** X1: [clear_all_summaries] changes nothing when it is run on the lines that
    it wrote: every row it rewrote now holds the placeholder, and every
    line it kept is kept for the same reason. *)
Theorem clear_all_summaries_idempotent (lines : list str) :
  exists out count,
    clear_all_summaries lines = Done (out, count)
    /\ clear_all_summaries out = Done (out, 0).
Proof.
  unfold clear_all_summaries.
  destruct (length lines <? 2) eqn:E.
  - exists lines, 0. rewrite E. auto.
  - destruct (clear_body_twice (skipn 2 lines) 0) as [out [Hb [Hlen [_ Hag]]]].
    rewrite Hb. cbn [bind fst snd].
    exists (firstn 2 lines ++ out), (differing (skipn 2 lines) out).
    split; [reflexivity|].
    apply Nat.ltb_ge in E.
    assert (Hf : length (firstn 2 lines) = 2) by (rewrite length_firstn; lia).
    assert (L : (length (firstn 2 lines ++ out) <? 2) = false).
    { apply Nat.ltb_ge. rewrite length_app. lia. }
    rewrite L.
    assert (S2 : skipn 2 (firstn 2 lines ++ out) = out).
    { rewrite skipn_app, Hf, Nat.sub_diag. simpl skipn at 2.
      rewrite skipn_all2; [reflexivity | lia]. }
    assert (F2 : firstn 2 (firstn 2 lines ++ out) = firstn 2 lines).
    { rewrite firstn_app, Hf, Nat.sub_diag, firstn_firstn.
      cbn [firstn Nat.min]. apply app_nil_r. }
    rewrite S2, F2, Hag. reflexivity.
Qed.

(** X2: The number that [clear_all_summaries] returns is the number of lines
    of the file that it changed; the two header lines are never among
    them. *)
Theorem clear_all_summaries_count (lines : list str) :
  exists out count,
    clear_all_summaries lines = Done (out, count)
    /\ length out = length lines
    /\ count = differing lines out
    /\ count <= length lines - 2.
Proof.
  unfold clear_all_summaries.
  destruct (length lines <? 2) eqn:E.
  - exists lines, 0. rewrite differing_same. repeat split; lia.
  - destruct (clear_body_twice (skipn 2 lines) 0) as [out [Hb [Hlen [Hle _]]]].
    rewrite Hb. cbn [bind fst snd].
    exists (firstn 2 lines ++ out), (differing (skipn 2 lines) out).
    apply Nat.ltb_ge in E.
    assert (Hf : length (firstn 2 lines) = 2) by (rewrite length_firstn; lia).
    split; [reflexivity|]. split; [|split].
    + rewrite length_app, Hf, Hlen, length_skipn. lia.
    + rewrite <- (firstn_skipn 2 lines) at 2. rewrite differing_app.
      reflexivity.
    + rewrite length_skipn in Hle. exact Hle.
Qed.

(* ===================================================================== *)
(** * The recoverer only moves white space *)

Lemma bare_app (a b : str) : bare (a ++ b) = bare a ++ bare b.
Proof. unfold bare. apply filter_app. Qed.

Lemma bare_cons (c : char) (s : str) :
  bare (c :: s) = (if is_space c then [] else [c]) ++ bare s.
Proof. unfold bare. simpl. destruct (is_space c); reflexivity. Qed.

Lemma bare_blank (w : str) : forallb is_space w = true -> bare w = [].
Proof.
  induction w as [|c w IH]; [reflexivity|]. intros H. simpl in H.
  apply andb_true_iff in H as [Hc Hw]. rewrite bare_cons, Hc. auto.
Qed.

Lemma bare_strip (t : str) : bare (strip t) = bare t.
Proof.
  destruct (strip_split t) as [a [b [E [Fa Fb]]]]. rewrite E at 2.
  rewrite !bare_app, (bare_blank a Fa), (bare_blank b Fb), app_nil_r.
  reflexivity.
Qed.

Lemma sub_bare (r : re) (f : rmatch -> str) :
  never_empty r ->
  (forall pre rest m,
      exec r pre rest = Some m -> bare (f m) = bare (rm_text m)) ->
  forall s, bare (re_sub_with r f s) = bare s.
Proof.
  intros Hne Hk s. unfold re_sub_with.
  apply (sub_from_ind r f (fun _ rest out => bare out = bare rest));
    [exact Hne | reflexivity | |].
  - intros pre c rest _ IH. rewrite !bare_cons, IH. reflexivity.
  - intros pre m rest E IH. rewrite !bare_app, IH, (Hk _ _ _ E).
    reflexivity.
Qed.

Lemma softened_same (s r : str) : bare r = bare s -> softened s r.
Proof.
  unfold softened. intros ->. induction (bare s); constructor; auto.
Qed.

Lemma softened_app (a a' b b' : str) :
  softened a a' -> softened b b' -> softened (a ++ b) (a' ++ b').
Proof. unfold softened. rewrite !bare_app. apply Forall2_app. Qed.

Lemma softened_trans (a b c : str) :
  softened a b -> softened b c -> softened a c.
Proof.
  unfold softened. generalize (bare a) (bare b) (bare c). clear.
  intros x y z H. revert z.
  induction H as [|u v x y R H IH]; intros z K; inversion K; subst;
    constructor; [|apply IH; assumption].
  match goal with Q : _ \/ _ |- _ => destruct Q as [-> | [-> ->]] end;
    [exact R|].
  destruct R as [-> | [-> E]]; [right; auto | discriminate].
Qed.

(** Where the text has no en dash, nothing is written in another way. *)
Lemma softened_plain (s r : str) :
  softened s r -> lacks (is_c ENDASH) s -> bare r = bare s.
Proof.
  unfold softened, lacks. intros H L.
  assert (K : existsb (is_c ENDASH) (bare s) = false).
  { clear H. induction s as [|c s IH]; [reflexivity|]. simpl in L.
    apply orb_false_iff in L as [Lc Ls]. rewrite bare_cons.
    destruct (is_space c); simpl; [auto | rewrite Lc; auto]. }
  clear L. induction H as [|x y u v R H IH]; [reflexivity|].
  simpl in K. apply orb_false_iff in K as [Kx Ku].
  destruct R as [-> | [-> _]]; [f_equal; auto|].
  unfold is_c in Kx. rewrite N.eqb_refl in Kx. discriminate.
Qed.

Lemma sub_softened (r : re) (f : rmatch -> str) :
  never_empty r ->
  (forall pre rest m,
      exec r pre rest = Some m -> softened (rm_text m) (f m)) ->
  forall s, softened s (re_sub_with r f s).
Proof.
  intros Hne Hk s. unfold re_sub_with.
  apply (sub_from_ind r f (fun _ rest out => softened rest out));
    [exact Hne | intros; exact (softened_same [] [] eq_refl) | |].
  - intros pre c rest _ IH.
    exact (softened_app [c] [c] _ _ (softened_same [c] [c] eq_refl) IH).
  - intros pre m rest E IH. exact (softened_app _ _ _ _ (Hk _ _ _ E) IH).
Qed.

(** Evaluates [is_space] on the characters that are spelled out. *)
Ltac known_chars :=
  repeat match goal with
  | |- context [is_space ?c] =>
      tryif is_var c then fail else
        let v := eval vm_compute in (is_space c) in
        change (is_space c) with v
  end.

(** Rewrites a goal on [bare] down to the characters of the runs. *)
Ltac vis :=
  cbn [group];
  repeat match goal with
         | H : rm_text _ = _ |- _ => rewrite H
         | H : rm_caps _ = _ |- _ => rewrite H
         end;
  cbn [lookup Nat.eqb app concat map];
  repeat match goal with
         | H : is_c _ ?c = true |- _ => apply is_c_eq in H; subst c
         end;
  repeat (rewrite bare_app || rewrite bare_cons);
  repeat match goal with
         | H : forallb is_space ?w = true |- _ =>
             rewrite (bare_blank w H)
         end;
  known_chars; cbn [app]; rewrite ?app_nil_r.

(** Closes [never_empty] goals once the text of the match is spelled
    out. *)
Ltac text_not_empty :=
  match goal with H : rm_text _ = _ |- _ => rewrite H end;
  let A := fresh in
  intros A; apply (f_equal (@length char)) in A;
  rewrite ?length_app in A; simpl in A; lia.

Lemma leading_heading_never_empty : never_empty re_leading_heading.
Proof.
  intros pre rest m E. apply exec_sound in E as [rest' [_ S]].
  unfold re_leading_heading, cat in S. simpl in S. sem_inv. text_not_empty.
Qed.

Lemma rule_never_empty : never_empty re_rule.
Proof.
  intros pre rest m E. apply exec_sound in E as [rest' [_ S]].
  unfold re_rule, cat, Lit, lit in S. simpl in S. sem_inv. text_not_empty.
Qed.

Lemma bullet_never_empty : never_empty re_bullet.
Proof.
  intros pre rest m E. apply exec_sound in E as [rest' [_ S]].
  unfold re_bullet, cat in S. simpl in S. sem_inv. text_not_empty.
Qed.

Lemma numbered_never_empty : never_empty re_numbered.
Proof.
  intros pre rest m E. apply exec_sound in E as [rest' [_ S]].
  unfold re_numbered, cat in S. simpl in S. sem_inv. text_not_empty.
Qed.

Lemma bold_item_never_empty : never_empty re_bold_item.
Proof.
  intros pre rest m E. apply exec_sound in E as [rest' [_ S]].
  unfold re_bold_item, cat, Lit in S. simpl in S. sem_inv. text_not_empty.
Qed.

Lemma sentence_heading_never_empty : never_empty re_sentence_heading.
Proof.
  intros pre rest m E. apply exec_sound in E as [rest' [_ S]].
  unfold re_sentence_heading, cat in S. simpl in S. sem_inv. text_not_empty.
Qed.

Lemma bullet_char (b : char) :
  one_of [is_c DASH; is_c ENDASH] b = true ->
  is_space b = false /\ (b = DASH \/ b = ENDASH).
Proof.
  unfold one_of. simpl. rewrite orb_false_r. intros H.
  apply orb_true_iff in H as [H | H]; apply is_c_eq in H; subst b;
    split; auto.
Qed.

Lemma heading_break_bare (pre rest : str) (m : rmatch) :
  exec re_heading_break pre rest = Some m ->
  bare (expand [TRef 1; TLit [NL]] m) = bare (rm_text m).
Proof.
  intros E. apply exec_sound in E as [rest' [_ S]].
  unfold re_heading_break, cat in S. simpl in S. sem_inv.
  unfold expand, expand_item. cbn [map concat]. vis. reflexivity.
Qed.

Lemma rule_inline_bare (pre rest : str) (m : rmatch) :
  exec re_rule_inline pre rest = Some m ->
  bare (expand [TRef 1; TLit rule_line; TRef 2] m) = bare (rm_text m).
Proof.
  intros E. apply exec_sound in E as [rest' [_ S]].
  unfold re_rule_inline, cat, Lit, lit in S. simpl in S. sem_inv.
  unfold expand, expand_item, rule_line. cbn [map concat]. vis. reflexivity.
Qed.

Lemma blank_lines_bare (pre rest : str) (m : rmatch) :
  exec re_blank_lines pre rest = Some m ->
  bare (expand [TLit [NL; NL]] m) = bare (rm_text m).
Proof.
  intros E. apply exec_sound in E as [rest' [_ S]].
  simpl in S. destruct S as [[F _] _].
  rewrite (bare_blank _ (nl_is_space _ F)). reflexivity.
Qed.

Lemma leading_heading_bare (pre rest : str) (m : rmatch) :
  exec re_leading_heading pre rest = Some m ->
  bare (expand [TRef 1] m) = bare (rm_text m).
Proof.
  intros E. apply exec_sound in E as [rest' [_ S]].
  unfold re_leading_heading, cat in S. simpl in S. sem_inv.
  unfold expand, expand_item. cbn [map concat]. vis. reflexivity.
Qed.

Lemma rule_bare (pre rest : str) (m : rmatch) :
  exec re_rule pre rest = Some m ->
  bare (expand [TLit rule_line] m) = bare (rm_text m).
Proof.
  intros E. apply exec_sound in E as [rest' [_ S]].
  unfold re_rule, cat, Lit, lit in S. simpl in S. sem_inv.
  unfold expand, expand_item, rule_line. cbn [map concat]. vis. reflexivity.
Qed.

(** The bullet rule is the one that writes a character of its own: the
    hyphen, for a hyphen or an en dash between white space. *)
Lemma bullet_softened (pre rest : str) (m : rmatch) :
  exec re_bullet pre rest = Some m ->
  softened (rm_text m) (expand [TLit (NL :: lit "- ")] m).
Proof.
  intros E. apply exec_sound in E as [rest' [_ S]].
  unfold re_bullet, cat in S. simpl in S. sem_inv.
  unfold softened, expand, expand_item. cbn [map concat]. vis.
  match goal with H : one_of _ ?b = true |- _ =>
    destruct (bullet_char b H) as [-> Hb] end.
  cbn [app]. constructor; [|constructor].
  destruct Hb as [-> | ->]; [left; reflexivity | right; split; reflexivity].
Qed.

Lemma numbered_bare (pre rest : str) (m : rmatch) :
  exec re_numbered pre rest = Some m ->
  bare (expand [TLit [NL]; TRef 2] m) = bare (rm_text m).
Proof.
  intros E. apply exec_sound in E as [rest' [_ S]].
  unfold re_numbered, cat in S. simpl in S. sem_inv.
  unfold expand, expand_item. cbn [map concat]. vis. reflexivity.
Qed.

Lemma bold_item_bare (pre rest : str) (m : rmatch) :
  exec re_bold_item pre rest = Some m ->
  bare (expand [TLit (NL :: lit "- **"); TRef 1; TLit (lit "**")] m)
  = bare (rm_text m).
Proof.
  intros E. apply exec_sound in E as [rest' [_ S]].
  unfold re_bold_item, cat, Lit in S. simpl in S. sem_inv.
  unfold expand, expand_item. cbn [map concat]. vis. reflexivity.
Qed.

Lemma sentence_heading_bare (pre rest : str) (m : rmatch) :
  exec re_sentence_heading pre rest = Some m ->
  bare (expand [TRef 1; TLit [NL]; TRef 2] m) = bare (rm_text m).
Proof.
  intros E. apply exec_sound in E as [rest' [_ S]].
  unfold re_sentence_heading, cat in S. simpl in S. sem_inv.
  unfold expand, expand_item. cbn [map concat]. vis. reflexivity.
Qed.

Lemma normalize_linebreaks_bare (s : str) :
  bare (normalize_linebreaks s) = bare s.
Proof.
  unfold normalize_linebreaks, re_sub.
  rewrite (sub_bare _ _ blank_never_empty blank_lines_bare).
  rewrite (sub_bare _ _ rule_inline_never_empty rule_inline_bare).
  apply (sub_bare _ _ heading_break_never_empty heading_break_bare).
Qed.

Lemma recover_linebreaks_softened (s : str) :
  exists t, recover_linebreaks s = Done t /\ softened s t.
Proof.
  rewrite recover_linebreaks_done. eexists. split; [reflexivity|].
  unfold re_sub.
  eapply softened_trans;
    [|apply softened_same;
      apply (sub_bare _ _ blank_never_empty blank_lines_bare)].
  eapply softened_trans;
    [|apply softened_same;
      apply (sub_bare _ _ sentence_heading_never_empty
               sentence_heading_bare)].
  eapply softened_trans;
    [|apply softened_same;
      apply (sub_bare _ _ bold_item_never_empty bold_item_bare)].
  eapply softened_trans;
    [|apply softened_same;
      apply (sub_bare _ _ numbered_never_empty numbered_bare)].
  eapply softened_trans;
    [|apply (sub_softened _ _ bullet_never_empty bullet_softened)].
  apply softened_same.
  rewrite (sub_bare _ _ rule_never_empty rule_bare).
  cbv zeta.
  destruct (negb (startswith [HASH]
                    (re_sub_with re_heading_break
                       (expand [TRef 1; TLit [NL]]) s)));
    [rewrite (sub_bare _ _ leading_heading_never_empty
                leading_heading_bare)|];
    apply (sub_bare _ _ heading_break_never_empty heading_break_bare).
Qed.

(** Both branches of the recoverer end with [strip]; what the first strips
    has the visible characters of the text, and what the second strips has
    them up to the en dashes written as hyphens. *)
Lemma auto_add_linebreaks_unstripped (s : str) :
  exists t,
    auto_add_linebreaks s = Done (strip t) /\ softened s t
    /\ (contains [NL] s = true -> bare t = bare s).
Proof.
  unfold auto_add_linebreaks. destruct (contains [NL] s).
  - cbn [bind]. eexists. split; [reflexivity|].
    split; [apply softened_same|intros _];
      apply normalize_linebreaks_bare.
  - destruct (recover_linebreaks_softened s) as [t [R V]].
    rewrite R. cbn [bind]. exists t. split; [reflexivity|].
    split; [exact V | discriminate].
Qed.

Lemma softened_strip (s t : str) : softened s t -> softened s (strip t).
Proof. unfold softened. rewrite bare_strip. auto. Qed.

(** X3: The recoverer deletes, adds and moves no visible character: the
    text it returns has the characters of the text it was given that are
    not white space, one for one and in the same order, each as it was or,
    for an en dash, as it was or as a hyphen.  Where the text holds a
    newline or no en dash, they are exactly the same.  An en dash between
    white space in a text without newline does come out as the hyphen of
    a list item. *)
Theorem auto_add_linebreaks_visible (s : str) :
  (exists r,
     auto_add_linebreaks s = Done r
     /\ softened s r
     /\ (contains [NL] s = true \/ lacks (is_c ENDASH) s -> bare r = bare s))
  /\ auto_add_linebreaks (lit "a " ++ [ENDASH] ++ lit " b")
     = Done (lit "a" ++ [NL] ++ lit "- b").
Proof.
  split; [|vm_compute; reflexivity].
  destruct (auto_add_linebreaks_unstripped s) as [t [E [V X]]].
  exists (strip t). split; [exact E|].
  split; [apply softened_strip, V|].
  intros [N | L].
  - rewrite bare_strip. apply X, N.
  - apply softened_plain; [apply softened_strip, V | exact L].
Qed.

(* ===================================================================== *)
(** * The page that the renderer returns *)

Lemma sub_absent (r : re) (f : rmatch -> str) (q : char -> bool) :
  never_empty r ->
  (forall pre rest m,
      exec r pre rest = Some m ->
      existsb q (rm_text m) = false -> existsb q (f m) = false) ->
  forall s, existsb q s = false -> existsb q (re_sub_with r f s) = false.
Proof.
  intros Hne Hk s. unfold re_sub_with.
  apply (sub_from_ind r f
           (fun _ rest out => existsb q rest = false -> existsb q out = false));
    [exact Hne | auto | |].
  - intros pre c rest _ IH H. simpl in *.
    apply orb_false_iff in H as [Hc Hr]. rewrite Hc. auto.
  - intros pre m rest E IH H. rewrite existsb_app in *.
    apply orb_false_iff in H as [Hm Hr].
    rewrite (Hk _ _ _ E Hm). auto.
Qed.

Lemma rstrip_absent (q : char -> bool) (t : str) :
  existsb q t = false -> existsb q (rstrip t) = false.
Proof.
  intros H. destruct (drop_while_end_split is_space t) as [b [E _]].
  rewrite E, existsb_app in H. apply orb_false_iff in H as [H _]. exact H.
Qed.

Lemma code_never_empty : never_empty re_code.
Proof.
  intros pre rest m E. apply exec_sound in E as [rest' [_ S]].
  unfold re_code, cat in S. simpl in S. sem_inv. text_not_empty.
Qed.

Lemma bold_never_empty : never_empty re_bold.
Proof.
  intros pre rest m E. apply exec_sound in E as [rest' [_ S]].
  unfold re_bold, cat, Lit in S. simpl in S. sem_inv. text_not_empty.
Qed.

Lemma link_never_empty : never_empty re_link.
Proof.
  intros pre rest m E. apply exec_sound in E as [rest' [_ S]].
  unfold re_link, cat, Lit in S. simpl in S. sem_inv. text_not_empty.
Qed.

(** Splits the facts and the goal on the absence of a class from a text
    into facts on the parts of the text. *)
Ltac absent :=
  repeat match goal with
         | H : rm_text _ = _ |- _ => rewrite H in *; clear H
         | H : rm_caps _ = _ |- _ => rewrite H in *; clear H
         end;
  cbn [lookup Nat.eqb app concat map existsb] in *;
  repeat (rewrite ?existsb_app in *; cbn [existsb] in *;
          match goal with
          | H : _ || _ = false |- _ => apply orb_false_iff in H; destruct H
          end);
  rewrite ?existsb_app; cbn [existsb];
  repeat match goal with
         | H : ?x = false |- context [?x] => rewrite H
         end;
  cbn [orb].

Section OneLine.

Variable q : char -> bool.

(** The classes of interest hold none of the characters of the tags that
    the renderer writes. *)
Hypothesis q_ascii :
  forall c, (32 <=? c)%N && (c <=? 126)%N = true -> q c = false.

Lemma tag_absent (l : str) :
  forallb (fun c => (32 <=? c)%N && (c <=? 126)%N) l = true ->
  existsb q l = false.
Proof.
  induction l as [|c l IH]; [reflexivity|].
  simpl. intros H. apply andb_true_iff in H as [Hc Hl].
  rewrite (q_ascii c Hc). auto.
Qed.

(** Settles the tags that are spelled out. *)
Ltac tags :=
  repeat match goal with
         | |- context [existsb q ?l] => rewrite (tag_absent l eq_refl)
         end;
  cbn [orb].

Lemma code_absent (pre rest : str) (m : rmatch) :
  exec re_code pre rest = Some m ->
  existsb q (rm_text m) = false ->
  existsb q (expand [TLit (lit "<code>"); TRef 1; TLit (lit "</code>")] m)
  = false.
Proof.
  intros E. apply exec_sound in E as [rest' [_ S]].
  unfold re_code, cat in S. simpl in S. sem_inv.
  unfold expand, expand_item. cbn [map concat group]. intros A.
  absent. tags. reflexivity.
Qed.

Lemma bold_absent (pre rest : str) (m : rmatch) :
  exec re_bold pre rest = Some m ->
  existsb q (rm_text m) = false ->
  existsb q (expand [TLit (lit "<strong>"); TRef 1; TLit (lit "</strong>")] m)
  = false.
Proof.
  intros E. apply exec_sound in E as [rest' [_ S]].
  unfold re_bold, cat, Lit in S. simpl in S. sem_inv.
  unfold expand, expand_item. cbn [map concat group]. intros A.
  absent. tags. reflexivity.
Qed.

Lemma link_absent (pre rest : str) (m : rmatch) :
  exec re_link pre rest = Some m ->
  existsb q (rm_text m) = false ->
  existsb q (expand link_template m) = false.
Proof.
  intros E. apply exec_sound in E as [rest' [_ S]].
  unfold re_link, cat, Lit in S. simpl in S. sem_inv.
  unfold expand, expand_item, link_template. cbn [map concat group].
  intros A. absent. tags. reflexivity.
Qed.

Lemma render_inline_absent (s : str) :
  existsb q s = false -> existsb q (render_inline s) = false.
Proof.
  intros H. unfold render_inline, re_sub.
  apply (sub_absent _ _ q link_never_empty link_absent).
  apply (sub_absent _ _ q bold_never_empty bold_absent).
  apply (sub_absent _ _ q code_never_empty code_absent). exact H.
Qed.

Lemma li_html_absent (s : str) :
  existsb q s = false -> existsb q (li_html s) = false.
Proof.
  intros H. unfold li_html. rewrite !existsb_app.
  rewrite (render_inline_absent s H). tags. reflexivity.
Qed.

Lemma heading_html_absent (level : nat) (s : str) :
  level <= 4 -> existsb q s = false -> existsb q (heading_html level s) = false.
Proof.
  intros L H. unfold heading_html. rewrite !existsb_app.
  rewrite (render_inline_absent s H).
  do 5 (destruct level as [|level]; [cbn [Nat.eqb]; tags; reflexivity|]).
  lia.
Qed.

Lemma marker_removed_absent (pat : re) (s : str) :
  never_empty pat ->
  existsb q s = false -> existsb q (strip (re_sub pat [] s)) = false.
Proof.
  intros Hne H. apply strip_keeps_absent. unfold re_sub.
  apply (sub_absent _ _ q Hne); [reflexivity | exact H].
Qed.

Lemma concat_absent (items : list str) :
  Forall (lacks q) items -> existsb q (concat items) = false.
Proof.
  induction 1 as [|x l Hx _ IH]; [reflexivity|].
  simpl. rewrite existsb_app, Hx, IH. reflexivity.
Qed.

Lemma list_items_absent (pat : re) (lines : list str) :
  never_empty pat -> Forall (lacks q) lines ->
  forall fuel i items i' items',
    list_items fuel pat lines i items = Done (i', items') ->
    Forall (lacks q) items -> Forall (lacks q) items'.
Proof.
  intros Hne Hl. induction fuel as [|fuel IH]; intros i items i' items' R F;
    [discriminate|].
  cbn [list_items] in R. destruct (i <? length lines); [|congruence].
  unfold getitem in R. destruct (nth_error lines i) as [l|] eqn:El;
    [|discriminate].
  cbn [bind] in R.
  destruct (null (rstrip l)); [congruence|].
  destruct (is_some (re_match pat (rstrip l))); [|congruence].
  apply IH in R; [exact R|]. apply Forall_app. split; [exact F|].
  constructor; [|constructor]. apply li_html_absent.
  apply marker_removed_absent; [exact Hne|]. apply rstrip_absent.
  apply nth_error_In in El. rewrite Forall_forall in Hl. apply Hl, El.
Qed.

Lemma ul_never_empty : never_empty re_ul.
Proof.
  intros pre rest m E. apply exec_sound in E as [rest' [_ S]].
  unfold re_ul, cat in S. simpl in S. sem_inv. text_not_empty.
Qed.

Lemma ol_never_empty : never_empty re_ol.
Proof.
  intros pre rest m E. apply exec_sound in E as [rest' [_ S]].
  unfold re_ol, cat in S. simpl in S. sem_inv. text_not_empty.
Qed.

Lemma title_text_absent (line : str) (tm : rmatch) (g2 : str) :
  re_match re_title line = Some tm -> group tm 2 = Some g2 ->
  existsb q line = false -> existsb q g2 = false.
Proof.
  intros E G A. apply exec_sound in E as [rest' [E S]].
  unfold re_title, cat in S. simpl in S. sem_inv.
  cbn [group] in G.
  match goal with H : rm_caps tm = _ |- _ => rewrite H in G end.
  cbn [lookup Nat.eqb] in G. inversion G; subst g2. clear G.
  absent. assumption.
Qed.

Lemma render_lines_absent (lines : list str) :
  Forall (lacks q) lines ->
  forall fuel i html_lines out,
    render_lines fuel lines i html_lines = Done out ->
    Forall (lacks q) html_lines -> Forall (lacks q) out.
Proof.
  intros Hl. induction fuel as [|fuel IH]; intros i html out R F;
    [discriminate|].
  cbn [render_lines] in R. destruct (i <? length lines); [|congruence].
  unfold getitem in R. destruct (nth_error lines i) as [l|] eqn:El;
    [|discriminate].
  cbn [bind] in R.
  assert (Al : existsb q (rstrip l) = false).
  { apply rstrip_absent. apply nth_error_In in El.
    rewrite Forall_forall in Hl. apply Hl, El. }
  assert (add : forall e, existsb q e = false -> Forall (lacks q) (html ++ [e])).
  { intros e He. apply Forall_app. split; [exact F|].
    constructor; [exact He | constructor]. }
  destruct (null (rstrip l)); [apply IH in R; [exact R | apply add; reflexivity]|].
  destruct (re_match re_title (rstrip l)) as [tm|] eqn:Ht.
  { destruct (title_groups _ _ Ht) as [g1 [g2 [G1 G2]]].
    unfold group_str in R. rewrite G1, G2 in R. cbn [bind] in R.
    apply IH in R; [exact R|]. apply add.
    apply heading_html_absent; [apply Nat.le_min_r|].
    apply strip_keeps_absent. exact (title_text_absent _ _ _ Ht G2 Al). }
  destruct (str_eqb (strip (rstrip l)) rule_cell).
  { apply IH in R; [exact R|]. apply add. tags. reflexivity. }
  destruct (is_some (re_match re_ul (rstrip l))).
  { destruct (list_items (S fuel) re_ul lines i []) as [[i' items]| |] eqn:L;
      try discriminate.
    cbn [bind] in R.
    pose proof (list_items_absent re_ul lines ul_never_empty Hl _ _ _ _ _ L
                  (Forall_nil _)) as Fi.
    apply IH in R; [exact R|]. destruct (null items); [exact F|].
    apply add. rewrite !existsb_app, (concat_absent items Fi). tags.
    reflexivity. }
  destruct (is_some (re_match re_ol (rstrip l))).
  { destruct (list_items (S fuel) re_ol lines i []) as [[i' items]| |] eqn:L;
      try discriminate.
    cbn [bind] in R.
    pose proof (list_items_absent re_ol lines ol_never_empty Hl _ _ _ _ _ L
                  (Forall_nil _)) as Fi.
    apply IH in R; [exact R|]. destruct (null items); [exact F|].
    apply add. rewrite !existsb_app, (concat_absent items Fi). tags.
    reflexivity. }
  apply IH in R; [exact R|]. apply add.
  rewrite !existsb_app, (render_inline_absent _ Al). tags. reflexivity.
Qed.

End OneLine.

Lemma linebreak_ascii (c : char) :
  (32 <=? c)%N && (c <=? 126)%N = true -> is_linebreak c = false.
Proof.
  intros H. apply andb_true_iff in H as [A B].
  apply N.leb_le in A. apply N.leb_le in B.
  unfold is_linebreak, in_range.
  repeat match goal with
         | |- context [(?a <=? ?b)%N] => destruct (N.leb_spec a b)
         | |- context [(?a =? ?b)%N] => destruct (N.eqb_spec a b)
         end; simpl; try reflexivity; lia.
Qed.

Lemma existsb_rev (q : char -> bool) (l : str) :
  existsb q (rev l) = existsb q l.
Proof.
  induction l as [|c l IH]; [reflexivity|]. simpl.
  rewrite existsb_app, IH. simpl. rewrite orb_false_r. apply orb_comm.
Qed.

(** No line of [splitlines] holds a line boundary. *)
Lemma splitlines_from_one_line (s : str) :
  forall cur cr,
    existsb is_linebreak cur = false ->
    Forall (lacks is_linebreak) (splitlines_from cur cr s).
Proof.
  induction s as [|c s IH]; intros cur cr H; simpl.
  - destruct cur; constructor; [|constructor].
    unfold lacks. rewrite existsb_rev. exact H.
  - destruct (cr && N.eqb c NL); [apply IH; exact H|].
    destruct (is_linebreak c) eqn:Hc.
    + constructor; [|apply IH; reflexivity].
      unfold lacks. rewrite existsb_rev. exact H.
    + apply IH. simpl. rewrite Hc, H. reflexivity.
Qed.

Lemma absent_weaken (p q : char -> bool) (l : str) :
  (forall c, q c = true -> p c = true) ->
  existsb p l = false -> existsb q l = false.
Proof.
  intros I. induction l as [|c l IH]; [reflexivity|]. simpl. intros H.
  apply orb_false_iff in H as [Hc Hl]. rewrite (IH Hl), orb_false_r.
  destruct (q c) eqn:Q; [|reflexivity]. rewrite (I c Q) in Hc. discriminate.
Qed.

(** ** Blank entries are merged *)

Lemma merge_blank_spaced (l : list str) :
  forall b, spaced b (merge_blank b l).
Proof.
  induction l as [|h l IH]; intros b; simpl; [exact I|].
  destruct (null h && b) eqn:E; [apply IH|]. simpl. auto.
Qed.

Lemma merge_blank_sub (P : str -> Prop) (l : list str) :
  Forall P l -> forall b, Forall P (merge_blank b l).
Proof.
  induction 1 as [|h l Hh _ IH]; intros b; simpl; [constructor|].
  destruct (null h && b); [apply IH | constructor; [exact Hh | apply IH]].
Qed.

Lemma lead_absent (w t : str) :
  lacks (is_c NL) w -> w <> [] -> lead (w ++ t) = 0.
Proof.
  destruct w as [|c w]; [congruence|]. intros H _.
  unfold lacks in H. simpl in H. apply orb_false_iff in H as [Hc _].
  apply lead_cons_other. exact Hc.
Qed.

Lemma no_triple_after (w t : str) :
  lacks (is_c NL) w -> contains [NL; NL; NL] t = false -> lead t <= 2 ->
  contains [NL; NL; NL] (w ++ t) = false.
Proof.
  intros H Ht Lt. induction w as [|c w IH]; [exact Ht|].
  unfold lacks in H. simpl in H. apply orb_false_iff in H as [Hc Hw].
  simpl app. apply no_triple_cons; [|apply IH; exact Hw].
  rewrite (lead_cons_other c _ Hc). lia.
Qed.

Lemma join_no_triple (l : list str) :
  Forall (lacks (is_c NL)) l ->
  forall b, spaced b l ->
    contains [NL; NL; NL] (join [NL] l) = false
    /\ lead (join [NL] l)
       <= match l with
          | h :: _ => if null h then 1 else 0
          | [] => 0
          end.
Proof.
  induction 1 as [|h l Hh Hl IH]; intros b S; [simpl; auto|].
  destruct S as [_ S]. destruct l as [|h2 l].
  - cbn [join]. split.
    + rewrite <- (app_nil_r h). apply no_triple_after; auto.
    + destruct h as [|c h]; [unfold lead; simpl; lia|].
      rewrite <- (app_nil_r (c :: h)), (lead_absent (c :: h) [] Hh);
        [|discriminate].
      simpl. lia.
  - destruct (IH (null h) S) as [C L].
    change (join [NL] (h :: h2 :: l)) with (h ++ NL :: join [NL] (h2 :: l)).
    assert (L2 : lead (NL :: join [NL] (h2 :: l)) <= 2).
    { rewrite lead_cons_nl. destruct (null h2); lia. }
    split.
    + apply no_triple_after; [exact Hh | | exact L2].
      apply no_triple_cons; [exact L2 | exact C].
    + destruct h as [|c h].
      * cbn [app null]. rewrite lead_cons_nl.
        destruct S as [S _]. cbn [null andb] in S.
        rewrite andb_true_r in S. rewrite S in L. lia.
      * rewrite (lead_absent (c :: h) _ Hh); [|discriminate]. simpl. lia.
Qed.

Lemma nl_is_linebreak (c : char) : is_c NL c = true -> is_linebreak c = true.
Proof. intros H. apply is_c_eq in H. subst c. reflexivity. Qed.

(** Every block that the main loop of the renderer writes is on one line
    of its own. *)
Lemma render_lines_blocks (md : str) (fuel : nat) (out : list str) :
  render_lines fuel (splitlines md) 0 [] = Done out ->
  Forall (lacks is_linebreak) out.
Proof.
  intros R.
  apply (render_lines_absent is_linebreak linebreak_ascii (splitlines md)
           (splitlines_from_one_line md [] false eq_refl) _ _ _ _ R).
  constructor.
Qed.

(** X4: The page that [markdown_to_html] returns has no three newlines in a
    row, and neither begins nor ends with a white-space character: its
    blocks are separated by one newline, or by two where the text had
    blank lines. *)
Theorem markdown_to_html_normal_form (md : str) :
  exists html,
    markdown_to_html md = Done html
    /\ contains [NL; NL; NL] html = false
    /\ (forall c t, html = c :: t -> is_space c = false)
    /\ (forall t c, html = t ++ [c] -> is_space c = false).
Proof.
  destruct (render_lines_total (splitlines md) (length (splitlines md)) 0 [])
    as [out Hout]; [lia|].
  specialize (Hout (S (length (splitlines md))) (Nat.lt_succ_diag_r _)).
  unfold markdown_to_html, markdown_to_html_fuel. rewrite Hout. cbn [bind].
  eexists. split; [reflexivity|].
  set (page := join [NL] (merge_blank false out)).
  split; [|split].
  - destruct (contains [NL; NL; NL] (strip page)) eqn:C; [|reflexivity].
    apply contains_strip in C.
    assert (F : Forall (lacks (is_c NL)) (merge_blank false out)).
    { apply merge_blank_sub.
      eapply Forall_impl; [|exact (render_lines_blocks md _ _ Hout)].
      intros e. apply absent_weaken, nl_is_linebreak. }
    destruct (join_no_triple _ F false (merge_blank_spaced out false))
      as [A _].
    unfold page in C. congruence.
  - intros c u Hr.
    pose proof (drop_while_head is_space page) as H.
    unfold strip, lstrip, rstrip in Hr.
    destruct (drop_while is_space page) as [|d v]; [discriminate|].
    rewrite (drop_while_end_head is_space d v H) in Hr.
    inversion Hr; subst. exact H.
  - intros u c Hr. unfold strip, rstrip in Hr.
    destruct (drop_while_end_last is_space (lstrip page))
      as [A | [v [d [A Hd]]]]; rewrite A in Hr.
    + destruct u; discriminate.
    + apply app_inj_tail in Hr as [_ <-]. exact Hd.
Qed.

(* ===================================================================== *)
(** * Rules, paragraphs and numbered lists *)

Lemma title_needs_hash (c : char) (t : str) :
  is_c HASH c = false -> re_match re_title (c :: t) = None.
Proof.
  intros Hc. destruct (re_match re_title (c :: t)) as [m|] eqn:E;
    [|reflexivity].
  apply exec_sound in E as [rest' [Er S]].
  unfold re_title, cat in S. simpl in S. sem_inv.
  match goal with F : forallb (is_c HASH) ?h = true |- _ => open_run F end.
  match goal with H : rm_text m = _ |- _ => rewrite H in Er end.
  simpl in Er. inversion Er; subst. congruence.
Qed.

Lemma ul_needs_bullet (c : char) (t : str) :
  one_of [is_c DASH; is_c STAR] c = false -> re_match re_ul (c :: t) = None.
Proof.
  intros Hc. destruct (re_match re_ul (c :: t)) as [m|] eqn:E;
    [|reflexivity].
  apply ul_match_sound in E as [c' [w [t' [E [H _]]]]].
  inversion E; subst. congruence.
Qed.

Lemma ol_match_sound (cl : str) (m : rmatch) :
  re_match re_ol cl = Some m ->
  exists D w t,
    cl = D ++ DOT :: w :: t /\ forallb is_decimal D = true
    /\ 1 <= length D /\ is_space w = true.
Proof.
  intros E. apply exec_sound in E as [rest' [-> S]].
  unfold re_ol, cat in S. simpl in S. sem_inv.
  match goal with H : rm_text m = _ |- _ => rewrite H end.
  match goal with F : forallb is_space ?h = true |- _ => open_run F end.
  match goal with H : is_c DOT _ = true |- _ => apply is_c_eq in H; subst end.
  simpl. rewrite <- !app_assoc. simpl. eauto 8.
Qed.

Lemma ol_needs_digit (c : char) (t : str) :
  is_decimal c = false -> re_match re_ol (c :: t) = None.
Proof.
  intros Hc. destruct (re_match re_ol (c :: t)) as [m|] eqn:E;
    [|reflexivity].
  apply ol_match_sound in E as [D [w [t' [E [F [L _]]]]]].
  destruct D as [|d D]; [simpl in L; lia|].
  simpl in E, F. inversion E; subst.
  apply andb_true_iff in F as [F _]. congruence.
Qed.

Lemma space_cases (c : char) :
  is_space c = true ->
  In c [9; 10; 11; 12; 13; 28; 29; 30; 31; 32; 133; 160; 5760; 8192; 8193;
        8194; 8195; 8196; 8197; 8198; 8199; 8200; 8201; 8202; 8232; 8233;
        8239; 8287; 12288]%N.
Proof.
  unfold is_space, in_range. intros S.
  repeat match type of S with
         | _ || _ = true => apply orb_true_iff in S as [S | S]
         end;
    repeat match type of S with
           | _ && _ = true =>
               let A := fresh in
               let B := fresh in
               apply andb_true_iff in S as [A B];
               apply N.leb_le in A; apply N.leb_le in B
           | (_ =? _)%N = true => apply N.eqb_eq in S
           end;
    simpl; lia.
Qed.

Lemma decimal_not_space (c : char) : is_decimal c = true -> is_space c = false.
Proof.
  intros H. destruct (is_space c) eqn:S; [|reflexivity].
  apply space_cases in S. simpl in S.
  repeat (destruct S as [<- | S]; [vm_compute in H; discriminate|]).
  destruct S.
Qed.

Lemma ol_exec (D : str) (w : char) (t : str) :
  forallb is_decimal D = true -> 1 <= length D -> is_space w = true ->
  exec re_ol [] (D ++ DOT :: w :: t)
  = Some (RMatch (D ++ DOT :: take_while is_space (w :: t)) []).
Proof.
  intros HD LD Hw. unfold exec, re_ol, cat, plus.
  cbn [fold_right run m_pre m_rest m_caps].
  rewrite (rep_greedy_longest is_decimal D (DOT :: w :: t) 1 None [] [] _
             (MState (rev (take_while is_space (w :: t)) ++ DOT :: rev D)
                     (drop_while is_space (w :: t)) []));
    [| exact HD | exact LD | exact I | left; reflexivity |].
  - cbn [m_pre m_caps]. rewrite Nat.sub_0_r.
    replace (rev (take_while is_space (w :: t)) ++ DOT :: rev D)
      with (rev (D ++ DOT :: take_while is_space (w :: t)) ++ []).
    + rewrite <- (Nat.sub_0_r (length _)).
      change 0 with (length (@nil char)) at 1.
      rewrite last_read_app. reflexivity.
    + rewrite app_nil_r, rev_app_distr. simpl. rewrite <- app_assoc.
      reflexivity.
  - rewrite app_nil_r. cbn [run m_rest m_pre m_caps].
    change (is_c DOT DOT) with true. cbn iota.
    rewrite (take_drop is_space (w :: t)) at 1.
    apply (rep_greedy_longest is_space (take_while is_space (w :: t))
             (drop_while is_space (w :: t)) 1 None (DOT :: rev D) [] _ _).
    + apply take_while_all.
    + simpl. rewrite Hw. simpl. lia.
    + exact I.
    + pose proof (drop_while_head is_space (w :: t)) as Dh.
      destruct (drop_while is_space (w :: t)); [exact I | left; exact Dh].
    + reflexivity.
Qed.

Lemma numbered_line_shape (l : str) :
  numbered_line l = true ->
  exists D w t,
    rstrip l = D ++ DOT :: w :: t /\ forallb is_decimal D = true
    /\ 1 <= length D /\ is_space w = true
    /\ drop_while is_decimal (rstrip l) = DOT :: w :: t.
Proof.
  unfold numbered_line. intros H.
  pose proof (take_drop is_decimal (rstrip l)) as E.
  pose proof (take_while_all is_decimal (rstrip l)) as F.
  destruct (take_while is_decimal (rstrip l)) as [|d0 D]; [discriminate|].
  destruct (drop_while is_decimal (rstrip l)) as [|d [|w t]];
    try discriminate.
  apply andb_true_iff in H as [Hd Hw]. apply is_c_eq in Hd. subst d.
  exists (d0 :: D), w, t. repeat split; auto. simpl. lia.
Qed.

Lemma ol_match_iff (l : str) :
  is_some (re_match re_ol (rstrip l)) = numbered_line l.
Proof.
  destruct (re_match re_ol (rstrip l)) as [m|] eqn:E.
  - apply ol_match_sound in E as [D [w [t [E [F [L Hw]]]]]].
    unfold numbered_line. rewrite E.
    rewrite (take_while_app is_decimal D _ F).
    assert (Dr : drop_while is_decimal (D ++ DOT :: w :: t) = DOT :: w :: t).
    { clear -F. induction D as [|d D IH]; [reflexivity|]. simpl in *.
      apply andb_true_iff in F as [-> F]. auto. }
    rewrite Dr. destruct D as [|d D]; [simpl in L; lia|].
    simpl. change (is_c DOT DOT) with true. rewrite Hw. reflexivity.
  - destruct (numbered_line l) eqn:N; [|reflexivity].
    apply numbered_line_shape in N as [D [w [t [E' [F [L [Hw _]]]]]]].
    unfold re_match in E. rewrite E', (ol_exec D w t F L Hw) in E.
    discriminate.
Qed.

(** Removing the number of an item leaves the text after the white space
    that follows the full stop. *)
Lemma ol_sub (D : str) (w : char) (t : str) :
  forallb is_decimal D = true -> 1 <= length D -> is_space w = true ->
  re_sub re_ol [] (D ++ DOT :: w :: t) = drop_while is_space (w :: t).
Proof.
  intros HD LD Hw. unfold re_sub, re_sub_with.
  pose proof (ol_exec D w t HD LD Hw) as E.
  assert (T : D ++ DOT :: w :: t
              = (D ++ DOT :: take_while is_space (w :: t))
                  ++ drop_while is_space (w :: t)).
  { rewrite <- app_assoc. cbn [app].
    rewrite <- (take_drop is_space (w :: t)). reflexivity. }
  rewrite T in E at 1. rewrite T at 1.
  pose proof (sub_from_hit re_ol (expand []) []
                (drop_while is_space (w :: t))
                (RMatch (D ++ DOT :: take_while is_space (w :: t)) []) E) as H.
  cbn [rm_text] in H. rewrite H; [|destruct D; discriminate].
  cbn [expand map concat app]. apply sub_from_none. intros a b _.
  destruct (rev a ++ rev (D ++ DOT :: take_while is_space (w :: t)) ++ [])
    eqn:R.
  - apply (f_equal (@length char)) in R.
    rewrite !length_app, !length_rev, length_app in R. simpl in R. lia.
  - apply exec_bos_none.
Qed.

Lemma ol_item_text (l : str) :
  numbered_line l = true ->
  li_html (strip (re_sub re_ol [] (rstrip l))) = ol_item l.
Proof.
  intros N. destruct (numbered_line_shape l N) as [D [w [t [E [F [L [Hw Dr]]]]]]].
  unfold ol_item. rewrite Dr, E, (ol_sub D w t F L Hw).
  unfold strip, lstrip. cbn [tl]. rewrite drop_while_idem. reflexivity.
Qed.

(** The inner loop takes the whole run of numbered lines and stops at the
    first line that is not one. *)
Lemma list_items_numbered (run : list str) :
  forall before rest items fuel,
    Forall (fun l => numbered_line l = true) run ->
    match rest with
    | [] => True
    | h :: _ => numbered_line h = false
    end ->
    length run < fuel ->
    list_items fuel re_ol (before ++ run ++ rest) (length before) items
    = Done (length before + length run, items ++ map ol_item run).
Proof.
  induction run as [|l run IH]; intros before rest items fuel Hrun Hstop Hf;
    (destruct fuel as [|fuel]; [simpl in Hf; lia|]).
  - simpl app. simpl length. simpl map.
    rewrite Nat.add_0_r, app_nil_r. cbn [list_items].
    destruct rest as [|h rest].
    + rewrite app_nil_r, Nat.ltb_irrefl. reflexivity.
    + destruct (getitem_middle before h rest) as [Hi Hg].
      rewrite Hi, Hg. cbn [bind].
      destruct (null (rstrip h)); [reflexivity|].
      rewrite ol_match_iff, Hstop. reflexivity.
  - inversion Hrun as [|l' run' Hl Hrun']; subst.
    destruct (numbered_line_shape l Hl) as [D [w [t [E [F [L _]]]]]].
    simpl app. destruct (getitem_middle before l (run ++ rest)) as [Hi Hg].
    cbn [list_items]. rewrite Hi, Hg. cbn [bind].
    rewrite ol_match_iff, Hl, (ol_item_text l Hl).
    assert (Nn : null (rstrip l) = false).
    { rewrite E. destruct D; [simpl in L; lia | reflexivity]. }
    rewrite Nn.
    replace (before ++ l :: run ++ rest) with ((before ++ [l]) ++ run ++ rest)
      by (rewrite <- app_assoc; reflexivity).
    replace (length before + 1) with (length (before ++ [l]))
      by (rewrite length_app; reflexivity).
    rewrite (IH (before ++ [l]) rest _ fuel Hrun' Hstop);
      [|simpl in Hf; lia].
    rewrite length_app. simpl. rewrite <- app_assoc.
    f_equal. f_equal. lia.
Qed.

Lemma decimal_first (c : char) :
  is_decimal c = true ->
  is_c HASH c = false /\ one_of [is_c DASH; is_c STAR] c = false
  /\ is_c DASH c = false.
Proof.
  intros H. unfold one_of, is_c. cbn [existsb].
  repeat split;
    repeat match goal with
           | |- context [N.eqb ?a c] =>
               destruct (N.eqb_spec a c) as [<-|];
               [vm_compute in H; discriminate|]
           end; reflexivity.
Qed.

Lemma strip_first (c : char) (t : str) :
  is_space c = false -> is_c DASH c = false ->
  str_eqb (strip (c :: t)) rule_cell = false.
Proof.
  intros Sc Dc. destruct (strip_head c t Sc) as [y ->].
  cbn [str_eqb rule_cell]. unfold is_c in Dc.
  rewrite N.eqb_sym in Dc. change 45%N with DASH. rewrite Dc. reflexivity.
Qed.

(** One turn of the main loop on the first line of a run of numbered
    lines: the run becomes one [<ol>] element with one [<li>] per line,
    and the loop goes on at the line that ends the run. *)
Lemma render_lines_numbered (fuel : nat)
    (before run rest html_lines : list str) :
  run <> [] ->
  Forall (fun l => numbered_line l = true) run ->
  match rest with
  | [] => True
  | h :: _ => numbered_line h = false
  end ->
  length run <= fuel ->
  render_lines (S fuel) (before ++ run ++ rest) (length before) html_lines
  = render_lines fuel (before ++ run ++ rest)
      (length before + length run)
      (html_lines ++ [lit "<ol>" ++ concat (map ol_item run) ++ lit "</ol>"]).
Proof.
  intros Hne Hrun Hstop Hf.
  destruct run as [|l run]; [congruence|].
  pose proof Hrun as Hrun0.
  inversion Hrun as [|l' run' Hl Hrun']; subst.
  destruct (numbered_line_shape l Hl) as [D [w [t [E [F [L _]]]]]].
  destruct D as [|d D]; [simpl in L; lia|].
  simpl in F. apply andb_true_iff in F as [Fd F].
  destruct (decimal_first d Fd) as [Hh [Hu Hd]].
  destruct (getitem_middle before l (run ++ rest)) as [Hi Hg].
  change ((l :: run) ++ rest) with (l :: run ++ rest).
  cbn [render_lines]. rewrite Hi, Hg. cbn [bind].
  rewrite E. simpl app. cbn [null].
  rewrite (title_needs_hash d _ Hh).
  rewrite (strip_first d _ (decimal_not_space d Fd) Hd).
  rewrite (ul_needs_bullet d _ Hu). cbn [is_some].
  change (d :: D ++ DOT :: w :: t) with ((d :: D) ++ DOT :: w :: t).
  rewrite <- E, ol_match_iff, Hl.
  change (before ++ l :: run ++ rest) with (before ++ (l :: run) ++ rest).
  rewrite (list_items_numbered (l :: run) before rest [] (S fuel) Hrun0 Hstop);
    [|simpl in *; lia].
  cbn [bind]. reflexivity.
Qed.

Lemma strip_app_blank (x b : str) :
  forallb is_space b = true -> strip (x ++ b) = strip x.
Proof.
  intros Hb. unfold strip, lstrip, rstrip.
  induction x as [|c x IH].
  - simpl app. destruct (drop_while_split is_space b) as [a [E F]].
    assert (D : drop_while is_space b = []).
    { pose proof (drop_while_head is_space b) as H.
      destruct (drop_while is_space b) as [|d u]; [reflexivity|].
      rewrite E, forallb_app in Hb. apply andb_true_iff in Hb as [_ Hb].
      simpl in Hb. rewrite H in Hb. discriminate. }
    rewrite D. reflexivity.
  - simpl. destruct (is_space c); [exact IH|].
    change (c :: x ++ b) with ((c :: x) ++ b).
    apply drop_while_end_all, Hb.
Qed.

Lemma strip_rstrip (l : str) : strip (rstrip l) = strip l.
Proof.
  destruct (drop_while_end_split is_space l) as [b [E F]].
  rewrite E at 2. symmetry. apply strip_app_blank, F.
Qed.

(** One turn of the main loop on a line that holds three hyphens and
    white space only: the rule is appended and the loop goes on at the
    next line. *)
Lemma render_lines_rule (fuel : nat) (lines : list str) (i : nat)
    (html_lines : list str) (l : str) :
  nth_error lines i = Some l -> strip l = lit "---" ->
  render_lines (S fuel) lines i html_lines
  = render_lines fuel lines (i + 1) (html_lines ++ [lit "<hr/>"]).
Proof.
  intros Hl Hs. destruct (getitem_nth lines i l Hl) as [Hi Hg].
  cbn [render_lines]. rewrite Hi, Hg. cbn [bind].
  rewrite <- strip_rstrip in Hs.
  destruct (rstrip l) as [|c t] eqn:E; [discriminate|]. cbn [null].
  assert (Hc : is_c HASH c = false).
  { destruct (is_space c) eqn:Sc; [apply space_not_hash, Sc|].
    destruct (strip_head c t Sc) as [y Ey]. rewrite Ey in Hs.
    inversion Hs. reflexivity. }
  rewrite (title_needs_hash c t Hc), Hs. reflexivity.
Qed.

Lemma code_needs (pre rest : str) (m : rmatch) :
  exec re_code pre rest = Some m -> existsb (is_c BACKTICK) rest = true.
Proof.
  intros E. apply exec_sound in E as [rest' [-> S]].
  unfold re_code, cat in S. simpl in S. sem_inv.
  match goal with H : rm_text m = _ |- _ => rewrite H end.
  simpl.
  repeat match goal with
         | H : is_c _ ?x = true |- context [is_c _ ?x] => rewrite H
         end.
  reflexivity.
Qed.

Lemma bold_needs (pre rest : str) (m : rmatch) :
  exec re_bold pre rest = Some m -> existsb (is_c STAR) rest = true.
Proof.
  intros E. apply exec_sound in E as [rest' [-> S]].
  unfold re_bold, cat, Lit in S. simpl in S. sem_inv.
  match goal with H : rm_text m = _ |- _ => rewrite H end.
  simpl.
  repeat match goal with
         | H : is_c _ ?x = true |- context [is_c _ ?x] => rewrite H
         end.
  reflexivity.
Qed.

Lemma link_needs (pre rest : str) (m : rmatch) :
  exec re_link pre rest = Some m -> existsb (is_c 91%N) rest = true.
Proof.
  intros E. apply exec_sound in E as [rest' [-> S]].
  unfold re_link, cat, Lit in S. simpl in S. sem_inv.
  match goal with H : rm_text m = _ |- _ => rewrite H end.
  simpl.
  repeat match goal with
         | H : is_c _ ?x = true |- context [is_c _ ?x] => rewrite H
         end.
  reflexivity.
Qed.

Lemma render_inline_plain (s : str) :
  lacks (one_of [is_c BACKTICK; is_c STAR; is_c 91%N]) s ->
  render_inline s = s.
Proof.
  intros H.
  assert (A : existsb (is_c BACKTICK) s = false
              /\ existsb (is_c STAR) s = false
              /\ existsb (is_c 91%N) s = false).
  { unfold lacks in H. clear -H. induction s as [|c s IH]; [auto|].
    simpl in H. apply orb_false_iff in H as [Hc Hs].
    unfold one_of in Hc. cbn [existsb] in Hc.
    apply orb_false_iff in Hc as [H1 Hc].
    apply orb_false_iff in Hc as [H2 Hc].
    apply orb_false_iff in Hc as [H3 _].
    destruct (IH Hs) as [I1 [I2 I3]]. simpl.
    rewrite H1, H2, H3, I1, I2, I3. auto. }
  destruct A as [A1 [A2 A3]].
  unfold render_inline, re_sub, re_sub_with.
  rewrite (sub_needs re_code _ (is_c BACKTICK) code_needs s [] A1).
  rewrite (sub_needs re_bold _ (is_c STAR) bold_needs s [] A2).
  apply (sub_needs re_link _ (is_c 91%N) link_needs s [] A3).
Qed.

(** One turn of the main loop on a line that is not blank, does not begin
    with [#], [-], [*] or a digit and is not a rule: its paragraph is
    appended and the loop goes on at the next line. *)
Lemma render_lines_paragraph (fuel : nat) (lines : list str) (i : nat)
    (html_lines : list str) (l : str) (c : char) (t : str) :
  nth_error lines i = Some l -> rstrip l = c :: t ->
  is_c HASH c = false -> one_of [is_c DASH; is_c STAR] c = false ->
  is_decimal c = false -> strip l <> lit "---" ->
  render_lines (S fuel) lines i html_lines
  = render_lines fuel lines (i + 1)
      (html_lines ++ [lit "<p>" ++ render_inline (c :: t) ++ lit "</p>"]).
Proof.
  intros Hl E Hh Hu Hd Hr.
  destruct (getitem_nth lines i l Hl) as [Hi Hg].
  cbn [render_lines]. rewrite Hi, Hg. cbn [bind].
  rewrite E. cbn [null].
  rewrite (title_needs_hash c t Hh), (ul_needs_bullet c t Hu),
    (ol_needs_digit c t Hd).
  destruct (str_eqb (strip (c :: t)) rule_cell) eqn:R; [|reflexivity].
  apply str_eqb_eq in R. rewrite <- E, strip_rstrip in R. contradiction.
Qed.

(* ===================================================================== *)
(** * From the ledger to the data of the site *)

Lemma extract_details_done (cell_html : str) :
  exists x, extract_details cell_html = Done (strip x).
Proof.
  unfold extract_details.
  destruct (re_search re_details cell_html) as [m|] eqn:E.
  - apply search_from_some in E as [pre' [rest' E]].
    destruct (details_group _ _ _ E) as [g G].
    unfold group_str. rewrite G. cbn [bind]. eauto.
  - cbn [bind]. eauto.
Qed.

Lemma parse_row_fields (line d t l s : str) :
  parse_row line = Some (d, t, l, s) ->
  clean d /\ clean t /\ clean l /\ strip s = s.
Proof.
  unfold parse_row.
  destruct (negb (startswith [PIPE] (strip line))); [discriminate|].
  pose proof (split_fields PIPE (strip_char PIPE (strip line))) as F.
  destruct (split PIPE (strip_char PIPE (strip line)))
    as [|p1 [|p2 [|p3 [|p4 ps]]]]; try discriminate.
  cbn [map]. intros H. inversion H; subst. clear H.
  assert (C : forall p, In p (p1 :: p2 :: p3 :: p4 :: ps) -> clean (strip p)).
  { intros p Hp. split; [|apply strip_idem].
    apply strip_keeps_absent, F, Hp. }
  split; [apply C; simpl; auto|]. split; [apply C; simpl; auto|].
  split; [apply C; simpl; auto | apply strip_idem].
Qed.

Lemma parse_rows_records (lines : list str) :
  exists records,
    parse_rows lines = Done records
    /\ length records <= length lines
    /\ Forall (fun r => clean (date r) /\ clean (title r) /\ clean (link r)
                        /\ strip (details_raw r) = details_raw r) records.
Proof.
  induction lines as [|line lines [records [E [L F]]]].
  - exists []. simpl. auto.
  - cbn [parse_rows]. destruct (parse_row line) as [[[[d t] l] s]|] eqn:P.
    + destruct (extract_details_done s) as [x X]. rewrite X, E. cbn [bind].
      eexists. split; [reflexivity|]. split; [simpl; lia|].
      constructor; [|exact F]. cbn [date title link details_raw].
      destruct (parse_row_fields _ _ _ _ _ P) as [Cd [Ct [Cl _]]].
      split; [exact Cd|]. split; [exact Ct|]. split; [exact Cl|].
      apply strip_idem.
    + exists records. split; [exact E|]. split; [simpl; lia | exact F].
Qed.

(** X8: [parse_markdown_table] returns for every text.  The first two lines
    that are not blank are taken for the header whatever they hold, so
    there are at most as many records as further such lines; a text with
    fewer than three of them gives no record.  No date, title or link of
    a record holds the column delimiter, and none of its four fields
    begins or ends with white space. *)
Theorem parse_markdown_table_records (md_text : str) :
  let lines := filter (fun line => negb (null (strip line)))
                      (splitlines md_text) in
  exists records,
    parse_markdown_table md_text = Done records
    /\ length records <= length lines - 2
    /\ Forall (fun r => clean (date r) /\ clean (title r) /\ clean (link r)
                        /\ strip (details_raw r) = details_raw r) records.
Proof.
  intros lines. unfold parse_markdown_table. fold lines.
  destruct (length lines <? 3) eqn:E.
  - exists []. split; [reflexivity|]. split; [simpl; lia | constructor].
  - destruct (parse_rows_records (skipn 2 lines)) as [records [R [L F]]].
    exists records. rewrite length_skipn in L. auto.
Qed.

(** X9: [build_data] returns for every list of records, with one entry per
    record and in the same order: the date, the title and the link are
    copied, the Markdown of the entry is the recovered text of the record,
    which has the characters of that text that are not white space, one
    for one and in the same order, each as it was or, for an en dash, as
    it was or as a hyphen (exactly the same where the text holds a newline
    or no en dash), and the HTML of the entry is the rendering of that
    Markdown. *)
Theorem build_data_entries (records : list paper) :
  exists data,
    build_data records = Done data
    /\ Forall2 (fun rec e =>
                  e_date e = date rec /\ e_title e = title rec
                  /\ e_link e = link rec
                  /\ auto_add_linebreaks (details_raw rec)
                     = Done (summary_markdown e)
                  /\ softened (details_raw rec) (summary_markdown e)
                  /\ (contains [NL] (details_raw rec) = true
                      \/ lacks (is_c ENDASH) (details_raw rec) ->
                      bare (summary_markdown e) = bare (details_raw rec))
                  /\ markdown_to_html (summary_markdown e)
                     = Done (summary_html e)) records data.
Proof.
  induction records as [|rec records [data [E F]]].
  - exists []. split; [reflexivity | constructor].
  - destruct (auto_add_linebreaks_unstripped (details_raw rec))
      as [t [A [V X]]].
    apply softened_strip in V.
    assert (B : contains [NL] (details_raw rec) = true
                \/ lacks (is_c ENDASH) (details_raw rec) ->
                bare (strip t) = bare (details_raw rec)).
    { intros [N | L]; [rewrite bare_strip; apply X, N|].
      apply softened_plain; assumption. }
    clear X. set (fixed := strip t) in *.
    destruct (render_lines_total (splitlines fixed)
                (length (splitlines fixed)) 0 []) as [out Hout]; [lia|].
    assert (M : markdown_to_html fixed
                = Done (strip (join [NL] (merge_blank false out)))).
    { unfold markdown_to_html, markdown_to_html_fuel.
      rewrite (Hout _ (Nat.lt_succ_diag_r _)). reflexivity. }
    cbn [build_data]. rewrite A. cbn [bind]. rewrite M. cbn [bind].
    rewrite E. cbn [bind]. eexists. split; [reflexivity|].
    constructor; [|exact F]. cbn. auto 8.
Qed.

(* ===================================================================== *)
(** * The summary text on its way through the ledger *)

(** ** Lazy repetition *)

(** A lazy [[\s\S]*?] stops where what follows it in the pattern
    succeeds. *)
Lemma lazy_stop (pre rest : str) (caps : list (nat * str))
    (k : mstate -> option mstate) (r : mstate) :
  k (MState pre rest caps) = Some r ->
  rep false any_char 0 None pre rest caps k = Some r.
Proof.
  intros H. destruct rest as [|c rest]; cbn [rep]; [exact H|].
  cbn [any_char room andb]. rewrite H. reflexivity.
Qed.

(** It passes the characters before which what follows it fails. *)
Lemma lazy_pass (u : str) :
  forall pre rest caps k,
    (forall a b, u = a ++ b -> b <> [] ->
       k (MState (rev a ++ pre) (b ++ rest) caps) = None) ->
    rep false any_char 0 None pre (u ++ rest) caps k
    = rep false any_char 0 None (rev u ++ pre) rest caps k.
Proof.
  induction u as [|c u IH]; intros pre rest caps k H; [reflexivity|].
  simpl app. cbn [rep]. cbn [any_char room andb Nat.pred less].
  assert (H0 : k (MState pre (c :: u ++ rest) caps) = None).
  { apply (H [] (c :: u) eq_refl). discriminate. }
  rewrite H0, IH.
  - simpl rev. rewrite <- app_assoc. reflexivity.
  - intros a b E Hb. specialize (H (c :: a) b).
    simpl in H. rewrite <- app_assoc in H. apply H; [congruence | exact Hb].
Qed.

(** ** Literal text in a pattern *)

Lemma run_LitI_fails (w : str) :
  forall pre s caps k,
    ci_startswith w s = false ->
    run (fold_right Seq Eps (map (fun c => Cls (is_ci c)) w))
        (MState pre s caps) k = None.
Proof.
  induction w as [|x w IH]; intros pre s caps k H; [discriminate|].
  cbn [map fold_right run m_rest m_pre m_caps].
  destruct s as [|y s]; [reflexivity|]. cbn [ci_startswith] in H.
  destruct (is_ci x y); [|reflexivity]. apply IH. exact H.
Qed.

Lemma run_LitI_reads (w : str) :
  forall pre rest caps k,
    forallb (fun c => is_ci c c) w = true ->
    run (fold_right Seq Eps (map (fun c => Cls (is_ci c)) w))
        (MState pre (w ++ rest) caps) k
    = k (MState (rev w ++ pre) rest caps).
Proof.
  induction w as [|x w IH]; intros pre rest caps k H; [reflexivity|].
  simpl in H. apply andb_true_iff in H as [Hx Hw].
  cbn [map fold_right run m_rest m_pre m_caps app]. rewrite Hx.
  rewrite IH by exact Hw. simpl rev. rewrite <- app_assoc. reflexivity.
Qed.

(** A pattern of the shape [open(.*?)close], as the wrapper and the
    summary patterns are: on a text that begins with [open], the group is
    what stands before the first place where [close] begins. *)
Lemma lazy_between (op cl u rest pre : str) :
  forallb (fun c => is_ci c c) op = true ->
  forallb (fun c => is_ci c c) cl = true ->
  (forall a b, u = a ++ b -> b <> [] ->
     ci_startswith cl (b ++ cl ++ rest) = false) ->
  exec (cat [LitI op; Grp 1 (Rep false 0 None any_char); LitI cl])
       pre (op ++ u ++ cl ++ rest)
  = Some (RMatch (op ++ u ++ cl) [(1, u)]).
Proof.
  intros Ho Hc Hu. unfold exec, cat, LitI.
  cbn [fold_right]. cbn [run]. rewrite (run_LitI_reads op) by exact Ho.
  cbn [run m_pre m_rest m_caps].
  rewrite (lazy_pass u).
  - rewrite (lazy_stop _ _ _ _
               (MState (rev cl ++ rev u ++ rev op ++ pre) rest
                       [(1, u)])).
    + cbn [m_pre m_caps].
      replace (rev cl ++ rev u ++ rev op ++ pre)
        with (rev (op ++ u ++ cl) ++ pre)
        by (rewrite !rev_app_distr, <- !app_assoc; reflexivity).
      rewrite last_read_app. reflexivity.
    + cbn [m_pre m_rest m_caps fold_right run].
      rewrite (run_LitI_reads cl) by exact Hc. cbn [run].
      unfold consumed. cbn [m_pre].
      rewrite last_read_app. reflexivity.
  - intros a b E Hb. cbn [m_pre m_rest m_caps fold_right run].
    apply run_LitI_fails. apply (Hu a b E Hb).
Qed.

Lemma ci_clash_fails (w s tail : str) :
  ci_clash w s = true -> ci_startswith w (s ++ tail) = false.
Proof.
  revert s. induction w as [|x w IH]; intros [|y s] H; try discriminate.
  cbn [ci_clash] in H. cbn [app ci_startswith].
  destruct (is_ci x y); [|reflexivity]. cbn [negb orb andb] in *.
  apply IH, H.
Qed.

Lemma tails_in (u a b : str) : u = a ++ b -> b <> [] -> In b (tails u).
Proof.
  revert u. induction a as [|c a IH]; intros u -> Hb.
  - destruct b; [congruence | left; reflexivity].
  - right. apply (IH _ eq_refl Hb).
Qed.

Lemma tame_tail (a b : str) : tame (a ++ b) = true -> tame b = true.
Proof.
  induction a as [|c a IH]; [auto|]. simpl app. intros H.
  cbn [tame] in H. apply andb_true_iff in H as [_ H]. auto.
Qed.

Lemma is_ci_lt_eq (y : char) : is_ci LT y = N.eqb y LT.
Proof. unfold is_ci, in_range, LT. simpl. rewrite !orb_false_r. reflexivity. Qed.

Lemma is_ci_slash_eq (y : char) : is_ci 47%N y = N.eqb y 47%N.
Proof. unfold is_ci, in_range. simpl. rewrite !orb_false_r. reflexivity. Qed.

(** A tame payload has no place where a closing tag begins, whatever
    comes after it. *)
Lemma tame_no_close (cl u b tail : str) :
  tame u = true -> In b (tails u) ->
  ci_startswith (LT :: 47%N :: cl) (b ++ LT :: 47%N :: tail) = false.
Proof.
  intros T Hb.
  assert (Tb : tame b = true /\ b <> []).
  { clear -T Hb. induction u as [|c u IH]; [destruct Hb|].
    destruct Hb as [<- | Hb]; [split; [exact T | discriminate]|].
    apply IH; [|exact Hb]. cbn [tame] in T.
    apply andb_true_iff in T as [_ T]. exact T. }
  destruct Tb as [Tb Nb]. destruct b as [|c b]; [congruence|].
  cbn [app ci_startswith].
  rewrite is_ci_lt_eq.
  destruct (N.eqb_spec c LT) as [->|]; [|reflexivity]. cbn [andb].
  destruct b as [|d b]; [reflexivity|]. cbn [app].
  rewrite is_ci_slash_eq.
  cbn [tame] in Tb. apply andb_true_iff in Tb as [Tb _].
  change (is_c LT LT) with true in Tb. cbn [andb negb] in Tb.
  apply negb_true_iff, orb_false_iff in Tb as [Td _].
  unfold is_c in Td. rewrite N.eqb_sym, Td. reflexivity.
Qed.

(** No [<summary>] tag begins in a tame payload. *)
Lemma tame_no_summary (u : str) :
  tame u = true ->
  forall a b pre, u = a ++ b -> exec re_summary pre b = None.
Proof.
  intros T a b pre E. destruct (exec re_summary pre b) as [m|] eqn:X;
    [|reflexivity].
  exfalso. rewrite E in T. apply tame_tail in T.
  apply exec_sound in X as [rest' [Eb S]].
  unfold re_summary, cat, LitI, lit in S. simpl in S. sem_inv.
  match goal with H : rm_text m = _ |- _ => rewrite H in T end.
  simpl in T.
  repeat match goal with H : is_ci 60%N ?x = true |- _ =>
    apply is_ci_lt in H; subst x end.
  change (is_c LT 60%N) with true in T.
  match goal with H : is_ci 115%N ?x = true |- _ => rewrite H in T end.
  rewrite orb_true_r in T. discriminate.
Qed.

Lemma lazy_between_plain (op cl u rest pre : str) :
  forallb (fun c => is_ci c c) op = true ->
  forallb (fun c => is_ci c c) cl = true ->
  (forall a b, u = a ++ b -> b <> [] ->
     ci_startswith cl (b ++ cl ++ rest) = false) ->
  exec (cat [LitI op; Rep false 0 None any_char; LitI cl])
       pre (op ++ u ++ cl ++ rest)
  = Some (RMatch (op ++ u ++ cl) []).
Proof.
  intros Ho Hc Hu. unfold exec, cat, LitI.
  cbn [fold_right]. cbn [run]. rewrite (run_LitI_reads op) by exact Ho.
  cbn [run m_pre m_rest m_caps].
  rewrite (lazy_pass u).
  - rewrite (lazy_stop _ _ _ _
               (MState (rev cl ++ rev u ++ rev op ++ pre) rest [])).
    + cbn [m_pre m_caps].
      replace (rev cl ++ rev u ++ rev op ++ pre)
        with (rev (op ++ u ++ cl) ++ pre)
        by (rewrite !rev_app_distr, <- !app_assoc; reflexivity).
      rewrite last_read_app. reflexivity.
    + cbn [m_pre m_rest m_caps fold_right run].
      rewrite (run_LitI_reads cl) by exact Hc. reflexivity.
  - intros a b E Hb. cbn [m_pre m_rest m_caps fold_right run].
    apply run_LitI_fails. apply (Hu a b E Hb).
Qed.

Lemma tails_app (u v b : str) :
  In b (tails (u ++ v)) ->
  (exists u2, In u2 (tails u) /\ b = u2 ++ v) \/ In b (tails v).
Proof.
  induction u as [|c u IH]; [auto|]. simpl app. cbn [tails].
  intros [<- | H].
  - left. exists (c :: u). split; [left|]; reflexivity.
  - destruct (IH H) as [[u2 [I E]] | I]; [left | right; exact I].
    exists u2. split; [right; exact I | exact E].
Qed.

Lemma wrap_in_details_parts (body : str) :
  wrap_in_details body
  = lit "<details>" ++ (summary_tag ++ body) ++ lit "</details>" ++ [].
Proof.
  unfold wrap_in_details, summary_tag.
  change (lit "<details><summary>") with (lit "<details>" ++ lit "<summary>").
  rewrite <- !app_assoc, app_nil_r. reflexivity.
Qed.

(** The wrapper pattern finds the whole cell, and its group is the
    summary tag and the payload. *)
Lemma details_of_wrapped (body : str) :
  tame body = true ->
  re_search re_details (wrap_in_details body)
  = Some (RMatch (wrap_in_details body) [(1, summary_tag ++ body)]).
Proof.
  intros T. unfold re_search. rewrite wrap_in_details_parts at 1.
  assert (X : exec re_details []
                (lit "<details>" ++ (summary_tag ++ body)
                   ++ lit "</details>" ++ [])
              = Some (RMatch (lit "<details>" ++ (summary_tag ++ body)
                                ++ lit "</details>")
                             [(1, summary_tag ++ body)])).
  { apply lazy_between; [reflexivity | reflexivity |].
    intros a b E Hb. apply tails_in in E; [|exact Hb].
    apply tails_app in E as [[u2 [I ->]] | I].
    - rewrite <- app_assoc. apply ci_clash_fails.
      assert (A : forallb (ci_clash (lit "</details>")) (tails summary_tag)
                  = true) by (vm_compute; reflexivity).
      rewrite forallb_forall in A. apply A, I.
    - exact (tame_no_close (lit "details>") body b (lit "details>" ++ []) T I). }
  destruct (lit "<details>" ++ (summary_tag ++ body) ++ lit "</details>" ++ [])
    eqn:W; cbn [search_from]; rewrite X;
    rewrite wrap_in_details_parts, app_nil_r; reflexivity.
Qed.

(** Removing the summary tag from the group leaves the payload. *)
Lemma summary_removed (body : str) :
  tame body = true -> re_sub re_summary [] (summary_tag ++ body) = body.
Proof.
  intros T. unfold re_sub, re_sub_with.
  assert (X : exec re_summary [] (summary_tag ++ body)
              = Some (RMatch summary_tag [])).
  { unfold summary_tag, re_summary. rewrite <- !app_assoc.
    rewrite (lazy_between_plain (lit "<summary>") (lit "</summary>")
               expand_label body []); [| reflexivity | reflexivity |].
    - reflexivity.
    - intros a b E Hb. apply tails_in in E; [|exact Hb].
      apply ci_clash_fails.
      assert (A : forallb (ci_clash (lit "</summary>")) (tails expand_label)
                  = true) by (vm_compute; reflexivity).
      rewrite forallb_forall in A. apply A, E. }
  pose proof (sub_from_hit re_summary (expand []) [] body
                (RMatch summary_tag []) X) as H.
  cbn [rm_text] in H. rewrite H; [|discriminate].
  cbn [expand map concat app]. apply sub_from_none.
  intros a b E. apply (tame_no_summary body T a b _ E).
Qed.

(** X10: A cell made by [wrap_in_details] from a tame payload: [extract_details]
    gives the payload back with its line-break markers turned into
    newlines and the white space around it removed, and the format check
    of [clear_summaries.py] looks for its heading in that very text. *)
Theorem wrapped_payload (body : str) :
  tame body = true ->
  extract_details (wrap_in_details body) = Done (strip (br_to_newline body))
  /\ is_valid_markdown_format (wrap_in_details body)
     = Done (is_some (re_search re_h2 (strip (br_to_newline body)))).
Proof.
  intros T. unfold extract_details, is_valid_markdown_format.
  rewrite (details_of_wrapped body T). unfold group_str.
  cbn [group lookup Nat.eqb rm_caps bind].
  rewrite (summary_removed body T). split; [reflexivity|].
  destruct (re_search re_h2 (strip (br_to_newline body))); reflexivity.
Qed.

Lemma wrapped_payload_witness :
  extract_details (wrap_in_details (lit "## A<br>text"))
  = Done (lit "## A" ++ [NL] ++ lit "text")
  /\ is_valid_markdown_format (wrap_in_details (lit "## A<br>text"))
     = Done true.
Proof.
  destruct (wrapped_payload (lit "## A<br>text") eq_refl) as [E V].
  rewrite E, V. split; reflexivity.
Defined.

(** ** Line-break markers *)

Lemma replace_nl_cons (new : str) (c : char) (t : str) :
  replace [NL] new (c :: t)
  = (if N.eqb NL c then new else [c]) ++ replace [NL] new t.
Proof.
  unfold replace. cbn [replace_from startswith length Nat.pred].
  destruct (N.eqb NL c); cbn [andb]; reflexivity.
Qed.

Lemma replace_nl_lacks (q : char -> bool) (new t : str) :
  lacks q new -> (forall c, q c = true -> N.eqb NL c = true \/ lacks (is_c c) t) ->
  lacks q (replace [NL] new t).
Proof.
  intros Hn. unfold lacks in *. induction t as [|c t IH]; intros H;
    [reflexivity|].
  rewrite replace_nl_cons, existsb_app. rewrite IH.
  - rewrite orb_false_r. destruct (N.eqb NL c) eqn:E; [exact Hn|].
    simpl. rewrite orb_false_r. destruct (q c) eqn:Q; [|reflexivity].
    destruct (H c Q) as [A | A]; [congruence|].
    simpl in A. unfold is_c in A. rewrite N.eqb_refl in A. discriminate.
  - intros d Q. destruct (H d Q) as [A | A]; [left; exact A|].
    right. simpl in A. apply orb_false_iff in A as [_ A]. exact A.
Qed.

Lemma replace_skip_char (x : char) (old new : str) (c : char) (t : str) :
  N.eqb x c = false ->
  replace (x :: old) new (c :: t) = c :: replace (x :: old) new t.
Proof.
  intros H. unfold replace. cbn [replace_from startswith]. rewrite H.
  reflexivity.
Qed.

Lemma br_round (t : str) :
  lacks (is_c LT) t ->
  replace (lit "<br>") [NL] (replace [NL] (lit "<br>") t) = t.
Proof.
  unfold lacks. induction t as [|c t IH]; [reflexivity|]. intros H.
  simpl in H. apply orb_false_iff in H as [Hc Ht].
  rewrite replace_nl_cons. destruct (N.eqb_spec NL c) as [<-|N].
  - transitivity (NL :: replace (lit "<br>") [NL]
                          (replace [NL] (lit "<br>") t));
      [reflexivity | f_equal; apply (IH Ht)].
  - cbn [app]. change (lit "<br>") with (LT :: lit "br>") at 1.
    rewrite (replace_skip_char LT _ _ c _ Hc). f_equal. apply (IH Ht).
Qed.

Lemma tame_cons_other (c : char) (u : str) :
  is_c LT c = false -> tame (c :: u) = tame u.
Proof. intros H. cbn [tame]. rewrite H. destruct u; reflexivity. Qed.

Lemma tame_br (u : str) : tame (lit "<br>" ++ u) = tame u.
Proof.
  change (lit "<br>" ++ u) with (LT :: 98%N :: 114%N :: 62%N :: u).
  cbn [tame]. change (is_c LT LT && (is_c 47%N 98%N || is_ci 115%N 98%N))
    with false.
  change (is_c LT 98%N) with false. change (is_c LT 114%N) with false.
  change (is_c LT 62%N) with false. destruct u; reflexivity.
Qed.

Lemma br_tame (t : str) :
  lacks (is_c LT) t -> tame (replace [NL] (lit "<br>") t) = true.
Proof.
  unfold lacks. induction t as [|c t IH]; [reflexivity|]. intros H.
  simpl in H. apply orb_false_iff in H as [Hc Ht].
  rewrite replace_nl_cons. destruct (N.eqb NL c).
  - rewrite tame_br. apply (IH Ht).
  - cbn [app]. rewrite (tame_cons_other c _ Hc). apply (IH Ht).
Qed.

Lemma br_to_newline_round (t : str) :
  lacks (is_c LT) t -> br_to_newline (replace [NL] (lit "<br>") t) = t.
Proof.
  intros H. unfold br_to_newline. rewrite (br_round t H).
  change (lit "<br/>") with (LT :: lit "br/>").
  change (lit "<br />") with (LT :: lit "br />").
  rewrite !(replace_absent LT _ _ t H). reflexivity.
Qed.

(** ** The tidied text *)

Lemma think_never_empty : never_empty re_think.
Proof.
  intros pre rest m E. apply exec_sound in E as [rest' [_ S]].
  unfold re_think, cat, LitI, lit in S. simpl in S. sem_inv. text_not_empty.
Qed.

Lemma blanks_blank (pre rest : str) (m : rmatch) :
  exec re_blanks pre rest = Some m ->
  forallb is_space (rm_text m) = true /\ rm_text m <> [].
Proof.
  intros E. apply exec_sound in E as [rest' [_ S]].
  unfold re_blanks, plus in S. simpl in S. destruct S as [[F [L _]] _].
  split; [|destruct (rm_text m); [simpl in L; lia | discriminate]].
  clear -F. induction (rm_text m) as [|c w IH]; [reflexivity|].
  simpl in *. apply andb_true_iff in F as [Hc Hw]. rewrite (IH Hw).
  unfold one_of in Hc. cbn [existsb] in Hc. rewrite orb_false_r in Hc.
  apply orb_true_iff in Hc as [H | H]; apply is_c_eq in H; subst c;
    reflexivity.
Qed.

Lemma sp_is_space (w : str) :
  forallb (is_c SP) w = true -> forallb is_space w = true.
Proof.
  induction w as [|c w IH]; [reflexivity|]. simpl. intros H.
  apply andb_true_iff in H as [Hc Hw]. apply is_c_eq in Hc. subst c.
  rewrite (IH Hw). reflexivity.
Qed.

Lemma space_eol_blank (pre rest : str) (m : rmatch) :
  exec re_space_eol pre rest = Some m ->
  forallb is_space (rm_text m) = true /\ rm_text m <> [].
Proof.
  intros E. apply exec_sound in E as [rest' [_ S]].
  unfold re_space_eol, cat in S. simpl in S. sem_inv.
  match goal with H : rm_text m = _ |- _ => rewrite H end.
  match goal with H : is_c NL _ = true |- _ => apply is_c_eq in H; subst end.
  split.
  - rewrite forallb_app.
    match goal with H : forallb (is_c SP) _ = true |- _ =>
      rewrite (sp_is_space _ H) end.
    reflexivity.
  - intros A. apply (f_equal (@length char)) in A.
    rewrite !length_app in A. simpl in A. lia.
Qed.

Lemma blank_lines_blank (pre rest : str) (m : rmatch) :
  exec re_blank_lines pre rest = Some m ->
  forallb is_space (rm_text m) = true /\ rm_text m <> [].
Proof.
  intros E. split; [|exact (blank_never_empty _ _ _ E)].
  apply exec_sound in E as [rest' [_ S]].
  simpl in S. destruct S as [[F _] _]. apply nl_is_space, F.
Qed.

Section Rewriting.

Variable r : re.
Variable f : rmatch -> str.

(** A pattern that matches white space only. *)
Hypothesis blank_only :
  forall pre rest m,
    exec r pre rest = Some m ->
    forallb is_space (rm_text m) = true /\ rm_text m <> [].

Lemma blank_only_never_empty : never_empty r.
Proof. intros pre rest m E. apply (blank_only _ _ _ E). Qed.

Lemma blank_only_first (pre : str) (c : char) (rest : str) :
  is_space c = false -> exec r pre (c :: rest) = None.
Proof.
  intros Hc. destruct (exec r pre (c :: rest)) as [m|] eqn:E; [|reflexivity].
  destruct (blank_only _ _ _ E) as [F N].
  apply exec_sound in E as [rest' [E _]].
  destruct (rm_text m) as [|d w]; [congruence|].
  simpl in E. inversion E; subst. simpl in F. rewrite Hc in F. discriminate.
Qed.

Lemma blank_only_last :
  forall pre rest,
    forall rest0 c, rest = rest0 ++ [c] -> is_space c = false ->
    exists out0, sub_from r f pre rest = out0 ++ [c].
Proof.
  apply (sub_from_ind r f
           (fun _ rest out =>
              forall rest0 c, rest = rest0 ++ [c] -> is_space c = false ->
              exists out0, out = out0 ++ [c])).
  - exact blank_only_never_empty.
  - intros _ [|x rest0] c E; discriminate.
  - intros pre c1 rest _ IH rest0 c E Hc.
    destruct rest0 as [|x rest0].
    + simpl in E. inversion E; subst.
      exists []. rewrite sub_from_nil; [reflexivity|].
      destruct (exec r (c :: pre) []) as [m|] eqn:X; [|reflexivity].
      destruct (blank_only _ _ _ X) as [_ N].
      apply exec_sound in X as [rest' [X _]].
      destruct (rm_text m); [congruence | discriminate].
    + simpl in E. inversion E; subst.
      destruct (IH rest0 c eq_refl Hc) as [out0 ->].
      exists (x :: out0). reflexivity.
  - intros pre m rest E IH rest0 c Er Hc.
    destruct (blank_only _ _ _ E) as [F N].
    destruct rest as [|x rest].
    + exfalso. rewrite app_nil_r in Er. rewrite Er in F.
      rewrite forallb_app in F. simpl in F. rewrite Hc in F.
      rewrite andb_false_r in F. discriminate.
    + destruct (exists_last (l := x :: rest)) as [rest1 [c1 E1]];
        [discriminate|].
      rewrite E1, app_assoc in Er. apply app_inj_tail in Er as [_ <-].
      destruct (IH rest1 c1 E1 Hc) as [out0 ->].
      exists (f m ++ out0). rewrite app_assoc. reflexivity.
Qed.

Lemma blank_only_trimmed (s : str) :
  strip s = s -> strip (re_sub_with r f s) = re_sub_with r f s.
Proof.
  intros Hs. unfold re_sub_with.
  destruct s as [|c0 s].
  - rewrite sub_from_nil; [reflexivity|].
    destruct (exec r [] []) as [m|] eqn:X; [|reflexivity].
    destruct (blank_only _ _ _ X) as [_ N].
    apply exec_sound in X as [rest' [X _]].
    destruct (rm_text m); [congruence | discriminate].
  - assert (H0 : is_space c0 = false).
    { pose proof (drop_while_head is_space (c0 :: s)) as H.
      unfold strip, lstrip, rstrip in Hs.
      destruct (drop_while is_space (c0 :: s)) as [|d v] eqn:D.
      - simpl in Hs. discriminate.
      - simpl in D. destruct (is_space c0) eqn:S0; [|reflexivity].
        exfalso.
        assert (L : length (drop_while_end is_space (d :: v))
                    <= length (d :: v)).
        { destruct (drop_while_end_split is_space (d :: v)) as [b [Eb _]].
          rewrite Eb at 2. rewrite length_app. lia. }
        rewrite Hs in L.
        destruct (drop_while_split is_space s) as [a [Ea _]].
        rewrite D in Ea. rewrite Ea in L. simpl in L.
        rewrite length_app in L. simpl in L. lia. }
    destruct (drop_while_end_last is_space (lstrip (c0 :: s)))
      as [A | [v [d [A Hd]]]].
    + unfold strip, rstrip in Hs. rewrite A in Hs. discriminate.
    + unfold strip, rstrip in Hs. rewrite A in Hs.
      destruct (blank_only_last [] (c0 :: s) v d (eq_sym Hs) Hd)
        as [out0 Eo].
      rewrite (sub_from_keep r f [] c0 s (blank_only_first [] c0 s H0)) in *.
      unfold strip, lstrip, rstrip.
      rewrite (drop_while_fix is_space c0 _ H0), Eo.
      apply (drop_while_end_keep is_space out0 d Hd).
Qed.

End Rewriting.

Lemma think_absent (q : char -> bool) (pre rest : str) (m : rmatch) :
  exec re_think pre rest = Some m ->
  existsb q (rm_text m) = false -> existsb q (expand [] m) = false.
Proof. reflexivity. Qed.

Lemma tidy_text_trimmed (text : str) : strip (tidy_text text) = tidy_text text.
Proof.
  unfold tidy_text, re_sub.
  apply (blank_only_trimmed _ _ space_eol_blank).
  apply (blank_only_trimmed _ _ blank_lines_blank).
  apply (blank_only_trimmed _ _ blanks_blank).
  apply strip_idem.
Qed.

Lemma absent_char (q : char -> bool) (w : str) (c : char) :
  In c w -> existsb q w = false -> q c = false.
Proof.
  intros I H. destruct (q c) eqn:Q; [|reflexivity].
  rewrite (existsb_in q c w I Q) in H. discriminate.
Qed.

Lemma blank_lines_absent (q : char -> bool) (pre rest : str) (m : rmatch) :
  exec re_blank_lines pre rest = Some m ->
  existsb q (rm_text m) = false ->
  existsb q (expand [TLit [NL; NL]] m) = false.
Proof.
  intros E A. apply exec_sound in E as [rest' [_ S]].
  simpl in S. destruct S as [[F [L _]] _].
  destruct (rm_text m) as [|c w]; [simpl in L; lia|].
  simpl in F. apply andb_true_iff in F as [Hc _]. apply is_c_eq in Hc.
  subst c. simpl in A. apply orb_false_iff in A as [A _].
  unfold expand. simpl. rewrite A. reflexivity.
Qed.

Lemma space_eol_absent (q : char -> bool) (pre rest : str) (m : rmatch) :
  exec re_space_eol pre rest = Some m ->
  existsb q (rm_text m) = false ->
  existsb q (expand [TLit [NL]] m) = false.
Proof.
  intros E A. apply exec_sound in E as [rest' [_ S]].
  unfold re_space_eol, cat in S. simpl in S. sem_inv.
  match goal with H : is_c NL _ = true |- _ => apply is_c_eq in H; subst end.
  absent. unfold expand. simpl.
  match goal with H : q NL = false |- _ => rewrite H end. reflexivity.
Qed.

(** Tidying brings no character into the text other than the space. *)
Lemma tidy_text_lacks (q : char -> bool) (text : str) :
  q SP = false -> lacks q text -> lacks q (tidy_text text).
Proof.
  intros Hs H. unfold tidy_text, re_sub, lacks.
  apply (sub_absent _ _ q (blank_only_never_empty _ space_eol_blank)
           (space_eol_absent q)).
  apply (sub_absent _ _ q blank_never_empty (blank_lines_absent q)).
  apply (sub_absent _ _ q (blank_only_never_empty _ blanks_blank)).
  { intros pre rest m _ _. unfold expand. simpl. rewrite Hs. reflexivity. }
  apply strip_keeps_absent.
  apply (sub_absent _ _ q think_never_empty (think_absent q)).
  apply strip_keeps_absent. exact H.
Qed.

Lemma blanks_exec (pre : str) (c : char) (rest : str) :
  one_of [is_c SP; is_c TAB] c = true ->
  exec re_blanks pre (c :: rest) <> None.
Proof.
  intros Hc. unfold exec, re_blanks, plus. cbn [run m_pre m_rest m_caps].
  set (p := one_of [is_c SP; is_c TAB]) in *.
  rewrite (take_drop p (c :: rest)).
  rewrite (rep_greedy_longest p (take_while p (c :: rest))
             (drop_while p (c :: rest)) 1 None pre [] Some
             (MState (rev (take_while p (c :: rest)) ++ pre)
                     (drop_while p (c :: rest)) [])).
  - discriminate.
  - apply take_while_all.
  - simpl. rewrite Hc. simpl. lia.
  - exact I.
  - pose proof (drop_while_head p (c :: rest)) as D.
    destruct (drop_while p (c :: rest)); [exact I | left; exact D].
  - reflexivity.
Qed.

Lemma blanks_no_tab (s : str) :
  lacks (is_c TAB) (re_sub re_blanks [TLit [SP]] s).
Proof.
  unfold re_sub, re_sub_with, lacks.
  apply (sub_from_ind re_blanks (expand [TLit [SP]])
           (fun _ _ out => existsb (is_c TAB) out = false)).
  - exact (blank_only_never_empty _ blanks_blank).
  - reflexivity.
  - intros pre c rest E IH. simpl. rewrite IH, orb_false_r.
    destruct (is_c TAB c) eqn:T; [|reflexivity].
    exfalso. apply (blanks_exec pre c rest); [|exact E].
    unfold one_of. simpl. apply is_c_eq in T. subst c. reflexivity.
  - intros pre m rest _ IH. rewrite existsb_app, IH. reflexivity.
Qed.

Lemma replace_nl_app (new a b : str) :
  replace [NL] new (a ++ b) = replace [NL] new a ++ replace [NL] new b.
Proof.
  induction a as [|c a IH]; [reflexivity|].
  change ((c :: a) ++ b) with (c :: a ++ b).
  rewrite !replace_nl_cons, IH, app_assoc. reflexivity.
Qed.

Lemma trimmed_ends (s : str) :
  strip s = s -> s <> [] ->
  exists c0 s' v d,
    s = c0 :: s' /\ s = v ++ [d]
    /\ is_space c0 = false /\ is_space d = false.
Proof.
  intros Hs Hn. destruct s as [|c0 s]; [congruence|].
  assert (H0 : is_space c0 = false).
  { destruct (is_space c0) eqn:S0; [|reflexivity]. exfalso.
    unfold strip, lstrip, rstrip in Hs. simpl drop_while in Hs.
    rewrite S0 in Hs.
    destruct (drop_while_end_split is_space (drop_while is_space s))
      as [b [Eb _]].
    destruct (drop_while_split is_space s) as [a [Ea _]].
    apply (f_equal (@length char)) in Eb, Ea.
    rewrite length_app in Eb, Ea. rewrite Hs in Eb. simpl in Eb. lia. }
  unfold strip, rstrip in Hs.
  destruct (drop_while_end_last is_space (lstrip (c0 :: s)))
    as [A | [v [d [A Hd]]]]; rewrite A in Hs; [discriminate|].
  exists c0, s, v, d. auto.
Qed.

Lemma ends_trimmed (s : str) (c0 : char) (s' v : str) (d : char) :
  s = c0 :: s' -> s = v ++ [d] ->
  is_space c0 = false -> is_space d = false -> strip s = s.
Proof.
  intros E1 E2 H0 Hd. unfold strip, lstrip, rstrip.
  rewrite E1, (drop_while_fix is_space c0 _ H0), <- E1, E2.
  apply (drop_while_end_keep is_space v d Hd).
Qed.

Lemma space_nl (c : char) : is_space c = false -> N.eqb NL c = false.
Proof.
  intros H. destruct (N.eqb_spec NL c) as [<-|]; [discriminate | reflexivity].
Qed.

Lemma replace_nl_trimmed (new t : str) :
  strip t = t -> strip (replace [NL] new t) = replace [NL] new t.
Proof.
  intros Hs. destruct (null t) eqn:Nt; [destruct t; [reflexivity|discriminate]|].
  destruct (trimmed_ends t Hs) as [c0 [s' [v [d [E1 [E2 [H0 Hd]]]]]]];
    [intros ->; discriminate|].
  apply (ends_trimmed _ c0 (replace [NL] new s') (replace [NL] new v) d);
    [| | exact H0 | exact Hd].
  - rewrite E1, replace_nl_cons, (space_nl c0 H0). reflexivity.
  - rewrite E2, replace_nl_app, replace_nl_cons, (space_nl d Hd).
    reflexivity.
Qed.

Lemma lacks_char (q : char -> bool) (t : str) (c : char) :
  lacks q t -> q c = true -> lacks (is_c c) t.
Proof.
  unfold lacks. intros H Q. induction t as [|d t IH]; [reflexivity|].
  simpl in *. apply orb_false_iff in H as [Hd Ht]. rewrite (IH Ht).
  rewrite orb_false_r. unfold is_c.
  destruct (N.eqb_spec c d) as [->|]; [congruence | reflexivity].
Qed.


(** * The ledger file as a whole *)

Lemma splitlines_from_line (a rest : str) :
  lacks is_linebreak a ->
  forall cur,
    splitlines_from cur false (a ++ NL :: rest)
    = (rev cur ++ a) :: splitlines_from [] false rest.
Proof.
  unfold lacks. induction a as [|c a IH]; intros H cur.
  - cbn [app splitlines_from andb]. change (is_linebreak NL) with true.
    cbv iota. change (N.eqb NL CR) with false. rewrite app_nil_r.
    reflexivity.
  - simpl in H. apply orb_false_iff in H as [Hc Ha].
    cbn [app splitlines_from andb]. rewrite Hc. rewrite (IH Ha).
    cbn [rev]. rewrite <- app_assoc. reflexivity.
Qed.

Lemma splitlines_lines (bodies : list str) (rest : str) :
  Forall (lacks is_linebreak) bodies ->
  splitlines (concat (map (fun b => b ++ [NL]) bodies) ++ rest)
  = bodies ++ splitlines rest.
Proof.
  unfold splitlines. induction 1 as [|b bodies Hb _ IH]; [reflexivity|].
  cbn [map concat]. rewrite <- !app_assoc. cbn [app].
  rewrite (splitlines_from_line b _ Hb []). cbn [rev app].
  f_equal. exact IH.
Qed.

Lemma lacks_app (q : char -> bool) (a b : str) :
  lacks q a -> lacks q b -> lacks q (a ++ b).
Proof. unfold lacks. intros A B. rewrite existsb_app, A, B. reflexivity. Qed.

Lemma lacks_cons (q : char -> bool) (c : char) (a : str) :
  q c = false -> lacks q a -> lacks q (c :: a).
Proof. unfold lacks. intros C A. simpl. rewrite C, A. reflexivity. Qed.

(** The line of a row without its newline. *)
Lemma row_body (d t l s : str) :
  clean t -> clean s ->
  exists body,
    rebuild_line d t l s = body ++ [NL]
    /\ strip (rebuild_line d t l s) = body
    /\ strip body = body
    /\ (exists x, body = PIPE :: x)
    /\ (lacks is_linebreak d -> lacks is_linebreak t ->
        lacks is_linebreak l -> lacks is_linebreak s ->
        lacks is_linebreak body).
Proof.
  intros [Pt _] [Ps _]. rewrite (rebuild_line_plain d t l s Pt Ps).
  eexists. split; [reflexivity|]. split; [apply strip_row|].
  split; [|split].
  - match goal with |- strip (PIPE :: ?x ++ [PIPE]) = _ =>
      apply (ends_trimmed _ PIPE (x ++ [PIPE]) (PIPE :: x) PIPE);
        reflexivity
    end.
  - eexists. reflexivity.
  - intros Ld Lt Ll Ls. rewrite join_padded.
    repeat first [ apply lacks_cons; [reflexivity|]
                 | apply lacks_app
                 | assumption
                 | reflexivity ].
Qed.

Lemma parse_row_strip (line : str) : parse_row (strip line) = parse_row line.
Proof. unfold parse_row. rewrite strip_idem. reflexivity. Qed.

Lemma parse_row_rebuilt (d t l s : str) :
  clean d -> clean t -> clean l -> clean s ->
  parse_row (rebuild_line d t l s) = Some (d, t, l, s).
Proof.
  intros [Pd Sd] [Pt St] [Pl Sl] [Ps Ss].
  rewrite (rebuild_line_plain d t l s Pt Ps). unfold parse_row.
  rewrite strip_row. cbn [startswith negb].
  change (N.eqb PIPE PIPE) with true. cbn [andb negb].
  pose proof (split_join PIPE (SP :: d ++ [SP])
                [SP :: t ++ [SP]; SP :: l ++ [SP]; SP :: s ++ [SP]]
                (pads_plain [d; t; l; s]
                   (Forall_cons _ Pd (Forall_cons _ Pt (Forall_cons _ Pl
                      (Forall_cons _ Ps (Forall_nil _))))))) as J.
  rewrite join_padded in *. rewrite strip_char_row, J.
  cbn [map join]. rewrite !strip_pad by assumption. rewrite Ss.
  reflexivity.
Qed.

Lemma parse_rows_rebuilt (rows : list (str * str * str * str)) :
  Forall (fun r => let '(d, t, l, s) := r in
                   clean d /\ clean t /\ clean l /\ clean s) rows ->
  exists records,
    parse_rows (map (fun r => strip (row_line r)) rows) = Done records
    /\ Forall2 (fun r rec =>
                  let '(d, t, l, s) := r in
                  date rec = d /\ title rec = t /\ link rec = l
                  /\ extract_details s = Done (details_raw rec))
               rows records.
Proof.
  induction 1 as [|[[[d t] l] s] rows [Cd [Ct [Cl Cs]]] _ [records [E F]]].
  - exists []. split; [reflexivity | constructor].
  - cbn [map parse_rows row_line]. rewrite parse_row_strip.
    rewrite (parse_row_rebuilt d t l s Cd Ct Cl Cs).
    destruct (extract_details_done s) as [x X]. rewrite X, E. cbn [bind].
    eexists. split; [reflexivity|]. constructor; [|exact F].
    cbn [date title link details_raw]. auto.
Qed.

Lemma filter_all {A} (p : A -> bool) (l : list A) :
  Forall (fun x => p x = true) l -> filter p l = l.
Proof.
  induction 1 as [|x l Hx _ IH]; [reflexivity|]. simpl.
  rewrite Hx, IH. reflexivity.
Qed.

(** X12: A ledger written by the scripts is read back by the site builder
    row for row: after the header that [_ensure_md_header] writes, the
    lines that [rebuild_line] makes of fields without column delimiter,
    outer white space and line boundary give one record each, in the
    same order, with the first three fields as they were and the payload
    that [extract_details] takes from the fourth. *)
Theorem ledger_round_trip (rows : list (str * str * str * str)) :
  Forall (fun r => let '(d, t, l, s) := r in
                   one_line d /\ one_line t /\ one_line l /\ one_line s)
         rows ->
  exists records,
    parse_markdown_table
      (concat (_ensure_md_header None ++ map row_line rows))
    = Done records
    /\ Forall2 (fun r rec =>
                  let '(d, t, l, s) := r in
                  date rec = d /\ title rec = t /\ link rec = l
                  /\ extract_details s = Done (details_raw rec))
               rows records.
Proof.
  intros H.
  assert (C : Forall (fun r => let '(d, t, l, s) := r in
                        clean d /\ clean t /\ clean l /\ clean s) rows).
  { eapply Forall_impl; [|exact H]. intros [[[d t] l] s].
    unfold one_line. tauto. }
  destruct (parse_rows_rebuilt rows C) as [records [E F]].
  exists records. split; [|exact F].
  set (bodies := map (fun r => strip (row_line r)) rows) in *.
  assert (B : concat (map row_line rows)
              = concat (map (fun b => b ++ [NL]) bodies)).
  { unfold bodies. rewrite map_map. f_equal. apply map_ext_in.
    intros [[[d t] l] s] I. rewrite Forall_forall in C.
    destruct (C _ I) as [_ [Ct [_ Cs]]]. cbn [row_line].
    destruct (row_body d t l s Ct Cs) as [body [R [S _]]].
    rewrite S. exact R. }
  assert (L : Forall (lacks is_linebreak) bodies).
  { unfold bodies. rewrite Forall_map. eapply Forall_impl; [|exact H].
    intros [[[d t] l] s] [[_ Ld] [[Ct Lt] [[_ Ll] [Cs Ls]]]].
    cbn [row_line]. destruct (row_body d t l s Ct Cs)
      as [body [_ [S [_ [_ K]]]]]. rewrite S. apply K; assumption. }
  assert (N : Forall (fun b => negb (null (strip b)) = true) bodies).
  { unfold bodies. rewrite Forall_map. eapply Forall_impl; [|exact C].
    intros [[[d t] l] s] [_ [Ct [_ Cs]]]. cbn [row_line].
    destruct (row_body d t l s Ct Cs) as [body [_ [S [T [[x X] _]]]]].
    rewrite S, T, X. reflexivity. }
  unfold parse_markdown_table, _ensure_md_header.
  rewrite concat_app, B. cbn [concat]. rewrite app_nil_r.
  set (h1 := lit "| " ++ [26085; 26399]%N ++ lit " | " ++ [26631; 39064]%N
               ++ lit " | " ++ [38142; 25509]%N ++ lit " | "
               ++ [31616; 35201; 24635; 32467]%N ++ lit " |").
  set (h2 := lit "| --- | --- | --- | --- |").
  assert (S : (four_header ++ four_sep)
                ++ concat (map (fun b => b ++ [NL]) bodies)
              = concat (map (fun b => b ++ [NL]) ([h1; h2] ++ bodies)) ++ []).
  { rewrite map_app, concat_app, app_nil_r. reflexivity. }
  rewrite S, splitlines_lines.
  - cbn [splitlines splitlines_from]. rewrite app_nil_r.
    cbn [app filter].
    replace (negb (null (strip h1))) with true by (vm_compute; reflexivity).
    replace (negb (null (strip h2))) with true by (vm_compute; reflexivity).
    rewrite (filter_all _ _ N). cbn [length Nat.ltb Nat.leb skipn].
    destruct bodies; [exact E | exact E].
  - constructor; [vm_compute; reflexivity|].
    constructor; [vm_compute; reflexivity | exact L].
Qed.

Lemma ledger_round_trip_witness :
  exists records,
    parse_markdown_table
      (concat (_ensure_md_header None
                 ++ map row_line
                      [(lit "2025-09-26", lit "A title",
                        lit "http://arxiv.org/abs/2509.12345",
                        default_summary_cell)]))
    = Done records
    /\ Forall2 (fun r rec =>
                  let '(d, t, l, s) := r in
                  date rec = d /\ title rec = t /\ link rec = l
                  /\ extract_details s = Done (details_raw rec))
               [(lit "2025-09-26", lit "A title",
                 lit "http://arxiv.org/abs/2509.12345",
                 default_summary_cell)] records.
Proof.
  apply ledger_round_trip. constructor; [|constructor].
  unfold one_line, clean, lacks. repeat split; vm_compute; reflexivity.
Defined.

(** * A summary from the generator to the site *)

Lemma stored_text_lacks (q : char -> bool) (text : str) :
  lacks q (lit "<br>") ->
  (forall c, q c = true -> N.eqb NL c = true \/ lacks (is_c c) (tidy_text text)) ->
  lacks q (stored_text text).
Proof. intros Hb H. unfold stored_text. apply replace_nl_lacks; assumption. Qed.

Lemma linebreak_cases (c : char) :
  is_linebreak c = true -> N.eqb NL c = true \/ other_break c = true.
Proof.
  unfold other_break, is_c. intros H. rewrite H.
  destruct (N.eqb NL c); [left | right]; reflexivity.
Qed.

Lemma lacks_parts (q : char -> bool) (a b : str) :
  lacks q (a ++ b) -> lacks q a /\ lacks q b.
Proof. unfold lacks. rewrite existsb_app. apply orb_false_iff. Qed.

Lemma wrap_in_details_lacks (q : char -> bool) (body : str) :
  lacks q (wrap_in_details []) -> lacks q body ->
  lacks q (wrap_in_details body).
Proof.
  unfold wrap_in_details. intros H B.
  apply lacks_parts in H as [H1 H]. apply lacks_parts in H as [H2 H].
  apply lacks_parts in H as [H3 H]. apply lacks_parts in H as [_ H4].
  repeat apply lacks_app; assumption.
Qed.

Lemma wrap_in_details_trimmed (body : str) :
  strip (wrap_in_details body) = wrap_in_details body.
Proof.
  unfold wrap_in_details.
  apply (ends_trimmed _ LT
           (lit "details><summary>" ++ expand_label ++ lit "</summary>"
              ++ body ++ lit "</details>")
           (lit "<details><summary>" ++ expand_label ++ lit "</summary>"
              ++ body ++ lit "</details") 62%N);
    [reflexivity | | reflexivity | reflexivity].
  change (lit "</details>") with (lit "</details" ++ [62%N]).
  rewrite <- !app_assoc. reflexivity.
Qed.

(** X13: The answer of the model comes out on the site as the generator tidied
    it.  When the tidied text holds no [<], [extract_details] takes
    exactly that text from the cell that [update_papers_md] stores, and
    [clear_summaries.py] keeps the cell if and only if that text has a
    second-level heading.  When it holds no column delimiter and no line
    boundary other than the newline either, the cell stays in its column
    and on its line. *)
Theorem summary_round_trip (text : str) :
  lacks (is_c LT) (tidy_text text) ->
  extract_details (wrap_in_details (stored_text text))
  = Done (tidy_text text)
  /\ is_valid_markdown_format (wrap_in_details (stored_text text))
     = Done (is_some (re_search re_h2 (tidy_text text)))
  /\ (lacks (is_c PIPE) (tidy_text text) ->
      lacks other_break (tidy_text text) ->
      one_line (wrap_in_details (stored_text text))).
Proof.
  intros H. pose proof (br_tame _ H) as T. fold (stored_text text) in T.
  assert (R : strip (br_to_newline (stored_text text)) = tidy_text text).
  { unfold stored_text. rewrite (br_to_newline_round _ H).
    apply tidy_text_trimmed. }
  unfold extract_details, is_valid_markdown_format.
  rewrite (details_of_wrapped _ T). unfold group_str.
  cbn [group lookup Nat.eqb rm_caps bind].
  rewrite (summary_removed _ T), R. split; [reflexivity|]. split.
  - destruct (re_search re_h2 (tidy_text text)); reflexivity.
  - intros P B. split; [split|].
    + apply wrap_in_details_lacks; [reflexivity|].
      apply stored_text_lacks; [reflexivity|]. intros c Q. right.
      apply is_c_eq in Q. subst c. exact P.
    + apply wrap_in_details_trimmed.
    + apply wrap_in_details_lacks; [reflexivity|].
      apply stored_text_lacks; [reflexivity|]. intros c Q.
      destruct (linebreak_cases c Q) as [E | E]; [left; exact E|].
      right. exact (lacks_char _ _ c B E).
Qed.

Lemma summary_round_trip_witness :
  extract_details
    (wrap_in_details
       (stored_text (lit "<think>a|b</think> ## T  x" ++ [NL; NL; NL; NL]
                       ++ lit "y " ++ [NL])))
  = Done (lit "## T x" ++ [NL; NL] ++ lit "y").
Proof.
  refine (proj1 (summary_round_trip _ _)). vm_compute. reflexivity.
Defined.

(* ===================================================================== *)
(** * Writing the summaries (scripts/generate_summaries.py) *)

Lemma set_item_some (body : list str) (idx : nat) (x : str) :
  idx < length body ->
  exists body',
    set_item body idx x = Some body'
    /\ length body' = length body
    /\ nth_error body' idx = Some x
    /\ forall i, i <> idx -> nth_error body' i = nth_error body i.
Proof.
  revert idx. induction body as [|line body IH]; intros idx H;
    [simpl in H; lia|].
  destruct idx as [|idx]; cbn [set_item].
  - eexists. split; [reflexivity|]. split; [reflexivity|].
    split; [reflexivity|]. intros [|i] N; [congruence | reflexivity].
  - destruct (IH idx) as [body' [E [L [A B]]]]; [simpl in H; lia|].
    rewrite E. eexists. split; [reflexivity|]. split; [simpl; lia|].
    split; [exact A|]. intros [|i] N; [reflexivity|]. simpl.
    apply B. congruence.
Qed.

Lemma entries_from_bounds (body : list str) :
  forall idx,
    Forall (fun e => idx <= entry_index e < idx + length body)
           (entries_from idx body).
Proof.
  induction body as [|line body IH]; intros idx; [constructor|].
  cbn [entries_from].
  assert (R : Forall (fun e => idx <= entry_index e
                               < idx + length (line :: body))
                     (entries_from (S idx) body)).
  { eapply Forall_impl; [|apply IH]. intros e. simpl. lia. }
  destruct (negb (startswith [PIPE] (strip line))); [exact R|].
  destruct (parse_table_line line) as [|d [|t [|l [|s [|x xs]]]]];
    try exact R.
  destruct (negb (is_placeholder_summary s)); [exact R|].
  constructor; [|exact R]. unfold entry_index. simpl. lia.
Qed.

Lemma entries_from_distinct (body : list str) :
  forall idx, NoDup (map entry_index (entries_from idx body)).
Proof.
  induction body as [|line body IH]; intros idx; [constructor|].
  cbn [entries_from].
  destruct (negb (startswith [PIPE] (strip line))); [apply IH|].
  destruct (parse_table_line line) as [|d [|t [|l [|s [|x xs]]]]];
    try apply IH.
  destruct (negb (is_placeholder_summary s)); [apply IH|].
  cbn [map]. constructor; [|apply IH].
  unfold entry_index at 1. cbn [fst]. intros I.
  apply in_map_iff in I as [e [E I]].
  pose proof (entries_from_bounds body (S idx)) as B.
  rewrite Forall_forall in B. specialize (B e I). lia.
Qed.

(** The entries are the rows of four cells with the placeholder, under
    their indices. *)
Lemma entries_from_rows (body : list str) :
  forall idx i d t l,
    In (i, d, t, l) (entries_from idx body) ->
    exists line cell,
      nth_error body (i - idx) = Some line
      /\ parse_table_line line = [d; t; l; cell]
      /\ contains pending cell = true.
Proof.
  induction body as [|line body IH]; intros idx i d t l H; [destruct H|].
  cbn [entries_from] in H.
  assert (R : In (i, d, t, l) (entries_from (S idx) body) ->
              exists line0 cell,
                nth_error (line :: body) (i - idx) = Some line0
                /\ parse_table_line line0 = [d; t; l; cell]
                /\ contains pending cell = true).
  { intros I. destruct (IH _ _ _ _ _ I) as [line0 [cell [N P]]].
    exists line0, cell. split; [|exact P].
    pose proof (entries_from_bounds body (S idx)) as B.
    rewrite Forall_forall in B. specialize (B _ I).
    unfold entry_index in B. cbn [fst] in B.
    replace (i - idx) with (S (i - S idx)) by lia. exact N. }
  destruct (negb (startswith [PIPE] (strip line))); [auto|].
  destruct (parse_table_line line) as [|d' [|t' [|l' [|s [|x xs]]]]] eqn:P;
    auto.
  unfold is_placeholder_summary in H.
  destruct (contains pending s) eqn:C; cbn [negb] in H; [|auto].
  destruct H as [E | I]; [|auto]. inversion E; subst.
  exists line, s. rewrite Nat.sub_diag. auto.
Qed.

Section UpdateFacts.

Variable generator : nat -> str -> answer.
Variable write_ok : nat -> bool.
Variable batch_size : Z.
Variable header : list str.

(** One round of the loop. *)
Lemma update_entry_spec (k : nat) (e : nat * str * str * str)
    (st : progress) :
  entry_index e < length (body st) ->
  (updates_since_last_write st = 0 -> file st = Holds (header ++ body st)) ->
  let '(idx, d, t, l) := e in
  let st' := update_entry generator write_ok batch_size
               header k e st in
  length (body st') = length (body st)
  /\ (updates_since_last_write st' = 0 ->
      file st' = Holds (header ++ body st'))
  /\ success_count st'
     = success_count st + answered generator k [e]
  /\ (forall i, i <> idx -> nth_error (body st') i = nth_error (body st) i)
  /\ nth_error (body st') idx
     = match generator k l with
       | Text (c :: s) =>
           Some (rebuild_line d t l (wrap_in_details (c :: s)))
       | _ => nth_error (body st) idx
       end.
Proof.
  destruct e as [[[idx d] t] l]. unfold entry_index. cbn [fst].
  intros B F. unfold update_entry. cbn [answered].
  destruct (generator k l) as [[|c s]|];
    cbn [null]; try (repeat split; auto; lia).
  destruct (set_item_some (body st) idx
              (rebuild_line d t l (wrap_in_details (c :: s))) B)
    as [body' [E [L [A O]]]].
  rewrite E.
  destruct (Z.leb batch_size
              (Z.of_nat (updates_since_last_write st + 1)));
    [destruct (write_ok (writes st))|];
    cbn [body updates_since_last_write file success_count];
    (split; [exact L|]); (split; [try reflexivity; intros; lia|]);
    (split; [lia|]); (split; [exact O | exact A]).
Qed.

(** The whole loop. *)
Lemma update_loop_spec (entries : list (nat * str * str * str)) :
  forall k st,
    NoDup (map entry_index entries) ->
    Forall (fun e => entry_index e < length (body st)) entries ->
    (updates_since_last_write st = 0 ->
     file st = Holds (header ++ body st)) ->
    let st' := update_loop generator write_ok batch_size
                 header entries k st in
    length (body st') = length (body st)
    /\ (updates_since_last_write st' = 0 ->
        file st' = Holds (header ++ body st'))
    /\ success_count st'
       = success_count st + answered generator k entries
    /\ (forall i, ~ In i (map entry_index entries) ->
        nth_error (body st') i = nth_error (body st) i)
    /\ (forall j idx d t l,
          nth_error entries j = Some (idx, d, t, l) ->
          nth_error (body st') idx
          = match generator (k + j) l with
            | Text (c :: s) =>
                Some (rebuild_line d t l (wrap_in_details (c :: s)))
            | _ => nth_error (body st) idx
            end).
Proof.
  induction entries as [|e entries IH]; intros k st D B F.
  - cbn [update_loop answered]. repeat split; auto.
    intros [|j] ? ? ? ? H; discriminate.
  - cbn [update_loop]. inversion D as [|? ? Dn D']; subst.
    inversion B as [|? ? Be B']; subst.
    pose proof (update_entry_spec k e st Be F) as S.
    destruct e as [[[idx d] t] l].
    set (st1 := update_entry generator write_ok batch_size
                  header k (idx, d, t, l) st) in *.
    cbv zeta in S. destruct S as [L1 [F1 [C1 [O1 A1]]]].
    assert (B1 : Forall (fun e => entry_index e < length (body st1)) entries).
    { rewrite L1. exact B'. }
    destruct (IH (S k) st1 D' B1 F1) as [L2 [F2 [C2 [O2 A2]]]].
    split; [congruence|]. split; [exact F2|]. split.
    { rewrite C2, C1. cbn [answered]. 
      destruct (generator k l) as [[|? ?]|]; lia. }
    split.
    + intros i N. rewrite O2; [apply O1|]; intros I; apply N; cbn [map];
        [left; unfold entry_index; cbn [fst]; congruence | right; exact I].
    + intros [|j] idx' d' t' l' H; cbn [nth_error] in H.
      * inversion H; subst. rewrite Nat.add_0_r.
        rewrite O2; [exact A1 | exact Dn].
      * replace (k + S j) with (S k + j) by lia.
        rewrite (A2 j idx' d' t' l' H).
        destruct (generator (S k + j) l') as [[|c s]|];
          try reflexivity; apply O1; intros ->; apply Dn;
          apply nth_error_In in H;
          apply (in_map entry_index) in H; exact H.
Qed.

End UpdateFacts.



Lemma differing_length (a b : list str) : differing a b <= length a.
Proof.
  revert b. induction a as [|x a IH]; intros [|y b]; simpl; try lia.
  specialize (IH b). destruct (str_eqb x y); lia.
Qed.




(** ** The work list after clearing *)

Lemma entries_from_cons (idx : nat) (line : str) (body : list str) :
  entries_from idx (line :: body)
  = entries_from idx [line] ++ entries_from (S idx) body.
Proof.
  cbn [entries_from].
  destruct (negb (startswith [PIPE] (strip line))); [reflexivity|].
  destruct (parse_table_line line) as [|d [|t [|l [|s [|x xs]]]]];
    try reflexivity.
  destruct (negb (is_placeholder_summary s)); reflexivity.
Qed.

Lemma clear_line_entry (line out : str) (c : bool) (idx : nat) :
  clear_line line = Done (out, c) ->
  length (entries_from idx [out])
  = length (entries_from idx [line]) + (if c then 1 else 0).
Proof.
  intros H.
  destruct (clear_line_cases line) as [E | [d [t [l [s [P [N [E R]]]]]]]];
    rewrite E in H; inversion H; subst; [lia|].
  cbn [entries_from]. rewrite rebuild_line_starts, R. cbn [negb].
  unfold is_placeholder_summary. rewrite P, N.
  change (contains pending default_summary_cell) with true. cbn [negb].
  destruct (negb (startswith [PIPE] (strip line))); reflexivity.
Qed.

Lemma clear_body_entries (body : list str) :
  forall count idx,
    exists out cleared,
      clear_body body count = Done (out, count + cleared)
      /\ length (entries_from idx out)
         = length (entries_from idx body) + cleared.
Proof.
  induction body as [|line body IH]; intros count idx.
  - exists [], 0. simpl. rewrite Nat.add_0_r. auto.
  - destruct (clear_line_total line) as [o [c Hl]].
    destruct (IH (if c then count + 1 else count) (S idx))
      as [out [cleared [Hb He]]].
    exists (o :: out), ((if c then 1 else 0) + cleared).
    cbn [clear_body]. rewrite Hl. cbn [bind fst snd]. rewrite Hb.
    cbn [bind fst snd]. split.
    + destruct c; do 2 f_equal; lia.
    + rewrite (entries_from_cons idx o), (entries_from_cons idx line).
      rewrite !length_app, He, (clear_line_entry _ _ _ idx Hl). lia.
Qed.

(** X16: Every row that [clear_all_summaries] resets is taken up by the next
    run of the generator, and no row leaves its work list: on the lines
    written back, the work list of [update_papers_md] is longer than on
    the lines read by exactly the number that [clear_all_summaries]
    returns. *)
Theorem cleared_rows_regenerated (lines : list str) :
  exists out count,
    clear_all_summaries lines = Done (out, count)
    /\ length (entries_from 0 (skipn 2 out))
       = length (entries_from 0 (skipn 2 lines)) + count.
Proof.
  unfold clear_all_summaries.
  destruct (length lines <? 2) eqn:E.
  - exists lines, 0. split; [reflexivity | lia].
  - destruct (clear_body_entries (skipn 2 lines) 0 0)
      as [out [cleared [Hb He]]].
    rewrite Hb. cbn [bind fst snd].
    exists (firstn 2 lines ++ out), cleared. split; [reflexivity|].
    apply Nat.ltb_ge in E.
    assert (Hf : length (firstn 2 lines) = 2) by (rewrite length_firstn; lia).
    rewrite skipn_app, Hf, Nat.sub_diag. simpl skipn at 2.
    rewrite skipn_all2 by lia. exact He.
Qed.

(** ** The work list of the next run *)

Lemma startswith_foreign_tail (s b : str) :
  forall x,
    x <> [] -> (forall z, In z x -> lacks (is_c z) b) ->
    startswith x (s ++ b) = startswith x s.
Proof.
  induction s as [|c s IH]; intros [|y x] N F; try congruence.
  - destruct b as [|c b]; [reflexivity|]. cbn [app startswith].
    specialize (F y (or_introl eq_refl)). unfold lacks, is_c in F.
    simpl in F. apply orb_false_iff in F as [F _]. rewrite F. reflexivity.
  - cbn [app startswith]. destruct x as [|y' x]; [reflexivity|].
    rewrite IH; [reflexivity | discriminate |].
    intros z I. apply F. right. exact I.
Qed.

Lemma contains_foreign_tail (x s b : str) :
  x <> [] -> (forall z, In z x -> lacks (is_c z) b) ->
  contains x (s ++ b) = contains x s.
Proof.
  intros N F. induction s as [|c s IH].
  - cbn [app]. destruct x as [|y x]; [congruence|].
    specialize (F y (or_introl eq_refl)). unfold lacks, is_c in F.
    clear N. induction b as [|c b IHb]; [reflexivity|].
    simpl in F. apply orb_false_iff in F as [F1 F2].
    cbn [contains startswith]. rewrite F1, (IHb F2). reflexivity.
  - change ((c :: s) ++ b) with (c :: s ++ b). cbn [contains].
    rewrite IH. f_equal.
    exact (startswith_foreign_tail (c :: s) b x N F).
Qed.

Lemma contains_foreign_head (y : char) (x a s : str) :
  lacks (is_c y) a -> contains (y :: x) (a ++ s) = contains (y :: x) s.
Proof.
  unfold lacks, is_c. induction a as [|c a IH]; intros H; [reflexivity|].
  simpl in H. apply orb_false_iff in H as [H1 H2].
  change ((c :: a) ++ s) with (c :: a ++ s). cbn [contains startswith].
  rewrite H1, (IH H2). reflexivity.
Qed.

Lemma wrap_in_details_pending (s : str) :
  contains pending (wrap_in_details s) = contains pending s.
Proof.
  unfold wrap_in_details.
  rewrite (app_assoc (lit "<details><summary>")),
    (app_assoc (lit "<details><summary>" ++ expand_label)).
  unfold pending. rewrite contains_foreign_head by (vm_compute; reflexivity).
  apply contains_foreign_tail; [discriminate|].
  intros z [<-|[<-|[<-|[]]]]; vm_compute; reflexivity.
Qed.

(** The row written for a summary reads back as its four cells. *)
Lemma parse_summarized (line d t l cell s : str) :
  parse_table_line line = [d; t; l; cell] ->
  lacks (is_c PIPE) s ->
  parse_table_line (rebuild_line d t l (wrap_in_details s))
  = [d; t; l; wrap_in_details s].
Proof.
  intros P H. apply parse_rebuilt. intros x Hx.
  destruct Hx as [<-|[<-|[<-|[<-|[]]]]];
    [apply (parse_table_line_cells line); rewrite P; simpl; auto .. |].
  split; [split|split].
  - apply wrap_in_details_lacks; [reflexivity | exact H].
  - apply wrap_in_details_trimmed.
  - reflexivity.
  - reflexivity.
Qed.

Lemma entries_from_one (idx : nat) (line : str) :
  entries_from idx [line]
  = match entries_from 0 [line] with
    | [(_, d, t, l)] => [(idx, d, t, l)]
    | _ => []
    end.
Proof.
  cbn [entries_from].
  destruct (negb (startswith [PIPE] (strip line))); [reflexivity|].
  destruct (parse_table_line line) as [|d [|t [|l [|s [|x xs]]]]];
    try reflexivity.
  destruct (negb (is_placeholder_summary s)); reflexivity.
Qed.

Lemma entries_from_one_row (line : str) (i : nat) (d t l : str) :
  entries_from 0 [line] = [(i, d, t, l)] ->
  exists cell, parse_table_line line = [d; t; l; cell].
Proof.
  intros E.
  destruct (entries_from_rows [line] 0 i d t l) as [line0 [cell [N [P _]]]].
  { rewrite E. left. reflexivity. }
  pose proof (entries_from_bounds [line] 0) as B. rewrite E in B.
  inversion B as [|? ? B1 _]; subst. unfold entry_index in B1. simpl in B1.
  assert (i = 0) by lia. subst i. simpl in N. inversion N; subst.
  exists cell. exact P.
Qed.

Lemma set_item_middle (pre : list str) (line : str) (suf : list str)
    (x : str) :
  set_item (pre ++ line :: suf) (length pre) x = Some (pre ++ x :: suf).
Proof.
  induction pre as [|p pre IH]; [reflexivity|]. cbn [app length set_item].
  rewrite IH. reflexivity.
Qed.

Section UpdateBody.

Variable generator : nat -> str -> answer.
Variable write_ok : nat -> bool.
Variable batch_size : Z.
Variable header : list str.

(** The body in memory after the loop. *)
Lemma update_loop_body (suf : list str) :
  forall pre k st,
    body st = pre ++ suf ->
    body (update_loop generator write_ok batch_size header
            (entries_from (length pre) suf) k st)
    = pre ++ rewritten generator k suf.
Proof.
  induction suf as [|line suf IH]; intros pre k st B; [exact B|].
  rewrite entries_from_cons, entries_from_one. cbn [rewritten].
  assert (R : forall st1 k1 x,
            body st1 = pre ++ x :: suf ->
            body (update_loop generator write_ok batch_size
                    header (entries_from (S (length pre)) suf) k1 st1)
            = pre ++ x :: rewritten generator k1 suf).
  { intros st1 k1 x B1.
    replace (S (length pre)) with (length (pre ++ [x]))
      by (rewrite length_app; simpl; lia).
    rewrite (IH (pre ++ [x]) k1 st1); rewrite <- app_assoc; [reflexivity|].
    exact B1. }
  destruct (entries_from 0 [line]) as [|[[[i d] t] l] [|e es]];
    cbn [app update_loop]; try (apply R; exact B).
  apply R. unfold update_entry.
  destruct (generator k l) as [[|c s]|]; cbn [null];
    try exact B.
  rewrite B, set_item_middle.
  destruct (batch_size <=? Z.of_nat (updates_since_last_write st + 1))%Z;
    [destruct (write_ok (writes st))|]; reflexivity.
Qed.

(** Rows that got their summary have left the work list. *)
Lemma rewritten_entries (body : list str) :
  (forall k l s, generator k l = Text s ->
     lacks (is_c PIPE) s /\ contains pending s = false) ->
  forall k idx,
    length (entries_from idx (rewritten generator k body))
    + answered generator k (entries_from idx body)
    = length (entries_from idx body).
Proof.
  intros G. induction body as [|line body IH]; intros k idx; [reflexivity|].
  cbn [rewritten]. rewrite (entries_from_cons idx line).
  rewrite (entries_from_one idx line).
  destruct (entries_from 0 [line]) as [|[[[i d] t] l] [|e es]] eqn:E;
    try (rewrite entries_from_cons, entries_from_one, E; cbn [app length];
         apply IH).
  cbn [app answered length].
  destruct (entries_from_one_row line i d t l E) as [cell P].
  rewrite entries_from_cons, length_app.
  destruct (generator k l) as [[|c s]|] eqn:A;
    try (rewrite entries_from_one, E; cbn [length];
         specialize (IH (S k) (S idx)); lia).
  destruct (G _ _ _ A) as [Gp Gc].
  assert (Z : entries_from idx
                [rebuild_line d t l (wrap_in_details (c :: s))] = []).
  { cbn [entries_from]. rewrite rebuild_line_starts. cbn [negb].
    rewrite (parse_summarized line d t l cell (c :: s) P Gp).
    unfold is_placeholder_summary.
    rewrite wrap_in_details_pending, Gc. reflexivity. }
  rewrite Z. cbn [length]. specialize (IH (S k) (S idx)). lia.
Qed.

End UpdateBody.

(* ===================================================================== *)
(** * Asking for a summary (scripts/generate_summaries.py) *)

Lemma pow2_pos (n : nat) : 1 <= 2 ^ n.
Proof. induction n; simpl; lia. Qed.

Lemma fetch_effort (requests_get : nat -> str -> Z -> response)
    (html_url : str) (timeout max_retries : Z) (rounds : nat) :
  forall attempt,
    attempt + rounds = Z.to_nat max_retries ->
    let log := snd (fetch requests_get html_url timeout max_retries rounds
                      attempt) in
    requests log <= rounds /\ calls log = 0
    /\ slept log + 2 ^ attempt <= 2 ^ (attempt + (rounds - 1)).
Proof.
  induction rounds as [|rounds IH]; intros attempt E.
  - simpl. rewrite Nat.add_0_r. auto.
  - cbn [fetch].
    assert (A : let again :=
                  if (Z.of_nat attempt <? max_retries - 1)%Z
                  then let (r, log) := fetch requests_get html_url timeout
                                         max_retries rounds (S attempt) in
                       (r, Sleep (2 ^ attempt) :: log)
                  else (Stop (Text []), []) in
                requests (snd again) <= rounds /\ calls (snd again) = 0
                /\ slept (snd again) + 2 ^ attempt
                   <= 2 ^ (attempt + (S rounds - 1))).
    { cbv zeta. pose proof (pow2_pos attempt) as P.
      destruct (Z.ltb_spec (Z.of_nat attempt) (max_retries - 1)) as [L | L].
      - specialize (IH (S attempt) ltac:(lia)). cbv zeta in IH.
        destruct (fetch requests_get html_url timeout max_retries rounds
                    (S attempt)) as [r log].
        cbn [snd requests calls slept] in *. destruct IH as [R [C Hs]].
        split; [exact R|]. split; [exact C|].
        assert (rounds <> 0) by lia.
        replace (attempt + (S rounds - 1))
          with (S attempt + (rounds - 1)) by lia.
        cbn [Nat.pow] in Hs. lia.
      - cbn [snd requests calls slept]. split; [lia|]. split; [lia|].
        apply Nat.add_le_mono_l with (p := 0), Nat.pow_le_mono_r; lia. }
    cbv zeta in A. pose proof (pow2_pos attempt) as P.
    assert (B : 2 ^ attempt <= 2 ^ (attempt + (S rounds - 1)))
      by (apply Nat.pow_le_mono_r; lia).
    destruct (requests_get attempt html_url timeout) as [text|code| |];
      [| destruct (code =? 404)%Z | |];
      try (cbn [snd requests calls slept Nat.add]; split; [lia|];
           split; [reflexivity | exact B]);
      match goal with
      | |- context [let (_, _) := ?x in _] => destruct x as [r log]
      end;
      cbn [snd requests calls slept] in *; destruct A as [R [C Hs]];
      (split; [lia|]); (split; [exact C | exact Hs]).
Qed.

Lemma ask_effort (create : nat -> str -> completion) (html_content : str)
    (api_max_retries : Z) (rounds : nat) :
  forall attempt,
    attempt + rounds = Z.to_nat api_max_retries ->
    let log := snd (ask create html_content api_max_retries rounds attempt) in
    calls log <= rounds /\ requests log = 0
    /\ slept log + 2 ^ attempt <= 2 ^ (attempt + (rounds - 1))
    /\ Forall (fun e => match e with
                        | Chat h => h = html_content
                        | _ => True
                        end) log.
Proof.
  induction rounds as [|rounds IH]; intros attempt E.
  - simpl. rewrite Nat.add_0_r. auto.
  - cbn [ask]. pose proof (pow2_pos attempt) as P.
    assert (B : 2 ^ attempt <= 2 ^ (attempt + (S rounds - 1)))
      by (apply Nat.pow_le_mono_r; lia).
    destruct (create attempt html_content) as [|[text|]|];
      [| destruct (null text); [|destruct (null (stored_text text))] | |];
      try (cbn [snd requests calls slept Nat.add]; split; [lia|];
           split; [reflexivity|]; split; [exact B | repeat constructor]).
    destruct (Z.ltb_spec (Z.of_nat attempt) (api_max_retries - 1)) as [L | L].
    + specialize (IH (S attempt) ltac:(lia)). cbv zeta in IH.
      destruct (ask create html_content api_max_retries rounds (S attempt))
        as [r log].
      cbn [snd requests calls slept] in *. destruct IH as [C [R [Hs F]]].
      split; [lia|]. split; [lia|]. split.
      * assert (rounds <> 0) by lia.
        replace (attempt + (S rounds - 1))
          with (S attempt + (rounds - 1)) by lia.
        cbn [Nat.pow] in Hs. lia.
      * constructor; [reflexivity|]. constructor; [exact I | exact F].
    + cbn [snd requests calls slept Nat.add]. split; [lia|].
      split; [reflexivity|]. split; [exact B | repeat constructor].
Qed.

Lemma requests_app (a b : list event) :
  requests (a ++ b) = requests a + requests b.
Proof.
  induction a as [|[| |] a IH]; cbn [app requests]; rewrite ?IH; lia.
Qed.

Lemma calls_app (a b : list event) : calls (a ++ b) = calls a + calls b.
Proof.
  induction a as [|[| |] a IH]; cbn [app calls]; rewrite ?IH; lia.
Qed.

Lemma slept_app (a b : list event) : slept (a ++ b) = slept a + slept b.
Proof.
  induction a as [|[| |] a IH]; cbn [app slept]; rewrite ?IH; lia.
Qed.

Lemma slice_to_length (s : str) (n : Z) :
  (0 <= n)%Z -> length (slice_to s n) <= Z.to_nat n.
Proof.
  intros H. unfold slice_to.
  destruct (Z.leb_spec 0 n); [|lia]. rewrite length_firstn. lia.
Qed.

(** X18: What a call of [generate_summary_for_link] can cost.  With the
    settings read as integers, it makes at most [HTTP_MAX_RETRIES]
    requests, all for the HTML page of the link, and at most
    [API_MAX_RETRIES] calls of the model; the waits between the tries
    double from one second, so that it sleeps for less than
    [2 ^ (HTTP_MAX_RETRIES - 1) + 2 ^ (API_MAX_RETRIES - 1) - 1] seconds;
    and with a limit [HTML_MAX_CHARS] that is not negative, no page text
    given to the model is longer than that. *)
Theorem generate_summary_for_link_effort (env : environ)
    (requests_get : nat -> str -> Z -> response)
    (create : nat -> str -> completion) (link : str)
    (max_retries api_max_retries max_chars : Z) :
  HTTP_MAX_RETRIES env = Some max_retries ->
  API_MAX_RETRIES env = Some api_max_retries ->
  HTML_MAX_CHARS env = Some max_chars ->
  let log := snd (generate_summary_for_link env requests_get create link) in
  requests log <= Z.to_nat max_retries
  /\ calls log <= Z.to_nat api_max_retries
  /\ slept log + 2 <= 2 ^ (Z.to_nat max_retries - 1)
                      + 2 ^ (Z.to_nat api_max_retries - 1)
  /\ ((0 <= max_chars)%Z ->
      Forall (fun e => match e with
                       | Chat h => length h <= Z.to_nat max_chars
                       | _ => True
                       end) log).
Proof.
  intros E1 E2 E3. unfold generate_summary_for_link. rewrite E1, E2, E3.
  pose proof (pow2_pos (Z.to_nat max_retries - 1)) as P1.
  pose proof (pow2_pos (Z.to_nat api_max_retries - 1)) as P2.
  destruct (HTTP_TIMEOUT env) as [timeout|];
    [|cbn [snd requests calls slept]; repeat split; try lia; constructor].
  set (html_url := re_sub re_abs [TLit (lit "/html/")] link).
  pose proof (fetch_effort requests_get html_url timeout max_retries
                (Z.to_nat max_retries) 0 eq_refl) as F.
  cbv zeta in F.
  destruct (fetch requests_get html_url timeout max_retries
              (Z.to_nat max_retries) 0) as [f log].
  cbn [snd Nat.pow Nat.add] in F. destruct F as [R [C Hs]].
  assert (N : Forall (fun e => match e with
                               | Chat h => length h <= Z.to_nat max_chars
                               | _ => True
                               end) log).
  { clear - C. induction log as [|[| |] log IH]; constructor; auto;
      cbn [calls] in C; try discriminate; auto. }
  assert (K : requests log <= Z.to_nat max_retries
              /\ calls log <= Z.to_nat api_max_retries
              /\ slept log + 2 <= 2 ^ (Z.to_nat max_retries - 1)
                                  + 2 ^ (Z.to_nat api_max_retries - 1)
              /\ ((0 <= max_chars)%Z ->
                  Forall (fun e => match e with
                                   | Chat h => length h <= Z.to_nat max_chars
                                   | _ => True
                                   end) log)).
  { repeat split; auto; lia. }
  destruct f as [[html_content|]|r]; cbn [snd]; try exact K.
  destruct (null html_content); cbn [snd]; [exact K|].
  set (html := if (max_chars <? Z.of_nat (length html_content))%Z
               then slice_to html_content max_chars else html_content).
  pose proof (ask_effort create html api_max_retries
                (Z.to_nat api_max_retries) 0 eq_refl) as A.
  cbv zeta in A.
  destruct (ask create html api_max_retries (Z.to_nat api_max_retries) 0)
    as [r log'].
  cbn [snd Nat.pow Nat.add] in *. destruct A as [C' [R' [Hs' F']]].
  rewrite requests_app, calls_app, slept_app.
  split; [lia|]. split; [lia|]. split; [lia|].
  intros M. apply Forall_app. split; [exact N|].
  eapply Forall_impl; [|exact F']. intros [| |h]; auto. intros ->.
  unfold html.
  destruct (Z.ltb_spec max_chars (Z.of_nat (length html_content)));
    [apply slice_to_length; exact M | lia].
Qed.

Lemma fetch_result (requests_get : nat -> str -> Z -> response)
    (html_url : str) (timeout max_retries : Z) (rounds : nat) :
  forall attempt,
    match fst (fetch requests_get html_url timeout max_retries rounds
                 attempt) with
    | Html None => True
    | Html (Some text) =>
        exists a, requests_get a html_url timeout = Page text
    | Stop (Text summary_text) => summary_text = []
    | Stop Throws =>
        exists a, requests_get a html_url timeout = OtherException
    end.
Proof.
  induction rounds as [|rounds IH]; intros attempt; [exact I|].
  cbn [fetch].
  assert (A : match fst (if (Z.of_nat attempt <? max_retries - 1)%Z
                         then let (r, log) :=
                                fetch requests_get html_url timeout
                                  max_retries rounds (S attempt) in
                              (r, Sleep (2 ^ attempt) :: log)
                         else (Stop (Text []), [])) with
              | Html None => True
              | Html (Some text) =>
                  exists a, requests_get a html_url timeout = Page text
              | Stop (Text summary_text) => summary_text = []
              | Stop Throws =>
                  exists a, requests_get a html_url timeout = OtherException
              end).
  { destruct (Z.of_nat attempt <? max_retries - 1)%Z; [|reflexivity].
    specialize (IH (S attempt)).
    destruct (fetch requests_get html_url timeout max_retries rounds
                (S attempt)) as [r log]. exact IH. }
  destruct (requests_get attempt html_url timeout) as [text|code| |] eqn:E;
    [| destruct (code =? 404)%Z | |];
    try (cbn [fst]; eauto; reflexivity);
    match goal with
    | |- context [let (_, _) := ?x in _] => destruct x as [r log]
    end; exact A.
Qed.

Lemma ask_result (create : nat -> str -> completion) (html_content : str)
    (api_max_retries : Z) (rounds : nat) :
  forall attempt,
    match fst (ask create html_content api_max_retries rounds attempt) with
    | Throws => False
    | Text [] => True
    | Text (c :: s) =>
        exists a text,
          create a html_content = Content (Some text)
          /\ c :: s = stored_text text
    end.
Proof.
  induction rounds as [|rounds IH]; intros attempt; [exact I|].
  cbn [ask].
  destruct (create attempt html_content) as [|[text|]|] eqn:E;
    try exact I.
  - destruct (null text); [exact I|].
    destruct (stored_text text) as [|c s] eqn:T; cbn [null fst]; [exact I|].
    exists attempt, text. rewrite T. auto.
  - destruct (Z.of_nat attempt <? api_max_retries - 1)%Z; [|exact I].
    specialize (IH (S attempt)).
    destruct (ask create html_content api_max_retries rounds (S attempt))
      as [r log]. exact IH.
Qed.

Lemma stored_text_one_line (text : str) :
  lacks (is_c NL) (stored_text text) /\ lacks (is_c TAB) (stored_text text)
  /\ strip (stored_text text) = stored_text text.
Proof.
  unfold stored_text. split; [|split].
  - apply replace_nl_lacks; [reflexivity|]. intros c H. left.
    apply is_c_eq in H. subst c. reflexivity.
  - apply replace_nl_lacks; [reflexivity|]. intros c H. right.
    apply is_c_eq in H. subst c. unfold tidy_text, re_sub.
    apply (sub_absent _ _ _ (blank_only_never_empty _ space_eol_blank));
      [reflexivity|].
    apply (sub_absent _ _ _ blank_never_empty); [reflexivity|].
    apply blanks_no_tab.
  - apply replace_nl_trimmed, tidy_text_trimmed.
Qed.

(** X19: Whatever the network does, a text that [generate_summary_for_link]
    returns is empty or the tidied content of a reply of the model to the
    page of the link, whole or cut to the limit: it holds no newline and
    no tab and has no white space at its ends.  An exception of the model
    never leaves the function; it raises only when a setting is not an
    integer or a request raises something else than a
    [RequestException]. *)
Theorem generate_summary_for_link_result (env : environ)
    (requests_get : nat -> str -> Z -> response)
    (create : nat -> str -> completion) (link : str) :
  match fst (generate_summary_for_link env requests_get create link) with
  | Throws =>
      HTTP_MAX_RETRIES env = None \/ HTTP_TIMEOUT env = None
      \/ HTML_MAX_CHARS env = None \/ API_MAX_RETRIES env = None
      \/ exists a url timeout, requests_get a url timeout = OtherException
  | Text [] => True
  | Text (c :: s) =>
      (exists a b url timeout page html_content text,
         requests_get a url timeout = Page page
         /\ (html_content = page
             \/ exists max_chars,
                  HTML_MAX_CHARS env = Some max_chars
                  /\ html_content = slice_to page max_chars)
         /\ create b html_content = Content (Some text)
         /\ c :: s = stored_text text)
      /\ lacks (is_c NL) (c :: s) /\ lacks (is_c TAB) (c :: s)
      /\ strip (c :: s) = c :: s
  end.
Proof.
  unfold generate_summary_for_link.
  destruct (HTTP_MAX_RETRIES env) as [max_retries|]; [|cbn [fst]; auto].
  destruct (HTTP_TIMEOUT env) as [timeout|]; [|cbn [fst]; auto].
  set (html_url := re_sub re_abs [TLit (lit "/html/")] link).
  pose proof (fetch_result requests_get html_url timeout max_retries
                (Z.to_nat max_retries) 0) as F.
  destruct (fetch requests_get html_url timeout max_retries
              (Z.to_nat max_retries) 0) as [f log].
  cbn [fst] in F.
  destruct f as [[page|]|[summary_text|]]; cbn [fst]; try exact I.
  - destruct (null page); cbn [fst]; [exact I|].
    destruct (HTML_MAX_CHARS env) as [max_chars|] eqn:M; [|cbn [fst]; auto].
    destruct (API_MAX_RETRIES env) as [api_max_retries|];
      [|cbn [fst]; auto 6].
    set (html := if (max_chars <? Z.of_nat (length page))%Z
                 then slice_to page max_chars else page).
    pose proof (ask_result create html api_max_retries
                  (Z.to_nat api_max_retries) 0) as A.
    destruct (ask create html api_max_retries (Z.to_nat api_max_retries) 0)
      as [r log'].
    cbn [fst] in *. destruct r as [[|c s]|]; [exact I | | destruct A].
    destruct A as [b [text [C T]]]. destruct F as [a P]. split.
    + exists a, b, html_url, timeout, page, html, text.
      split; [exact P|]. split; [|auto]. unfold html.
      destruct (max_chars <? Z.of_nat (length page))%Z; [|auto].
      right. exists max_chars. auto.
    + rewrite T. apply stored_text_one_line.
  - subst summary_text. exact I.
  - destruct F as [a P]. right. right. right. right. eauto.
Qed.

Lemma generate_summary_for_link_effort_witness :
  requests
    (snd (generate_summary_for_link
            (Environ (Some 3%Z) (Some 30%Z) (Some 180000%Z) (Some 3%Z))
            (fun a _ _ => if a =? 0 then RequestException
                          else Page (lit "<html>"))
            (fun a _ => if a =? 0 then APIException
                        else Content (Some (lit "## A")))
            (lit "http://arxiv.org/abs/2509.12345")))
  <= 3.
Proof.
  exact (proj1 (generate_summary_for_link_effort
                  (Environ (Some 3%Z) (Some 30%Z) (Some 180000%Z) (Some 3%Z))
                  (fun a _ _ => if a =? 0 then RequestException
                                else Page (lit "<html>"))
                  (fun a _ => if a =? 0 then APIException
                              else Content (Some (lit "## A")))
                  (lit "http://arxiv.org/abs/2509.12345")
                  3%Z 3%Z 180000%Z eq_refl eq_refl eq_refl)).
Defined.

(* ===================================================================== *)
(** * The collector (scripts/arxiv_crawler.py) *)

(** The row of a result is the row that [rebuild_line] makes of its
    fields. *)
Lemma format_row_rebuilt (r : Arxiv.Result) (d t : str) :
  Arxiv.published r = Some d -> Arxiv.title r = Some t ->
  lacks (is_c PIPE) t ->
  _format_row r
  = rebuild_line d (strip t) (_normalize_link (Arxiv.entry_id r))
      default_summary_cell.
Proof.
  intros Hd Ht Hp. unfold _format_row, rebuild_line, _default_summary_cell.
  rewrite Hd, Ht. rewrite (replace_plain t _ Hp).
  rewrite (replace_plain (strip t)) by (apply strip_keeps_absent, Hp).
  rewrite (replace_plain default_summary_cell) by reflexivity.
  reflexivity.
Qed.

(** X20: A row that the collector writes is work for the generator, it is
    shown on the site with the placeholder for its summary, and
    [clear_summaries.py] leaves it alone.  This holds for a result with a
    date and a title without column delimiter, when the date, the title
    without its outer white space and the normalized link are cells that
    [parse_table_line] keeps: not empty and not a rule. *)
Theorem crawled_row_read (r : Arxiv.Result) (d t : str) :
  Arxiv.published r = Some d -> Arxiv.title r = Some t ->
  lacks (is_c PIPE) t ->
  cell d -> null (strip t) = false -> str_eqb (strip t) rule_cell = false ->
  cell (_normalize_link (Arxiv.entry_id r)) ->
  (forall idx,
     entries_from idx [_format_row r]
     = [(idx, d, strip t, _normalize_link (Arxiv.entry_id r))])
  /\ parse_rows [_format_row r]
     = Done [Paper d (strip t) (_normalize_link (Arxiv.entry_id r)) pending]
  /\ clear_line (_format_row r) = Done (_format_row r, false).
Proof.
  intros Hd Ht Hp Cd Nt Rt Cl.
  rewrite (format_row_rebuilt r d t Hd Ht Hp).
  set (l := _normalize_link (Arxiv.entry_id r)) in *.
  assert (Ct : cell (strip t)).
  { split; [split|auto]; [apply strip_keeps_absent, Hp | apply strip_idem]. }
  assert (P : parse_table_line (rebuild_line d (strip t) l default_summary_cell)
              = [d; strip t; l; default_summary_cell]).
  { apply parse_rebuilt. intros x [<-|[<-|[<-|[<-|[]]]]]; auto.
    apply default_summary_cell_ok. }
  split; [|split].
  - intros idx. cbn [entries_from]. rewrite rebuild_line_starts, P.
    reflexivity.
  - cbn [parse_rows].
    rewrite (parse_row_rebuilt d (strip t) l default_summary_cell);
      [reflexivity | apply Cd | apply Ct | apply Cl
      | apply default_summary_cell_ok].
  - unfold clear_line. rewrite rebuild_line_starts, P. reflexivity.
Qed.

Lemma crawled_row_read_witness :
  clear_line
    (_format_row
       (Arxiv.Build_Result (Some (lit "2025-09-26")) (Some (lit " A title "))
          (lit "http://arxiv.org/abs/2509.12345v2") (lit "cs.RO")))
  = Done
      (_format_row
         (Arxiv.Build_Result (Some (lit "2025-09-26")) (Some (lit " A title "))
            (lit "http://arxiv.org/abs/2509.12345v2") (lit "cs.RO")), false).
Proof.
  refine (proj2 (proj2 (crawled_row_read
                          (Arxiv.Build_Result (Some (lit "2025-09-26"))
                             (Some (lit " A title "))
                             (lit "http://arxiv.org/abs/2509.12345v2")
                             (lit "cs.RO"))
                          (lit "2025-09-26") (lit " A title ")
                          eq_refl eq_refl _ _ _ _ _)));
    try (vm_compute; reflexivity);
    (split; [split|split]; vm_compute; reflexivity).
Defined.

(** ** Links found in the file *)

Lemma no_blank_run (p : char -> bool) (w : str) :
  p SP = false -> forallb p w = true -> lacks (is_c SP) w.
Proof.
  intros Hp. unfold lacks. induction w as [|c w IH]; [reflexivity|].
  simpl. intros H. apply andb_true_iff in H as [Hc Hw].
  rewrite (IH Hw), orb_false_r. unfold is_c.
  destruct (N.eqb_spec SP c) as [<-|]; [congruence | reflexivity].
Qed.

(** A match of the link pattern is not empty and holds no blank. *)
Lemma link_match_text (pre rest : str) (m : rmatch) :
  exec link_pattern pre rest = Some m ->
  lacks (is_c SP) (rm_text m) /\ rm_text m <> [].
Proof.
  intros E. apply exec_sound in E as [rest' [_ S]].
  unfold link_pattern, cat, LitI, lit, plus in S. simpl in S. sem_inv.
  match goal with H : rm_text m = _ |- _ => rewrite H end.
  split; [|discriminate].
  repeat apply lacks_app;
    try match goal with
        | H : is_ci ?x ?c = true |- lacks _ [?c] =>
            apply (no_blank_run (is_ci x));
              [vm_compute; reflexivity | simpl; rewrite H; reflexivity]
        | H : forallb ?p ?w = true |- lacks _ ?w =>
            apply (no_blank_run p); [vm_compute; reflexivity | exact H]
        end;
    reflexivity.
Qed.

(** Matches that hold no character of the class [q] do not reach over
    one: the search goes on behind it as if it began there. *)
Lemma scan_reaches (r : re) (q : char -> bool) (c : char) (rest : str)
    (m : rmatch) :
  (forall pre s x, exec r pre s = Some x ->
     lacks q (rm_text x) /\ rm_text x <> []) ->
  q c = true ->
  forall a skip pre,
    skip <= length a ->
    In (Hit m) (scan r 0 (c :: rev a ++ pre) rest) ->
    In (Hit m) (scan r skip pre (a ++ c :: rest)).
Proof.
  intros Hr Hc.
  assert (Z : forall pre s x, exec r pre (c :: s) = Some x -> False).
  { intros pre s x E. destruct (Hr _ _ _ E) as [L N].
    apply exec_sound in E as [s' [E _]].
    destruct (rm_text x) as [|y w]; [congruence|].
    simpl in E. inversion E; subst y. unfold lacks in L. simpl in L.
    rewrite Hc in L. discriminate. }
  induction a as [|y a IH]; intros skip pre Hs H.
  - simpl in Hs. assert (skip = 0) by lia. subst skip.
    cbn [app scan]. cbn [rev app] in H.
    destruct (exec r pre (c :: rest)) as [x|] eqn:E;
      [destruct (Z _ _ _ E) | right; exact H].
  - cbn [rev] in H. rewrite <- app_assoc in H. cbn [app] in H.
    change ((y :: a) ++ c :: rest) with (y :: a ++ c :: rest).
    destruct skip as [|k]; cbn [scan].
    + destruct (exec r pre (y :: a ++ c :: rest)) as [x|] eqn:E.
      * right. destruct (Hr _ _ _ E) as [L N].
        apply exec_sound in E as [s' [E _]].
        destruct (rm_text x) as [|y' w] eqn:T; [congruence|].
        cbn [length]. apply IH; [|exact H].
        simpl in E. inversion E as [[Ey Ew]].
        assert (K : forall (w a : str) s', lacks q w ->
                      a ++ c :: rest = w ++ s' -> length w <= length a).
        { clear -Hc. induction w as [|u w IHw]; intros a s' L E;
            [simpl; lia|].
          destruct a as [|v a].
          - simpl in E. inversion E; subst u. unfold lacks in L.
            simpl in L. rewrite Hc in L. discriminate.
          - simpl in E. inversion E; subst v. unfold lacks in L.
            simpl in L. apply orb_false_iff in L as [_ L].
            simpl. specialize (IHw a s' L H1). lia. }
        apply (K w a s'); [|exact Ew].
        unfold lacks in *. simpl in L. apply orb_false_iff in L as [_ L].
        exact L.
      * right. apply IH; [lia | exact H].
    + apply IH; [simpl in Hs; lia | exact H].
Qed.

(** The link pattern reads a link up to the blank behind it. *)
Lemma link_like_exec (a b : str) (p : char -> bool) (s id tail pre : str) :
  forallb (fun c => is_ci c c) a = true ->
  forallb (fun c => is_ci c c) b = true ->
  s = [] \/ s = [115%N] ->
  match b with
  | c :: _ => is_ci 115%N c = false
  | [] => False
  end ->
  id <> [] -> forallb p id = true ->
  match tail with
  | c :: _ => p c = false
  | [] => True
  end ->
  exec (cat [LitI a; Rep true 0 (Some 1) (is_ci 115%N); LitI b; plus p])
       pre (a ++ s ++ b ++ id ++ tail)
  = Some (RMatch (a ++ s ++ b ++ id) []).
Proof.
  intros Ha Hb Hs Hb0 Hid Hp Ht. unfold exec, cat, LitI, plus.
  cbn [fold_right]. cbn [run]. rewrite (run_LitI_reads a) by exact Ha.
  cbn [m_pre m_rest m_caps].
  rewrite (rep_greedy_longest (is_ci 115%N) s (b ++ id ++ tail) 0 (Some 1)
             (rev a ++ pre) [] _
             (MState (rev (a ++ s ++ b ++ id) ++ pre) tail [])).
  - cbn [m_pre m_caps].
    rewrite last_read_app. reflexivity.
  - destruct Hs as [-> | ->]; reflexivity.
  - lia.
  - destruct Hs as [-> | ->]; simpl; lia.
  - destruct b as [|c b]; [destruct Hb0|]. cbn [app].
    destruct Hs as [-> | ->]; [left; exact Hb0 | right; reflexivity].
  - rewrite (run_LitI_reads b) by exact Hb.
    cbn [run m_pre m_rest m_caps].
    rewrite (rep_greedy_longest p id tail 1 None _ [] _
               (MState (rev (a ++ s ++ b ++ id) ++ pre) tail []));
      [reflexivity | exact Hp | | exact I | | ].
    + destruct id; [congruence | simpl; lia].
    + destruct tail; [exact I | left; exact Ht].
    + rewrite !rev_app_distr, <- !app_assoc. reflexivity.
Qed.

Lemma member_in (x : str) (s : list str) : member x s = true <-> In x s.
Proof.
  unfold member. rewrite existsb_exists. split.
  - intros [y [I E]]. apply str_eqb_eq in E. subst y. exact I.
  - intros I. exists x. split; [exact I | apply str_eqb_refl].
Qed.

Lemma scan_hit_head (r : re) (pre rest : str) (m : rmatch) :
  exec r pre rest = Some m -> In (Hit m) (scan r 0 pre rest).
Proof.
  intros E. destruct rest; cbn [scan]; rewrite E; left; reflexivity.
Qed.

Lemma link_found (l a tail : str) :
  arxiv_link l -> In l (re_findall link_pattern (a ++ SP :: l ++ SP :: tail)).
Proof.
  intros [id [Hl [Hn Hp]]]. unfold re_findall. apply in_flat_map.
  exists (Hit (RMatch l [])). split; [|left; reflexivity].
  apply (scan_reaches link_pattern (is_c SP) SP _ _ link_match_text eq_refl
           a 0 [] (Nat.le_0_l _)).
  apply scan_hit_head.
  { destruct Hl as [-> | ->].
    - change (lit "http://arxiv.org/abs/")
        with (lit "http" ++ [] ++ lit "://arxiv.org/abs/").
      rewrite <- !app_assoc.
      apply (link_like_exec (lit "http") (lit "://arxiv.org/abs/") link_char
               [] id (SP :: tail)); auto; reflexivity.
    - change (lit "https://arxiv.org/abs/")
        with (lit "http" ++ [115%N] ++ lit "://arxiv.org/abs/").
      rewrite <- !app_assoc.
      apply (link_like_exec (lit "http") (lit "://arxiv.org/abs/") link_char
               [115%N] id (SP :: tail)); auto; reflexivity. }
Qed.

Lemma format_row_parts (r : Arxiv.Result) :
  exists a tail,
    _format_row r
    = a ++ SP :: _normalize_link (Arxiv.entry_id r) ++ SP :: tail.
Proof.
  unfold _format_row.
  exists (lit "| " ++ match Arxiv.published r with
                      | Some d => d
                      | None => []
                      end
            ++ lit " | "
            ++ strip (replace [PIPE] [BSLASH; PIPE]
                        match Arxiv.title r with
                        | Some t => t
                        | None => []
                        end) ++ [SP; PIPE]),
         (PIPE :: SP :: _default_summary_cell ++ lit " |" ++ [NL]).
  change (lit " | ") with ([SP; PIPE] ++ [SP]).
  rewrite <- !app_assoc. reflexivity.
Qed.

(** The link of a row of the collector is among the links that
    [_load_existing_links] finds in the file. *)
Lemma found_in_file (lines : list str) (r : Arxiv.Result) :
  In (_format_row r) lines ->
  arxiv_link (_normalize_link (Arxiv.entry_id r)) ->
  _normalize_link (_normalize_link (Arxiv.entry_id r))
  = _normalize_link (Arxiv.entry_id r) ->
  member (_normalize_link (Arxiv.entry_id r))
         (_load_existing_links (Some lines)) = true.
Proof.
  intros I A F. apply member_in. unfold _load_existing_links.
  apply in_flat_map. exists (_format_row r). split; [exact I|].
  rewrite <- F at 1. apply in_map.
  destruct (format_row_parts r) as [a [tail ->]].
  apply link_found, A.
Qed.

Lemma existing_links_grow (lines lines' : list str) (x : str) :
  incl lines lines' ->
  member x (_load_existing_links (Some lines)) = true ->
  member x (_load_existing_links (Some lines')) = true.
Proof.
  intros S H. apply member_in. apply member_in in H.
  unfold _load_existing_links in *. apply in_flat_map in H as [l [I H]].
  apply in_flat_map. exists l. split; [apply S, I | exact H].
Qed.

Lemma new_rows_none (existing : list str) (results : list Arxiv.Result) :
  (forall r, In r results ->
     member (_normalize_link (Arxiv.entry_id r)) existing = true) ->
  new_rows existing results = [].
Proof.
  induction results as [|r results IH]; intros H; [reflexivity|].
  cbn [new_rows]. rewrite (H r (or_introl eq_refl)).
  apply IH. intros x I. apply H. right. exact I.
Qed.

Lemma new_rows_cases (existing : list str) (results : list Arxiv.Result)
    (r : Arxiv.Result) :
  In r results ->
  member (_normalize_link (Arxiv.entry_id r)) existing = true
  \/ In (_format_row r) (new_rows existing results).
Proof.
  induction results as [|x results IH]; intros I; [destruct I|].
  cbn [new_rows].
  destruct (member (_normalize_link (Arxiv.entry_id x)) existing) eqn:M.
  - destruct I as [<- | I]; [left; exact M | apply IH, I].
  - destruct I as [<- | I]; [right; left; reflexivity|].
    destruct (IH I) as [H | H]; [left; exact H | right; right; exact H].
Qed.

Lemma append_rows_holds (lines rows : list str) :
  incl lines (_append_rows (Some lines) rows)
  /\ incl rows (_append_rows (Some lines) rows).
Proof.
  unfold _append_rows, _ensure_md_header.
  set (i := if 2 <=? length lines then 2 else length lines).
  split; intros x I.
  - rewrite <- (firstn_skipn i lines) in I.
    apply in_app_or in I as [I | I]; apply in_or_app;
      [left; exact I | right; apply in_or_app; right; exact I].
  - apply in_or_app. right. apply in_or_app. left. exact I.
Qed.

(** X21: A second run of the collector with results that the first run has
    seen adds nothing and leaves the file as it is, whether the first run
    was [initialize] or [run_daily].  This holds when the normalized link
    of every such result is a link as arXiv gives it and is left alone by
    [_normalize_link]. *)
Theorem crawl_again_adds_nothing
    (client_results client_results' : nat -> nat -> option (list Arxiv.Result))
    (max_results daily_results : nat) (file : option (list str)) :
  (forall r,
     In r (_filter_categories (fst (_search client_results' daily_results))) ->
     In r (_filter_categories (fst (_search client_results max_results)))
     /\ arxiv_link (_normalize_link (Arxiv.entry_id r))
     /\ _normalize_link (_normalize_link (Arxiv.entry_id r))
        = _normalize_link (Arxiv.entry_id r)) ->
  run_daily client_results' daily_results
    (Some (snd (initialize client_results max_results file)))
  = (0, snd (initialize client_results max_results file))
  /\ run_daily client_results' daily_results
       (Some (snd (run_daily client_results max_results file)))
     = (0, snd (run_daily client_results max_results file)).
Proof.
  intros H.
  assert (K : run_daily client_results' daily_results
                (Some (snd (run_daily client_results max_results file)))
              = (0, snd (run_daily client_results max_results file)));
    [|split; exact K].
  unfold run_daily at 1. cbn [_ensure_md_header].
  set (lines1 := snd (run_daily client_results max_results file)).
  rewrite new_rows_none; [reflexivity|].
  intros r I. destruct (H r I) as [I0 [A F]].
  unfold lines1, run_daily. cbn [snd].
  set (lines := _ensure_md_header file).
  set (results := _filter_categories
                    (fst (_search client_results max_results))) in *.
  destruct (new_rows_cases (_load_existing_links (Some lines)) results r I0)
    as [M | R].
  - destruct (null (new_rows (_load_existing_links (Some lines)) results));
      [exact M|].
    apply (existing_links_grow lines); [|exact M].
    apply append_rows_holds.
  - destruct (new_rows (_load_existing_links (Some lines)) results)
      as [|row rows] eqn:E; [destruct R|]. cbn [null].
    apply found_in_file; [|exact A | exact F].
    apply append_rows_holds. exact R.
Qed.

Lemma crawl_again_adds_nothing_witness :
  run_daily
    (fun _ _ => Some [Arxiv.Build_Result (Some (lit "2025-09-26"))
                        (Some (lit "A title"))
                        (lit "http://arxiv.org/abs/2509.12345v2")
                        (lit "cs.RO")]) 20
    (Some (snd (run_daily
                  (fun _ _ => Some [Arxiv.Build_Result
                                      (Some (lit "2025-09-26"))
                                      (Some (lit "A title"))
                                      (lit "http://arxiv.org/abs/2509.12345v2")
                                      (lit "cs.RO")]) 20 None)))
  = (0, snd (run_daily
               (fun _ _ => Some [Arxiv.Build_Result (Some (lit "2025-09-26"))
                                   (Some (lit "A title"))
                                   (lit "http://arxiv.org/abs/2509.12345v2")
                                   (lit "cs.RO")]) 20 None)).
Proof.
  set (c := fun _ _ : nat =>
              Some [Arxiv.Build_Result (Some (lit "2025-09-26"))
                      (Some (lit "A title"))
                      (lit "http://arxiv.org/abs/2509.12345v2")
                      (lit "cs.RO")]).
  refine (proj2 (crawl_again_adds_nothing c c 20 20 None _)).
  intros r I. vm_compute in I. destruct I as [<- | []].
  split; [left; reflexivity|].
  split; [|reflexivity].
  exists (lit "2509.12345").
  split; [left; reflexivity|]. split; [discriminate | reflexivity].
Defined.

Lemma new_rows_origin (existing : list str) (results : list Arxiv.Result)
    (row : str) :
  In row (new_rows existing results) ->
  exists r,
    In r results /\ row = _format_row r
    /\ member (_normalize_link (Arxiv.entry_id r)) existing = false.
Proof.
  induction results as [|x results IH]; intros I; [destruct I|].
  cbn [new_rows] in I.
  destruct (member (_normalize_link (Arxiv.entry_id x)) existing) eqn:M.
  - destruct (IH I) as [r [Ir H]]. exists r. split; [right; exact Ir | exact H].
  - destruct I as [<- | I].
    + exists x. split; [left; reflexivity | auto].
    + destruct (IH I) as [r [Ir H]]. exists r.
      split; [right; exact Ir | exact H].
Qed.

(* ===================================================================== *)
(** * Links of the usual shape *)

Lemma decimal_not (c x : char) :
  is_decimal c = false -> is_decimal x = true -> N.eqb c x = false.
Proof.
  intros Hc Hx. destruct (N.eqb_spec c x) as [->|]; [congruence | reflexivity].
Qed.

Lemma decimal_not_v (x : char) : is_decimal x = true -> is_ci 118%N x = false.
Proof.
  intros H. destruct (is_ci 118%N x) eqn:E; [|reflexivity].
  unfold is_ci in E.
  repeat match type of E with
         | _ || _ = true => apply orb_true_iff in E as [E | E]
         end;
    repeat match type of E with
           | _ && _ = true =>
               let A := fresh in
               let B := fresh in
               apply andb_true_iff in E as [A B]
           end;
    try discriminate;
    match goal with
    | B : N.eqb x _ = true |- _ =>
        apply N.eqb_eq in B; subst x; vm_compute in H; discriminate
    end.
Qed.

(** A pattern of the shape of the version pattern, for any host text
    [A], on an identifier with a version. *)
Lemma versioned_like_run (A pre D1 D2 V rest : str) :
  forallb (fun c => is_ci c c) A = true ->
  D1 <> [] -> forallb is_decimal D1 = true ->
  D2 <> [] -> forallb is_decimal D2 = true ->
  V <> [] -> forallb is_decimal V = true ->
  match rest with
  | c :: _ => is_decimal c = false
  | [] => True
  end ->
  run (cat [Grp 1 (cat [LitI A;
                        Grp 2 (cat [plus is_decimal; Cls (is_c DOT);
                                    plus is_decimal])]);
            Cls (is_ci 118%N); plus is_decimal])
      (MState pre (A ++ D1 ++ DOT :: D2 ++ 118%N :: V ++ rest) []) Some
  = Some (MState (rev (A ++ D1 ++ DOT :: D2 ++ 118%N :: V) ++ pre) rest
                 [(1, A ++ D1 ++ DOT :: D2); (2, D1 ++ DOT :: D2)]).
Proof.
  intros HA N1 H1 N2 H2 NV HV Hr. unfold cat, LitI, plus.
  cbn [fold_right]. cbn [run].
  rewrite (run_LitI_reads A) by exact HA.
  cbn [m_pre m_rest m_caps].
  apply (rep_greedy_longest is_decimal D1); auto.
  { destruct D1; [congruence | simpl; lia]. }
  { exact I. }
  cbn [run m_pre m_rest m_caps]. change (is_c DOT DOT) with true. cbv iota.
  apply (rep_greedy_longest is_decimal D2); auto.
  { destruct D2; [congruence | simpl; lia]. }
  { exact I. }
  cbn [run m_pre m_rest m_caps]. unfold consumed. cbn [m_pre].
  change (is_ci 118%N 118%N) with true. cbv iota.
  apply (rep_greedy_longest is_decimal V); auto.
  { destruct V; [congruence | simpl; lia]. }
  { exact I. }
  { destruct rest; [exact I | left; exact Hr]. }
  assert (X : rev D2 ++ DOT :: rev D1 ++ rev A ++ pre
              = rev (A ++ D1 ++ DOT :: D2) ++ pre).
  { repeat rewrite rev_app_distr. cbn [rev]. repeat rewrite rev_app_distr.
    repeat rewrite <- app_assoc. reflexivity. }
  assert (Y : rev D2 ++ DOT :: rev D1 ++ rev A ++ pre
              = rev (D1 ++ DOT :: D2) ++ rev A ++ pre).
  { repeat rewrite rev_app_distr. cbn [rev]. repeat rewrite <- app_assoc.
    reflexivity. }
  assert (Z : rev V ++ 118%N :: rev D2 ++ DOT :: rev D1 ++ rev A ++ pre
              = rev (A ++ D1 ++ DOT :: D2 ++ 118%N :: V) ++ pre).
  { rewrite (rev_app_distr A), (rev_app_distr D1).
    cbn [rev]. rewrite (rev_app_distr D2). cbn [rev].
    repeat rewrite <- app_assoc. reflexivity. }
  unfold str, char in *.
  rewrite Z. rewrite X at 1. rewrite X at 1. rewrite last_read_app.
  rewrite Y at 1. rewrite Y at 1. rewrite last_read_app. reflexivity.
Qed.

(** The version pattern on an identifier with a version. *)
Lemma versioned_run (pre D1 D2 V rest : str) :
  D1 <> [] -> forallb is_decimal D1 = true ->
  D2 <> [] -> forallb is_decimal D2 = true ->
  V <> [] -> forallb is_decimal V = true ->
  match rest with
  | c :: _ => is_decimal c = false
  | [] => True
  end ->
  run re_versioned
      (MState pre (lit "arxiv.org/abs/" ++ D1 ++ DOT :: D2 ++ 118%N :: V
                     ++ rest) []) Some
  = Some (MState (rev (lit "arxiv.org/abs/" ++ D1 ++ DOT :: D2 ++ 118%N :: V)
                    ++ pre) rest
                 [(1, lit "arxiv.org/abs/" ++ D1 ++ DOT :: D2);
                  (2, D1 ++ DOT :: D2)]).
Proof.
  exact (versioned_like_run (lit "arxiv.org/abs/") pre D1 D2 V rest eq_refl).
Qed.

Lemma versioned_exec (pre D1 D2 V rest : str) :
  D1 <> [] -> forallb is_decimal D1 = true ->
  D2 <> [] -> forallb is_decimal D2 = true ->
  V <> [] -> forallb is_decimal V = true ->
  match rest with
  | c :: _ => is_decimal c = false
  | [] => True
  end ->
  exec re_versioned pre
       ((lit "arxiv.org/abs/" ++ D1 ++ DOT :: D2 ++ 118%N :: V) ++ rest)
  = Some (RMatch (lit "arxiv.org/abs/" ++ D1 ++ DOT :: D2 ++ 118%N :: V)
                 [(1, lit "arxiv.org/abs/" ++ D1 ++ DOT :: D2);
                  (2, D1 ++ DOT :: D2)]).
Proof.
  intros N1 H1 N2 H2 NV HV Hr. unfold exec.
  replace ((lit "arxiv.org/abs/" ++ D1 ++ DOT :: D2 ++ 118%N :: V) ++ rest)
    with (lit "arxiv.org/abs/" ++ D1 ++ DOT :: D2 ++ 118%N :: V ++ rest).
  - rewrite (versioned_run pre D1 D2 V rest) by assumption.
    cbn [m_pre m_caps]. rewrite last_read_app. reflexivity.
  - repeat (rewrite <- app_assoc; cbn [app]). reflexivity.
Qed.

Lemma versioned_needs_host (pre s : str) :
  ci_startswith (lit "arxiv.org/abs/") s = false ->
  exec re_versioned pre s = None.
Proof.
  intros H. unfold exec, re_versioned, cat, LitI. cbn [fold_right].
  cbn [run]. rewrite (run_LitI_fails (lit "arxiv.org/abs/")) by exact H.
  reflexivity.
Qed.

Lemma sub_from_skip (r : re) (f : rmatch -> str) (w : str) :
  forall pre rest,
    (forall a b, w = a ++ b -> b <> [] ->
       exec r (rev a ++ pre) (b ++ rest) = None) ->
    sub_from r f pre (w ++ rest) = w ++ sub_from r f (rev w ++ pre) rest.
Proof.
  induction w as [|c w IH]; intros pre rest H; [reflexivity|].
  cbn [app]. rewrite sub_from_keep.
  - f_equal. rewrite IH; [cbn [rev]; rewrite <- app_assoc; reflexivity|].
    intros a b E Hb. specialize (H (c :: a) b). cbn [rev] in H.
    rewrite <- app_assoc in H. apply H; [rewrite E; reflexivity | exact Hb].
  - apply (H [] (c :: w)); [reflexivity | discriminate].
Qed.

Lemma decimal_trimmed (c : char) (t : str) (D : str) :
  is_space c = false -> D <> [] -> forallb is_decimal D = true ->
  strip (c :: t ++ D) = c :: t ++ D.
Proof.
  intros Hc N H.
  destruct (exists_last N) as [D' [d E]]. subst D.
  rewrite forallb_app in H. apply andb_true_iff in H as [_ H].
  simpl in H. rewrite andb_true_r in H.
  apply (ends_trimmed _ c (t ++ D' ++ [d]) (c :: t ++ D') d);
    [reflexivity | | exact Hc | apply decimal_not_space, H].
  cbn [app]. rewrite <- app_assoc. reflexivity.
Qed.

(** The version is removed from a link with an identifier of two runs of
    digits. *)
Lemma normalize_versioned (s D1 D2 V : str) :
  s = [] \/ s = [115%N] ->
  D1 <> [] -> forallb is_decimal D1 = true ->
  D2 <> [] -> forallb is_decimal D2 = true ->
  V <> [] -> forallb is_decimal V = true ->
  _normalize_link
    (lit "http" ++ s ++ lit "://arxiv.org/abs/" ++ D1 ++ DOT :: D2
       ++ 118%N :: V)
  = lit "http" ++ s ++ lit "://arxiv.org/abs/" ++ D1 ++ DOT :: D2.
Proof.
  intros Hs N1 H1 N2 H2 NV HV. unfold _normalize_link.
  assert (T : forall (D : str),
            D <> [] -> forallb is_decimal D = true ->
            strip (lit "http" ++ s ++ lit "://arxiv.org/abs/" ++ D1
                     ++ DOT :: D)
            = lit "http" ++ s ++ lit "://arxiv.org/abs/" ++ D1 ++ DOT :: D).
  { intros D ND HD.
    replace (lit "http" ++ s ++ lit "://arxiv.org/abs/" ++ D1 ++ DOT :: D)
      with (104%N :: (lit "ttp" ++ s ++ lit "://arxiv.org/abs/" ++ D1
                        ++ [DOT]) ++ D)
      by (repeat (rewrite <- app_assoc; cbn [app]); reflexivity).
    apply decimal_trimmed; [reflexivity | exact ND | exact HD]. }
  assert (T' : strip (lit "http" ++ s ++ lit "://arxiv.org/abs/" ++ D1
                        ++ DOT :: D2 ++ 118%N :: V)
               = lit "http" ++ s ++ lit "://arxiv.org/abs/" ++ D1
                   ++ DOT :: D2 ++ 118%N :: V).
  { replace (lit "http" ++ s ++ lit "://arxiv.org/abs/" ++ D1 ++ DOT :: D2
               ++ 118%N :: V)
      with (104%N :: (lit "ttp" ++ s ++ lit "://arxiv.org/abs/" ++ D1
                        ++ DOT :: D2 ++ [118%N]) ++ V)
      by (repeat (rewrite <- app_assoc; cbn [app]); reflexivity).
    apply decimal_trimmed; [reflexivity | exact NV | exact HV]. }
  rewrite T'. unfold re_sub, re_sub_with.
  replace (lit "http" ++ s ++ lit "://arxiv.org/abs/" ++ D1 ++ DOT :: D2
             ++ 118%N :: V)
    with ((lit "http" ++ s ++ lit "://")
            ++ (lit "arxiv.org/abs/" ++ D1 ++ DOT :: D2 ++ 118%N :: V) ++ [])
    by (rewrite app_nil_r; repeat (rewrite <- app_assoc; cbn [app]);
        reflexivity).
  rewrite sub_from_skip.
  - pose proof (versioned_exec (rev (lit "http" ++ s ++ lit "://") ++ [])
                  D1 D2 V [] N1 H1 N2 H2 NV HV I) as E.
    pose proof (sub_from_hit re_versioned (expand [TRef 1]) _ []
                  (RMatch (lit "arxiv.org/abs/" ++ D1 ++ DOT :: D2
                             ++ 118%N :: V)
                          [(1, lit "arxiv.org/abs/" ++ D1 ++ DOT :: D2);
                           (2, D1 ++ DOT :: D2)]) E) as S.
    cbn [rm_text] in S. rewrite S by (destruct D1; discriminate).
    rewrite sub_from_nil by reflexivity.
    unfold expand. cbn [map expand_item group lookup Nat.eqb rm_caps concat].
    rewrite !app_nil_r.
    replace ((lit "http" ++ s ++ lit "://")
               ++ lit "arxiv.org/abs/" ++ D1 ++ DOT :: D2)
      with (lit "http" ++ s ++ lit "://arxiv.org/abs/" ++ D1 ++ DOT :: D2)
      by (repeat (rewrite <- app_assoc; cbn [app]); reflexivity).
    apply T; assumption.
  - intros a b E Hb. apply versioned_needs_host, ci_clash_fails.
    apply tails_in in E; [|exact Hb].
    assert (A : forall x,
              x = [] \/ x = [115%N] ->
              forallb (ci_clash (lit "arxiv.org/abs/"))
                      (tails (lit "http" ++ x ++ lit "://")) = true).
    { intros x [-> | ->]; vm_compute; reflexivity. }
    specialize (A s Hs). rewrite forallb_forall in A. apply A, E.
Qed.

Lemma adjacent_mid (p : char -> char -> bool) (u : str) (y x : char)
    (v : str) :
  p y x = true -> adjacent p (u ++ y :: x :: v) = true.
Proof.
  intros H. induction u as [|c u IH].
  - cbn [app adjacent]. rewrite H. reflexivity.
  - change ((c :: u) ++ y :: x :: v) with (c :: u ++ y :: x :: v).
    cbn [adjacent]. rewrite IH. apply orb_true_r.
Qed.

Lemma adjacent_tail (p : char -> char -> bool) (q : char -> bool)
    (k t : str) :
  (forall y x, p y x = true -> q x = true) ->
  lacks q t -> adjacent p (k ++ t) = adjacent p k.
Proof.
  intros Hp Ht.
  assert (P : forall y x, q x = false -> p y x = false).
  { intros y x Q. destruct (p y x) eqn:E; [|reflexivity].
    rewrite (Hp _ _ E) in Q. discriminate. }
  assert (T : forall t, lacks q t -> adjacent p t = false).
  { clear - P. induction t as [|c t IH]; intros L; [reflexivity|].
    unfold lacks in L. simpl in L. apply orb_false_iff in L as [_ L].
    cbn [adjacent]. rewrite (IH L), orb_false_r.
    destruct t as [|d t]; [reflexivity|]. simpl in L.
    apply orb_false_iff in L as [L _]. apply P, L. }
  induction k as [|c k IH]; [apply T, Ht|].
  change ((c :: k) ++ t) with (c :: k ++ t). cbn [adjacent]. rewrite IH.
  f_equal. destruct k as [|d k]; [|reflexivity]. cbn [app].
  destruct t as [|d t]; [reflexivity|]. unfold lacks in Ht. simpl in Ht.
  apply orb_false_iff in Ht as [Ht _]. apply P, Ht.
Qed.

(** In a match of the version pattern a digit stands before the letter
    of the version. *)
Lemma versioned_pair (pre rest : str) (m : rmatch) :
  exec re_versioned pre rest = Some m ->
  exists u y x v,
    rm_text m = u ++ y :: x :: v
    /\ is_decimal y = true /\ is_ci 118%N x = true.
Proof.
  intros E. apply exec_sound in E as [rest' [_ S]].
  unfold re_versioned, cat, LitI, lit, plus in S. simpl in S. sem_inv.
  match goal with
  | H : rm_text m
        = (?A ++ (?d1 ++ [?dot] ++ ?d ++ []) ++ []) ++ [?x] ++ ?d3 ++ [],
    F : forallb is_decimal ?d = true, L : 1 <= length ?d,
    Hx : is_ci 118%N ?x = true |- _ =>
      assert (Nd : d <> []) by (intros Q; rewrite Q in L; simpl in L; lia);
      destruct (exists_last Nd) as [d' [y Ed]];
        rewrite Ed in F; rewrite forallb_app in F;
        apply andb_true_iff in F as [_ F]; simpl in F;
        rewrite andb_true_r in F;
        exists (A ++ d1 ++ [dot] ++ d'), y, x, d3;
        split; [|split; [exact F | exact Hx]];
        rewrite H, Ed
  end.
  rewrite !app_nil_r. rewrite <- !app_assoc. reflexivity.
Qed.

(** Every decimal digit is a word character. *)
Lemma decimal_is_word (c : char) : is_decimal c = true -> is_word c = true.
Proof.
  intros H. unfold is_decimal in H.
  assert (K : forall lo hi,
            existsb (fun r => N.leb (fst r) lo && N.leb hi (snd r))
                    word_ranges = true ->
            in_range lo hi c = true -> is_word c = true).
  { intros lo hi E R. unfold is_word. apply existsb_exists.
    apply existsb_exists in E as [r [I E]]. exists r. split; [exact I|].
    apply andb_true_iff in E as [E1 E2]. unfold in_range in *.
    apply andb_true_iff in R as [R1 R2].
    apply N.leb_le in E1, E2, R1, R2.
    apply andb_true_iff. split; apply N.leb_le;
      [exact (N.le_trans _ _ _ E1 R1) | exact (N.le_trans _ _ _ R2 E2)]. }
  apply orb_true_iff in H as [H | H].
  - apply existsb_exists in H as [b [I R]].
    apply (K b (b + 9)%N); [|exact R].
    assert (A : forallb (fun b =>
                  existsb (fun r => N.leb (fst r) b
                                    && N.leb (b + 9)%N (snd r)) word_ranges)
                  decimal_blocks = true) by (vm_compute; reflexivity).
    rewrite forallb_forall in A. apply A, I.
  - apply (K 120782%N 120831%N); [vm_compute; reflexivity | exact H].
Qed.

Lemma decimal_link_chars (D : str) :
  forallb is_decimal D = true -> forallb link_char D = true.
Proof.
  induction D as [|c D IH]; [reflexivity|]. simpl. intros H.
  apply andb_true_iff in H as [Hc HD]. rewrite (IH HD), andb_true_r.
  unfold link_char, one_of. cbn [existsb].
  rewrite (decimal_is_word c Hc). reflexivity.
Qed.

Lemma decimal_no_v (D : str) :
  forallb is_decimal D = true -> lacks (is_ci 118%N) D.
Proof.
  unfold lacks. induction D as [|c D IH]; [reflexivity|]. simpl. intros H.
  apply andb_true_iff in H as [Hc HD].
  rewrite (IH HD), (decimal_not_v c Hc). reflexivity.
Qed.

(** X23: [_normalize_link] on the links of arXiv with an identifier of the new
    style, two runs of digits around a dot: the link without version is
    left as it is and is a link that [_load_existing_links] finds, and
    the link with any version [v] and digits is turned into it. *)
Theorem normalize_link_new_style (s D1 D2 : str) :
  s = [] \/ s = [115%N] ->
  D1 <> [] -> forallb is_decimal D1 = true ->
  D2 <> [] -> forallb is_decimal D2 = true ->
  let base := lit "http" ++ s ++ lit "://arxiv.org/abs/" ++ D1 ++ DOT :: D2 in
  _normalize_link base = base
  /\ arxiv_link base
  /\ forall V,
       V <> [] -> forallb is_decimal V = true ->
       _normalize_link (base ++ 118%N :: V) = base.
Proof.
  intros Hs N1 H1 N2 H2 base. split; [|split].
  - unfold _normalize_link.
    assert (T : strip base = base).
    { unfold base.
      replace (lit "http" ++ s ++ lit "://arxiv.org/abs/" ++ D1 ++ DOT :: D2)
        with (104%N :: (lit "ttp" ++ s ++ lit "://arxiv.org/abs/" ++ D1
                          ++ [DOT]) ++ D2)
        by (repeat (rewrite <- app_assoc; cbn [app]); reflexivity).
      apply decimal_trimmed; [reflexivity | exact N2 | exact H2]. }
    rewrite T. unfold re_sub, re_sub_with. rewrite sub_from_none; [exact T|].
    intros a b E.
    destruct (exec re_versioned (rev a ++ []) b) as [m|] eqn:X;
      [exfalso | reflexivity].
    destruct (versioned_pair _ _ _ X) as [u [y [x [v [Em [Hy Hx]]]]]].
    apply exec_sound in X as [rest' [Eb _]].
    assert (A : adjacent (fun y x => is_decimal y && is_ci 118%N x) base
                = true).
    { rewrite E, Eb, Em, <- app_assoc, app_assoc. cbn [app].
      apply adjacent_mid. rewrite Hy, Hx. reflexivity. }
    assert (B : adjacent (fun y x => is_decimal y && is_ci 118%N x) base
                = false).
    { unfold base.
      replace (lit "http" ++ s ++ lit "://arxiv.org/abs/" ++ D1 ++ DOT :: D2)
        with ((lit "http" ++ s ++ lit "://arxiv.org/abs/")
                ++ D1 ++ DOT :: D2)
        by (repeat (rewrite <- app_assoc; cbn [app]); reflexivity).
      rewrite (adjacent_tail _ (is_ci 118%N)).
      - destruct Hs as [-> | ->]; vm_compute; reflexivity.
      - intros y0 x0 P. apply andb_true_iff in P as [_ P]. exact P.
      - apply lacks_app; [apply decimal_no_v, H1|].
        apply lacks_cons; [reflexivity | apply decimal_no_v, H2]. }
    congruence.
  - exists (D1 ++ DOT :: D2). split; [|split].
    + unfold base. destruct Hs as [-> | ->]; [left | right];
        repeat (rewrite <- app_assoc; cbn [app]); reflexivity.
    + destruct D1; [congruence | discriminate].
    + rewrite forallb_app. rewrite (decimal_link_chars D1 H1).
      cbn [forallb andb]. rewrite (decimal_link_chars D2 H2).
      reflexivity.
  - intros V NV HV. unfold base.
    replace ((lit "http" ++ s ++ lit "://arxiv.org/abs/" ++ D1 ++ DOT :: D2)
               ++ 118%N :: V)
      with (lit "http" ++ s ++ lit "://arxiv.org/abs/" ++ D1 ++ DOT :: D2
              ++ 118%N :: V)
      by (repeat (rewrite <- app_assoc; cbn [app]); reflexivity).
    apply normalize_versioned; assumption.
Qed.

Lemma normalize_link_new_style_witness :
  _normalize_link (lit "https://arxiv.org/abs/2509.12345")
  = lit "https://arxiv.org/abs/2509.12345".
Proof.
  exact (proj1 (normalize_link_new_style [115%N] (lit "2509") (lit "12345")
                  (or_intror eq_refl) ltac:(discriminate) eq_refl
                  ltac:(discriminate) eq_refl)).
Defined.

(* ===================================================================== *)
(** * Generated rows under [clear_summaries.py] *)

Lemma stored_text_valid (text : str) :
  lacks (is_c LT) (tidy_text text) ->
  is_valid_markdown_format (wrap_in_details (stored_text text))
  = Done (is_some (re_search re_h2 (tidy_text text))).
Proof.
  intros H. pose proof (br_tame _ H) as T. fold (stored_text text) in T.
  assert (R : strip (br_to_newline (stored_text text)) = tidy_text text).
  { unfold stored_text. rewrite (br_to_newline_round _ H).
    apply tidy_text_trimmed. }
  unfold is_valid_markdown_format.
  rewrite (details_of_wrapped _ T). unfold group_str.
  cbn [group lookup Nat.eqb rm_caps bind].
  rewrite (summary_removed _ T), R.
  destruct (re_search re_h2 (tidy_text text)); reflexivity.
Qed.

(* ===================================================================== *)
(** * One row per line *)

Lemma split_lacks (q : char -> bool) (sep : char) (s : str) :
  lacks q s -> Forall (lacks q) (split sep s).
Proof.
  unfold lacks. induction s as [|c s IH]; intros H.
  - constructor; [reflexivity | constructor].
  - simpl in H. apply orb_false_iff in H as [Hc Hs]. specialize (IH Hs).
    cbn [split]. destruct (N.eqb c sep).
    + constructor; [reflexivity | exact IH].
    + destruct (split sep s) as [|w ws].
      * constructor; [simpl; rewrite Hc; reflexivity | constructor].
      * inversion IH; subst. constructor; [|assumption].
        simpl. rewrite Hc. assumption.
Qed.

Lemma parse_table_line_lacks (q : char -> bool) (line x : str) :
  lacks q (strip line) -> In x (parse_table_line line) -> lacks q x.
Proof.
  intros H I. unfold parse_table_line in I.
  apply filter_In in I as [I _]. apply in_map_iff in I as [y [<- I]].
  apply strip_keeps_absent.
  pose proof (split_lacks q PIPE _ H) as F. rewrite Forall_forall in F.
  apply F, I.
Qed.

Lemma replace_char_cons (o : char) (new : str) (c : char) (t : str) :
  replace [o] new (c :: t)
  = (if N.eqb o c then new else [c]) ++ replace [o] new t.
Proof.
  unfold replace. cbn [replace_from startswith length Nat.pred].
  destruct (N.eqb o c); cbn [andb]; reflexivity.
Qed.

Lemma replace_char_lacks (q : char -> bool) (o : char) (new t : str) :
  lacks q new -> lacks q t -> lacks q (replace [o] new t).
Proof.
  intros Hn. unfold lacks in *. induction t as [|c t IH]; intros H;
    [reflexivity|].
  simpl in H. apply orb_false_iff in H as [Hc Ht].
  rewrite replace_char_cons, existsb_app, (IH Ht), orb_false_r.
  destruct (N.eqb o c); [exact Hn | simpl; rewrite Hc; reflexivity].
Qed.

(* ===================================================================== *)
(** * Inline markup *)

Lemma lacks_not_in (e : char) (x : str) :
  lacks (is_c e) x -> forallb (not_in [is_c e]) x = true.
Proof.
  unfold lacks. induction x as [|c x IH]; [reflexivity|]. simpl.
  intros H. apply orb_false_iff in H as [Hc Hx]. rewrite (IH Hx).
  unfold not_in. cbn [existsb]. rewrite Hc. reflexivity.
Qed.

(** A run of characters other than [e], read up to an [e]. *)
Lemma rep_up_to (e : char) (x rest pre : str) (caps : list (nat * str))
    (k : mstate -> option mstate) (res : mstate) :
  x <> [] -> lacks (is_c e) x ->
  match rest with
  | c :: _ => is_c e c = true
  | [] => True
  end ->
  k (MState (rev x ++ pre) rest caps) = Some res ->
  rep true (not_in [is_c e]) 1 None pre (x ++ rest) caps k = Some res.
Proof.
  intros N L R K.
  apply (rep_greedy_longest (not_in [is_c e]) x).
  - apply lacks_not_in, L.
  - destruct x; [congruence | simpl; lia].
  - exact I.
  - destruct rest as [|c rest]; [exact I|]. left. unfold not_in.
    cbn [existsb]. rewrite R. reflexivity.
  - exact K.
Qed.

Lemma code_exec (pre x b : str) :
  x <> [] -> lacks (is_c BACKTICK) x ->
  exec re_code pre ((BACKTICK :: x ++ [BACKTICK]) ++ b)
  = Some (RMatch (BACKTICK :: x ++ [BACKTICK]) [(1, x)]).
Proof.
  intros N L. unfold exec.
  assert (R : run re_code
                  (MState pre ((BACKTICK :: x ++ [BACKTICK]) ++ b) []) Some
              = Some (MState (rev (BACKTICK :: x ++ [BACKTICK]) ++ pre) b
                             [(1, x)])).
  { unfold re_code, cat, plus. cbn [fold_right].
    cbn [run m_pre m_rest m_caps app].
    change (is_c BACKTICK BACKTICK) with true. cbv iota.
    rewrite <- app_assoc. cbn [app].
    apply (rep_up_to BACKTICK x (BACKTICK :: b)); [exact N | exact L
                                                   | reflexivity |].
    cbn [m_pre m_rest m_caps]. change (is_c BACKTICK BACKTICK) with true.
    cbv iota. unfold consumed. cbn [m_pre]. rewrite last_read_app.
    cbn [rev]. rewrite rev_app_distr. cbn [rev app].
    rewrite <- app_assoc. reflexivity. }
  rewrite R. cbn [m_pre m_caps]. rewrite last_read_app. reflexivity.
Qed.

Lemma bold_exec (pre x b : str) :
  x <> [] -> lacks (is_c STAR) x ->
  exec re_bold pre ((STAR :: STAR :: x ++ [STAR; STAR]) ++ b)
  = Some (RMatch (STAR :: STAR :: x ++ [STAR; STAR]) [(1, x)]).
Proof.
  intros N L. unfold exec.
  assert (R : run re_bold
                  (MState pre ((STAR :: STAR :: x ++ [STAR; STAR]) ++ b) [])
                  Some
              = Some (MState (rev (STAR :: STAR :: x ++ [STAR; STAR]) ++ pre)
                             b [(1, x)])).
  { unfold re_bold, cat, Lit, plus. cbn [fold_right map].
    cbn [run m_pre m_rest m_caps app].
    change (is_c STAR STAR) with true. cbv iota.
    rewrite <- app_assoc. cbn [app].
    apply (rep_up_to STAR x (STAR :: STAR :: b)); [exact N | exact L
                                                   | reflexivity |].
    cbn [m_pre m_rest m_caps]. change (is_c STAR STAR) with true.
    cbv iota. unfold consumed. cbn [m_pre].
    change (rev x ++ STAR :: STAR :: pre)
      with (rev x ++ [STAR; STAR] ++ pre).
    rewrite last_read_app.
    cbn [rev]. rewrite rev_app_distr. cbn [rev app].
    rewrite <- !app_assoc. reflexivity. }
  rewrite R. cbn [m_pre m_caps]. rewrite last_read_app. reflexivity.
Qed.

Lemma link_exec (pre x u b : str) :
  x <> [] -> lacks (is_c 93%N) x -> u <> [] -> lacks (is_c 41%N) u ->
  exec re_link pre ((91%N :: x ++ 93%N :: 40%N :: u ++ [41%N]) ++ b)
  = Some (RMatch (91%N :: x ++ 93%N :: 40%N :: u ++ [41%N])
                 [(2, u); (1, x)]).
Proof.
  intros Nx Lx Nu Lu. unfold exec.
  assert (R : run re_link
                  (MState pre
                     ((91%N :: x ++ 93%N :: 40%N :: u ++ [41%N]) ++ b) [])
                  Some
              = Some (MState
                        (rev (91%N :: x ++ 93%N :: 40%N :: u ++ [41%N])
                           ++ pre) b [(2, u); (1, x)])).
  { unfold re_link, cat, Lit, plus. cbn [fold_right map].
    cbn [run m_pre m_rest m_caps app].
    change (is_c 91%N 91%N) with true. cbv iota.
    repeat (rewrite <- app_assoc; cbn [app]).
    apply (rep_up_to 93%N x (93%N :: 40%N :: u ++ 41%N :: b));
      [exact Nx | exact Lx | reflexivity |].
    cbn [m_pre m_rest m_caps]. change (is_c 93%N 93%N) with true.
    change (is_c 40%N 40%N) with true. cbv iota.
    apply (rep_up_to 41%N u (41%N :: b)); [exact Nu | exact Lu
                                           | reflexivity |].
    cbn [m_pre m_rest m_caps]. change (is_c 41%N 41%N) with true.
    cbv iota. unfold consumed. cbn [m_pre].
    change (rev x ++ 91%N :: pre) with (rev x ++ [91%N] ++ pre).
    rewrite (last_read_app x).
    change (rev u ++ 40%N :: 93%N :: rev x ++ [91%N] ++ pre)
      with (rev u ++ (40%N :: 93%N :: rev x ++ [91%N] ++ pre)).
    rewrite (last_read_app u).
    cbn [rev]. repeat (rewrite rev_app_distr; cbn [rev app]).
    repeat (rewrite <- app_assoc; cbn [app]). reflexivity. }
  rewrite R. cbn [m_pre m_caps]. rewrite last_read_app. reflexivity.
Qed.

Lemma code_first (pre : str) (c : char) (rest : str) :
  is_c BACKTICK c = false -> exec re_code pre (c :: rest) = None.
Proof.
  intros H. unfold exec, re_code, cat. cbn [fold_right].
  cbn [run m_pre m_rest m_caps]. rewrite H. reflexivity.
Qed.

Lemma bold_first (pre : str) (c : char) (rest : str) :
  is_c STAR c = false -> exec re_bold pre (c :: rest) = None.
Proof.
  intros H. unfold exec, re_bold, Lit, cat. cbn [fold_right map].
  cbn [run m_pre m_rest m_caps]. rewrite H. reflexivity.
Qed.

Lemma link_first (pre : str) (c : char) (rest : str) :
  is_c 91%N c = false -> exec re_link pre (c :: rest) = None.
Proof.
  intros H. unfold exec, re_link, cat. cbn [fold_right].
  cbn [run m_pre m_rest m_caps]. rewrite H. reflexivity.
Qed.

(** One pass of [re.sub] over a text with a single match. *)
Lemma sub_one (r : re) (f : rmatch -> str) (q : char -> bool)
    (a b : str) (m : rmatch) :
  (forall pre c rest, q c = false -> exec r pre (c :: rest) = None) ->
  (forall pre rest x, exec r pre rest = Some x -> existsb q rest = true) ->
  lacks q a -> lacks q b -> rm_text m <> [] ->
  (forall pre, exec r pre (rm_text m ++ b) = Some m) ->
  sub_from r f [] (a ++ rm_text m ++ b) = a ++ f m ++ b.
Proof.
  intros Hf Hn La Lb Nm E. rewrite sub_from_skip.
  - f_equal. rewrite (sub_from_hit r f _ b m (E _) Nm). f_equal.
    apply (sub_needs r f q Hn b _ Lb).
  - intros a1 b1 Ea Hb. destruct b1 as [|c b1]; [congruence|].
    cbn [app]. apply Hf. unfold lacks in La. rewrite Ea in La.
    rewrite existsb_app in La. apply orb_false_iff in La as [_ La].
    simpl in La. apply orb_false_iff in La as [La _]. exact La.
Qed.

Lemma plain_lacks (s : str) :
  lacks (one_of [is_c BACKTICK; is_c STAR; is_c 91%N]) s ->
  lacks (is_c BACKTICK) s /\ lacks (is_c STAR) s /\ lacks (is_c 91%N) s.
Proof.
  unfold lacks. induction s as [|c s IH]; [auto|]. intros H.
  simpl in H. apply orb_false_iff in H as [Hc Hs].
  unfold one_of in Hc. cbn [existsb] in Hc.
  apply orb_false_iff in Hc as [H1 Hc].
  apply orb_false_iff in Hc as [H2 Hc].
  apply orb_false_iff in Hc as [H3 _].
  destruct (IH Hs) as [I1 [I2 I3]]. simpl.
  rewrite H1, H2, H3, I1, I2, I3. auto.
Qed.

(** X26: What [render_inline] makes of a code span, of a bold span and of a
    link that stand in plain text, that is text without backquote,
    asterisk and opening bracket: the span is put between the tags, the
    text around it is kept.  The quotes of the attributes of the link
    come out with a backslash before each, as the replacement template
    of the source writes them. *)
Theorem inline_rendering (a x b : str) :
  lacks (one_of [is_c BACKTICK; is_c STAR; is_c 91%N]) a ->
  lacks (one_of [is_c BACKTICK; is_c STAR; is_c 91%N]) x -> x <> [] ->
  lacks (one_of [is_c BACKTICK; is_c STAR; is_c 91%N]) b ->
  render_inline (a ++ (BACKTICK :: x ++ [BACKTICK]) ++ b)
  = a ++ (lit "<code>" ++ x ++ lit "</code>") ++ b
  /\ render_inline (a ++ (STAR :: STAR :: x ++ [STAR; STAR]) ++ b)
     = a ++ (lit "<strong>" ++ x ++ lit "</strong>") ++ b
  /\ forall u,
       lacks (one_of [is_c BACKTICK; is_c STAR; is_c 91%N]) u -> u <> [] ->
       lacks (is_c 93%N) x -> lacks (is_c 41%N) u ->
       render_inline (a ++ (91%N :: x ++ 93%N :: 40%N :: u ++ [41%N]) ++ b)
       = a ++ (lit "<a href=" ++ bq ++ u ++ bq ++ lit " target=" ++ bq
                 ++ lit "_blank" ++ bq ++ lit " rel=" ++ bq
                 ++ lit "noopener noreferrer" ++ bq ++ lit ">" ++ x
                 ++ lit "</a>") ++ b.
Proof.
  intros Pa Px Nx Pb.
  destruct (plain_lacks a Pa) as [A1 [A2 A3]].
  destruct (plain_lacks x Px) as [X1 [X2 X3]].
  destruct (plain_lacks b Pb) as [B1 [B2 B3]].
  unfold render_inline, re_sub, re_sub_with. split; [|split].
  - pose proof (sub_one re_code
                  (expand [TLit (lit "<code>"); TRef 1; TLit (lit "</code>")])
                  (is_c BACKTICK) a b
                  (RMatch (BACKTICK :: x ++ [BACKTICK]) [(1, x)])
                  code_first code_needs A1 B1 ltac:(discriminate)
                  (fun pre => code_exec pre x b Nx X1)) as S.
    cbn [rm_text] in S. rewrite S.
    unfold expand. cbn [map expand_item group lookup Nat.eqb rm_caps concat].
    rewrite app_nil_r.
    rewrite (sub_needs re_bold _ (is_c STAR) bold_needs).
    + apply (sub_needs re_link _ (is_c 91%N) link_needs).
      repeat apply lacks_app; try assumption; reflexivity.
    + repeat apply lacks_app; try assumption; reflexivity.
  - rewrite (sub_needs re_code _ (is_c BACKTICK) code_needs).
    + pose proof (sub_one re_bold
                    (expand [TLit (lit "<strong>"); TRef 1;
                             TLit (lit "</strong>")])
                    (is_c STAR) a b
                    (RMatch (STAR :: STAR :: x ++ [STAR; STAR]) [(1, x)])
                    bold_first bold_needs A2 B2 ltac:(discriminate)
                    (fun pre => bold_exec pre x b Nx X2)) as S.
      cbn [rm_text] in S. rewrite S.
      unfold expand.
      cbn [map expand_item group lookup Nat.eqb rm_caps concat].
      rewrite app_nil_r.
      apply (sub_needs re_link _ (is_c 91%N) link_needs).
      repeat apply lacks_app; try assumption; reflexivity.
    + apply lacks_app; [exact A1|]. apply lacks_app; [|exact B1].
      apply lacks_cons; [reflexivity|]. apply lacks_cons; [reflexivity|].
      apply lacks_app; [exact X1 | reflexivity].
  - intros u Pu Nu Lx Lu. destruct (plain_lacks u Pu) as [U1 [U2 U3]].
    assert (K : forall q,
              q 91%N = false -> q 93%N = false -> q 40%N = false ->
              q 41%N = false ->
              lacks q a -> lacks q x -> lacks q u -> lacks q b ->
              lacks q (a ++ (91%N :: x ++ 93%N :: 40%N :: u ++ [41%N])
                         ++ b)).
    { intros q Q1 Q2 Q3 Q4 La Lx' Lu' Lb.
      apply lacks_app; [exact La|]. apply lacks_app; [|exact Lb].
      apply lacks_cons; [exact Q1|]. apply lacks_app; [exact Lx'|].
      apply lacks_cons; [exact Q2|]. apply lacks_cons; [exact Q3|].
      apply lacks_app; [exact Lu'|]. apply lacks_cons; [exact Q4|].
      reflexivity. }
    rewrite (sub_needs re_code _ (is_c BACKTICK) code_needs)
      by (apply K; auto).
    rewrite (sub_needs re_bold _ (is_c STAR) bold_needs)
      by (apply K; auto).
    pose proof (sub_one re_link (expand link_template) (is_c 91%N) a b
                  (RMatch (91%N :: x ++ 93%N :: 40%N :: u ++ [41%N])
                          [(2, u); (1, x)])
                  link_first link_needs A3 B3 ltac:(discriminate)
                  (fun pre => link_exec pre x u b Nx Lx Nu Lu)) as S.
    cbn [rm_text] in S. etransitivity; [exact S|].
    unfold expand, link_template.
    cbn [map expand_item group lookup Nat.eqb rm_caps concat].
    rewrite app_nil_r. repeat rewrite <- app_assoc. reflexivity.
Qed.

Lemma inline_rendering_witness :
  render_inline (lit "see " ++ (BACKTICK :: lit "x" ++ [BACKTICK])
                   ++ lit " now")
  = lit "see " ++ (lit "<code>" ++ lit "x" ++ lit "</code>") ++ lit " now".
Proof.
  exact (proj1 (inline_rendering (lit "see ") (lit "x") (lit " now")
                  eq_refl eq_refl ltac:(discriminate) eq_refl)).
Defined.

(* ===================================================================== *)
(** * Blocks

    The main loop of the renderer works block by block: what it appends for
    a stretch of lines does not depend on the lines around the stretch, as
    long as no list block reaches across its ends. *)

Lemma list_items_bound (pat : re) (lines : list str) :
  forall fuel i items i' items',
    list_items fuel pat lines i items = Done (i', items') ->
    i <= length lines -> i' <= length lines.
Proof.
  induction fuel as [|fuel IH]; intros i items i' items' H Hi;
    [discriminate|].
  cbn [list_items] in H.
  destruct (i <? length lines) eqn:L.
  - apply Nat.ltb_lt in L.
    destruct (getitem_in_range lines i L) as [l Hl].
    rewrite Hl in H. cbn [bind] in H.
    destruct (null (rstrip l)); [inversion H; subst; exact Hi|].
    destruct (is_some (re_match pat (rstrip l)));
      [|inversion H; subst; exact Hi].
    apply IH in H; [exact H | lia].
  - inversion H; subst. exact Hi.
Qed.

Section Window.

(** The lines [A] in the middle of a document [P ++ A ++ T]. *)
Variables P A T : list str.

Lemma window_item (i : nat) (l : str) :
  nth_error A i = Some l ->
  (length P + i <? length (P ++ A ++ T)) = true
  /\ getitem (P ++ A ++ T) (length P + i) = Done l
  /\ (i <? length A) = true /\ getitem A i = Done l.
Proof.
  intros H. destruct (getitem_nth A i l H) as [Hi Hg].
  assert (N : nth_error (P ++ A ++ T) (length P + i) = Some l).
  { rewrite nth_error_app2 by lia.
    replace (length P + i - length P) with i by lia.
    rewrite nth_error_app1; [exact H | apply Nat.ltb_lt; exact Hi]. }
  destruct (getitem_nth _ _ _ N) as [Hi' Hg']. auto.
Qed.

Lemma window_end (h : str) (T' : list str) :
  T = h :: T' ->
  (length P + length A <? length (P ++ A ++ T)) = true
  /\ getitem (P ++ A ++ T) (length P + length A) = Done h.
Proof.
  intros ->. apply getitem_nth.
  rewrite nth_error_app2 by lia.
  replace (length P + length A - length P) with (length A) by lia.
  rewrite nth_error_app2, Nat.sub_diag; [reflexivity | lia].
Qed.

Lemma last_line (i : nat) (l : str) :
  nth_error A i = Some l -> i + 1 = length A -> exists A', A = A' ++ [l].
Proof.
  intros H E. apply nth_error_split in H as [a [b [-> L]]].
  rewrite length_app in E. simpl in E.
  destruct b; [eauto | simpl in E; lia].
Qed.

Section Items.

Variable pat : re.

(** The last line of [A] and the first of [T] are not both items. *)
Hypothesis seam :
  forall A' p h T',
    A = A' ++ [p] -> T = h :: T' ->
    null (rstrip p) = false -> is_some (re_match pat (rstrip p)) = true ->
    null (rstrip h) = true \/ is_some (re_match pat (rstrip h)) = false.

Lemma list_items_window :
  forall fuel i items,
    i < length A ->
    list_items fuel pat (P ++ A ++ T) (length P + i) items
    = match list_items fuel pat A i items with
      | Done (j, its) => Done (length P + j, its)
      | Raised e => Raised e
      | Unfinished => Unfinished
      end.
Proof.
  induction fuel as [|fuel IH]; intros i items Hi; [reflexivity|].
  destruct (nth_error A i) as [l|] eqn:E; [|apply nth_error_None in E; lia].
  destruct (window_item i l E) as [H1 [H2 [H3 H4]]].
  cbn [list_items]. rewrite H1, H2, H3, H4. cbn [bind].
  destruct (null (rstrip l)) eqn:Hn; [reflexivity|].
  destruct (is_some (re_match pat (rstrip l))) eqn:Hm; [|reflexivity].
  destruct (Nat.eq_dec (i + 1) (length A)) as [Hlast | Hmid].
  - replace (length P + i + 1) with (length P + length A) by lia.
    rewrite Hlast.
    destruct fuel as [|fuel]; [reflexivity|].
    cbn [list_items]. rewrite Nat.ltb_irrefl.
    assert (C : T = [] \/ exists h T', T = h :: T')
      by (clear; destruct T; [left; reflexivity | right; eauto]).
    destruct C as [ET | [h [T' ET]]].
    + rewrite ET, app_nil_r.
      replace (length P + length A) with (length (P ++ A))
        by (rewrite length_app; reflexivity).
      rewrite Nat.ltb_irrefl. reflexivity.
    + destruct (window_end h T' ET) as [G1 G2].
      rewrite G1, G2. cbn [bind].
      destruct (last_line i l E Hlast) as [A' EA].
      destruct (seam A' l h T' EA ET Hn Hm) as [K|K].
      * rewrite K. reflexivity.
      * rewrite K. destruct (null (rstrip h)); reflexivity.
  - replace (length P + i + 1) with (length P + (i + 1)) by lia.
    apply IH. lia.
Qed.

End Items.

Hypothesis seam_ul :
  forall A' p h T',
    A = A' ++ [p] -> T = h :: T' ->
    null (rstrip p) = false -> is_some (re_match re_ul (rstrip p)) = true ->
    null (rstrip h) = true \/ is_some (re_match re_ul (rstrip h)) = false.

Hypothesis seam_ol :
  forall A' p h T',
    A = A' ++ [p] -> T = h :: T' ->
    null (rstrip p) = false -> is_some (re_match re_ol (rstrip p)) = true ->
    null (rstrip h) = true \/ is_some (re_match re_ol (rstrip h)) = false.

(** One turn of the main loop on a line of [A]: it appends the same
    elements and moves to the same line, whether [A] stands alone or in the
    middle of the document. *)
Lemma turn_window (i : nat) (l : str) :
  nth_error A i = Some l ->
  exists i' elems,
    i < i' /\ i' <= length A
    /\ (forall fuel acc, length A - i <= fuel ->
          render_lines (S fuel) A i acc
          = render_lines fuel A i' (acc ++ elems))
    /\ (forall fuel acc, length A - i <= fuel ->
          render_lines (S fuel) (P ++ A ++ T) (length P + i) acc
          = render_lines fuel (P ++ A ++ T) (length P + i') (acc ++ elems)).
Proof.
  intros E. destruct (window_item i l E) as [H1 [H2 [H3 H4]]].
  pose proof H3 as Hlt. apply Nat.ltb_lt in Hlt.
  assert (Next : length P + i + 1 = length P + (i + 1)) by lia.
  destruct (null (rstrip l)) eqn:Hnull.
  { exists (i + 1), [[]]. split; [lia|]. split; [lia|].
    split; intros fuel acc Hf; cbn [render_lines];
      rewrite ?H1, ?H2, ?H3, ?H4; cbn [bind]; rewrite Hnull, ?Next;
      reflexivity. }
  destruct (re_match re_title (rstrip l)) as [tm|] eqn:Ht.
  { destruct (title_groups _ _ Ht) as [g1 [g2 [G1 G2]]].
    exists (i + 1), [heading_html (Nat.min (length g1) 4) (strip g2)].
    split; [lia|]. split; [lia|].
    split; intros fuel acc Hf; cbn [render_lines];
      rewrite ?H1, ?H2, ?H3, ?H4; cbn [bind]; rewrite Hnull, Ht;
      unfold group_str; rewrite G1, G2; cbn [bind]; rewrite ?Next;
      reflexivity. }
  destruct (str_eqb (strip (rstrip l)) rule_cell) eqn:Hr.
  { exists (i + 1), [lit "<hr/>"]. split; [lia|]. split; [lia|].
    split; intros fuel acc Hf; cbn [render_lines];
      rewrite ?H1, ?H2, ?H3, ?H4; cbn [bind]; rewrite Hnull, Ht, Hr, ?Next;
      reflexivity. }
  destruct (is_some (re_match re_ul (rstrip l))) eqn:Hul.
  { destruct (list_items_total re_ul A (length A - i) i [])
      as [i' [items [Hrun [_ Hadv]]]]; [lia|].
    specialize (Hadv l H4 Hnull Hul).
    assert (Hb : i' <= length A).
    { apply (list_items_bound re_ul A (S (length A - i)) i [] i' items);
        [apply Hrun; lia | lia]. }
    exists i', (if null items then []
                else [lit "<ul>" ++ concat items ++ lit "</ul>"]).
    split; [exact Hadv|]. split; [exact Hb|].
    split; intros fuel acc Hf; cbn [render_lines];
      rewrite ?H1, ?H2, ?H3, ?H4; cbn [bind]; rewrite Hnull, Ht, Hr, Hul;
      rewrite ?(list_items_window re_ul seam_ul) by exact Hlt;
      rewrite (Hrun (S fuel)) by lia; cbn [bind];
      destruct (null items); rewrite ?app_nil_r; reflexivity. }
  destruct (is_some (re_match re_ol (rstrip l))) eqn:Hol.
  { destruct (list_items_total re_ol A (length A - i) i [])
      as [i' [items [Hrun [_ Hadv]]]]; [lia|].
    specialize (Hadv l H4 Hnull Hol).
    assert (Hb : i' <= length A).
    { apply (list_items_bound re_ol A (S (length A - i)) i [] i' items);
        [apply Hrun; lia | lia]. }
    exists i', (if null items then []
                else [lit "<ol>" ++ concat items ++ lit "</ol>"]).
    split; [exact Hadv|]. split; [exact Hb|].
    split; intros fuel acc Hf; cbn [render_lines];
      rewrite ?H1, ?H2, ?H3, ?H4; cbn [bind];
      rewrite Hnull, Ht, Hr, Hul, Hol;
      rewrite ?(list_items_window re_ol seam_ol) by exact Hlt;
      rewrite (Hrun (S fuel)) by lia; cbn [bind];
      destruct (null items); rewrite ?app_nil_r; reflexivity. }
  exists (i + 1), [lit "<p>" ++ render_inline (rstrip l) ++ lit "</p>"].
  split; [lia|]. split; [lia|].
  split; intros fuel acc Hf; cbn [render_lines];
    rewrite ?H1, ?H2, ?H3, ?H4; cbn [bind];
    rewrite Hnull, Ht, Hr, Hul, Hol, ?Next; reflexivity.
Qed.

End Window.

(** Once the fuel exceeds the number of lines left, the result of the loop
    does not depend on it. *)
Lemma render_lines_fuel (lines : list str) (i : nat) (acc o : list str)
    (f1 f2 : nat) :
  length lines - i < f1 -> length lines - i < f2 ->
  render_lines f1 lines i acc = Done o -> render_lines f2 lines i acc = Done o.
Proof.
  intros H1 H2 E.
  destruct (render_lines_total lines (length lines - i) i acc (le_n _))
    as [out H].
  rewrite (H f1 H1) in E. rewrite (H f2 H2). exact E.
Qed.

(** The loop over the lines [A] of a document [P ++ A ++ T] goes as it does
    over [A] alone, and then carries on behind [A]. *)
Lemma render_lines_window (P A T : list str) :
  (forall A' p h T',
      A = A' ++ [p] -> T = h :: T' ->
      null (rstrip p) = false -> is_some (re_match re_ul (rstrip p)) = true ->
      null (rstrip h) = true \/ is_some (re_match re_ul (rstrip h)) = false) ->
  (forall A' p h T',
      A = A' ++ [p] -> T = h :: T' ->
      null (rstrip p) = false -> is_some (re_match re_ol (rstrip p)) = true ->
      null (rstrip h) = true \/ is_some (re_match re_ol (rstrip h)) = false) ->
  forall n i acc o out,
    length A - i <= n -> i <= length A ->
    (forall fuel, length A - i < fuel -> render_lines fuel A i acc = Done o) ->
    (forall fuel, length T < fuel ->
       render_lines fuel (P ++ A ++ T) (length P + length A) o = Done out) ->
    forall fuel, length A + length T - i < fuel ->
      render_lines fuel (P ++ A ++ T) (length P + i) acc = Done out.
Proof.
  intros Sul Sol. induction n as [|n IH]; intros i acc o out Hn Hi HA HT fuel Hf;
    (destruct (Nat.eq_dec i (length A)) as [->|Hne];
     [ specialize (HA 1 ltac:(lia)); cbn [render_lines] in HA;
       rewrite Nat.ltb_irrefl in HA; inversion HA; subst;
       apply HT; lia
     | ]); [lia|].
  destruct (nth_error A i) as [l|] eqn:E; [|apply nth_error_None in E; lia].
  destruct (turn_window P A T Sul Sol i l E)
    as [i' [elems [Hadv [Hb [TA TW]]]]].
  destruct fuel as [|fuel]; [lia|].
  rewrite TW by lia.
  apply (IH i' (acc ++ elems) o out); try lia; [|exact HT].
  intros f Hf'.
  apply (render_lines_fuel A i' (acc ++ elems) o (f + length A)); try lia.
  rewrite <- TA by lia. apply HA. lia.
Qed.

(** What the loop appends does not depend on what has been collected. *)
Lemma render_lines_acc (A : list str) :
  forall n i acc o,
    length A - i <= n -> i <= length A ->
    (forall fuel, length A - i < fuel -> render_lines fuel A i acc = Done o) ->
    exists o',
      o = acc ++ o'
      /\ forall acc2 fuel, length A - i < fuel ->
           render_lines fuel A i acc2 = Done (acc2 ++ o').
Proof.
  assert (Sn : forall pat (A' : list str) (p h : str) (T' : list str),
             A = A' ++ [p] -> @nil str = h :: T' ->
             null (rstrip p) = false ->
             is_some (re_match pat (rstrip p)) = true ->
             null (rstrip h) = true
             \/ is_some (re_match pat (rstrip h)) = false)
    by (intros; discriminate).
  induction n as [|n IH]; intros i acc o Hn Hi HA;
    (destruct (Nat.eq_dec i (length A)) as [->|Hne];
     [ specialize (HA 1 ltac:(lia)); cbn [render_lines] in HA;
       rewrite Nat.ltb_irrefl in HA; inversion HA; subst;
       exists []; split; [rewrite app_nil_r; reflexivity|];
       intros acc2 [|fuel] Hf; [lia|];
       cbn [render_lines]; rewrite Nat.ltb_irrefl, app_nil_r; reflexivity
     | ]); [lia|].
  destruct (nth_error A i) as [l|] eqn:E; [|apply nth_error_None in E; lia].
  destruct (turn_window [] A [] (Sn re_ul) (Sn re_ol) i l E)
    as [i' [elems [Hadv [Hb [TA _]]]]].
  destruct (IH i' (acc ++ elems) o) as [o' [Eo Ho]]; try lia.
  { intros f Hf'.
    apply (render_lines_fuel A i' (acc ++ elems) o (f + length A)); try lia.
    rewrite <- TA by lia. apply HA. lia. }
  exists (elems ++ o'). split; [rewrite Eo, app_assoc; reflexivity|].
  intros acc2 [|fuel] Hf; [lia|].
  rewrite TA by lia. rewrite Ho by lia. rewrite app_assoc. reflexivity.
Qed.

(** Two stretches of lines are rendered one after the other when no list
    block reaches from the first into the second. *)
Lemma render_lines_app (A B oa ob : list str) :
  (forall A' p h B',
      A = A' ++ [p] -> B = h :: B' ->
      null (rstrip p) = false -> is_some (re_match re_ul (rstrip p)) = true ->
      null (rstrip h) = true \/ is_some (re_match re_ul (rstrip h)) = false) ->
  (forall A' p h B',
      A = A' ++ [p] -> B = h :: B' ->
      null (rstrip p) = false -> is_some (re_match re_ol (rstrip p)) = true ->
      null (rstrip h) = true \/ is_some (re_match re_ol (rstrip h)) = false) ->
  (forall fuel, length A < fuel -> render_lines fuel A 0 [] = Done oa) ->
  (forall fuel, length B < fuel -> render_lines fuel B 0 [] = Done ob) ->
  forall fuel, length (A ++ B) < fuel ->
    render_lines fuel (A ++ B) 0 [] = Done (oa ++ ob).
Proof.
  intros Sul Sol HA HB fuel Hf. rewrite length_app in Hf.
  apply (render_lines_window [] A B Sul Sol (length A) 0 [] oa (oa ++ ob));
    try lia.
  - intros f Hf'. apply HA. lia.
  - clear fuel Hf. intros fuel Hf. cbn [app length Nat.add].
    destruct (render_lines_acc B (length B) 0 [] ob) as [o' [Eo Ho]];
      try lia.
    { intros f Hf'. apply HB. lia. }
    cbn [app] in Eo. subst o'.
    assert (Sn : forall pat (A' : list str) (p h : str) (T' : list str),
               B = A' ++ [p] -> @nil str = h :: T' ->
               null (rstrip p) = false ->
               is_some (re_match pat (rstrip p)) = true ->
               null (rstrip h) = true
               \/ is_some (re_match pat (rstrip h)) = false)
      by (intros; discriminate).
    pose proof (render_lines_window A B [] (Sn re_ul) (Sn re_ol)
                  (length B) 0 oa (oa ++ ob) (oa ++ ob)) as W.
    rewrite app_nil_r in W. cbn [length] in W. rewrite !Nat.add_0_r in W.
    apply W; try lia.
    + intros f Hf'. apply Ho. lia.
    + intros [|f] Hf'; [simpl in Hf'; lia|].
      apply render_lines_end. rewrite length_app. lia.
Qed.

(** A block in its document: when no list block reaches into the lines
    [block] or out of them, the page is made of what the lines before give,
    the elements of [block], and what the lines after give. *)
Lemma render_lines_block (before block rest elems : list str) :
  (forall pat, pat = re_ul \/ pat = re_ol ->
     forall A' p h B',
       before = A' ++ [p] -> block ++ rest = h :: B' ->
       null (rstrip p) = false -> is_some (re_match pat (rstrip p)) = true ->
       null (rstrip h) = true \/ is_some (re_match pat (rstrip h)) = false) ->
  (forall pat, pat = re_ul \/ pat = re_ol ->
     forall A' p h B',
       block = A' ++ [p] -> rest = h :: B' ->
       null (rstrip p) = false -> is_some (re_match pat (rstrip p)) = true ->
       null (rstrip h) = true \/ is_some (re_match pat (rstrip h)) = false) ->
  (forall fuel, length block < fuel ->
     render_lines fuel block 0 [] = Done elems) ->
  exists ob orest,
    (forall fuel, length before < fuel ->
       render_lines fuel before 0 [] = Done ob)
    /\ (forall fuel, length rest < fuel ->
          render_lines fuel rest 0 [] = Done orest)
    /\ (forall fuel, length (before ++ block ++ rest) < fuel ->
          render_lines fuel (before ++ block ++ rest) 0 []
          = Done (ob ++ elems ++ orest))
    /\ (forall md, splitlines md = before ++ block ++ rest ->
          markdown_to_html md
          = Done (strip (join [NL]
                           (merge_blank false (ob ++ elems ++ orest))))).
Proof.
  intros S1 S2 Hb.
  destruct (render_lines_total before (length before) 0 []) as [ob Hob];
    [lia|].
  destruct (render_lines_total rest (length rest) 0 []) as [orest Hor];
    [lia|].
  exists ob, orest.
  assert (H3 : forall fuel, length (before ++ block ++ rest) < fuel ->
                 render_lines fuel (before ++ block ++ rest) 0 []
                 = Done (ob ++ elems ++ orest)).
  { apply render_lines_app;
      [apply S1; auto | apply S1; auto | exact Hob |].
    apply render_lines_app; [apply S2; auto | apply S2; auto | exact Hb |].
    exact Hor. }
  split; [exact Hob|]. split; [exact Hor|]. split; [exact H3|].
  intros md Hs. unfold markdown_to_html, markdown_to_html_fuel.
  rewrite Hs, H3 by lia. reflexivity.
Qed.

(** The same for a single line that is no list item. *)
Lemma render_lines_line (before rest : list str) (l elem : str) :
  is_some (re_match re_ul (rstrip l)) = false ->
  is_some (re_match re_ol (rstrip l)) = false ->
  (forall fuel acc,
     render_lines (S fuel) [l] 0 acc = render_lines fuel [l] 1 (acc ++ [elem])) ->
  exists ob orest,
    (forall fuel, length before < fuel ->
       render_lines fuel before 0 [] = Done ob)
    /\ (forall fuel, length rest < fuel ->
          render_lines fuel rest 0 [] = Done orest)
    /\ (forall fuel, length (before ++ l :: rest) < fuel ->
          render_lines fuel (before ++ l :: rest) 0 []
          = Done (ob ++ elem :: orest))
    /\ (forall md, splitlines md = before ++ l :: rest ->
          markdown_to_html md
          = Done (strip (join [NL]
                           (merge_blank false (ob ++ elem :: orest))))).
Proof.
  intros Hul Hol Hstep.
  apply (render_lines_block before [l] rest [elem]).
  - intros pat [-> | ->] A' p h B' _ E _ _; inversion E; subst; auto.
  - intros pat [-> | ->] A' p h B' E _ _ M;
      (destruct A' as [|a [|b A']]; inversion E; subst); congruence.
  - intros [|[|fuel]] Hf; try (simpl in Hf; lia).
    rewrite Hstep. apply render_lines_end. simpl. lia.
Qed.

(** ** An element in the page *)

Lemma drop_while_app_keep (p : char -> bool) (x : str) (c : char) (r : str) :
  p c = false -> drop_while p (x ++ c :: r) = drop_while p x ++ c :: r.
Proof.
  intros Hc. induction x as [|a x IH]; simpl.
  - rewrite Hc. reflexivity.
  - destruct (p a); [exact IH | reflexivity].
Qed.

Lemma drop_while_end_app_keep (p : char -> bool) (r : str) (d : char)
    (y : str) :
  p d = false ->
  drop_while_end p (r ++ d :: y) = r ++ d :: drop_while_end p y.
Proof.
  intros Hd. induction r as [|a r IH].
  - simpl. destruct (drop_while_end p y); [rewrite Hd|]; reflexivity.
  - simpl app. cbn [drop_while_end]. rewrite IH.
    destruct (r ++ d :: drop_while_end p y) eqn:E; [|reflexivity].
    destruct r; discriminate.
Qed.

Lemma merge_blank_keeps (e : str) (ys : list str) :
  null e = false ->
  forall xs b,
    merge_blank b (xs ++ e :: ys)
    = merge_blank b xs ++ e :: merge_blank false ys.
Proof.
  intros He. induction xs as [|x xs IH]; intros b.
  - simpl. rewrite He. reflexivity.
  - simpl. destruct (null x && b); rewrite IH; reflexivity.
Qed.

Lemma join_holds (sep e : str) (ys xs : list str) :
  exists a b, join sep (xs ++ e :: ys) = a ++ e ++ b.
Proof.
  induction xs as [|x xs [a [b IH]]].
  - exists []. destruct ys as [|y ys].
    + exists []. simpl. rewrite app_nil_r. reflexivity.
    + exists (sep ++ join sep (y :: ys)). reflexivity.
  - exists (x ++ sep ++ a), b. simpl app.
    destruct (xs ++ e :: ys) as [|z zs] eqn:E; [destruct xs; discriminate|].
    change (join sep (x :: z :: zs)) with (x ++ sep ++ join sep (z :: zs)).
    rewrite IH, <- !app_assoc. reflexivity.
Qed.

(** An element that begins and ends outside white space stands in the page
    as it was appended. *)
Lemma page_holds (X Y : list str) (c d : char) (m : str) :
  is_space c = false -> is_space d = false ->
  exists a b,
    strip (join [NL] (merge_blank false (X ++ (c :: m ++ [d]) :: Y)))
    = a ++ (c :: m ++ [d]) ++ b.
Proof.
  intros Hc Hd. rewrite merge_blank_keeps by reflexivity.
  destruct (join_holds [NL] (c :: m ++ [d]) (merge_blank false Y)
              (merge_blank false X)) as [a [b E]].
  rewrite E. unfold strip, lstrip, rstrip.
  cbn [app]. rewrite (drop_while_app_keep is_space a c _ Hc).
  exists (drop_while is_space a), (drop_while_end is_space b).
  replace (drop_while is_space a ++ c :: (m ++ [d]) ++ b)
    with ((drop_while is_space a ++ c :: m) ++ d :: b)
    by (rewrite <- !app_assoc; reflexivity).
  rewrite (drop_while_end_app_keep is_space _ d b Hd).
  rewrite <- !app_assoc. reflexivity.
Qed.

(* ===================================================================== *)
(** * Headings, rules, paragraphs and numbered lists in the page *)

Lemma numbered_not_bullet (l : str) :
  numbered_line l = true -> bullet_line l = false.
Proof.
  intros N. destruct (numbered_line_shape l N) as [D [w [t [E [F [L _]]]]]].
  destruct D as [|d D]; [simpl in L; lia|].
  simpl in F. apply andb_true_iff in F as [Fd _].
  destruct (decimal_first d Fd) as [_ [Hu _]].
  rewrite <- ul_match_iff, E. simpl app.
  rewrite (ul_needs_bullet d _ Hu). reflexivity.
Qed.



Lemma rule_not_item (l : str) :
  strip l = lit "---" ->
  is_some (re_match re_ul (rstrip l)) = false
  /\ is_some (re_match re_ol (rstrip l)) = false.
Proof.
  intros Hs. rewrite ul_match_iff, ol_match_iff. split.
  - destruct (bullet_line l) eqn:B; [|reflexivity].
    destruct (bullet_line_shape l B) as [c [w [t [E [Hc Hw]]]]].
    pose proof (strip_bullet_not_rule c w t Hc Hw) as R.
    rewrite <- E, strip_rstrip, Hs in R. discriminate.
  - destruct (numbered_line l) eqn:N; [|reflexivity].
    destruct (numbered_line_shape l N) as [D [w [t [E [F [L _]]]]]].
    destruct D as [|d D]; [simpl in L; lia|].
    simpl in F. apply andb_true_iff in F as [Fd _].
    destruct (decimal_first d Fd) as [_ [_ Hd]].
    pose proof (strip_first d (D ++ DOT :: w :: t)
                  (decimal_not_space d Fd) Hd) as R.
    change (d :: D ++ DOT :: w :: t) with ((d :: D) ++ DOT :: w :: t) in R.
    rewrite <- E, strip_rstrip, Hs in R. discriminate.
Qed.

(** X6: A line that holds three hyphens and white space only is a rule, with
    or without indentation: wherever it stands in the document, [<hr/>] is
    appended between what the lines before it give and what the lines after
    it give, and it stands in the page that [markdown_to_html] returns. *)
Theorem rule_rendering (before rest : list str) (l : str) :
  strip l = lit "---" ->
  exists ob orest,
    (forall fuel, length before < fuel ->
       render_lines fuel before 0 [] = Done ob)
    /\ (forall fuel, length rest < fuel ->
          render_lines fuel rest 0 [] = Done orest)
    /\ (forall fuel, length (before ++ l :: rest) < fuel ->
          render_lines fuel (before ++ l :: rest) 0 []
          = Done (ob ++ lit "<hr/>" :: orest))
    /\ (forall md, splitlines md = before ++ l :: rest ->
          markdown_to_html md
          = Done (strip (join [NL]
                           (merge_blank false (ob ++ lit "<hr/>" :: orest)))))
    /\ exists a b,
         strip (join [NL] (merge_blank false (ob ++ lit "<hr/>" :: orest)))
         = a ++ lit "<hr/>" ++ b.
Proof.
  intros Hs. destruct (rule_not_item l Hs) as [Hu Ho].
  destruct (render_lines_line before rest l (lit "<hr/>") Hu Ho)
    as [ob [orest [H1 [H2 [H3 H4]]]]].
  - intros fuel acc. apply (render_lines_rule fuel [l] 0 acc l eq_refl Hs).
  - exists ob, orest. repeat (split; [assumption|]).
    apply (page_holds ob orest 60%N 62%N (lit "hr/")); reflexivity.
Qed.

Lemma rule_rendering_witness :
  markdown_to_html (lit "a" ++ [NL] ++ lit "  --- " ++ [NL] ++ lit "b")
  = Done (lit "<p>a</p>" ++ [NL] ++ lit "<hr/>" ++ [NL] ++ lit "<p>b</p>").
Proof.
  destruct (rule_rendering [lit "a"] [lit "b"] (lit "  --- ") eq_refl)
    as [ob [orest [Hb [Hr [_ [Hmd _]]]]]].
  specialize (Hb 2 (le_n 2)). specialize (Hr 2 (le_n 2)).
  vm_compute in Hb, Hr.
  injection Hb as <-. injection Hr as <-.
  rewrite Hmd by reflexivity. vm_compute. reflexivity.
Defined.

(** X7: A line that is not blank, does not begin with [#], [-], [*] or a
    digit and is not a rule is a paragraph: wherever it stands in the
    document, one [<p>] element with the line rendered inline is appended
    between what the lines before it give and what the lines after it give,
    and it stands in the page that [markdown_to_html] returns.  The text of
    the line goes into the page as it is when it holds no backquote,
    asterisk or opening bracket: the markup characters of HTML are not
    escaped. *)
Theorem paragraph_rendering (before rest : list str) (l : str) (c : char)
    (t : str) :
  rstrip l = c :: t ->
  is_c HASH c = false -> one_of [is_c DASH; is_c STAR] c = false ->
  is_decimal c = false -> strip l <> lit "---" ->
  let p := lit "<p>" ++ render_inline (c :: t) ++ lit "</p>" in
  (exists ob orest,
     (forall fuel, length before < fuel ->
        render_lines fuel before 0 [] = Done ob)
     /\ (forall fuel, length rest < fuel ->
           render_lines fuel rest 0 [] = Done orest)
     /\ (forall fuel, length (before ++ l :: rest) < fuel ->
           render_lines fuel (before ++ l :: rest) 0 []
           = Done (ob ++ p :: orest))
     /\ (forall md, splitlines md = before ++ l :: rest ->
           markdown_to_html md
           = Done (strip (join [NL] (merge_blank false (ob ++ p :: orest)))))
     /\ exists a b,
          strip (join [NL] (merge_blank false (ob ++ p :: orest)))
          = a ++ p ++ b)
  /\ (lacks (one_of [is_c BACKTICK; is_c STAR; is_c 91%N]) (c :: t) ->
      p = lit "<p>" ++ c :: t ++ lit "</p>").
Proof.
  intros E Hh Hu Hd Hr p. split.
  - destruct (render_lines_line before rest l p)
      as [ob [orest [H1 [H2 [H3 H4]]]]].
    + rewrite E, (ul_needs_bullet c t Hu). reflexivity.
    + rewrite E, (ol_needs_digit c t Hd). reflexivity.
    + intros fuel acc.
      apply (render_lines_paragraph fuel [l] 0 acc l c t eq_refl E Hh Hu Hd Hr).
    + exists ob, orest. repeat (split; [assumption|]).
      assert (Ep : p = 60%N :: (lit "p>" ++ render_inline (c :: t)
                                  ++ lit "</p") ++ [62%N]).
      { subst p. change (lit "<p>") with (60%N :: lit "p>").
        change (lit "</p>") with (lit "</p" ++ [62%N]).
        cbn [app]. rewrite <- !app_assoc. reflexivity. }
      rewrite Ep. apply page_holds; reflexivity.
  - intros L. subst p. rewrite (render_inline_plain _ L). reflexivity.
Qed.

Lemma paragraph_rendering_witness :
  markdown_to_html (lit "# T" ++ [NL] ++ lit "<b>x</b> & y")
  = Done (lit "<h1>T</h1>" ++ [NL] ++ lit "<p><b>x</b> & y</p>").
Proof.
  assert (N : strip (lit "<b>x</b> & y") <> lit "---") by discriminate.
  destruct (paragraph_rendering [lit "# T"] [] (lit "<b>x</b> & y")
              60%N (lit "b>x</b> & y") eq_refl eq_refl eq_refl eq_refl N)
    as [[ob [orest [Hb [Hr [_ [Hmd _]]]]]] P].
  specialize (Hb 2 (le_n 2)). specialize (Hr 1 (le_n 1)).
  vm_compute in Hb, Hr.
  injection Hb as <-. injection Hr as <-.
  rewrite Hmd by reflexivity. rewrite P by reflexivity.
  vm_compute. reflexivity.
Defined.

(** X5: An ordered list: a maximal run of numbered lines becomes one [<ol>]
    element with one [<li>] per line, the numbers of the text being left
    out.  Wherever the run stands in the document, the element is appended
    between what the lines before it give and what the lines after it give,
    and it stands in the page that [markdown_to_html] returns. *)
Theorem ordered_list_grouping (before run rest : list str) :
  run <> [] ->
  Forall (fun l => numbered_line l = true) run ->
  (forall before' p, before = before' ++ [p] -> numbered_line p = false) ->
  match rest with
  | [] => True
  | h :: _ => numbered_line h = false
  end ->
  let ol := lit "<ol>" ++ concat (map ol_item run) ++ lit "</ol>" in
  exists ob orest,
    (forall fuel, length before < fuel ->
       render_lines fuel before 0 [] = Done ob)
    /\ (forall fuel, length rest < fuel ->
          render_lines fuel rest 0 [] = Done orest)
    /\ (forall fuel, length (before ++ run ++ rest) < fuel ->
          render_lines fuel (before ++ run ++ rest) 0 []
          = Done (ob ++ ol :: orest))
    /\ (forall md, splitlines md = before ++ run ++ rest ->
          markdown_to_html md
          = Done (strip (join [NL] (merge_blank false (ob ++ ol :: orest)))))
    /\ exists a b,
         strip (join [NL] (merge_blank false (ob ++ ol :: orest)))
         = a ++ ol ++ b.
Proof.
  intros Hne Hrun Hbefore Hrest ol.
  destruct (render_lines_block before run rest [ol])
    as [ob [orest [H1 [H2 [H3 H4]]]]].
  - intros pat [-> | ->] A' p h B' EA EB Np Mp.
    + right. destruct run as [|l run]; [congruence|].
      inversion EB; subst. inversion Hrun; subst.
      rewrite ul_match_iff. apply numbered_not_bullet. assumption.
    + rewrite ol_match_iff, (Hbefore A' p EA) in Mp. discriminate.
  - intros pat [-> | ->] A' p h B' EA EB Np Mp.
    + assert (Hp : numbered_line p = true).
      { rewrite Forall_forall in Hrun. apply Hrun. rewrite EA.
        apply in_or_app. right. left. reflexivity. }
      rewrite ul_match_iff, (numbered_not_bullet p Hp) in Mp. discriminate.
    + right. rewrite EB in Hrest. rewrite ol_match_iff. exact Hrest.
  - intros fuel Hf. destruct fuel as [|fuel]; [lia|].
    pose proof (render_lines_numbered fuel [] run [] [] Hne Hrun I) as R.
    rewrite app_nil_r in R. cbn [app length Nat.add] in R.
    rewrite R by lia.
    destruct fuel as [|fuel];
      [destruct run; [congruence | simpl in Hf; lia]|].
    apply render_lines_end. lia.
  - exists ob, orest. cbn [app] in H3, H4. repeat (split; [assumption|]).
    assert (Eo : ol = 60%N :: (lit "ol>" ++ concat (map ol_item run)
                                 ++ lit "</ol") ++ [62%N]).
    { subst ol. change (lit "<ol>") with (60%N :: lit "ol>").
      change (lit "</ol>") with (lit "</ol" ++ [62%N]).
      cbn [app]. rewrite <- !app_assoc. reflexivity. }
    rewrite Eo. apply page_holds; reflexivity.
Qed.

Lemma ordered_list_grouping_witness :
  markdown_to_html
    (lit "Steps" ++ [NL] ++ lit "1. a" ++ [NL] ++ lit "7. b " ++ [NL; NL]
       ++ lit "c")
  = Done (lit "<p>Steps</p>" ++ [NL] ++ lit "<ol><li>a</li><li>b</li></ol>"
            ++ [NL; NL] ++ lit "<p>c</p>").
Proof.
  assert (B : forall before' p,
             [lit "Steps"] = before' ++ [p] -> numbered_line p = false).
  { intros [|x [|y before']] p E; inversion E; reflexivity. }
  destruct (ordered_list_grouping [lit "Steps"] [lit "1. a"; lit "7. b "]
              [[]; lit "c"] ltac:(discriminate)
              ltac:(repeat constructor) B eq_refl)
    as [ob [orest [Hb [Hr [_ [Hmd _]]]]]].
  specialize (Hb 2 (le_n 2)). specialize (Hr 3 (le_n 3)).
  vm_compute in Hb, Hr.
  injection Hb as <-. injection Hr as <-.
  rewrite Hmd by reflexivity. vm_compute. reflexivity.
Defined.

(* ===================================================================== *)
(** * The ledger file, written and read again *)

Lemma file_lines_cons (l : str) (rest : list str) :
  terminated l -> file_lines rest -> file_lines (l :: rest).
Proof. intros T F. destruct rest; simpl; auto. Qed.

Lemma file_lines_tail (l : str) (rest : list str) :
  file_lines (l :: rest) -> file_lines rest.
Proof. destruct rest as [|x rest]; [exact (fun _ => I)|]. intros [_ F]. exact F. Qed.

Lemma file_lines_head (l x : str) (rest : list str) :
  file_lines (l :: x :: rest) -> terminated l.
Proof. intros [T _]. exact T. Qed.

Lemma file_lines_app (a b : list str) :
  Forall terminated a -> file_lines b -> file_lines (a ++ b).
Proof.
  intros H F. induction H as [|l a T H IH]; [exact F|].
  apply file_lines_cons; assumption.
Qed.

Lemma file_lines_split (a b : list str) :
  file_lines (a ++ b) -> b <> [] -> Forall terminated a /\ file_lines b.
Proof.
  intros F N. induction a as [|l a IH]; [split; [constructor | exact F]|].
  destruct (IH (file_lines_tail _ _ F)) as [Fa Fb].
  split; [|exact Fb]. constructor; [|exact Fa].
  simpl app in F. destruct (a ++ b) as [|x r] eqn:E.
  - destruct a; [simpl in E; congruence | discriminate].
  - exact (file_lines_head _ _ _ F).
Qed.

(** Replacing lines by terminated lines, or by themselves, leaves the
    lines of a text file. *)
Lemma file_lines_replace (lines out : list str) :
  Forall2 (fun old new => new = old \/ terminated new) lines out ->
  file_lines lines -> file_lines out.
Proof.
  intros H. induction H as [|l l' lines out R H IH]; intros F; [exact I|].
  specialize (IH (file_lines_tail _ _ F)).
  destruct R as [-> | T]; [|apply file_lines_cons; assumption].
  destruct H as [|x y lines out R' H]; [exact F|].
  apply file_lines_cons; [exact (file_lines_head _ _ _ F) | exact IH].
Qed.

Lemma readlines_from_text (b : str) :
  lacks line_end b ->
  forall cur rest,
    readlines_from cur false (b ++ rest)
    = readlines_from (rev b ++ cur) false rest.
Proof.
  unfold lacks. induction b as [|c b IH]; intros H cur rest; [reflexivity|].
  simpl in H. apply orb_false_iff in H as [Hc Hb].
  cbn [app readlines_from andb]. rewrite Hc, (IH Hb).
  simpl rev. rewrite <- app_assoc. reflexivity.
Qed.

Lemma readlines_from_terminated (l : str) (rest : str) :
  terminated l ->
  readlines_from [] false (l ++ rest) = l :: readlines_from [] false rest.
Proof.
  intros [b [-> H]]. rewrite <- app_assoc, (readlines_from_text b H).
  cbn [app readlines_from andb]. change (line_end NL) with true. cbv iota.
  change (N.eqb NL CR) with false.
  rewrite app_nil_r. simpl rev. rewrite rev_involutive. reflexivity.
Qed.

Lemma readlines_from_unterminated (l : str) :
  unterminated l -> readlines_from [] false l = [l].
Proof.
  intros [N H]. rewrite <- (app_nil_r l) at 1.
  rewrite (readlines_from_text l H). cbn [readlines_from].
  rewrite app_nil_r. destruct (rev l) as [|c r] eqn:E.
  - apply (f_equal (@rev char)) in E. rewrite rev_involutive in E.
    simpl in E. congruence.
  - rewrite <- E, rev_involutive. reflexivity.
Qed.

(** What [writelines] writes of the lines of a text file, [readlines]
    reads back line by line. *)
Lemma readlines_writelines (lines : list str) :
  file_lines lines -> readlines (writelines lines) = lines.
Proof.
  unfold readlines, writelines.
  induction lines as [|l lines IH]; intros F; [reflexivity|].
  cbn [concat]. destruct lines as [|x lines].
  - cbn [concat]. rewrite app_nil_r. destruct F as [T | U].
    + rewrite <- (app_nil_r l) at 1.
      rewrite (readlines_from_terminated l [] T). reflexivity.
    + apply readlines_from_unterminated, U.
  - destruct F as [T F].
    rewrite (readlines_from_terminated l _ T), (IH F). reflexivity.
Qed.

(** [readlines] gives the lines of a text file. *)
Lemma readlines_from_file_lines (s : str) :
  forall cur cr,
    lacks line_end cur -> file_lines (readlines_from cur cr s).
Proof.
  induction s as [|c s IH]; intros cur cr H.
  - cbn [readlines_from]. destruct cur as [|d cur]; [exact I|].
    right. split.
    + intros E. apply (f_equal (@rev char)) in E.
      rewrite rev_involutive in E. discriminate.
    + unfold lacks. rewrite existsb_rev. exact H.
  - cbn [readlines_from]. destruct (cr && N.eqb c NL); [apply IH, H|].
    destruct (line_end c) eqn:L.
    + apply file_lines_cons; [|apply IH; reflexivity].
      exists (rev cur). split; [reflexivity|].
      unfold lacks. rewrite existsb_rev. exact H.
    + apply IH. apply lacks_cons; assumption.
Qed.

Lemma readlines_file_lines (s : str) : file_lines (readlines s).
Proof. apply readlines_from_file_lines. reflexivity. Qed.

(** The text of a line of a text file, once stripped, holds no line end. *)
Lemma file_line_text (l : str) :
  terminated l \/ unterminated l -> lacks line_end (strip l).
Proof.
  intros [[b [-> H]] | [_ H]].
  - rewrite (strip_app_blank b [NL] eq_refl). apply strip_keeps_absent, H.
  - apply strip_keeps_absent, H.
Qed.

Lemma file_lines_in (lines : list str) (l : str) :
  file_lines lines -> In l lines -> terminated l \/ unterminated l.
Proof.
  induction lines as [|x lines IH]; intros F I; [destruct I|].
  destruct I as [-> | I]; [|exact (IH (file_lines_tail _ _ F) I)].
  destruct lines; [exact F | left; exact (file_lines_head _ _ _ F)].
Qed.

Lemma linebreak_line_end (x : str) : lacks is_linebreak x -> lacks line_end x.
Proof.
  apply absent_weaken. intros c H. unfold line_end in H.
  apply orb_true_iff in H as [H | H]; apply N.eqb_eq in H; subst c;
    reflexivity.
Qed.

(* ===================================================================== *)
(** * The stored text and the rows, line by line *)


Lemma replace_nl_keeps (q : char -> bool) (new t : str) :
  q NL = false -> lacks q (replace [NL] new t) -> lacks q t.
Proof.
  intros Hq. unfold lacks. induction t as [|c t IH]; intros H;
    [reflexivity|].
  rewrite replace_nl_cons, existsb_app in H.
  apply orb_false_iff in H as [Hc Ht]. simpl. rewrite (IH Ht), orb_false_r.
  destruct (N.eqb_spec NL c) as [<- | _]; [exact Hq|].
  simpl in Hc. rewrite orb_false_r in Hc. exact Hc.
Qed.

(** X11: The text that [generate_summary_for_link] returns holds no newline
    and no tab, and it neither begins nor ends with white space.  It
    brings no character into the answer of the model other than the space
    and those of the marker [<br>].  Apart from the newline, whatever the
    tidied answer holds is kept: the column delimiter, a carriage return
    or another line boundary of [str.splitlines] goes into the cell, so
    that the text is free of line boundaries exactly when the tidied answer
    holds none but newlines. *)
Theorem stored_text_cell (text : str) :
  lacks (is_c NL) (stored_text text)
  /\ lacks (is_c TAB) (stored_text text)
  /\ strip (stored_text text) = stored_text text
  /\ (forall q, q SP = false -> lacks q (lit "<br>") ->
        lacks q text -> lacks q (stored_text text))
  /\ (forall q, q NL = false -> lacks q (lit "<br>") ->
        (lacks q (stored_text text) <-> lacks q (tidy_text text)))
  /\ (lacks is_linebreak (stored_text text)
      <-> lacks other_break (tidy_text text)).
Proof.
  assert (K : forall q, q NL = false -> lacks q (lit "<br>") ->
                (lacks q (stored_text text) <-> lacks q (tidy_text text))).
  { intros q Hq Hb. unfold stored_text. split.
    - apply replace_nl_keeps, Hq.
    - intros H. apply replace_nl_lacks; [exact Hb|]. intros c Q. right.
      exact (lacks_char q _ c H Q). }
  unfold stored_text. split; [|split; [|split; [|split; [|split]]]].
  - apply replace_nl_lacks; [reflexivity|]. intros c H. left.
    apply is_c_eq in H. subst c. reflexivity.
  - apply replace_nl_lacks; [reflexivity|]. intros c H. right.
    apply is_c_eq in H. subst c. unfold tidy_text, re_sub.
    apply (sub_absent _ _ _ (blank_only_never_empty _ space_eol_blank));
      [reflexivity|].
    apply (sub_absent _ _ _ blank_never_empty); [reflexivity|].
    apply blanks_no_tab.
  - apply replace_nl_trimmed, tidy_text_trimmed.
  - intros q Hs Hb H. apply replace_nl_lacks; [exact Hb|].
    intros c Q. right.
    apply (lacks_char q _ c (tidy_text_lacks q text Hs H) Q).
  - exact K.
  - fold (stored_text text). split; intros H.
    + apply (K other_break eq_refl eq_refl).
      revert H. apply absent_weaken. intros c Q. unfold other_break in Q.
      apply andb_true_iff in Q as [Q _]. exact Q.
    + apply stored_text_lacks; [reflexivity|]. intros c Q.
      destruct (linebreak_cases c Q) as [E | E]; [left; exact E|].
      right. exact (lacks_char _ _ c H E).
Qed.


Lemma readlines_one (l : str) : terminated l -> readlines l = [l].
Proof.
  intros T. rewrite <- (app_nil_r l) at 1.
  exact (readlines_writelines [l] (or_introl T)).
Qed.

Lemma rebuild_line_one_line (d t l s : str) :
  lacks is_linebreak d -> lacks is_linebreak t -> lacks is_linebreak l ->
  lacks is_linebreak s ->
  (exists body,
     rebuild_line d t l s = body ++ [NL] /\ lacks is_linebreak body)
  /\ readlines (rebuild_line d t l s) = [rebuild_line d t l s].
Proof.
  intros Hd Ht Hl Hs.
  assert (B : exists body,
            rebuild_line d t l s = body ++ [NL] /\ lacks is_linebreak body).
  { unfold rebuild_line.
    exists (lit "| " ++ d ++ lit " | " ++ replace [PIPE] [BSLASH; PIPE] t
              ++ lit " | " ++ l ++ lit " | "
              ++ replace [PIPE] [BSLASH; PIPE] s ++ lit " |").
    split; [repeat rewrite <- app_assoc; reflexivity|].
    repeat apply lacks_app;
      try assumption; try reflexivity;
      apply replace_char_lacks; try assumption; reflexivity. }
  split; [exact B|]. destruct B as [body [E H]].
  apply readlines_one. exists body. split; [exact E|].
  apply linebreak_line_end, H.
Qed.

Lemma cells_one_line (line d t l cell : str) :
  parse_table_line line = [d; t; l; cell] ->
  lacks is_linebreak (strip line) ->
  lacks is_linebreak d /\ lacks is_linebreak t /\ lacks is_linebreak l.
Proof.
  intros P H.
  assert (C : forall x, In x [d; t; l] -> lacks is_linebreak x).
  { intros x I. apply (parse_table_line_lacks _ line); [exact H|].
    rewrite P. simpl in *. tauto. }
  repeat split; apply C; simpl; auto.
Qed.

Lemma stored_cell_one_line (text : str) :
  lacks other_break (tidy_text text) ->
  lacks is_linebreak (wrap_in_details (stored_text text)).
Proof.
  intros B. apply wrap_in_details_lacks; [reflexivity|].
  apply stored_text_lacks; [reflexivity|]. intros c Q.
  destruct (linebreak_cases c Q) as [E | E]; [left; exact E|].
  right. exact (lacks_char _ _ c B E).
Qed.

(** X24: What [clear_all_summaries] does with a row that [update_papers_md]
    wrote: it keeps the row when the tidied answer of the model has a
    second-level heading, and puts the placeholder back otherwise, so that
    the next run of the generator asks again.  This holds for a row made
    from a line without a line boundary inside and for an answer whose
    tidied text holds no [<], no column delimiter and no line boundary
    other than the newline and whose stored text does not hold the
    placeholder: the row is then read back from the file as the one line
    that was written. *)
Theorem generated_row_cleared (line d t l cell text : str) :
  parse_table_line line = [d; t; l; cell] ->
  lacks is_linebreak (strip line) ->
  lacks (is_c LT) (tidy_text text) ->
  lacks (is_c PIPE) (tidy_text text) ->
  lacks other_break (tidy_text text) ->
  contains pending (stored_text text) = false ->
  let row := rebuild_line d t l (wrap_in_details (stored_text text)) in
  readlines row = [row]
  /\ clear_line row
     = Done (if is_some (re_search re_h2 (tidy_text text))
             then (row, false)
             else (rebuild_line d t l default_summary_cell, true)).
Proof.
  intros P Hb Hl Hp Ho Hc row. split.
  - destruct (cells_one_line line d t l cell P Hb) as [Cd [Ct Cl]].
    apply rebuild_line_one_line; try assumption.
    apply stored_cell_one_line, Ho.
  - subst row. unfold clear_line.
    rewrite rebuild_line_starts. cbn [negb].
    rewrite (parse_summarized line d t l cell (stored_text text) P).
    + rewrite wrap_in_details_pending, Hc, (stored_text_valid text Hl).
      cbn [bind]. destruct (is_some (re_search re_h2 (tidy_text text)));
        reflexivity.
    + apply stored_text_lacks; [reflexivity|]. intros c Q. right.
      apply is_c_eq in Q. subst c. exact Hp.
Qed.

Lemma generated_row_cleared_witness :
  clear_line
    (rebuild_line (lit "2025-09-26") (lit "A title")
       (lit "http://arxiv.org/abs/2509.12345")
       (wrap_in_details (stored_text (lit "no heading here"))))
  = Done (rebuild_line (lit "2025-09-26") (lit "A title")
            (lit "http://arxiv.org/abs/2509.12345") default_summary_cell,
          true).
Proof.
  exact (proj2 (generated_row_cleared
                  (rebuild_line (lit "2025-09-26") (lit "A title")
                     (lit "http://arxiv.org/abs/2509.12345")
                     default_summary_cell)
                  (lit "2025-09-26") (lit "A title")
                  (lit "http://arxiv.org/abs/2509.12345")
                  default_summary_cell
                  (lit "no heading here") eq_refl eq_refl eq_refl eq_refl
                  eq_refl eq_refl)).
Defined.

(** X25: The two scripts that rewrite rows keep the ledger at one row per
    line.  For a row read from a line without a line boundary inside, the
    line that [clear_all_summaries] writes in its place ends with a newline
    and holds no other line boundary, and so does the line that
    [update_papers_md] writes for an answer of the model whose tidied text
    holds no line boundary other than the newline; each is read back from
    the file as one line. *)
Theorem rewritten_rows_one_line (line d t l cell : str) :
  parse_table_line line = [d; t; l; cell] ->
  lacks is_linebreak (strip line) ->
  ((exists body,
      rebuild_line d t l default_summary_cell = body ++ [NL]
      /\ lacks is_linebreak body)
   /\ readlines (rebuild_line d t l default_summary_cell)
      = [rebuild_line d t l default_summary_cell])
  /\ forall text,
       lacks other_break (tidy_text text) ->
       (exists body,
          rebuild_line d t l (wrap_in_details (stored_text text))
          = body ++ [NL]
          /\ lacks is_linebreak body)
       /\ readlines (rebuild_line d t l (wrap_in_details (stored_text text)))
          = [rebuild_line d t l (wrap_in_details (stored_text text))].
Proof.
  intros P H.
  destruct (cells_one_line line d t l cell P H) as [Cd [Ct Cl]].
  split; [|intros text B]; apply rebuild_line_one_line; try assumption.
  - reflexivity.
  - apply stored_cell_one_line, B.
Qed.

Lemma rewritten_rows_one_line_witness :
  readlines
    (rebuild_line (lit "2025-09-26") (lit "A title")
       (lit "http://arxiv.org/abs/2509.12345")
       (wrap_in_details (stored_text (lit "## A" ++ [NL] ++ lit "text"))))
  = [rebuild_line (lit "2025-09-26") (lit "A title")
       (lit "http://arxiv.org/abs/2509.12345")
       (wrap_in_details (stored_text (lit "## A" ++ [NL] ++ lit "text")))].
Proof.
  exact (proj2 (proj2 (rewritten_rows_one_line
                         (rebuild_line (lit "2025-09-26") (lit "A title")
                            (lit "http://arxiv.org/abs/2509.12345")
                            (wrap_in_details (lit "x")))
                         (lit "2025-09-26") (lit "A title")
                         (lit "http://arxiv.org/abs/2509.12345")
                         (wrap_in_details (lit "x")) eq_refl eq_refl)
                  (lit "## A" ++ [NL] ++ lit "text") eq_refl)).
Defined.

(* ===================================================================== *)
(** * The file after a run of the generator *)


Lemma rebuild_line_body (q : char -> bool) (d t l s : str) :
  q SP = false -> q PIPE = false -> q BSLASH = false ->
  lacks q d -> lacks q t -> lacks q l -> lacks q s ->
  exists body, rebuild_line d t l s = body ++ [NL] /\ lacks q body.
Proof.
  intros Q1 Q2 Q3 Hd Ht Hl Hs. unfold rebuild_line.
  unfold SP in Q1. unfold PIPE in Q2. unfold BSLASH in Q3.
  exists (lit "| " ++ d ++ lit " | " ++ replace [PIPE] [BSLASH; PIPE] t
            ++ lit " | " ++ l ++ lit " | "
            ++ replace [PIPE] [BSLASH; PIPE] s ++ lit " |").
  split; [repeat rewrite <- app_assoc; reflexivity|].
  assert (L : forall x, lacks q x ->
                lacks q (replace [PIPE] [BSLASH; PIPE] x)).
  { intros x Hx. apply replace_char_lacks; [|exact Hx].
    unfold lacks. cbn. unfold PIPE, BSLASH. rewrite Q2, Q3. reflexivity. }
  repeat apply lacks_app; auto;
    unfold lacks; cbn; unfold SP, PIPE; rewrite ?Q1, ?Q2; reflexivity.
Qed.

(** The lines that the second loop of [update_papers_md] puts into the
    body are lines of a text file when the answers hold no line end. *)
Lemma rewritten_lines (generator : nat -> str -> answer) :
  (forall k l s, generator k l = Text s -> lacks line_end s) ->
  forall rows k,
    Forall (fun line => lacks line_end (strip line)) rows ->
    Forall2 (fun old new => new = old \/ terminated new)
            rows (rewritten generator k rows).
Proof.
  intros G. induction rows as [|line rows IH]; intros k F; [constructor|].
  inversion F as [|? ? Hl Fb]; subst. cbn [rewritten].
  destruct (entries_from 0 [line]) as [|[[[i d] t] l] [|e es]] eqn:E;
    try (constructor; [left; reflexivity | apply IH; exact Fb]).
  constructor; [|apply IH; exact Fb].
  destruct (generator k l) as [[|c s]|] eqn:A; try (left; reflexivity).
  right. destruct (entries_from_one_row line i d t l E) as [cell P].
  assert (C : forall x, In x [d; t; l] -> lacks line_end x).
  { intros x I. apply (parse_table_line_lacks _ line); [exact Hl|].
    rewrite P. simpl in *. tauto. }
  apply (rebuild_line_body line_end d t l _ eq_refl eq_refl eq_refl
           (C d (or_introl eq_refl))
           (C t (or_intror (or_introl eq_refl)))
           (C l (or_intror (or_intror (or_introl eq_refl))))).
  apply wrap_in_details_lacks; [reflexivity|]. exact (G _ _ _ A).
Qed.

Lemma file_lines_texts (lines : list str) :
  file_lines lines ->
  Forall (fun line => lacks line_end (strip line)) lines.
Proof.
  intros F. apply Forall_forall. intros l I.
  apply file_line_text, (file_lines_in lines l F I).
Qed.

Lemma Forall2_same {A} (R : A -> A -> Prop) (l : list A) :
  (forall x, R x x) -> Forall2 R l l.
Proof. intros H. induction l; constructor; auto. Qed.

(** X17: A run of [update_papers_md] shortens the work list by the number of
    summaries it wrote, provided no text that the generator returns holds
    the column delimiter, the placeholder, a newline or a carriage return.
    The lines written are then read back from the file as they were
    written, as many as the file had; and on them the work list has as
    many entries as the run counted as needed less those it counted as
    done. *)
Theorem update_papers_md_progress
    (generator : nat -> str -> answer)
    (write_ok : nat -> bool) (token : bool) (batch_size : option Z)
    (papers : str) (out : list str) (need done : nat) :
  (forall k l s, generator k l = Text s ->
     lacks (is_c PIPE) s /\ contains pending s = false
     /\ lacks line_end s) ->
  update_papers_md generator write_ok token batch_size
    (Some (readlines papers))
  = Returned need done (Holds out) ->
  readlines (writelines out) = out
  /\ length out = length (readlines papers)
  /\ length (entries_from 0 (skipn 2 out)) + done = need.
Proof.
  intros G0.
  assert (G : forall k l s, generator k l = Text s ->
                lacks (is_c PIPE) s /\ contains pending s = false).
  { intros k l s A. destruct (G0 k l s A) as [A1 [A2 _]]. auto. }
  assert (Ge : forall k l s, generator k l = Text s -> lacks line_end s).
  { intros k l s A. destruct (G0 k l s A) as [_ [_ A3]]. exact A3. }
  pose proof (readlines_file_lines papers) as FL.
  set (lines := readlines papers) in *.
  unfold update_papers_md.
  destruct (length lines <? 2) eqn:E.
  { intros H. inversion H; subst. split; [|split; [reflexivity|]].
    - apply readlines_writelines, FL.
    - apply Nat.ltb_lt in E. rewrite skipn_all2 by lia. reflexivity. }
  apply Nat.ltb_ge in E.
  destruct token; cbn [negb]; [|discriminate].
  destruct batch_size as [b|]; [|discriminate].
  set (entries := entries_from 0 (skipn 2 lines)).
  set (st0 := Progress (skipn 2 lines) 0 0 (Holds lines) 0).
  assert (B : Forall (fun e => entry_index e < length (body st0)) entries).
  { eapply Forall_impl; [|apply entries_from_bounds]. intros e. simpl. lia. }
  assert (F : updates_since_last_write st0 = 0 ->
              file st0 = Holds (firstn 2 lines ++ body st0)).
  { intros _. cbn [file body st0]. rewrite firstn_skipn. reflexivity. }
  destruct (update_loop_spec generator write_ok b
              (firstn 2 lines) entries 0 st0
              (entries_from_distinct _ 0) B F) as [L [F' [C _]]].
  pose proof (update_loop_body generator write_ok b
                (firstn 2 lines) (skipn 2 lines) [] 0 st0 eq_refl) as R.
  cbn [length app] in R. fold entries in R.
  set (st := update_loop generator write_ok b
               (firstn 2 lines) entries 0 st0) in *.
  cbn [success_count body st0] in C, L.
  assert (Hf : length (firstn 2 lines) = 2) by (rewrite length_firstn; lia).
  assert (K : readlines (writelines (firstn 2 lines ++ body st))
              = firstn 2 lines ++ body st
              /\ length (firstn 2 lines ++ body st) = length lines
              /\ length (entries_from 0
                           (skipn 2 (firstn 2 lines ++ body st)))
                 + success_count st = length entries).
  { split; [|split].
    - apply readlines_writelines.
      apply (file_lines_replace lines); [|exact FL].
      rewrite <- (firstn_skipn 2 lines) at 1. apply Forall2_app.
      + apply Forall2_same. auto.
      + rewrite R. apply (rewritten_lines generator Ge).
        apply file_lines_texts.
        rewrite <- (firstn_skipn 2 lines) in FL.
        destruct (skipn 2 lines) eqn:S2; [constructor|].
        apply (file_lines_split _ _ FL). discriminate.
    - rewrite length_app, Hf, L, length_skipn. lia.
    - rewrite skipn_app, Hf, Nat.sub_diag. simpl skipn at 2.
      rewrite skipn_all2 by lia. cbn [app]. rewrite R, C.
      apply (rewritten_entries generator _ G 0 0). }
  destruct (0 <? updates_since_last_write st) eqn:U.
  - destruct (write_ok (writes st)); [|discriminate].
    intros H. injection H as <- <- <-. exact K.
  - apply Nat.ltb_ge in U.
    assert (U0 : updates_since_last_write st = 0) by lia.
    rewrite (F' U0). intros H. injection H as <- <- <-. exact K.
Qed.

Lemma update_papers_md_progress_witness :
  readlines
    (writelines [four_header; four_sep;
                 rebuild_line (lit "2025-09-26") (lit "A title")
                   (lit "http://arxiv.org/abs/2509.12345")
                   (wrap_in_details (lit "## A<br>text"))])
  = [four_header; four_sep;
     rebuild_line (lit "2025-09-26") (lit "A title")
       (lit "http://arxiv.org/abs/2509.12345")
       (wrap_in_details (lit "## A<br>text"))]
  /\ length [four_header; four_sep;
             rebuild_line (lit "2025-09-26") (lit "A title")
               (lit "http://arxiv.org/abs/2509.12345")
               (wrap_in_details (lit "## A<br>text"))]
     = length (readlines
                 (writelines
                    [four_header; four_sep;
                     rebuild_line (lit "2025-09-26") (lit "A title")
                       (lit "http://arxiv.org/abs/2509.12345")
                       default_summary_cell]))
  /\ length (entries_from 0
               (skipn 2 [four_header; four_sep;
                         rebuild_line (lit "2025-09-26") (lit "A title")
                           (lit "http://arxiv.org/abs/2509.12345")
                           (wrap_in_details (lit "## A<br>text"))])) + 1
     = 1.
Proof.
  apply (update_papers_md_progress (fun _ _ => Text (lit "## A<br>text"))
           (fun _ => true) true (Some 5%Z)).
  - intros k l s E. injection E as <-. repeat split; vm_compute; reflexivity.
  - vm_compute. reflexivity.
Defined.

(* ===================================================================== *)
(** * The file after a run of the collector *)

Lemma versioned_group (pre rest : str) (m : rmatch) :
  exec re_versioned pre rest = Some m ->
  exists g tail, group m 1 = Some g /\ rm_text m = g ++ tail.
Proof.
  intros E. apply exec_sound in E as [rest' [_ S]].
  unfold re_versioned, cat, LitI, lit in S. simpl in S. sem_inv.
  match goal with H : rm_text m = ?g ++ ?t |- _ =>
    exists g, t; split; [|exact H] end.
  unfold group.
  repeat match goal with H : rm_caps m = _ |- _ => rewrite H end.
  simpl. rewrite ?app_nil_r. reflexivity.
Qed.

Lemma normalize_link_lacks (q : char -> bool) (link : str) :
  lacks q link -> lacks q (_normalize_link link).
Proof.
  intros H. unfold _normalize_link. apply strip_keeps_absent.
  unfold re_sub. apply (sub_absent _ _ _ versioned_never_empty).
  - intros pre rest m E Hm.
    destruct (versioned_group pre rest m E) as [g [tail [G T]]].
    unfold expand, expand_item. cbn [map concat]. rewrite G, app_nil_r.
    rewrite T, existsb_app in Hm. apply orb_false_iff in Hm as [Hg _].
    exact Hg.
  - apply strip_keeps_absent, H.
Qed.

(** The row of a result whose fields hold no line end is a line. *)
Lemma format_row_terminated (r : Arxiv.Result) :
  match Arxiv.published r with
  | Some d => lacks line_end d
  | None => True
  end ->
  match Arxiv.title r with
  | Some t => lacks line_end t
  | None => True
  end ->
  lacks line_end (Arxiv.entry_id r) ->
  terminated (_format_row r).
Proof.
  intros Hd Ht Hl. unfold _format_row.
  set (d := match Arxiv.published r with Some d => d | None => [] end).
  set (t := match Arxiv.title r with Some t => t | None => [] end).
  assert (Ld : lacks line_end d)
    by (subst d; destruct (Arxiv.published r); [exact Hd | reflexivity]).
  assert (Lt : lacks line_end t)
    by (subst t; destruct (Arxiv.title r); [exact Ht | reflexivity]).
  exists (lit "| " ++ d ++ lit " | "
            ++ strip (replace [PIPE] [BSLASH; PIPE] t) ++ lit " | "
            ++ _normalize_link (Arxiv.entry_id r) ++ lit " | "
            ++ _default_summary_cell ++ lit " |").
  split; [repeat rewrite <- app_assoc; reflexivity|].
  repeat apply lacks_app; try reflexivity; try assumption.
  - apply strip_keeps_absent, replace_char_lacks; [reflexivity | exact Lt].
  - apply normalize_link_lacks, Hl.
Qed.

Lemma file_lines_all (lines : list str) :
  file_lines lines ->
  (forall before l, lines = before ++ [l] -> terminated l) ->
  Forall terminated lines.
Proof.
  induction lines as [|x lines IH]; intros F H; [constructor|].
  destruct lines as [|y lines].
  - constructor; [exact (H [] x eq_refl) | constructor].
  - destruct F as [T F]. constructor; [exact T|]. apply IH; [exact F|].
    intros before l E. apply (H (x :: before) l). rewrite E. reflexivity.
Qed.

(** X22: A run of the collector keeps every line of the file and their order:
    the rows it adds stand together behind the first two lines (at the end
    of a file with fewer lines), as many as the number it returns.  Each
    of them is the row of a search result in one of the allowed categories
    whose normalized link was not found in the file.  The lines written
    are the lines of the file afterwards when the file ended with a
    newline, or had more than two lines, and no date, title or link of a
    result holds a newline or a carriage return; otherwise a row can share
    a line with its neighbour or fall into several lines. *)
Theorem run_daily_keeps_lines
    (client_results : nat -> nat -> option (list Arxiv.Result))
    (daily_results : nat) (papers : option str) :
  let file := option_map readlines papers in
  let lines := _ensure_md_header file in
  let count := fst (run_daily client_results daily_results file) in
  let lines' := snd (run_daily client_results daily_results file) in
  (length lines <= 2 ->
   forall before l, lines = before ++ [l] -> terminated l) ->
  (forall r,
     In r (fst (_search client_results daily_results)) ->
     match Arxiv.published r with
     | Some d => lacks line_end d
     | None => True
     end
     /\ match Arxiv.title r with
        | Some t => lacks line_end t
        | None => True
        end
     /\ lacks line_end (Arxiv.entry_id r)) ->
  readlines (writelines lines') = lines'
  /\ length lines' = length lines + count
  /\ (forall i line,
        nth_error lines i = Some line ->
        nth_error lines' (if i <? 2 then i else i + count) = Some line)
  /\ (forall j row,
        Nat.min 2 (length lines) <= j < Nat.min 2 (length lines) + count ->
        nth_error lines' j = Some row ->
        exists r,
          In r (fst (_search client_results daily_results))
          /\ member (Arxiv.primary_category r) _ALLOWED_PRIMARY_CATEGORIES
             = true
          /\ member (_normalize_link (Arxiv.entry_id r))
                    (_load_existing_links (Some lines)) = false
          /\ row = _format_row r).
Proof.
  intros file lines. unfold run_daily. fold lines. cbn [fst snd].
  intros Hshort Hres.
  assert (FL : file_lines lines).
  { subst lines file. destruct papers as [s|]; cbn [option_map
                                                     _ensure_md_header].
    - apply readlines_file_lines.
    - split; [exists (removelast four_header)
             | left; exists (removelast four_sep)];
        split; vm_compute; reflexivity. }
  set (results := _filter_categories
                    (fst (_search client_results daily_results))).
  set (rows := new_rows (_load_existing_links (Some lines)) results).
  assert (O : forall row, In row rows ->
                exists r,
                  In r (fst (_search client_results daily_results))
                  /\ member (Arxiv.primary_category r)
                            _ALLOWED_PRIMARY_CATEGORIES = true
                  /\ member (_normalize_link (Arxiv.entry_id r))
                            (_load_existing_links (Some lines)) = false
                  /\ row = _format_row r).
  { intros row I. apply new_rows_origin in I as [r [I [E M]]].
    apply filter_In in I as [I C]. exists r. auto. }
  assert (TR : Forall terminated rows).
  { apply Forall_forall. intros row I.
    destruct (O row I) as [r [Ir [_ [_ ->]]]].
    destruct (Hres r Ir) as [H1 [H2 H3]].
    apply format_row_terminated; assumption. }
  assert (A : _append_rows (Some lines) rows
              = firstn (Nat.min 2 (length lines)) lines ++ rows
                  ++ skipn (Nat.min 2 (length lines)) lines).
  { unfold _append_rows, _ensure_md_header.
    destruct (Nat.leb_spec 2 (length lines)) as [L | L].
    - rewrite Nat.min_l by exact L. reflexivity.
    - rewrite Nat.min_r by lia. reflexivity. }
  assert (E : (if null rows then lines else _append_rows (Some lines) rows)
              = firstn (Nat.min 2 (length lines)) lines ++ rows
                  ++ skipn (Nat.min 2 (length lines)) lines).
  { destruct rows as [|row rows']; [|exact A]. cbn [null app].
    symmetry. apply firstn_skipn. }
  rewrite E. clear E A.
  set (n := Nat.min 2 (length lines)).
  assert (Ln : length (firstn n lines) = n).
  { rewrite length_firstn. unfold n. lia. }
  split; [|split; [|split]].
  - apply readlines_writelines.
    destruct (skipn n lines) as [|x rest] eqn:S2.
    + assert (Hl : length lines <= 2).
      { apply (f_equal (@length str)) in S2. rewrite length_skipn in S2.
        simpl in S2. unfold n in S2. lia. }
      rewrite app_nil_r.
      rewrite firstn_all2 by (unfold n; lia).
      apply file_lines_app; [|clear -TR; induction TR; simpl; auto;
                                apply file_lines_cons; assumption].
      apply file_lines_all; [exact FL | exact (Hshort Hl)].
    + rewrite <- (firstn_skipn n lines), S2 in FL.
      destruct (file_lines_split _ _ FL) as [F1 F2]; [discriminate|].
      apply file_lines_app; [exact F1|].
      apply file_lines_app; [exact TR | exact F2].
  - rewrite !length_app, Ln, length_skipn. unfold n. lia.
  - intros i line H.
    assert (Hi : i < length lines) by (apply nth_error_Some; congruence).
    destruct (Nat.ltb_spec i 2) as [L | L].
    + assert (i < n) by (unfold n; lia).
      rewrite nth_error_app1 by lia.
      rewrite nth_error_firstn.
      destruct (Nat.ltb_spec i n); [exact H | lia].
    + assert (n = 2) by (unfold n; lia).
      rewrite nth_error_app2 by lia. rewrite nth_error_app2 by lia.
      rewrite nth_error_skipn. rewrite <- H. f_equal. lia.
  - intros j row [J1 J2] H. apply O.
    rewrite nth_error_app2 in H by lia.
    rewrite nth_error_app1 in H by lia.
    apply nth_error_In in H. exact H.
Qed.

Lemma run_daily_keeps_lines_witness :
  readlines
    (writelines
       (snd (run_daily
               (fun _ _ =>
                  Some [Arxiv.Build_Result (Some (lit "2025-09-27"))
                          (Some (lit "Another title"))
                          (lit "http://arxiv.org/abs/2509.54321v1")
                          (lit "cs.RO")])
               5
               (option_map readlines
                  (Some (writelines
                           [four_header; four_sep;
                            rebuild_line (lit "2025-09-26") (lit "A title")
                              (lit "http://arxiv.org/abs/2509.12345")
                              default_summary_cell]))))))
  = snd (run_daily
           (fun _ _ =>
              Some [Arxiv.Build_Result (Some (lit "2025-09-27"))
                      (Some (lit "Another title"))
                      (lit "http://arxiv.org/abs/2509.54321v1")
                      (lit "cs.RO")])
           5
           (option_map readlines
              (Some (writelines
                       [four_header; four_sep;
                        rebuild_line (lit "2025-09-26") (lit "A title")
                          (lit "http://arxiv.org/abs/2509.12345")
                          default_summary_cell])))).
Proof.
  refine (proj1 (run_daily_keeps_lines _ 5 (Some _) _ _)).
  - intros L. vm_compute in L. lia.
  - intros r I. vm_compute in I. destruct I as [<- | []].
    repeat split; vm_compute; reflexivity.
Defined.
